(* ===== verification/_CoqProject ===== *)
-Q . S2P
Prelude.v
Python.v
Errors.v
Auth.v
Admission.v
AdmissionInv.v
AdmissionOps.v
AdmissionSections.v
AdmissionSystem.v
AdmissionLost.v
AdmissionStep.v
AdmissionFair.v
AdmissionTheorems.v
Routing.v
RoutingInv.v
RoutingSystem.v
RoutingTheorems.v
Json.v
JsonLoads.v
PlainFloats.v
Chat.v
Compatibility.v
Batching.v
BatchingInv.v
BatchingOps.v
BatchingSteps.v
BatchingStops.v
BatchingShutdown.v
BatchingSystem.v
BatchingTheorems.v
Vllm.v
VllmTheorems.v
VllmStreams.v
BatchedRequests.v
Backends.v
Metrics.v
Sse.v
SseTheorems.v
Relay.v
RelayTheorems.v
Endpoint.v
Lifecycle.v
Mirror.v
Probes.v
Gauges.v
Logging.v
Topology.v
Replicas.v
Laboratory.v
Preflight.v
Results.v
Conversions.v
Matrix.v
MatrixRun.v
ExactPrompt.v
Isolation.v
FakeServer.v
MetricsText.v
SystemSample.v
Config.v
Application.v
Server.v
Gateway.v
Holdings.v
GatewayInv.v
GatewayTasks.v
GatewayLost.v
GatewayTheorems.v
GatewayProgress.v
GatewayDelivery.v
