(* ===== verification/Prelude.v ===== *)
(** * The dynamic-batching inference gateway

    The gateway (src/gateway) is an asyncio service in front of vLLM servers.  A chat
    request passes, in this order, authentication, the configured limits, admission,
    and then either the dynamic batcher or a direct call of the backend pool; a
    streaming answer is relayed while a passive observer parses the copied bytes.
    This library models these parts one file (or family of files) each, bottom up,
    and proves what makes them correct, alone and composed.

    ** Conventions

    asyncio is cooperative: code between two awaits runs without interruption, and no
    lock of the program is held across an await except those that serialise closing
    (of a relay, a routed stream and the pool).  Every such stretch of code is one function on an explicit
    state; a coroutine is split at its awaits, and a component under concurrency is a
    state with an event type, an executable step [exec]-like function that returns
    [None] when the event cannot happen, and the inductive closure of its steps.
    Exceptions are values: [sem S E A] below is a state transformer that ends with a
    value or an exception and, as in Python, keeps the mutations made before the
    exception.  [exn] (Errors) has the gateway's classes and the Python exceptions
    that can occur.  Theorems about reachable states quantify over every interleaving
    of calls, timers, cancellations, answers and shutdown.

    Strings are sequences of code points ([pystr]), JSON-like values an inductive
    [pyval] whose dicts are insertion-ordered association lists, Python's unbounded
    ints are [Z], floats that are only compared or printed are [spec_float], and byte
    streams are lists of numbers.

    ** Files and sources

    - Prelude, Python: the monads, generic lemmas; strings, dicts, futures.
    - Json: [json.dumps] as [compatibility_key] calls it; equal texts come from equal
      values ([json_encode_inj]), so that keys can be compared as values.  JsonLoads:
      [json.loads] of texts and of bytes, which ends and reads back what was dumped
      ([loads_text]); PlainFloats: a text of floats, for the concrete runs.
    - Errors: core/errors.py.  Auth: auth/tenants.py.
    - Admission: admission/controller.py, admission/models.py.  AdmissionInv,
      AdmissionOps, AdmissionSections: the invariant and every critical section
      against it; AdmissionSystem, AdmissionStep, AdmissionFair: the interleavings;
      AdmissionLost: which leases a late timer strands; AdmissionTheorems: the results.
    - Routing: routing/pool.py with its leases and routed streams; RoutingInv,
      RoutingSystem, RoutingTheorems as above.  Probes: the probe rounds and the probe
      loop of the pool, on top of it.
    - Chat: schemas/chat.py.  Compatibility: batching/eligibility.py and
      [compatibility_key].  Batching: batching/dynamic.py; BatchingInv, BatchingOps,
      BatchingSteps, BatchingStops, BatchingShutdown: every operation against the
      invariant; BatchingSystem, BatchingTheorems: the interleavings and results.
    - Vllm, VllmTheorems: the requests of backends/vllm.py and the batch protocol;
      VllmStreams: who owns and who closes an opened stream.
    - BatchedRequests: the batcher composed with the vLLM backend.  Backends: what a
      backend promises the batcher (the class [BatchBackend]), the batcher proved over
      any backend that keeps it, and the vLLM and the fake backend (backends/fake.py)
      as instances.
    - Metrics: observability/metrics.py.  Sse, SseTheorems: observability/sse.py.
      Relay, RelayTheorems: streaming/relay.py.
    - Endpoint: api/chat.py.  Lifecycle: observability/middleware.py,
      core/request_id.py.  Logging: core/logging.py.  Mirror, Gauges: a
      small logic of code that restores a property, and the exported gauges by it.
      Config: config.py.  Application: the services, the startup and the shutdown of
      app.py.  Server: the routes, middlewares and exception handlers that app.py
      installs, the way of a request through them, api/health.py and api/metrics.py.
    - Gateway: everything together.  The tasks of the requests and of the flushes run
      over the states of the admission controller, the batcher, the pool and the
      relays, as api/chat.py and app.py compose them.  Holdings: what every event of a
      component takes into use and gives back.  GatewayInv: everything in use belongs
      to a task.  GatewayTasks: what a task knows of the components, and that no two
      tasks relay the same stream.  GatewayLost: the admission slots a run loses.
      GatewayTheorems, GatewayProgress, GatewayDelivery: the results.
    - Topology, Replicas, Preflight: deploy/validate_topology.py, deploy/vllm_replica.py
      and deploy/preflight.py.  Laboratory: infra/vast/vast_lab.py and
      infra/vast/validate_replacement.py.
      Conversions: Python's readings of texts that the scripts share (numbers,
      environment variables, paths, shell words).
    - benchmark/scripts: Results is validate_result.py, and the rows, counter deltas and
      checks of summarize.py; MetricsText its reading of metrics texts.  Matrix is what
      run_matrix.py plans, MatrixRun its execution over an operating system.
      ExactPrompt is exact_prompt.py, Isolation run_tenant_isolation.py, FakeServer
      fake_server.py and SystemSample sample_system.py.

    ** What the theorems show

    - Admission: limits hold and slots are accounted for in every reachable state, no
      slot leaks, calls of a tenant are served in order, a servable tenant is served or
      moves up, no waiter is left while a slot is free, shutdown is final, and every
      event answers as documented.  One exception: when the timer of [wait_for]
      overtakes a grant, the slot is lost.  The model is told whether timers can be
      [late]; [admission_leak_on_late_timer] shows the leak, the theorem about an idle
      controller excludes late timers, and those about the gateway count them: no
      other slot is ever lost.
    - Pool: a call goes to the unique least-loaded healthy backend from the cursor on;
      inflight counts are the unreleased leases, each of which has one owner, a call or a
      stream ([pool_accounting]); nothing is routable after closing.
    - Batching: a batch has one tenant and one value of every shared field, is never
      larger than allowed, and its n-th answer goes to its n-th member; counters match
      the members; outcomes are final; a suspended submission ends within three further
      steps; shutdown settles everyone.  With the vLLM backend, the payload is what the
      members would send alone and each one gets its own choice back, in whatever
      order the server lists them.
    - Streams: the SSE observer computes the same state for every cut of the byte
      stream into chunks, in bounded space, and accounts for a stream once; the relay
      passes the chunks through unchanged, and closes the stream and releases the lease
      exactly once under every interleaving of its two tasks.
    - The gateway as a whole, under every interleaving of its tasks, timers, probes,
      cancellations, answers and shutdown: never are more requests in service than the
      limits allow ([gateway_capacity]); when no task is left nothing is in use, in
      flight or counted in any component, but for the admission slots of calls whose
      timer overtook their grant, at most one for each such timer of the run and none
      where timers cannot be late ([gateway_no_leak]); every task can be ended by a few
      events of its own, and every state can be drained, up to these slots
      ([gateway_request_ends], [gateway_drains]); a batch serves one tenant and its
      n-th response reaches the task that sent its n-th request ([gateway_delivery]);
      and each component only gets into states of its own system, so that what is
      proved of it alone holds here, and no two tasks hold the same thing
      ([gateway_components]).
    - Probes: the probe loop starts once every backend is known, and has ended when
      closing returns; while it runs it can go on, and [2 * n + 3] of its events bring
      the health of all [n] backends to what their checks answer ([probe_recovers]).
    - Metrics: the gauges equal the counters of the services in every reachable state;
      the health gauges alone may lag, while the pool is closing ([gauges_mirror]).
    - Deployment: a replica's record is read back as it was written
      ([start_records]) and only the recorded process is signalled ([stop_safe]); the
      state file of the laboratory is what creating it printed, and is what destroying it
      releases; a line of the log is read back as its event.  One exception, shown by
      [bool_contract]: a contract that is the JSON value true is recorded as a text that
      nothing reads.
    - Benchmarks: a document is accepted exactly when it has the schema ([validate_ok]),
      runs are compared only when they agree in all but the arm ([comparison_sound]), and
      a counter that was reset has no delta.  Two exceptions: [validate_raises] and
      [invalid_aborts], where a bad document ends the script instead of being reported.
      The plan of a matrix has every coordinate once, in a stated order
      ([matrix_planned]), and a matrix that succeeds has run or skipped exactly these
      ([matrix_performed]); over successive repetitions each target is executed at each
      position equally often ([rotated_fair]); equal fingerprints come from equal plans
      ([plan_identifies]) and a run counts as completed only with a valid document of
      the planned configuration ([completed_run_sound]); nothing that is written or
      printed depends on the credentials ([matrix_keeps_secrets]).  What a prompt search
      writes has the exact number of tokens ([written_exact]).  The isolation run leaves
      no client behind ([isolation_cleans_up]), provided the record of a client that was
      started can be written ([isolation_leaves_client]).  The streams of the fake server are
      what the observer of the gateway expects ([fake_stream_observed]), and its metrics
      are read back as its counters ([fake_metrics_read]); [boolean_batching_unchecked]
      is a configuration whose batching flag nothing checks.
    - The endpoint calls no service without credentials or beyond the limits and gives
      every lease back or leaves it to the relay, except when a stream that cannot be
      relayed cannot be closed either ([endpoint_lifecycle]); each request is recorded
      once; settings that load make exactly the services they describe, at rest, unless
      the constructor of an HTTP client refuses what they say ([settings_build]).  Through all middlewares and handlers, every
      answer has the identifier of its request ([request_identified]), and a chat request
      is answered by the endpoint or by the handler of its exception
      ([chat_request_answered]).

    ** Fuel

    Loops over data are structural.  The others have fuel with a proof that it is
    enough: [discard_loop] and [drain_queue] get the length of the queue they shorten,
    [dispatch_round] the number of active tenants and [dispatch_while] one round per free slot
    and one more; [drain_events] of the SSE buffer gets the length of the buffer (each event
    shortens it) and [observe_loop] the length of the chunk (each turn takes at least
    one byte); the exact-prompt search gets [k] and [k + 2] steps when [2 ^ k] is at
    least the target.  The loops of [json.loads] over the items of a container get the
    length of the text ([loads_ends]); its depth is not fuel but the recursion limit of
    the interpreter.  [wait_gone] gets a turn for every 100 ms of the timeout.  The
    expansion of environment variables and the search for labels get the length of the
    text, of which each turn takes a character.

    ** Parameters

    Third-party code is an argument, and so is what only the interpreter can compute: pydantic's dump of a request ([ModelDump]), Python's
    printing and reading of floats ([FloatRepr], [FloatText]), clocks, what constructing an HTTP client raises, the answers of HTTP servers and of the
    operating system, whether a Prometheus collector accepts an update, the
    tokenizer, SHA-256, and the character classes of Unicode.  The SSE observer is defined and proved for any decoder of JSON; [sse_loads]
    is the one it uses, and the concrete runs have it.  Their documented laws are class fields or named hypotheses, with
    concrete instances where a theorem needs one.

    ** Not modelled

    The cancellation of [BackendPool.close] itself.  The lease releases that it gathers
    are one step with what follows them: they are scheduled together and none of them
    suspends.  Rendering of the metrics registry, which is prometheus_client's; routing, body
    validation and the transport below FastAPI and Starlette; the configuration of the
    root logger, and the options of command lines, which are argparse's; the protocols
    of backends/base.py beyond [generate_batch], which are type annotations.  Of
    benchmark/scripts/summarize.py, the medians and differences of the comparisons and
    the tables made of them: arithmetic and formatting of mixed ints and floats, as is
    benchmark/scripts/plot.py, which draws them.
*)
From Stdlib Require Export ZArith Lia.
From stdpp Require Export base gmap sets strings numbers option sorting list.

#[global] Open Scope Z_scope.
#[global] Set Warnings "-clear-no-such-hyp".

(** * Stateful computations that can raise

    A method of the gateway that mutates an object and may raise is a function
    from the state to an outcome and the state it leaves behind: as in Python,
    the mutations made before an exception stay. *)

Definition sem (S E A : Type) : Type := S → (E + A) * S.

Section monad.
Context {S E : Type}.

Definition ret {A} (a : A) : sem S E A := λ s, (inr a, s).
Definition raise {A} (e : E) : sem S E A := λ s, (inl e, s).
Definition bind {A B} (m : sem S E A) (k : A → sem S E B) : sem S E B :=
  λ s, match m s with
       | (inl e, s') => (inl e, s')
       | (inr a, s') => k a s'
       end.
Definition get : sem S E S := λ s, (inr s, s).
Definition modify (f : S → S) : sem S E unit := λ s, (inr (), f s).

(** [unwrap e o]: the value of [o], or the exception [e] when it has none. *)
Definition unwrap {A} (e : E) (o : option A) : sem S E A :=
  match o with Some a => ret a | None => raise e end.

(** [try m h]: Python's [try: m except e: h e]. *)
Definition try_catch {A} (m : sem S E A) (h : E → sem S E A) : sem S E A :=
  λ s, match m s with
       | (inl e, s') => h e s'
       | r => r
       end.

(** [finally m f]: Python's [try: m finally: f]; an exception of [f] replaces
    the outcome of [m]. *)
Definition finally {A} (m : sem S E A) (f : sem S E unit) : sem S E A :=
  λ s, match m s with
       | (r, s') => match f s' with
                    | (inl e, s'') => (inl e, s'')
                    | (inr _, s'') => (r, s'')
                    end
       end.

(** The weakest precondition of [m]: [Q] holds of the value and the state of a
    normal return, [X] of the exception and the state when it raises. *)
Definition wp {A} (m : sem S E A) (Q : A → S → Prop) (X : E → S → Prop) (s : S) : Prop :=
  match m s with
  | (inr a, s') => Q a s'
  | (inl e, s') => X e s'
  end.
End monad.

Declare Scope gw_scope.
Delimit Scope gw_scope with gw.
Notation "'let!' x := m 'in' k" := (bind m (λ x, k))
  (at level 10, x name, m at level 100, k at level 200,
   format "'[v' 'let!'  x  :=  m  'in' '/' k ']'") : gw_scope.
Notation "'do!' m 'in' k" := (bind m (λ _, k))
  (at level 10, m at level 100, k at level 200,
   format "'[v' 'do!'  m  'in' '/' k ']'") : gw_scope.
#[global] Open Scope gw_scope.

(** * Pure computations that can raise *)

Definition sum_bind {E A B} (m : E + A) (k : A → E + B) : E + B :=
  match m with inl e => inl e | inr a => k a end.
Notation "'let?' x := m 'in' k" := (sum_bind m (λ x, k))
  (at level 10, x name, m at level 100, k at level 200,
   format "'[v' 'let?'  x  :=  m  'in' '/' k ']'") : gw_scope.
Notation "'do?' m 'in' k" := (sum_bind m (λ _, k))
  (at level 10, m at level 100, k at level 200,
   format "'[v' 'do?'  m  'in' '/' k ']'") : gw_scope.

Lemma sum_bind_inr {E A B} (m : E + A) (k : A → E + B) b :
  sum_bind m k = inr b ↔ ∃ a, m = inr a ∧ k a = inr b.
Proof. destruct m; simpl; naive_solver. Qed.

(** A pure computation as part of a stateful one. *)
Definition lift {S E A} (r : E + A) : sem S E A := match r with inl e => raise e | inr a => ret a end.

Section wp_rules.
Context {S E : Type}.
Implicit Types s : S.

Lemma wp_ret {A} (a : A) Q (X : E → S → Prop) s : Q a s → wp (ret a) Q X s.
Proof. done. Qed.

Lemma wp_raise {A} (e : E) (Q : A → S → Prop) X s : X e s → wp (raise e) Q X s.
Proof. done. Qed.

Lemma wp_bind {A B} (m : sem S E A) (k : A → sem S E B) Q X s :
  wp m (λ a, wp (k a) Q X) X s → wp (bind m k) Q X s.
Proof. unfold wp, bind. by destruct (m s) as [[e|a] s']. Qed.

Lemma wp_get Q (X : E → S → Prop) s : Q s s → wp get Q X s.
Proof. done. Qed.

Lemma wp_modify f Q (X : E → S → Prop) s : Q () (f s) → wp (modify f) Q X s.
Proof. done. Qed.

Lemma wp_unwrap {A} (e : E) (o : option A) a Q X s :
  o = Some a → Q a s → wp (unwrap e o) Q X s.
Proof. by intros ->. Qed.

Lemma wp_lift {A} (r : E + A) Q X s : (∀ a, r = inr a → Q a s) → (∀ e, r = inl e → X e s) → wp (lift r) Q X s.
Proof. destruct r; intros H1 H2; [by apply H2|by apply H1]. Qed.

Lemma wp_try {A} (m : sem S E A) h Q X s :
  wp m Q (λ e s', wp (h e) Q X s') s → wp (try_catch m h) Q X s.
Proof. unfold wp, try_catch. by destruct (m s) as [[e|a] s']. Qed.

Lemma wp_finally {A} (m : sem S E A) f Q X s :
  wp m (λ a, wp f (λ _, Q a) X) (λ e, wp f (λ _, X e) X) s → wp (finally m f) Q X s.
Proof.
  unfold wp, finally. destruct (m s) as [[e|a] s']; by destruct (f s') as [[e'|?] s''].
Qed.

Lemma wp_mono {A} (m : sem S E A) (Q Q' : A → S → Prop) (X X' : E → S → Prop) s :
  wp m Q X s → (∀ a s', Q a s' → Q' a s') → (∀ e s', X e s' → X' e s') → wp m Q' X' s.
Proof. unfold wp. destruct (m s) as [[e|a] s']; auto. Qed.

Lemma wp_conj {A} (m : sem S E A) (Q Q' : A → S → Prop) (X X' : E → S → Prop) s :
  wp m Q X s → wp m Q' X' s → wp m (λ a s', Q a s' ∧ Q' a s') (λ e s', X e s' ∧ X' e s') s.
Proof. unfold wp. by destruct (m s) as [[e|a] s']. Qed.

(** A computation that satisfies [wp m Q (λ _ _, False)] returns. *)
Lemma wp_returns {A} (m : sem S E A) Q s :
  wp m Q (λ _ _, False) s → ∃ a s', m s = (inr a, s') ∧ Q a s'.
Proof. unfold wp. destruct (m s) as [[e|a] s']; [done|eauto]. Qed.

Lemma wp_run {A} (m : sem S E A) Q X s r s' :
  wp m Q X s → m s = (r, s') →
  match r with inr a => Q a s' | inl e => X e s' end.
Proof. unfold wp. intros H Hm. rewrite Hm in H. by destruct r. Qed.
End wp_rules.

Create HintDb gw.
#[export] Hint Resolve wp_ret wp_raise wp_get wp_modify : gw.

(** Symbolic execution of a straight-line computation. *)
Ltac wp_step :=
  lazymatch goal with
  | |- wp (bind _ _) _ _ _ => apply wp_bind
  | |- wp (ret _) _ _ _ => apply wp_ret
  | |- wp (raise _) _ _ _ => apply wp_raise
  | |- wp get _ _ _ => apply wp_get
  | |- wp (modify _) _ _ _ => apply wp_modify
  | |- wp (unwrap _ _) _ _ _ => eapply wp_unwrap; [eassumption|]
  end; cbv beta.
Ltac wp_steps := repeat wp_step.

(** * Lists *)

Lemma sublist_StronglySorted {A} (R : A → A → Prop) l k :
  l `sublist_of` k → StronglySorted R k → StronglySorted R l.
Proof.
  induction 1 as [|x l k Hl IH|x l k Hl IH]; intros Hs; [done|..];
    apply StronglySorted_inv in Hs as [Hs Hx]; [|by apply IH].
  constructor; [by apply IH|]. rewrite Forall_forall in Hx |- *.
  intros y Hy. eapply Hx, elem_of_sublist; done.
Qed.

Lemma suffix_sublist {A} (l k : list A) : l `suffix_of` k → l `sublist_of` k.
Proof. intros [p ->]. by apply sublist_inserts_l. Qed.

Lemma sublist_tail {A} (x : A) l : l `sublist_of` x :: l.
Proof. by apply sublist_cons. Qed.
#[export] Hint Resolve suffix_sublist sublist_tail : gw.

(** * Sums over finite maps *)

Section sum_map.
Context {K V : Type} `{Countable K}.

Definition sum_map (f : V → Z) (m : gmap K V) : Z :=
  map_fold (λ _ v acc, f v + acc) 0 m.

Lemma sum_map_empty f : sum_map f ∅ = 0.
Proof. apply map_fold_empty. Qed.

Lemma sum_map_insert_None f m k v :
  m !! k = None → sum_map f (<[k:=v]> m) = f v + sum_map f m.
Proof. intros Hk. unfold sum_map. rewrite map_fold_insert_L; [done|lia|done]. Qed.

Lemma sum_map_delete f m k v :
  m !! k = Some v → sum_map f m = f v + sum_map f (delete k m).
Proof. intros Hk. unfold sum_map. rewrite (map_fold_delete_L _ _ k v m); [done|lia|done]. Qed.

Lemma sum_map_insert f m k v v' :
  m !! k = Some v → sum_map f (<[k:=v']> m) = sum_map f m - f v + f v'.
Proof.
  intros Hk. rewrite (sum_map_delete f m k v) by done.
  rewrite <- insert_delete_eq, sum_map_insert_None by apply lookup_delete_eq. lia.
Qed.

Lemma sum_map_nonneg f m : (∀ k v, m !! k = Some v → 0 ≤ f v) → 0 ≤ sum_map f m.
Proof.
  induction m as [|k v m Hk IH] using map_ind; intros Hf.
  - by rewrite sum_map_empty.
  - rewrite sum_map_insert_None by done.
    assert (0 ≤ f v) by (apply (Hf k), lookup_insert_eq).
    assert (0 ≤ sum_map f m); [|lia].
    apply IH. intros k' v' Hk'. apply (Hf k'). rewrite lookup_insert_ne; [done|congruence].
Qed.

Lemma sum_map_lookup_le f m k v :
  (∀ k v, m !! k = Some v → 0 ≤ f v) → m !! k = Some v → f v ≤ sum_map f m.
Proof.
  intros Hf Hk. rewrite (sum_map_delete f m k v) by done.
  assert (0 ≤ sum_map f (delete k m)); [|lia].
  apply sum_map_nonneg. intros k' v' [_ Hk']%lookup_delete_Some. eauto.
Qed.

Lemma sum_map_zero f m : (∀ k v, m !! k = Some v → f v = 0) → sum_map f m = 0.
Proof.
  induction m as [|k v m Hk IH] using map_ind; intros Hf; [apply sum_map_empty|].
  rewrite sum_map_insert_None, (Hf k v), IH; [done| |apply lookup_insert_eq|done].
  intros k' v' Hk'. apply (Hf k'). rewrite lookup_insert_ne; [done|congruence].
Qed.

Lemma sum_map_ext f g m : (∀ k v, m !! k = Some v → f v = g v) → sum_map f m = sum_map g m.
Proof.
  induction m as [|k v m Hk IH] using map_ind; intros Hfg; [done|].
  rewrite !sum_map_insert_None, (Hfg k v), IH; [done| |apply lookup_insert_eq|done..].
  intros k' v' Hk'. apply (Hfg k'). rewrite lookup_insert_ne; [done|congruence].
Qed.

Lemma sum_map_pos_inv f m :
  0 < sum_map f m → (∀ k v, m !! k = Some v → 0 ≤ f v) → ∃ k v, m !! k = Some v ∧ 0 < f v.
Proof.
  induction m as [|k v m Hk IH] using map_ind; intros Hpos Hf.
  { rewrite sum_map_empty in Hpos. lia. }
  rewrite sum_map_insert_None in Hpos by done.
  destruct (decide (0 < f v)); [exists k, v; by rewrite lookup_insert_eq|].
  destruct IH as (k' & v' & Hk' & ?).
  - assert (0 ≤ f v) by (apply (Hf k), lookup_insert_eq). lia.
  - intros k' v' Hk'. apply (Hf k'). rewrite lookup_insert_ne; [done|congruence].
  - exists k', v'. rewrite lookup_insert_ne; [done|congruence].
Qed.
End sum_map.

Lemma sum_map_plus {K V} `{Countable K} (f g h : V → Z) (m : gmap K V) :
  (∀ k v, m !! k = Some v → f v = g v + h v) → sum_map f m = sum_map g m + sum_map h m.
Proof.
  induction m as [|k v m Hk IH] using map_ind; intros Hf; [by rewrite !sum_map_empty|].
  rewrite !sum_map_insert_None, (Hf k v (lookup_insert_eq _ _ _)), IH by
    (done || (intros k' v' Hk'; apply (Hf k'); rewrite lookup_insert_ne; [done|congruence])). lia.
Qed.

Lemma sum_map_indicator {K A} `{Countable K} (p : A → bool) (m : gmap K A) :
  sum_map (λ x, if p x then 1 else 0) m = Z.of_nat (size (filter (λ kx : K * A, p kx.2 = true) m)).
Proof.
  induction m as [|k x m Hk IH] using map_ind; [by rewrite sum_map_empty, map_filter_empty, map_size_empty|].
  rewrite sum_map_insert_None by done. destruct (p x) eqn:Hp.
  - rewrite map_filter_insert_True by done. rewrite map_size_insert_None; [lia|].
    by apply map_lookup_filter_None; left.
  - rewrite map_filter_insert_False by (simpl; congruence). by rewrite delete_id, IH by done.
Qed.

(** Closing tactic of the map-heavy goals. *)
Ltac map_simpl :=
  repeat match goal with
  | H : <[_ := _]> _ !! _ = Some _ |- _ => apply lookup_insert_Some in H
  | H : delete _ _ !! _ = Some _ |- _ => apply lookup_delete_Some in H
  end; destruct_and?; destruct_or?; destruct_and?; simplify_eq.
