(* ===== verification/Python.v ===== *)
(** The part of Python the gateway's data is made of: strings as sequences of
    code points with the [str] methods the code calls, JSON-like values with
    [dict] as an insertion-ordered association list, and [asyncio] futures. *)
From Stdlib Require Import SpecFloat.
From Stdlib Require Strings.Byte.
From S2P Require Import Prelude.

#[local] Set Warnings "-register-all".

(** * Strings *)

(** A Python [str]: a sequence of Unicode code points. *)
Record pystr := PyStr { codes : list N }.

#[export] Instance pystr_eq_dec : EqDecision pystr.
Proof. solve_decision. Defined.
#[export] Program Instance pystr_countable : Countable pystr :=
  inj_countable' codes PyStr _.
Next Obligation. by intros []. Qed.

(** Literals, in ASCII. *)
Fixpoint ascii_codes (bs : list Byte.byte) : option (list N) :=
  match bs with
  | [] => Some []
  | b :: bs => if (Byte.to_N b <? 128)%N then cons (Byte.to_N b) <$> ascii_codes bs else None
  end.
Definition pystr_parse (bs : list Byte.byte) : option pystr := PyStr <$> ascii_codes bs.
Fixpoint codes_bytes (cs : list N) : option (list Byte.byte) :=
  match cs with
  | [] => Some []
  | c :: cs => match Byte.of_N c, codes_bytes cs with
               | Some b, Some bs => Some (b :: bs)
               | _, _ => None
               end
  end.
Definition pystr_print (s : pystr) : option (list Byte.byte) := codes_bytes (codes s).
Declare Scope pystr_scope.
Delimit Scope pystr_scope with py.
Bind Scope pystr_scope with pystr.
String Notation pystr pystr_parse pystr_print : pystr_scope.

(** [str.isspace] of one character. *)
Definition is_space (c : N) : bool :=
  ((9 <=? c) && (c <=? 13) || (28 <=? c) && (c <=? 32) || (c =? 133) || (c =? 160)
   || (c =? 5760) || (8192 <=? c) && (c <=? 8202) || (c =? 8232) || (c =? 8233)
   || (c =? 8239) || (c =? 8287) || (c =? 12288))%N.

Definition char_isascii (c : N) : bool := (c <? 128)%N.
Definition str_isascii (s : pystr) : bool := forallb char_isascii (codes s).
Definition any_space (s : pystr) : bool := existsb is_space (codes s).

(** Truthiness of a string: it is not empty. *)
Definition str_truthy (s : pystr) : bool := match codes s with [] => false | _ => true end.

Fixpoint lstrip (cs : list N) : list N :=
  match cs with
  | [] => []
  | c :: cs' => if is_space c then lstrip cs' else cs
  end.
Definition str_strip (s : pystr) : pystr := PyStr (reverse (lstrip (reverse (lstrip (codes s))))).

(** [str.split(" ")]: the pieces between single spaces, empty ones included. *)
Fixpoint split_on (sep : N) (cs : list N) : list (list N) :=
  match cs with
  | [] => [[]]
  | c :: cs' =>
      if (c =? sep)%N then [] :: split_on sep cs'
      else match split_on sep cs' with
           | p :: ps => (c :: p) :: ps
           | [] => [[c]]
           end
  end.
Definition str_split_space (s : pystr) : list pystr := PyStr <$> split_on 32 (codes s).

(** [str.casefold], exact for comparisons with an ASCII literal: the code points
    listed are all those whose full case folding consists of ASCII letters, and
    any other one keeps a non-ASCII character. *)
Definition fold_char (c : N) : list N :=
  (if (65 <=? c) && (c <=? 90) then [c + 32]
   else if (c =? 223) || (c =? 7838) then [115; 115]
   else if c =? 383 then [115]
   else if c =? 8490 then [107]
   else if c =? 64256 then [102; 102]
   else if c =? 64257 then [102; 105]
   else if c =? 64258 then [102; 108]
   else if c =? 64259 then [102; 102; 105]
   else if c =? 64260 then [102; 102; 108]
   else if (c =? 64261) || (c =? 64262) then [115; 116]
   else [c])%N.
Definition str_casefold (s : pystr) : pystr := PyStr (codes s ≫= fold_char).

(** [s.partition(sep)[0]] for a one-character separator. *)
Fixpoint before_char (sep : N) (cs : list N) : list N :=
  match cs with
  | [] => []
  | c :: cs' => if (c =? sep)%N then [] else c :: before_char sep cs'
  end.
Definition str_before (sep : N) (s : pystr) : pystr := PyStr (before_char sep (codes s)).

(** [not value.strip()] holds of exactly the strings made of white space. *)
Lemma lstrip_nil cs : lstrip cs = [] ↔ forallb is_space cs = true.
Proof. induction cs as [|c cs IH]; simpl; [done|]. by destruct (is_space c). Qed.

Lemma lstrip_suffix cs : ∃ pre, cs = pre ++ lstrip cs ∧ forallb is_space pre = true.
Proof.
  induction cs as [|c cs (pre & Heq & Hpre)]; simpl; [by exists []|].
  destruct (is_space c) eqn:Hc; [|by exists []].
  exists (c :: pre). simpl. rewrite Hc. split; [by f_equal|done].
Qed.

Lemma strip_blank s : str_truthy (str_strip s) = false ↔ forallb is_space (codes s) = true.
Proof.
  unfold str_truthy, str_strip; simpl. rewrite <- lstrip_nil.
  destruct (lstrip (codes s)) as [|c cs] eqn:Hl; [done|].
  split; [|done]. intros H.
  destruct (reverse (lstrip (reverse (c :: cs)))) as [|d ds] eqn:Hr; [|done].
  apply (f_equal reverse) in Hr. rewrite reverse_involutive in Hr. simpl in Hr.
  apply lstrip_nil in Hr. rewrite reverse_cons, forallb_app in Hr. simpl in Hr.
  destruct (lstrip_suffix (codes s)) as (pre & Heq & Hpre).
  assert (is_space c = false) as Hc.
  { clear -Hl; induction (codes s) as [|x l IH]; simpl in Hl; [done|].
    destruct (is_space x) eqn:Hx; [by apply IH|congruence]. }
  rewrite Hc in Hr. by destruct (forallb _ _).
Qed.

(** What [split_on] finds. *)
Lemma split_on_nosep sep cs : Forall (λ c, (c =? sep)%N = false) cs → split_on sep cs = [cs].
Proof. induction 1 as [|c cs Hc _ IH]; simpl; [done|]. by rewrite Hc, IH. Qed.

Lemma split_on_app sep cs ds :
  Forall (λ c, (c =? sep)%N = false) cs → split_on sep (cs ++ sep :: ds) = cs :: split_on sep ds.
Proof.
  induction 1 as [|c cs Hc _ IH]; simpl; [by rewrite N.eqb_refl|]. by rewrite Hc, IH.
Qed.

Lemma no_separator (sep : N) cs : sep ∉ cs → Forall (λ c, (c =? sep)%N = false) cs.
Proof. intros Hn. apply Forall_forall. intros c Hc. apply N.eqb_neq. by intros ->. Qed.

(** * Values *)

(** A JSON value as Python holds it; a [dict] lists its items in insertion
    order, with distinct keys. *)
Inductive pyval :=
| VNone
| VBool (b : bool)
| VInt (z : Z)
| VFloat (f : spec_float)
| VStr (s : pystr)
| VList (l : list pyval)
| VDict (d : list (pystr * pyval)).

Abbreviation pydict := (list (pystr * pyval)).

(** [d.get(k)], with [None] for a missing key. *)
Fixpoint dict_get {A} (d : list (pystr * A)) (k : pystr) : option A :=
  match d with
  | [] => None
  | (k', v) :: d' => if decide (k = k') then Some v else dict_get d' k
  end.

(** [k in d]. *)
Definition dict_has {A} (d : list (pystr * A)) (k : pystr) : bool :=
  match dict_get d k with Some _ => true | None => false end.

(** [d[k] = v]: in place when the key exists, at the end otherwise. *)
Fixpoint dict_set {A} (d : list (pystr * A)) (k : pystr) (v : A) : list (pystr * A) :=
  match d with
  | [] => [(k, v)]
  | (k', v') :: d' => if decide (k = k') then (k', v) :: d' else (k', v') :: dict_set d' k v
  end.

(** [d.pop(k, None)]. *)
Definition dict_pop {A} (d : list (pystr * A)) (k : pystr) : list (pystr * A) :=
  filter (λ kv, kv.1 ≠ k) d.

Lemma dict_get_set {A} (d : list (pystr * A)) k k' v :
  dict_get (dict_set d k v) k' = if decide (k' = k) then Some v else dict_get d k'.
Proof.
  induction d as [|[k0 v0] d IH]; simpl.
  - by destruct (decide (k' = k)).
  - destruct (decide (k = k0)) as [->|Hne]; simpl.
    + by destruct (decide (k' = k0)).
    + rewrite IH. destruct (decide (k' = k0)), (decide (k' = k)); congruence.
Qed.

Lemma dict_set_set {A} (d : list (pystr * A)) k v w : dict_set (dict_set d k v) k w = dict_set d k w.
Proof.
  induction d as [|[k0 v0] d IH]; simpl; [by rewrite decide_True|].
  destruct (decide (k = k0)) as [->|Hne]; simpl; [by rewrite decide_True|].
  by rewrite decide_False, IH.
Qed.

Lemma dict_get_in {A} (l : list (pystr * A)) k v :
  NoDup l.*1 → dict_get l k = Some v ↔ (k, v) ∈ l.
Proof.
  induction l as [|[k0 v0] l IH]; simpl; intros Hnd; [split; [done|by intros ?%elem_of_nil]|].
  apply NoDup_cons in Hnd as [Hni Hnd]. rewrite elem_of_cons, <- IH by done.
  destruct (decide (k = k0)) as [->|Hne]; [|split; [by right|intros [?|?]; by simplify_eq]].
  split; [intros [= ->]; by left|]. intros [?|Hg]; [by simplify_eq|].
  destruct Hni. apply list_elem_of_fmap. exists (k0, v). split; [done|]. by apply IH.
Qed.

Lemma dict_get_pop {A} (d : list (pystr * A)) k k' :
  dict_get (dict_pop d k) k' = if decide (k' = k) then None else dict_get d k'.
Proof.
  unfold dict_pop. induction d as [|[k0 v0] d IH]; [by case_decide|].
  rewrite filter_cons. cbn [fst]. destruct (decide (k0 ≠ k)) as [Hne|Heq]; simpl.
  - destruct (decide (k' = k0)) as [->|]; [by rewrite decide_False|done].
  - apply dec_stable in Heq as ->. rewrite IH. by repeat case_decide.
Qed.

Lemma dict_pop_keys {A} (d : list (pystr * A)) k : NoDup d.*1 → NoDup (dict_pop d k).*1.
Proof.
  intros Hnd. eapply sublist_NoDup; [exact Hnd|]. unfold dict_pop. clear Hnd. induction d as [|[k0 v0] d IH]; [done|].
  rewrite filter_cons. case_decide; simpl; [by apply sublist_skip|by apply sublist_cons].
Qed.

Lemma dict_get_None {A} (d : list (pystr * A)) k : dict_get d k = None ↔ k ∉ d.*1.
Proof.
  induction d as [|[k0 v0] d IH]; simpl; [split; [intros _; apply not_elem_of_nil|done]|].
  rewrite not_elem_of_cons, <- IH. destruct (decide (k = k0)); naive_solver.
Qed.

Lemma dict_set_new {A} (d : list (pystr * A)) k v : dict_get d k = None → dict_set d k v = d ++ [(k, v)].
Proof.
  induction d as [|[k0 v0] d IH]; simpl; [done|]. destruct (decide (k = k0)); [done|].
  intros Hg. by rewrite IH.
Qed.

Lemma dict_set_new_keys {A} (d : list (pystr * A)) k v :
  dict_get d k = None → NoDup d.*1 → NoDup (dict_set d k v).*1.
Proof.
  intros Hg Hnd. rewrite dict_set_new, fmap_app by done. apply NoDup_app. split_and!; [done| |by apply NoDup_singleton].
  intros x Hx ->%list_elem_of_singleton. by apply dict_get_None in Hg.
Qed.

(** A dictionary as a finite map. *)
Definition dict_map {A} (d : list (pystr * A)) : gmap pystr A := list_to_map d.

Lemma dict_map_get {A} (d : list (pystr * A)) k : dict_get d k = dict_map d !! k.
Proof.
  unfold dict_map. induction d as [|[k0 v0] d IH]; simpl; [done|].
  destruct (decide (k = k0)) as [->|]; [by rewrite lookup_insert_eq|by rewrite lookup_insert_ne].
Qed.

Lemma dict_map_set {A} (d : list (pystr * A)) k v : dict_map (dict_set d k v) = <[k := v]> (dict_map d).
Proof.
  apply map_eq. intros k'. rewrite <- dict_map_get, dict_get_set.
  destruct (decide (k' = k)) as [->|]; [by rewrite lookup_insert_eq|].
  by rewrite lookup_insert_ne, dict_map_get.
Qed.

Lemma dict_map_pop {A} (d : list (pystr * A)) k : dict_map (dict_pop d k) = delete k (dict_map d).
Proof.
  apply map_eq. intros k'. rewrite <- dict_map_get, dict_get_pop.
  destruct (decide (k' = k)) as [->|]; [by rewrite lookup_delete_eq|].
  by rewrite lookup_delete_ne, dict_map_get.
Qed.

(** * Futures *)

(** The state of an [asyncio.Future]. *)
Inductive future (E A : Type) :=
| FPending
| FResult (a : A)
| FException (e : E)
| FCancelled.
Arguments FPending {E A}.
Arguments FResult {E A} a.
Arguments FException {E A} e.
Arguments FCancelled {E A}.

Definition fut_done {E A} (f : future E A) : bool :=
  match f with FPending => false | _ => true end.

Definition fut_cancelled {E A} (f : future E A) : bool :=
  match f with FCancelled => true | _ => false end.

(** [Future.cancel]: a pending future becomes cancelled, a done one is left alone. *)
Definition fut_cancel {E A} (f : future E A) : future E A :=
  match f with FPending => FCancelled | _ => f end.
