(* ===== verification/Errors.v ===== *)
(** gateway/core/errors.py: the exception hierarchy with its inherited class
    attributes, the constructor's overrides, and the HTTP representation that
    the three exception handlers return. *)
From S2P Require Import Prelude.
From S2P Require Import Python.

(** * The classes *)

Inductive error_class :=
| GatewayError | ConfigurationError | BackendError | InvalidRequestError
| BackendUnavailableError | NoHealthyBackendError | BackendTimeoutError
| BackendProtocolError | BackendHTTPError | BackendConfigurationError
| BackendRequestRejectedError | BackendCapabilityError | UnauthorizedError
| TenantQueueFullError | GatewayQueueFullError | AdmissionTimeoutError
| AdmissionUnavailableError | BatchingUnavailableError.

#[export] Instance error_class_eq_dec : EqDecision error_class.
Proof. solve_decision. Defined.

(** The base class; [None] is [Exception]. *)
Definition base_class (c : error_class) : option error_class :=
  match c with
  | GatewayError => None
  | BackendUnavailableError | NoHealthyBackendError | BackendTimeoutError
  | BackendProtocolError | BackendHTTPError | BackendConfigurationError
  | BackendRequestRejectedError | BackendCapabilityError => Some BackendError
  | _ => Some GatewayError
  end.

(** Attributes a class body assigns itself. *)
Definition own_code (c : error_class) : option pystr :=
  Some match c with
  | GatewayError => "gateway_error"%py
  | ConfigurationError => "configuration_error"%py
  | BackendError => "backend_error"%py
  | InvalidRequestError => "invalid_request"%py
  | BackendUnavailableError => "backend_unavailable"%py
  | NoHealthyBackendError => "no_healthy_backend"%py
  | BackendTimeoutError => "backend_timeout"%py
  | BackendProtocolError => "backend_protocol_error"%py
  | BackendHTTPError => "backend_http_error"%py
  | BackendConfigurationError => "backend_configuration_error"%py
  | BackendRequestRejectedError => "backend_request_rejected"%py
  | BackendCapabilityError => "backend_capability_unsupported"%py
  | UnauthorizedError => "unauthorized"%py
  | TenantQueueFullError => "tenant_queue_full"%py
  | GatewayQueueFullError => "gateway_queue_full"%py
  | AdmissionTimeoutError => "admission_timeout"%py
  | AdmissionUnavailableError => "admission_unavailable"%py
  | BatchingUnavailableError => "batching_unavailable"%py
  end.

Definition default_message (c : error_class) : pystr :=
  match c with
  | GatewayError => "Gateway request failed"
  | ConfigurationError => "Gateway configuration is invalid"
  | BackendError => "Inference backend failed"
  | InvalidRequestError => "Invalid chat completion request"
  | BackendUnavailableError => "Inference backend is unavailable"
  | NoHealthyBackendError => "No healthy inference backend is available"
  | BackendTimeoutError => "Inference backend timed out"
  | BackendProtocolError => "Inference backend returned an invalid response"
  | BackendHTTPError => "Inference backend request failed"
  | BackendConfigurationError => "Inference backend configuration was rejected"
  | BackendRequestRejectedError => "Inference backend rejected the request"
  | BackendCapabilityError => "Inference backend capability is not supported"
  | UnauthorizedError => "Invalid or missing tenant credentials"
  | TenantQueueFullError => "Tenant admission queue is full"
  | GatewayQueueFullError => "Gateway admission queue is full"
  | AdmissionTimeoutError => "Timed out waiting for inference admission"
  | AdmissionUnavailableError => "Inference admission is unavailable"
  | BatchingUnavailableError => "Dynamic batching is unavailable"
  end%py.

Definition own_status_code (c : error_class) : option Z :=
  match c with
  | GatewayError => Some 500
  | BackendError => Some 502
  | InvalidRequestError => Some 400
  | BackendUnavailableError => Some 503
  | NoHealthyBackendError => Some 503
  | BackendTimeoutError => Some 504
  | BackendRequestRejectedError => Some 400
  | BackendCapabilityError => Some 501
  | UnauthorizedError => Some 401
  | TenantQueueFullError | GatewayQueueFullError | AdmissionTimeoutError => Some 429
  | AdmissionUnavailableError | BatchingUnavailableError => Some 503
  | ConfigurationError | BackendProtocolError | BackendHTTPError
  | BackendConfigurationError => None
  end.

Definition own_headers (c : error_class) : option (list (pystr * pystr)) :=
  match c with
  | GatewayError => Some []
  | UnauthorizedError => Some [("WWW-Authenticate"%py, "Bearer"%py)]
  | _ => None
  end.

(** Attribute lookup on a class: its own value, or the one its base resolves to.
    The hierarchy is three classes deep. *)
Fixpoint class_attr_at {A} (depth : nat) (own : error_class → option A) (c : error_class)
    : option A :=
  match own c, depth, base_class c with
  | Some a, _, _ => Some a
  | None, S depth, Some b => class_attr_at depth own b
  | None, _, _ => None
  end.
Definition class_attr {A} (own : error_class → option A) := class_attr_at 2 own.

(** [issubclass(c, b)]. *)
Fixpoint subclass_at (depth : nat) (c b : error_class) : bool :=
  bool_decide (c = b) ||
  match depth, base_class c with
  | S depth, Some p => subclass_at depth p b
  | _, _ => false
  end.
Definition issubclass := subclass_at 2.

(** * Instances *)

Record gw_error := GwError {
  ge_class : error_class;
  ge_message : pystr;
  ge_code : option pystr;     (* instance attribute, when the caller passed one *)
  ge_status : option Z;
}.

#[export] Instance gw_error_eq_dec : EqDecision gw_error.
Proof. solve_decision. Defined.

(** [GatewayError.__init__]. *)
Definition gw_error_init (c : error_class) (message : option pystr) (code : option pystr)
    (status_code : option Z) : gw_error :=
  {| ge_class := c;
     ge_message := match message with
                   | Some m => if str_truthy m then m else default_message c
                   | None => default_message c
                   end;
     ge_code := code;
     ge_status := status_code |}.

(** [C()], [C(message)] and [C(status_code=n)]. *)
Definition error_of (c : error_class) : gw_error := gw_error_init c None None None.
Definition error_msg (c : error_class) (m : pystr) : gw_error := gw_error_init c (Some m) None None.
Definition error_status (c : error_class) (n : Z) : gw_error := gw_error_init c None None (Some n).

(** [exc.code], [exc.status_code], [exc.response_headers]. *)
Definition error_code (e : gw_error) : pystr :=
  match ge_code e with Some c => c | None => default "" (class_attr own_code (ge_class e)) end%py.
Definition error_status_code (e : gw_error) : Z :=
  match ge_status e with Some n => n | None => default 0 (class_attr own_status_code (ge_class e)) end.
Definition error_headers (e : gw_error) : list (pystr * pystr) :=
  default [] (class_attr own_headers (ge_class e)).

(** * Exceptions in flight

    What can propagate through the gateway's code. [OutOfFuel] is the outcome of
    a modelled loop that was cut off: theorems show that no loop reaches it. *)
Inductive exn :=
| Gateway (e : gw_error)
| CancelledError                 (* asyncio.CancelledError: a BaseException *)
| TimeoutError
| ValueError
| KeyError
| IndexError
| StopIteration
| RuntimeError
| InvalidStateError              (* asyncio.InvalidStateError *)
| OtherException (n : nat)       (* any other subclass of Exception *)
| OtherBaseException (n : nat)   (* KeyboardInterrupt and the like *)
| OutOfFuel.

#[export] Instance exn_eq_dec : EqDecision exn.
Proof. solve_decision. Defined.

Definition TypeError : exn := OtherException 0.
Definition AttributeError : exn := OtherException 1.
(** [isinstance(e, OSError)]; its members are numbered from 10 on. *)
Definition is_os_error (e : exn) : bool :=
  match e with TimeoutError => true | OtherException n => (10 <=? n)%nat | _ => false end.
Definition FileNotFoundError : exn := OtherException 10.
Definition ProcessLookupError : exn := OtherException 11.
Definition ChildProcessError : exn := OtherException 12.

(** A comprehension over a list, up to the first exception. *)
Fixpoint map_exn {A B} (f : A → exn + B) (l : list A) : exn + list B :=
  match l with
  | [] => inr []
  | x :: l => let? y := f x in let? ys := map_exn f l in inr (y :: ys)
  end.

Lemma map_exn_inr {A B} (f : A → exn + B) l ys : map_exn f l = inr ys ↔ Forall2 (λ x y, f x = inr y) l ys.
Proof.
  revert ys. induction l as [|x l IH]; intros ys; cbn [map_exn].
  - split; [intros [= <-]; constructor|by intros ->%Forall2_nil_inv_l].
  - rewrite sum_bind_inr. split.
    + intros (y & Hy & (zs & Hz & [= <-])%sum_bind_inr). constructor; [done|by apply IH].
    + intros (y & zs & Hy & Hz & ->)%Forall2_cons_inv_l. exists y. split; [done|]. apply IH in Hz as ->. done.
Qed.

(** [v[k]] of a value from JSON, and an argument that must be an [int]. *)
Definition subscript (v : pyval) (k : pystr) : exn + pyval :=
  match v with
  | VDict d => match dict_get d k with Some x => inr x | None => inl KeyError end
  | _ => inl TypeError
  end.
Definition as_int (v : pyval) : exn + Z :=
  match v with VInt z => inr z | VBool b => inr (Z.b2z b) | _ => inl TypeError end.

Definition gw (c : error_class) : exn := Gateway (error_of c).

(** [isinstance(e, Exception)]: what a bare [except Exception] catches. *)
Definition is_exception (e : exn) : bool :=
  match e with CancelledError | OtherBaseException _ | OutOfFuel => false | _ => true end.

(** [isinstance(e, c)] for a gateway class. *)
Definition is_instance (e : exn) (c : error_class) : bool :=
  match e with Gateway g => issubclass (ge_class g) c | _ => false end.

(** * HTTP representation *)

Record json_error_response := JsonErrorResponse {
  er_status : Z;
  er_code : pystr;
  er_message : pystr;
  er_request_id : option pystr;
  er_headers : list (pystr * pystr);
}.

(** [_request_id_from]: the context variable, or else the request's attribute. *)
Definition request_id_from (ctx state : option pystr) : option pystr :=
  match ctx with
  | Some r => if str_truthy r then Some r else state
  | None => state
  end.

(** [_error_headers], with the configured header name. *)
Definition error_id_headers (header : pystr) (rid : option pystr) : list (pystr * pystr) :=
  match rid with None => [] | Some r => [(header, r)] end.

(** [_error_response]; [dict.update] writes the extra headers over the first. *)
Definition error_response (header : pystr) (ctx state : option pystr) (status : Z)
    (code message : pystr) (headers : list (pystr * pystr)) : json_error_response :=
  let rid := request_id_from ctx state in
  {| er_status := status;
     er_code := code;
     er_message := message;
     er_request_id := rid;
     er_headers := foldl (λ d kv, dict_set d kv.1 kv.2) (error_id_headers header rid) headers |}.

(** The handlers return the response and the code recorded in the error metric. *)
Definition gateway_error_handler (header : pystr) (ctx state : option pystr) (e : gw_error)
    : json_error_response * pystr :=
  (error_response header ctx state (error_status_code e) (error_code e) (ge_message e)
     (error_headers e), error_code e).

Definition request_validation_error_handler (header : pystr) (ctx state : option pystr)
    : json_error_response * pystr :=
  (error_response header ctx state 400 "invalid_request" "Invalid chat completion request" [],
   "invalid_request"%py).

Definition unexpected_error_handler (header : pystr) (ctx state : option pystr)
    : json_error_response * pystr :=
  (error_response header ctx state 500 "internal_error" "Internal gateway error" [],
   "internal_error"%py).

(** [register_exception_handlers]: Starlette picks the handler of the exception's
    nearest registered class; validation errors never leave a handler as a
    gateway error, and a [BaseException] has no handler. *)
Definition handle_exception (header : pystr) (ctx state : option pystr) (e : exn)
    : option (json_error_response * pystr) :=
  match e with
  | Gateway g => Some (gateway_error_handler header ctx state g)
  | e => if is_exception e then Some (unexpected_error_handler header ctx state) else None
  end.
