(* ===== verification/Auth.v ===== *)
(** gateway/auth/tenants.py: tenant configuration, the safe tenant identity, and
    the resolution of bearer credentials. *)
From S2P Require Import Prelude.
From S2P Require Import Python.
From S2P Require Import Errors.

(** * Data *)

Record tenant_config := TenantConfig {
  tc_api_key : pystr;
  tc_max_inflight : Z;
  tc_max_queue : Z;
}.

(** [TenantConfig.validate_api_key], with the [Field] bounds of the two limits. *)
Definition validate_api_key (key : pystr) : bool :=
  str_truthy key && str_isascii key && negb (any_space key).
Definition tenant_config_ok (c : tenant_config) : bool :=
  validate_api_key (tc_api_key c) && (0 <? tc_max_inflight c) && (0 <=? tc_max_queue c).

Record tenant_context := TenantContext {
  tenant_id : pystr;
  max_inflight : Z;
  max_queue : Z;
}.

#[export] Instance tenant_context_eq_dec : EqDecision tenant_context.
Proof. solve_decision. Defined.

(** [TenantContext(...)] with [__post_init__]. *)
Definition tenant_context_init (tid : pystr) (mi mq : Z) : exn + tenant_context :=
  if negb (str_truthy (str_strip tid)) then inl ValueError
  else if (mi <=? 0) || (mq <? 0) then inl ValueError
  else inr (TenantContext tid mi mq).

(** * Registry *)

(** [TenantRegistry._entries], in configuration order. *)
Abbreviation registry := (list (pystr * tenant_context)).

(** [TenantRegistry.__init__]. *)
Fixpoint registry_init (tenants : list (pystr * tenant_config)) : exn + registry :=
  match tenants with
  | [] => inr []
  | (tid, c) :: rest =>
      match tenant_context_init tid (tc_max_inflight c) (tc_max_queue c) with
      | inl e => inl e
      | inr ctx => match registry_init rest with
                   | inl e => inl e
                   | inr r => inr ((tc_api_key c, ctx) :: r)
                   end
      end
  end.

(** [TenantRegistry.tenants]. *)
Definition registry_tenants (r : registry) : list tenant_context := r.*2.

Definition unauthorized : exn := gw UnauthorizedError.

(** [TenantRegistry._extract_bearer_token]. *)
Definition extract_bearer_token (authorization : option pystr) : exn + pystr :=
  match authorization with
  | None => inl unauthorized
  | Some a =>
      match str_split_space a with
      | [scheme; token] =>
          if negb (bool_decide (str_casefold scheme = "bearer"%py))
             || negb (str_truthy token) || negb (str_isascii token) || any_space token
          then inl unauthorized
          else inr token
      | _ => inl unauthorized
      end
  end.

(** [secrets.compare_digest] on strings: equality, for ASCII arguments only. *)
Definition compare_digest (a b : pystr) : exn + bool :=
  if str_isascii a && str_isascii b then inr (bool_decide (a = b)) else inl (OtherException 0).

(** The loop of [TenantRegistry.authenticate]: it goes through every entry and
    keeps the last match. *)
Fixpoint match_token (token : pystr) (r : registry) (matched : option tenant_context)
    : exn + option tenant_context :=
  match r with
  | [] => inr matched
  | (key, tenant) :: r' =>
      match compare_digest token key with
      | inl e => inl e
      | inr eq => match_token token r' (if eq then Some tenant else matched)
      end
  end.

Definition authenticate (r : registry) (authorization : option pystr) : exn + tenant_context :=
  match extract_bearer_token authorization with
  | inl e => inl e
  | inr token =>
      match match_token token r None with
      | inl e => inl e
      | inr None => inl unauthorized
      | inr (Some t) => inr t
      end
  end.

(** * Well-formed registries *)

(** What [Settings] guarantees of the registry it configures: valid and
    pairwise distinct API keys. *)
Definition registry_ok (r : registry) : Prop :=
  NoDup r.*1 ∧ Forall (λ kt : pystr * tenant_context, validate_api_key kt.1 = true) r.

(** The header a client of the tenant with key [key] sends. *)
Definition bearer_header (scheme key : pystr) : pystr := PyStr (codes scheme ++ 32%N :: codes key).

(** Splitting loses nothing: joining the pieces gives the string back. *)
Definition join (sep : N) (ps : list (list N)) : list N :=
  match ps with [] => [] | p :: ps => p ++ (ps ≫= cons sep) end.

Lemma join_split_on sep cs : join sep (split_on sep cs) = cs.
Proof.
  induction cs as [|c cs IH]; [done|]. simpl.
  destruct (N.eqb_spec c sep) as [->|_].
  - destruct (split_on sep cs) as [|p ps] eqn:Hs; simpl in *; [by destruct cs|]. by f_equal.
  - destruct (split_on sep cs) as [|p ps] eqn:Hs; simpl in *; by f_equal.
Qed.

Lemma any_space_nosep s : any_space s = false → Forall (λ c, (c =? 32)%N = false) (codes s).
Proof.
  unfold any_space. induction (codes s) as [|c cs IH]; simpl; intros H; constructor.
  - apply orb_false_elim in H as [Hc _]. by destruct (N.eqb_spec c 32) as [->|].
  - apply IH. by destruct (is_space c).
Qed.

Lemma casefold_nosep s :
  str_casefold s = "bearer"%py → Forall (λ c, (c =? 32)%N = false) (codes s).
Proof.
  intros [= H]. apply Forall_forall. intros c Hc.
  destruct (N.eqb_spec c 32) as [->|]; [|done].
  assert (32%N ∈ (codes s ≫= fold_char)) as Hin.
  { apply list_elem_of_bind. exists 32%N. split; [by left|done]. }
  rewrite H in Hin.
  repeat (apply elem_of_cons in Hin as [Hin|Hin]; [discriminate Hin|]).
  by apply elem_of_nil in Hin.
Qed.

Lemma compare_digest_ascii a b :
  str_isascii a = true → str_isascii b = true → compare_digest a b = inr (bool_decide (a = b)).
Proof. unfold compare_digest. by intros -> ->. Qed.

Lemma validate_api_key_inv k :
  validate_api_key k = true → str_truthy k = true ∧ str_isascii k = true ∧ any_space k = false.
Proof.
  unfold validate_api_key. intros [[? ?]%andb_prop ?%negb_true_iff]%andb_prop. done.
Qed.

(** The header carries a well-formed token exactly when it splits into the
    scheme and the token. *)
Lemma extract_bearer_token_inr h token :
  extract_bearer_token h = inr token ↔
  ∃ scheme, h = Some (bearer_header scheme token) ∧ str_casefold scheme = "bearer"%py
            ∧ validate_api_key token = true.
Proof.
  unfold extract_bearer_token, validate_api_key. split.
  - destruct h as [h|]; [|done]. unfold str_split_space.
    destruct (split_on 32 (codes h)) as [|a [|b [|? ?]]] eqn:Hs; simpl; try done.
    destruct (bool_decide _) eqn:Hb; simpl; [|done].
    destruct (str_truthy _) eqn:Ht, (str_isascii _) eqn:Ha, (any_space _) eqn:Hsp; simpl; try done.
    intros [= <-]. exists (PyStr a). rewrite Ht, Ha, Hsp. split_and!; [|by apply bool_decide_eq_true in Hb|done].
    do 2 f_equal. unfold bearer_header. destruct h as [h]; simpl in *. f_equal.
    rewrite <- (join_split_on 32 h), Hs. simpl. by rewrite app_nil_r.
  - intros (scheme & -> & Hs & Hk). unfold str_split_space, bearer_header; simpl.
    apply validate_api_key_inv in Hk as (Ht & Ha & Hsp).
    rewrite split_on_app, split_on_nosep by auto using casefold_nosep, any_space_nosep. simpl.
    destruct scheme as [scs], token as [tcs]; simpl.
    rewrite bool_decide_true by done. by rewrite Ht, Ha, Hsp.
Qed.

Lemma extract_bearer_token_inl h e : extract_bearer_token h = inl e → e = unauthorized.
Proof. unfold extract_bearer_token. repeat case_match; congruence. Qed.

(** Over a registry of valid keys the loop never raises, and it finds the entry
    of the token when the keys are distinct. *)
Lemma match_token_ok token r m :
  validate_api_key token = true → registry_ok r →
  ∃ o, match_token token r m = inr o ∧
    (∀ t, (token, t) ∈ r → o = Some t) ∧ (token ∉ r.*1 → o = m).
Proof.
  intros Hk [Hnd Hall]. revert m Hnd. induction Hall as [|[key t] r Hkey Hall IH]; intros m Hnd.
  { exists m. split_and!; [done| |done]. intros t Ht. by apply list_elem_of_In in Ht. }
  simpl in *. apply validate_api_key_inv in Hkey as (_ & Ha & _), Hk as (_ & Ha' & _).
  rewrite compare_digest_ascii by done. apply NoDup_cons in Hnd as [Hni Hnd].
  destruct (IH (if bool_decide (token = key) then Some t else m) Hnd) as (o & -> & H1 & H2).
  exists o. split_and!; [done| |].
  - intros t' [[= -> ->]|Ht']%elem_of_cons; [|by apply H1].
    rewrite (H2 Hni), bool_decide_true; done.
  - intros [Hne Hni']%not_elem_of_cons. rewrite (H2 Hni'), bool_decide_false; done.
Qed.

(** Over a registry of valid and distinct keys, a header authenticates a tenant
    exactly when it is a bearer scheme, in any case, one space, and the key of
    that tenant; every other header raises the unauthorized error and nothing
    else. *)
Theorem authenticate_spec r h :
  registry_ok r →
  (∀ t, authenticate r h = inr t ↔
        ∃ scheme key, h = Some (bearer_header scheme key)
                      ∧ str_casefold scheme = "bearer"%py ∧ (key, t) ∈ r)
  ∧ (∀ e, authenticate r h = inl e → e = unauthorized).
Proof.
  intros Hr. unfold authenticate.
  destruct (extract_bearer_token h) as [e|token] eqn:He.
  - split; [|intros ? [= <-]; by eapply extract_bearer_token_inl].
    intros t. split; [done|]. intros (scheme & key & -> & Hs & Hin).
    destruct Hr as [_ Hall]. rewrite Forall_forall in Hall. apply Hall in Hin.
    by rewrite (proj2 (extract_bearer_token_inr _ key)) in He by eauto.
  - apply extract_bearer_token_inr in He as (scheme & -> & Hs & Hk).
    destruct (match_token_ok token r None Hk Hr) as (o & -> & H1 & H2). split.
    + intros t. split.
      * destruct o as [t'|]; [|done]. intros [= ->]. exists scheme, token. split_and!; [done..|].
        destruct (decide (token ∈ r.*1)) as [([? t'] & -> & Hin)%list_elem_of_fmap|Hni];
          [|by specialize (H2 Hni)].
        specialize (H1 _ Hin). by simplify_eq.
      * intros (scheme' & key & Heq & Hs' & Hin).
        assert (extract_bearer_token (Some (bearer_header scheme token)) = inr key) as Hx.
        { apply extract_bearer_token_inr. exists scheme'. split_and!; [done..|].
          destruct Hr as [_ Hall]. rewrite Forall_forall in Hall. by apply Hall in Hin. }
        rewrite (proj2 (extract_bearer_token_inr _ token)) in Hx by eauto.
        simplify_eq. by rewrite (H1 _ Hin).
    + destruct o; congruence.
Qed.

Definition demo_registry : registry := [("key-a"%py, TenantContext "a" 1 2); ("key-b"%py, TenantContext "b" 1 2)].

Lemma authenticate_spec_witness :
  authenticate demo_registry (Some "BEARER key-b"%py) = inr (TenantContext "b" 1 2).
Proof.
  assert (Hok : registry_ok demo_registry).
  { split; apply (bool_decide_unpack _); vm_compute; exact I. }
  apply (authenticate_spec demo_registry (Some "BEARER key-b"%py) Hok).
  exists "BEARER"%py, "key-b"%py. split; [reflexivity|]. split; [reflexivity|]. right. left.
Defined.
