(* ===== verification/Admission.v ===== *)
(** gateway/admission/controller.py: the process-local admission controller,
    its lock-protected critical sections, and the coroutine [acquire] as the
    event loop runs it.

    No critical section of the controller awaits anything, so the lock is never
    contended and each section runs atomically: a section is a function on the
    controller's state.  [acquire] suspends at one point, the [wait_for] of its
    waiter's future; the steps of a suspended call are [event]s. *)
From S2P Require Import Prelude.
From S2P Require Import Python.
From S2P Require Import Errors.
From S2P Require Import Auth.

(** * State *)

(** [_TenantState]; a [_Waiter] is the identity of its future. *)
Record tenant_state := TenantState {
  ts_tenant : tenant_context;
  ts_inflight : Z;
  ts_queue : list nat;
}.

(** [AdmissionLease]: an object, so the controller's heap holds it by identity. *)
Record lease := Lease {
  l_tenant : pystr;
  l_was_queued : bool;
  l_granted_at : Z;
  l_released : bool;
}.

(** [AdmissionWaitOutcome]. *)
Inductive wait_outcome := WaitAdmitted | TimedOut | Rejected | WasCancelled.

(** The calls made to the observer, oldest first. *)
Inductive observation :=
| ObsState (global_inflight global_queued : Z) (tenants : list (pystr * (Z * Z)))
| ObsWait (duration : Z) (outcome : wait_outcome).

(** The controller with the objects it allocates.  [c_order] is the key order of
    the [_tenants] dict and [c_reads] the number of readings of the clock. *)
Record ctrl := Ctrl {
  c_order : list pystr;
  c_max_inflight : Z;
  c_max_queue : Z;
  c_observer : bool;
  c_tenants : gmap pystr tenant_state;
  c_inflight : Z;
  c_queued : Z;
  c_active : list pystr;
  c_active_ids : gset pystr;
  c_closed : bool;
  c_futures : gmap nat (future exn nat);
  c_leases : gmap nat lease;
  c_next : nat;
  c_reads : nat;
  c_log : list observation;
}.

Definition on_observer (f : bool → bool) (s : ctrl) : ctrl :=
  Ctrl (c_order s) (c_max_inflight s) (c_max_queue s) (f (c_observer s)) (c_tenants s) (c_inflight s) (c_queued s) (c_active s) (c_active_ids s) (c_closed s) (c_futures s) (c_leases s) (c_next s) (c_reads s) (c_log s).
Definition on_tenants (f : gmap pystr tenant_state → gmap pystr tenant_state) (s : ctrl) : ctrl :=
  Ctrl (c_order s) (c_max_inflight s) (c_max_queue s) (c_observer s) (f (c_tenants s)) (c_inflight s) (c_queued s) (c_active s) (c_active_ids s) (c_closed s) (c_futures s) (c_leases s) (c_next s) (c_reads s) (c_log s).
Definition on_inflight (f : Z → Z) (s : ctrl) : ctrl :=
  Ctrl (c_order s) (c_max_inflight s) (c_max_queue s) (c_observer s) (c_tenants s) (f (c_inflight s)) (c_queued s) (c_active s) (c_active_ids s) (c_closed s) (c_futures s) (c_leases s) (c_next s) (c_reads s) (c_log s).
Definition on_queued (f : Z → Z) (s : ctrl) : ctrl :=
  Ctrl (c_order s) (c_max_inflight s) (c_max_queue s) (c_observer s) (c_tenants s) (c_inflight s) (f (c_queued s)) (c_active s) (c_active_ids s) (c_closed s) (c_futures s) (c_leases s) (c_next s) (c_reads s) (c_log s).
Definition on_active (f : list pystr → list pystr) (s : ctrl) : ctrl :=
  Ctrl (c_order s) (c_max_inflight s) (c_max_queue s) (c_observer s) (c_tenants s) (c_inflight s) (c_queued s) (f (c_active s)) (c_active_ids s) (c_closed s) (c_futures s) (c_leases s) (c_next s) (c_reads s) (c_log s).
Definition on_active_ids (f : gset pystr → gset pystr) (s : ctrl) : ctrl :=
  Ctrl (c_order s) (c_max_inflight s) (c_max_queue s) (c_observer s) (c_tenants s) (c_inflight s) (c_queued s) (c_active s) (f (c_active_ids s)) (c_closed s) (c_futures s) (c_leases s) (c_next s) (c_reads s) (c_log s).
Definition on_closed (f : bool → bool) (s : ctrl) : ctrl :=
  Ctrl (c_order s) (c_max_inflight s) (c_max_queue s) (c_observer s) (c_tenants s) (c_inflight s) (c_queued s) (c_active s) (c_active_ids s) (f (c_closed s)) (c_futures s) (c_leases s) (c_next s) (c_reads s) (c_log s).
Definition on_futures (f : gmap nat (future exn nat) → gmap nat (future exn nat)) (s : ctrl) : ctrl :=
  Ctrl (c_order s) (c_max_inflight s) (c_max_queue s) (c_observer s) (c_tenants s) (c_inflight s) (c_queued s) (c_active s) (c_active_ids s) (c_closed s) (f (c_futures s)) (c_leases s) (c_next s) (c_reads s) (c_log s).
Definition on_leases (f : gmap nat lease → gmap nat lease) (s : ctrl) : ctrl :=
  Ctrl (c_order s) (c_max_inflight s) (c_max_queue s) (c_observer s) (c_tenants s) (c_inflight s) (c_queued s) (c_active s) (c_active_ids s) (c_closed s) (c_futures s) (f (c_leases s)) (c_next s) (c_reads s) (c_log s).
Definition on_next (f : nat → nat) (s : ctrl) : ctrl :=
  Ctrl (c_order s) (c_max_inflight s) (c_max_queue s) (c_observer s) (c_tenants s) (c_inflight s) (c_queued s) (c_active s) (c_active_ids s) (c_closed s) (c_futures s) (c_leases s) (f (c_next s)) (c_reads s) (c_log s).
Definition on_reads (f : nat → nat) (s : ctrl) : ctrl :=
  Ctrl (c_order s) (c_max_inflight s) (c_max_queue s) (c_observer s) (c_tenants s) (c_inflight s) (c_queued s) (c_active s) (c_active_ids s) (c_closed s) (c_futures s) (c_leases s) (c_next s) (f (c_reads s)) (c_log s).
Definition on_log (f : list observation → list observation) (s : ctrl) : ctrl :=
  Ctrl (c_order s) (c_max_inflight s) (c_max_queue s) (c_observer s) (c_tenants s) (c_inflight s) (c_queued s) (c_active s) (c_active_ids s) (c_closed s) (c_futures s) (c_leases s) (c_next s) (c_reads s) (f (c_log s)).

Abbreviation adm := (sem ctrl exn).

(** * The methods *)

Section controller.
(** The [n]-th reading of the injected clock, in ticks. *)
Variable clock : nat → Z.

Definition read_clock : adm Z :=
  let! s := get in
  do! modify (on_reads S) in
  ret (clock (c_reads s)).

(** [self._tenants[tid]]. *)
Definition tenant (tid : pystr) : adm tenant_state :=
  let! s := get in unwrap KeyError (c_tenants s !! tid).
Definition put_tenant (tid : pystr) (st : tenant_state) : adm unit :=
  modify (on_tenants <[tid := st]>).
Definition set_queue (q : list nat) (st : tenant_state) : tenant_state :=
  TenantState (ts_tenant st) (ts_inflight st) q.
Definition set_inflight (n : Z) (st : tenant_state) : tenant_state :=
  TenantState (ts_tenant st) n (ts_queue st).

(** The mapping of tenant IDs to inflight and queue length, in dict order. *)
Definition tenant_counts (s : ctrl) : list (pystr * (Z * Z)) :=
  c_order s ≫= λ tid,
    match c_tenants s !! tid with
    | Some st => [(tid, (ts_inflight st, Z.of_nat (length (ts_queue st))))]
    | None => []
    end.

(** [_notify_observer]; what the observer raises is swallowed. *)
Definition notify_observer : adm unit :=
  modify (λ s, if c_observer s
               then on_log (λ l, l ++ [ObsState (c_inflight s) (c_queued s) (tenant_counts s)]) s
               else s).

(** [set_observer]. *)
Definition set_observer (observer : bool) : adm unit :=
  do! modify (on_observer (λ _, observer)) in
  notify_observer.

(** [_observe_wait]. *)
Definition observe_wait (started_at : Z) (outcome : wait_outcome) (finished_at : option Z)
    : adm unit :=
  let! s := get in
  if negb (c_observer s) then ret () else
  let! finished := match finished_at with Some t => ret t | None => read_clock end in
  modify (on_log (λ l, l ++ [ObsWait (Z.max 0 (finished - started_at)) outcome])).

(** [_can_admit]. *)
Definition can_admit (st : tenant_state) (s : ctrl) : bool :=
  (ts_inflight st <? max_inflight (ts_tenant st)) && (c_inflight s <? c_max_inflight s).

(** [_activate_tenant_locked]. *)
Definition activate_tenant_locked (tid : pystr) : adm unit :=
  modify (λ s, if decide (tid ∈ c_active_ids s) then s
               else on_active_ids (λ ids, {[tid]} ∪ ids) (on_active (λ l, l ++ [tid]) s)).

(** [deque.remove], which raises [ValueError] for a missing element. *)
Definition deque_remove {A} `{EqDecision A} (x : A) (l : list A) : option (list A) :=
  if decide (x ∈ l) then
    Some ((fix go l := match l with
                       | [] => []
                       | y :: l' => if decide (x = y) then l' else y :: go l'
                       end) l)
  else None.

(** [_deactivate_tenant_locked]. *)
Definition deactivate_tenant_locked (tid : pystr) : adm unit :=
  let! s := get in
  if decide (tid ∉ c_active_ids s) then ret () else
  do! modify (on_active_ids (λ ids, ids ∖ {[tid]})) in
  let! l := unwrap ValueError (deque_remove tid (c_active s)) in
  modify (on_active (λ _, l)).

(** [waiter.future.done()]. *)
Definition future_done (s : ctrl) (w : nat) : bool :=
  match c_futures s !! w with Some f => fut_done f | None => false end.

(** [future.set_result] and [future.set_exception]. *)
Definition complete_future (w : nat) (f : future exn nat) : adm unit :=
  let! s := get in
  if future_done s w then raise InvalidStateError
  else modify (on_futures <[w := f]>).

(** The loop of [_discard_completed_waiters_locked]; every iteration pops the
    queue, whose length bounds them. *)
Fixpoint discard_loop (n : nat) (tid : pystr) (discarded : bool) : adm bool :=
  match n with
  | O => ret discarded
  | S n =>
      let! st := tenant tid in
      let! s := get in
      match ts_queue st with
      | w :: rest =>
          if future_done s w then
            do! put_tenant tid (set_queue rest st) in
            do! modify (on_queued Z.pred) in
            discard_loop n tid true
          else ret discarded
      | [] => ret discarded
      end
  end.

Definition discard_completed_waiters_locked (tid : pystr) : adm unit :=
  let! st := tenant tid in
  let! discarded := discard_loop (length (ts_queue st)) tid false in
  if discarded then notify_observer else ret ().

(** [_remove_waiter_locked]. *)
Definition remove_waiter_locked (tid : pystr) (w : nat) : adm bool :=
  let! st := tenant tid in
  match deque_remove w (ts_queue st) with
  | None => ret false
  | Some q =>
      do! put_tenant tid (set_queue q st) in
      do! modify (on_queued Z.pred) in
      do! (match q with [] => deactivate_tenant_locked tid | _ => ret () end) in
      do! notify_observer in
      ret true
  end.

(** [_grant_locked]. *)
Definition grant_locked (tid : pystr) (was_queued : bool) : adm nat :=
  let! st := tenant tid in
  let! s := get in
  if negb (can_admit st s) then raise RuntimeError else
  do! put_tenant tid (set_inflight (ts_inflight st + 1) st) in
  do! modify (on_inflight Z.succ) in
  let! granted_at := read_clock in
  let! s := get in
  let l := c_next s in
  do! modify (on_next S) in
  do! modify (on_leases <[l := Lease tid was_queued granted_at false]>) in
  do! notify_observer in
  ret l.

(** The [for] loop of [_dispatch_locked]: [n] candidates left to examine;
    the result tells whether one was granted. *)
Fixpoint dispatch_round (n : nat) : adm bool :=
  match n with
  | O => ret false
  | S n =>
      let! s := get in
      match c_active s with
      | [] => raise IndexError
      | tid :: rest =>
          do! modify (on_active (λ _, rest)) in
          if decide (tid ∉ c_active_ids s) then raise KeyError else
          do! modify (on_active_ids (λ ids, ids ∖ {[tid]})) in
          do! discard_completed_waiters_locked tid in
          let! st := tenant tid in
          match ts_queue st with
          | [] => dispatch_round n
          | w :: q =>
              if max_inflight (ts_tenant st) <=? ts_inflight st then
                do! activate_tenant_locked tid in
                dispatch_round n
              else
                do! put_tenant tid (set_queue q st) in
                do! modify (on_queued Z.pred) in
                do! (match q with [] => ret () | _ => activate_tenant_locked tid end) in
                let! l := grant_locked tid true in
                do! complete_future w (FResult l) in
                ret true
          end
      end
  end.

(** The [while] loop of [_dispatch_locked]. *)
Fixpoint dispatch_while (fuel : nat) : adm unit :=
  match fuel with
  | O => raise OutOfFuel
  | S fuel =>
      let! s := get in
      if (c_inflight s <? c_max_inflight s) && negb (bool_decide (c_active s = [])) then
        let! granted := dispatch_round (length (c_active s)) in
        if granted then dispatch_while fuel else ret ()
      else ret ()
  end.

(** [_dispatch_locked]: an iteration that goes on has granted a slot, so the
    free slots bound them. *)
Definition dispatch_fuel (s : ctrl) : nat := S (Z.to_nat (c_max_inflight s - c_inflight s)).
Definition dispatch_locked : adm unit :=
  let! s := get in
  if c_closed s then ret () else dispatch_while (dispatch_fuel s).

(** [_release_locked]. *)
Definition release_locked (l : nat) : adm unit :=
  let! s := get in
  let! le := unwrap KeyError (c_leases s !! l) in
  if l_released le then ret () else
  let! st := tenant (l_tenant le) in
  if (ts_inflight st <=? 0) || (c_inflight s <=? 0) then raise RuntimeError else
  do! modify (on_leases <[l := Lease (l_tenant le) (l_was_queued le) (l_granted_at le) true]>) in
  do! put_tenant (l_tenant le) (set_inflight (ts_inflight st - 1) st) in
  do! modify (on_inflight Z.pred) in
  notify_observer.

(** [_release]. *)
Definition release (l : nat) : adm unit :=
  do! release_locked l in
  dispatch_locked.

(** [_state_for]. *)
Definition state_for (t : tenant_context) : adm pystr :=
  let! s := get in
  match c_tenants s !! tenant_id t with
  | Some _ => ret (tenant_id t)
  | None => raise (gw AdmissionUnavailableError)
  end.

(** [_acquire] up to its suspension point: a lease at once, or the waiter
    whose future the call goes on to await. *)
Inductive acquisition := Granted (l : nat) | Waiting (w : nat).

Definition acquire_locked (t : tenant_context) : adm acquisition :=
  let! s := get in
  if c_closed s then raise (gw AdmissionUnavailableError) else
  let! tid := state_for t in
  do! dispatch_locked in
  let! st := tenant tid in
  let! s := get in
  if bool_decide (ts_queue st = []) && can_admit st s then
    let! l := grant_locked tid false in
    ret (Granted l)
  else if max_queue (ts_tenant st) <=? Z.of_nat (length (ts_queue st)) then
    raise (gw TenantQueueFullError)
  else if c_max_queue s <=? c_queued s then
    raise (gw GatewayQueueFullError)
  else
    let w := c_next s in
    do! modify (on_next S) in
    do! modify (on_futures <[w := FPending]>) in
    do! put_tenant tid (set_queue (ts_queue st ++ [w]) st) in
    do! modify (on_queued Z.succ) in
    do! activate_tenant_locked tid in
    do! notify_observer in
    do! dispatch_locked in
    ret (Waiting w).

(** The [except TimeoutError] branch of [_acquire]. *)
Definition acquire_timed_out {A} (tid : pystr) (w : nat) : adm A :=
  do! remove_waiter_locked tid w in
  do! dispatch_locked in
  raise (gw AdmissionTimeoutError).

(** The [except CancelledError] branch. *)
Definition acquire_cancelled {A} (tid : pystr) (w : nat) : adm A :=
  let! removed := remove_waiter_locked tid w in
  let! s := get in
  do! (match c_futures s !! w with
       | Some (FResult l) => if removed then ret () else release_locked l
       | Some (FException e) =>
           if removed then ret ()
           else if is_instance e AdmissionUnavailableError then ret () else raise e
       | _ => ret ()
       end) in
  do! dispatch_locked in
  raise CancelledError.

(** The handlers and the [else] clause of [acquire]. *)
Definition acquire_except {A} (started_at : Z) (e : exn) : adm A :=
  if is_instance e AdmissionTimeoutError then
    do! observe_wait started_at TimedOut None in raise e
  else if is_instance e AdmissionUnavailableError || is_instance e GatewayQueueFullError
          || is_instance e TenantQueueFullError then
    do! observe_wait started_at Rejected None in raise e
  else if bool_decide (e = CancelledError) then
    do! observe_wait started_at WasCancelled None in raise e
  else raise e.

Definition acquire_else (started_at : Z) (l : nat) : adm nat :=
  let! s := get in
  let! le := unwrap KeyError (c_leases s !! l) in
  do! observe_wait started_at WaitAdmitted (Some (l_granted_at le)) in
  ret l.

(** [snapshot]. *)
Record snapshot := Snapshot {
  sn_inflight : Z;
  sn_queued : Z;
  sn_tenants : list (pystr * (Z * Z));
  sn_closed : bool;
}.
Definition take_snapshot (s : ctrl) : snapshot :=
  Snapshot (c_inflight s) (c_queued s) (tenant_counts s) (c_closed s).

(** The [while state.queue] loop of [shutdown]. *)
Fixpoint drain_queue (n : nat) (tid : pystr) : adm unit :=
  match n with
  | O => ret ()
  | S n =>
      let! st := tenant tid in
      match ts_queue st with
      | [] => ret ()
      | w :: q =>
          do! put_tenant tid (set_queue q st) in
          do! modify (on_queued Z.pred) in
          let! s := get in
          do! (if future_done s w then ret ()
               else complete_future w (FException (gw AdmissionUnavailableError))) in
          drain_queue n tid
      end
  end.

Fixpoint drain_tenants (tids : list pystr) : adm unit :=
  match tids with
  | [] => ret ()
  | tid :: tids =>
      let! st := tenant tid in
      do! drain_queue (length (ts_queue st)) tid in
      drain_tenants tids
  end.

Definition shutdown : adm unit :=
  let! s := get in
  if c_closed s then ret () else
  do! modify (on_closed (λ _, true)) in
  do! drain_tenants (c_order s) in
  do! modify (on_active (λ _, [])) in
  do! modify (on_active_ids (λ _, ∅)) in
  let! s := get in
  if negb (c_queued s =? 0) then raise RuntimeError else
  notify_observer.

(** [AdmissionController.__init__]; later duplicates of a tenant ID replace
    earlier ones in the dict, which the length check then rejects. *)
Definition ctrl_init (tenants : list tenant_context) (gmi gmq timeout : Z) (observer : bool)
    : exn + ctrl :=
  if (gmi <=? 0) || (gmq <? 0) || (timeout <=? 0) then inl ValueError else
  let m := foldl (λ m t, <[tenant_id t := TenantState t 0 []]> m) ∅ tenants in
  if negb (Nat.eqb (size m) (length tenants)) then inl ValueError else
  inr (notify_observer (Ctrl (tenant_id <$> tenants) gmi gmq observer m 0 0 [] ∅ false
                          ∅ ∅ O O [])).2.

(** * The event loop

    A suspended [acquire] is a frame: the tenant it asked for, the clock
    reading it started at, and how it will be resumed. *)
Inductive wake := WakeNormal | WakeTimeout | WakeCancel.
Record frame := Frame { f_tenant : pystr; f_started : Z; f_wake : wake }.

(** [y_held]: the leases that [acquire] has returned to its callers. *)
Record system := System {
  y_ctrl : ctrl;
  y_frames : gmap nat frame;
  y_held : gset nat;
}.

(** [EvTimer w]: the timer of [wait_for] fires, which cancels the task: it
    cancels a pending future.  When the future is done already, the flag
    [late] says whether the timer still wins, as it does since Python 3.12.
    [EvCancel w]: the caller's task is cancelled.  [EvResume w]: the loop runs
    the suspended call, whose future is done or whose wake-up throws. *)
Inductive event :=
| EvAcquire (t : tenant_context)
| EvTimer (w : nat)
| EvCancel (w : nat)
| EvResume (w : nat)
| EvRelease (l : nat)
| EvShutdown
| EvObserver (b : bool).

Inductive outcome := OLease (l : nat) | OSuspended (w : nat) | ORaised (e : exn) | ONone.

Definition set_wake (w : nat) (k : wake) (fr : frame) (y : system) : system :=
  System (on_futures (alter fut_cancel w) (y_ctrl y))
         (<[w := Frame (f_tenant fr) (f_started fr) k]> (y_frames y)) (y_held y).

(** [acquire] until it returns, raises or suspends. *)
Definition acquire_begin (t : tenant_context) : adm (Z * acquisition) :=
  let! started_at := read_clock in
  let! a := try_catch (acquire_locked t) (acquire_except started_at) in
  match a with
  | Granted l => do! acquire_else started_at l in ret (started_at, a)
  | Waiting _ => ret (started_at, a)
  end.

(** A suspended [acquire] from its suspension point to its end. *)
Definition acquire_resume (fr : frame) (w : nat) (f : future exn nat) : adm nat :=
  let! l := try_catch
    match f_wake fr, f with
    | WakeTimeout, _ => acquire_timed_out (f_tenant fr) w
    | WakeCancel, _ | WakeNormal, FCancelled => acquire_cancelled (f_tenant fr) w
    | WakeNormal, FResult l => ret l
    | WakeNormal, FException e => raise e
    | WakeNormal, FPending => raise InvalidStateError
    end (acquire_except (f_started fr)) in
  acquire_else (f_started fr) l.

Definition finish {A} (y : system) (m : adm A) (k : A → ctrl → outcome * system)
    : outcome * system :=
  match m (y_ctrl y) with
  | (inl e, c) => (ORaised e, System c (y_frames y) (y_held y))
  | (inr a, c) => k a c
  end.

(** The effect of one event, [None] when it cannot happen in this state. *)
Definition exec (late : bool) (ev : event) (y : system) : option (outcome * system) :=
  match ev with
  | EvAcquire t => Some (finish y (acquire_begin t) (λ '(started, a) c,
      match a with
      | Granted l => (OLease l, System c (y_frames y) ({[l]} ∪ y_held y))
      | Waiting w =>
          (OSuspended w,
           System c (<[w := Frame (tenant_id t) started WakeNormal]> (y_frames y)) (y_held y))
      end))
  | EvTimer w =>
      match y_frames y !! w, c_futures (y_ctrl y) !! w with
      | Some (Frame _ _ WakeNormal as fr), Some f =>
          if fut_done f && negb late then None
          else Some (ONone, set_wake w WakeTimeout fr y)
      | _, _ => None
      end
  | EvCancel w =>
      match y_frames y !! w with
      | Some (Frame _ _ WakeCancel) | None => None
      | Some fr => Some (ONone, set_wake w WakeCancel fr y)
      end
  | EvResume w =>
      match y_frames y !! w, c_futures (y_ctrl y) !! w with
      | Some fr, Some f =>
          if fut_done f then
            let y := System (y_ctrl y) (delete w (y_frames y)) (y_held y) in
            Some (finish y (acquire_resume fr w f) (λ l c,
              (OLease l, System c (y_frames y) ({[l]} ∪ y_held y))))
          else None
      | _, _ => None
      end
  | EvRelease l =>
      if decide (l ∈ y_held y) then
        Some (finish y (release l) (λ _ c, (ONone, System c (y_frames y) (y_held y))))
      else None
  | EvShutdown => Some (finish y shutdown (λ _ c, (ONone, System c (y_frames y) (y_held y))))
  | EvObserver b =>
      Some (finish y (set_observer b) (λ _ c, (ONone, System c (y_frames y) (y_held y))))
  end.

Inductive step (late : bool) : system → event → outcome → system → Prop :=
| step_exec y ev o y' : exec late ev y = Some (o, y') → step late y ev o y'.

(** The states a controller constructed with [c0] can get into. *)
Inductive reachable (late : bool) (c0 : ctrl) : system → Prop :=
| reachable_init : reachable late c0 (System c0 ∅ ∅)
| reachable_step y ev o y' :
    reachable late c0 y → step late y ev o y' → reachable late c0 y'.

Fixpoint run (late : bool) (evs : list event) (y : system) : option system :=
  match evs with
  | [] => Some y
  | ev :: evs => match exec late ev y with Some (_, y') => run late evs y' | None => None end
  end.
End controller.
