(* ===== verification/AdmissionInv.v ===== *)
(** The invariant of the admission controller: accounting of slots and queues,
    the round-robin list, and the effect of every primitive mutation on them. *)
From S2P Require Import Prelude.
From S2P Require Import Python.
From S2P Require Import Errors.
From S2P Require Import Auth.
From S2P Require Import Admission.

(** * The invariant *)

(** 1 for an unreleased lease of the tenant. *)
Definition live (tid : pystr) (le : lease) : Z :=
  if decide (l_tenant le = tid ∧ l_released le = false) then 1 else 0.

Definition queue_len (st : tenant_state) : Z := Z.of_nat (length (ts_queue st)).

(** A future a queued waiter may have: not yet resolved, or cancelled by the
    waiter's own call, which has not run yet. *)
Definition waiting_future (f : future exn nat) : Prop := f = FPending ∨ f = FCancelled.

Record tenant_ok (s : ctrl) (tid : pystr) (st : tenant_state) : Prop := {
  to_id : tenant_id (ts_tenant st) = tid;
  to_bound : ts_inflight st ≤ max_inflight (ts_tenant st);
  to_qbound : queue_len st ≤ max_queue (ts_tenant st);
  to_nodup : NoDup (ts_queue st);
  to_fifo : StronglySorted lt (ts_queue st);
  to_futures w : w ∈ ts_queue st → ∃ f, c_futures s !! w = Some f ∧ waiting_future f;
  to_live : ts_inflight st = sum_map (live tid) (c_leases s);
}.

(** [hole] marks the tenants whose place in the round-robin list is in flux
    inside a critical section; it is empty between sections. *)
Record inv (hole : pystr → Prop) (s : ctrl) : Prop := {
  inv_order tid : tid ∈ c_order s ↔ is_Some (c_tenants s !! tid);
  inv_tenants tid st : c_tenants s !! tid = Some st → tenant_ok s tid st;
  inv_sep t1 t2 st1 st2 w :
    c_tenants s !! t1 = Some st1 → c_tenants s !! t2 = Some st2 →
    w ∈ ts_queue st1 → w ∈ ts_queue st2 → t1 = t2;
  inv_inflight : c_inflight s = sum_map ts_inflight (c_tenants s);
  inv_cap : c_inflight s ≤ c_max_inflight s;
  inv_queued : c_queued s = sum_map queue_len (c_tenants s);
  inv_qcap : c_queued s ≤ c_max_queue s;
  inv_nodup : NoDup (c_active s);
  inv_ids tid : tid ∈ c_active_ids s ↔ tid ∈ c_active s;
  inv_active_dom tid : tid ∈ c_active s → is_Some (c_tenants s !! tid);
  inv_active tid st :
    c_tenants s !! tid = Some st → ¬ hole tid → tid ∈ c_active s ↔ ts_queue st ≠ [];
  inv_leases l le : c_leases s !! l = Some le → is_Some (c_tenants s !! l_tenant le);
  inv_fresh_f i : is_Some (c_futures s !! i) → (i < c_next s)%nat;
  inv_fresh_l i : is_Some (c_leases s !! i) → (i < c_next s)%nat;
  inv_result w l : c_futures s !! w = Some (FResult l) → is_Some (c_leases s !! l);
  inv_once w1 w2 l : c_futures s !! w1 = Some (FResult l) → c_futures s !! w2 = Some (FResult l) →
    w1 = w2;
}.

Definition no_hole (_ : pystr) : Prop := False.
Definition only (tid t : pystr) : Prop := t = tid.

Create HintDb adm.
#[export] Hint Resolve inv_order inv_tenants inv_inflight inv_cap inv_queued inv_qcap inv_nodup
  inv_ids inv_active_dom inv_leases inv_fresh_f inv_fresh_l inv_result : adm.

(** Between critical sections the list holds exactly the tenants with waiters. *)
Lemma inv_listed s tid st :
  inv no_hole s → c_tenants s !! tid = Some st → tid ∈ c_active s ↔ ts_queue st ≠ [].
Proof. intros Hi Ht. apply (inv_active _ _ Hi _ _ Ht). intros []. Qed.

Lemma live_nonneg tid le : 0 ≤ live tid le.
Proof. unfold live. case_decide; lia. Qed.

Lemma inflight_nonneg hole s tid st :
  inv hole s → c_tenants s !! tid = Some st → 0 ≤ ts_inflight st.
Proof.
  intros Hi Ht. rewrite (to_live _ _ _ (inv_tenants _ _ Hi _ _ Ht)).
  apply sum_map_nonneg. intros. apply live_nonneg.
Qed.

Lemma inflight_le_global hole s tid st :
  inv hole s → c_tenants s !! tid = Some st → ts_inflight st ≤ c_inflight s.
Proof.
  intros Hi Ht. rewrite (inv_inflight _ _ Hi).
  by apply (sum_map_lookup_le _ _ tid); eauto using inflight_nonneg.
Qed.

Lemma queued_nonneg hole s : inv hole s → 0 ≤ c_queued s.
Proof.
  intros Hi. rewrite (inv_queued _ _ Hi). apply sum_map_nonneg. unfold queue_len. lia.
Qed.

(** The invariant does not look at the clock, the observer or its log. *)
Lemma inv_log hole s f : inv hole s → inv hole (on_log f s).
Proof. intros [H1 H2]; constructor; try assumption. intros tid st Ht. by destruct (H2 tid st Ht). Qed.
Lemma inv_reads hole s f : inv hole s → inv hole (on_reads f s).
Proof. intros [H1 H2]; constructor; try assumption. intros tid st Ht. by destruct (H2 tid st Ht). Qed.
Lemma inv_observer hole s f : inv hole s → inv hole (on_observer f s).
Proof. intros [H1 H2]; constructor; try assumption. intros tid st Ht. by destruct (H2 tid st Ht). Qed.
Lemma inv_closed_flag hole s f : inv hole s → inv hole (on_closed f s).
Proof. intros [H1 H2]; constructor; try assumption. intros tid st Ht. by destruct (H2 tid st Ht). Qed.
#[export] Hint Resolve inv_log inv_reads inv_observer inv_closed_flag : adm.

Lemma inv_weaken (hole hole' : pystr → Prop) s :
  inv hole s → (∀ tid, hole tid → hole' tid) → inv hole' s.
Proof. intros [] Hh. constructor; try assumption. eauto. Qed.

Lemma queue_len_set q st : queue_len (set_queue q st) = Z.of_nat (length q).
Proof. done. Qed.

(** Replacing the state of a configured tenant keeps the set of tenants. *)
Lemma is_Some_put {A} (m : gmap pystr A) tid x t :
  is_Some (m !! tid) → is_Some (<[tid:=x]> m !! t) ↔ is_Some (m !! t).
Proof. intros. rewrite lookup_insert_is_Some. destruct (decide (tid = t)); naive_solver. Qed.

(** A tenant's queue replaced by a part of itself. *)
Lemma inv_shrink_queue (hole : pystr → Prop) s tid st q f :
  inv hole s → hole tid → c_tenants s !! tid = Some st →
  q `sublist_of` ts_queue st →
  f (c_queued s) = c_queued s - queue_len st + Z.of_nat (length q) →
  inv hole (on_queued f (on_tenants <[tid := set_queue q st]> s)).
Proof.
  intros Hi Hh Ht Hsub Hf. pose proof (sublist_length _ _ Hsub).
  constructor; simpl; try apply Hi; rewrite ?Hf.
  - intros t. rewrite is_Some_put by done. apply Hi.
  - intros t st' Ht'. map_simpl; [|by destruct (inv_tenants _ _ Hi t st')].
    destruct (inv_tenants _ _ Hi _ _ Ht) as [? ? Hqb ? ? ? ?].
    constructor; simpl; eauto using sublist_NoDup, sublist_StronglySorted, elem_of_sublist.
    unfold queue_len in *; simpl; lia.
  - intros t1 t2 st1 st2 w H1 H2 Hw1 Hw2. map_simpl; try done.
    all: eapply (inv_sep _ _ Hi); eauto using elem_of_sublist.
  - rewrite (sum_map_insert _ _ _ st), (inv_inflight _ _ Hi) by done. simpl. lia.
  - rewrite (sum_map_insert _ _ _ st), (inv_queued _ _ Hi), queue_len_set by done. lia.
  - pose proof (inv_qcap _ _ Hi). unfold queue_len. lia.
  - intros t Hact. rewrite is_Some_put by done. eauto with adm.
  - intros t st' Ht' Hnh. map_simpl; [done|]. by apply (inv_active _ _ Hi).
  - intros l le Hl. rewrite is_Some_put by done. by apply (inv_leases _ _ Hi) in Hl.
Qed.

(** A fresh pending waiter joins the queue of a tenant within its bounds. *)
Lemma inv_enqueue (hole : pystr → Prop) s tid st :
  inv hole s → hole tid → c_tenants s !! tid = Some st →
  queue_len st < max_queue (ts_tenant st) → c_queued s < c_max_queue s →
  let w := c_next s in
  inv hole (on_queued Z.succ (on_tenants <[tid := set_queue (ts_queue st ++ [w]) st]>
    (on_futures <[w := FPending]> (on_next S s)))).
Proof.
  intros Hi Hh Ht Hq Hg w.
  assert (Hfresh : ∀ t st', c_tenants s !! t = Some st' → w ∉ ts_queue st').
  { intros t st' Ht' Hw. destruct (to_futures _ _ _ (inv_tenants _ _ Hi _ _ Ht') _ Hw) as (f & Hf & _).
    apply mk_is_Some, (inv_fresh_f _ _ Hi) in Hf. unfold w in Hf. lia. }
  assert (Hfut : ∀ t st' v, c_tenants s !! t = Some st' → v ∈ ts_queue st' →
    ∃ f, <[w:=FPending]> (c_futures s) !! v = Some f ∧ waiting_future f).
  { intros t st' v Ht' Hv. rewrite lookup_insert_ne by (intros <-; by eapply Hfresh).
    by apply (to_futures _ _ _ (inv_tenants _ _ Hi _ _ Ht')). }
  assert (Hnew : ∀ t st', <[tid:=set_queue (ts_queue st ++ [w]) st]> (c_tenants s) !! t = Some st' →
    w ∈ ts_queue st' → t = tid).
  { intros t st' Ht' Hw. map_simpl; [done|]. by edestruct Hfresh. }
  assert (Hold : ∀ t st' v, <[tid:=set_queue (ts_queue st ++ [w]) st]> (c_tenants s) !! t = Some st' →
    v ≠ w → v ∈ ts_queue st' → ∃ st0, c_tenants s !! t = Some st0 ∧ v ∈ ts_queue st0).
  { intros t st' v Ht' Hne Hv. map_simpl; [|by eauto]. exists st. split; [done|]. set_solver. }
  constructor; simpl; try apply Hi.
  - intros t. rewrite is_Some_put by done. apply Hi.
  - intros t st' Ht'. map_simpl.
    + destruct (inv_tenants _ _ Hi _ _ Ht) as [? ? Hqb ? ? ? ?]. constructor; simpl; eauto.
      * rewrite queue_len_set, length_app. unfold queue_len in *. simpl. lia.
      * apply NoDup_app. split_and!; [done|set_solver|apply NoDup_singleton].
      * apply StronglySorted_app_2; [|done|by repeat constructor].
        intros v v' Hv ->%list_elem_of_singleton.
        destruct (to_futures0 v Hv) as (? & Hf%mk_is_Some%(inv_fresh_f _ _ Hi) & _). done.
      * intros v [Hv| ->%list_elem_of_singleton]%elem_of_app; [by eapply Hfut|].
        exists FPending. by rewrite lookup_insert_eq; split; [|left].
    + destruct (inv_tenants _ _ Hi t st') as [? ? ? ? ? ? ?]; [done|]. constructor; eauto.
  - intros t1 t2 st1 st2 v H1 H2 Hw1 Hw2. destruct (decide (v = w)) as [->|Hne].
    + rewrite (Hnew _ _ H1 Hw1). by rewrite (Hnew _ _ H2 Hw2).
    + destruct (Hold _ _ _ H1 Hne Hw1) as (? & ? & ?), (Hold _ _ _ H2 Hne Hw2) as (? & ? & ?).
      by eapply (inv_sep _ _ Hi).
  - rewrite (sum_map_insert _ _ _ st), (inv_inflight _ _ Hi) by done. simpl. lia.
  - rewrite (sum_map_insert _ _ _ st), (inv_queued _ _ Hi), queue_len_set, length_app by done.
    unfold queue_len. simpl. lia.
  - lia.
  - intros t Hact. rewrite is_Some_put by done. eauto with adm.
  - intros t st' Ht' Hnh. map_simpl; [done|]. by apply (inv_active _ _ Hi).
  - intros l le Hl. rewrite is_Some_put by done. by apply (inv_leases _ _ Hi) in Hl.
  - intros i. rewrite lookup_insert_is_Some'. intros [<-|Hs%(inv_fresh_f _ _ Hi)]; unfold w; lia.
  - intros i Hs%(inv_fresh_l _ _ Hi). lia.
  - intros v l Hv. map_simpl. by eapply (inv_result _ _ Hi).
  - intros v1 v2 l Hv1 Hv2. map_simpl. by eapply (inv_once _ _ Hi).
Qed.

(** A pending future of a waiter that is in no queue gets its result. *)
Lemma inv_set_result hole s w l :
  inv hole s → is_Some (c_leases s !! l) → is_Some (c_futures s !! w) →
  (∀ tid st, c_tenants s !! tid = Some st → w ∉ ts_queue st) →
  (∀ v, c_futures s !! v ≠ Some (FResult l)) →
  inv hole (on_futures <[w := FResult l]> s).
Proof.
  intros Hi Hl Hw Hq Hn. constructor; simpl; try apply Hi.
  - intros t st Ht. destruct (inv_tenants _ _ Hi _ _ Ht) as [? ? ? ? ? Hf ?]. constructor; eauto.
    intros v Hv. simpl. rewrite lookup_insert_ne by (intros <-; by eapply Hq). by apply Hf.
  - intros i [<-|Hs]%lookup_insert_is_Some'; by apply (inv_fresh_f _ _ Hi).
  - intros v l' Hv. map_simpl; try done. by eapply (inv_result _ _ Hi).
  - intros v1 v2 l' Hv1 Hv2. map_simpl; try done; try by edestruct Hn.
    by eapply (inv_once _ _ Hi).
Qed.

(** A drained waiter's future fails. *)
Lemma inv_set_exception hole s w e :
  inv hole s → is_Some (c_futures s !! w) →
  (∀ tid st, c_tenants s !! tid = Some st → w ∉ ts_queue st) →
  inv hole (on_futures <[w := FException e]> s).
Proof.
  intros Hi Hw Hq. constructor; simpl; try apply Hi.
  - intros t st Ht. destruct (inv_tenants _ _ Hi _ _ Ht) as [? ? ? ? ? Hf ?]. constructor; eauto.
    intros v Hv. simpl. rewrite lookup_insert_ne by (intros <-; by eapply Hq). by apply Hf.
  - intros i [<-|Hs]%lookup_insert_is_Some'; by apply (inv_fresh_f _ _ Hi).
  - intros v l' Hv. map_simpl. by eapply (inv_result _ _ Hi).
  - intros v1 v2 l' Hv1 Hv2. map_simpl. by eapply (inv_once _ _ Hi).
Qed.

(** A cancelled future keeps its result if it had one. *)
Lemma lookup_cancel (m : gmap nat (future exn nat)) w v f :
  alter fut_cancel w m !! v = Some f →
  m !! v = Some f ∨ v = w ∧ m !! v = Some FPending ∧ f = FCancelled.
Proof.
  destruct (decide (w = v)) as [->|]; [|rewrite lookup_alter_ne by done; by left].
  rewrite lookup_alter_eq. destruct (m !! v) as [[]|]; simpl; naive_solver.
Qed.

(** Cancelling a future leaves the queues alone. *)
Lemma inv_cancel_future hole s w : inv hole s → inv hole (on_futures (alter fut_cancel w) s).
Proof.
  intros Hi. constructor; simpl; try apply Hi.
  - intros t st Ht. destruct (inv_tenants _ _ Hi _ _ Ht) as [? ? ? ? ? Hf ?]. constructor; eauto.
    intros v Hv. destruct (Hf v Hv) as (f & Hfv & Hw). simpl.
    destruct (decide (w = v)) as [->|]; [|rewrite lookup_alter_ne by done; eauto].
    rewrite lookup_alter_eq, Hfv. exists (fut_cancel f). split; [done|].
    right. by destruct Hw as [-> | ->].
  - intros i. rewrite lookup_alter_is_Some. apply (inv_fresh_f _ _ Hi).
  - intros v l [Hv|(_ & _ & [=])]%lookup_cancel. by eapply (inv_result _ _ Hi).
  - intros v1 v2 l [H1|(_ & _ & [=])]%lookup_cancel [H2|(_ & _ & [=])]%lookup_cancel.
    by eapply (inv_once _ _ Hi).
Qed.

(** A new lease takes one slot of its tenant and one of the gateway. *)
Lemma live_own tid le : l_tenant le = tid → l_released le = false → live tid le = 1.
Proof. intros. unfold live. by rewrite decide_True. Qed.
Lemma live_other tid le : l_tenant le ≠ tid ∨ l_released le = true → live tid le = 0.
Proof. intros H. unfold live. rewrite decide_False; [done|]. intros [? ?]. destruct H; congruence. Qed.

Lemma inv_grant hole s tid st wq now :
  inv hole s → c_tenants s !! tid = Some st → can_admit st s = true →
  let l := c_next s in
  inv hole (on_leases <[l := Lease tid wq now false]> (on_next S
    (on_inflight Z.succ (on_tenants <[tid := set_inflight (ts_inflight st + 1) st]> s)))).
Proof.
  intros Hi Ht [Hc%Z.ltb_lt Hg%Z.ltb_lt]%andb_prop l.
  assert (Hl : c_leases s !! l = None).
  { apply eq_None_not_Some. intros Hs%(inv_fresh_l _ _ Hi). unfold l in Hs. lia. }
  constructor; simpl; try apply Hi.
  - intros t. rewrite is_Some_put by done. apply Hi.
  - intros t st' Ht'. map_simpl.
    + destruct (inv_tenants _ _ Hi _ _ Ht). constructor; simpl; eauto; [lia|].
      rewrite sum_map_insert_None, live_own by done. lia.
    + destruct (inv_tenants _ _ Hi t st') as []; [done|]. constructor; simpl; eauto.
      rewrite sum_map_insert_None, live_other by (try left; done). lia.
  - intros t1 t2 st1 st2 w H1 H2 Hw1 Hw2. map_simpl; try done.
    all: eapply (inv_sep _ _ Hi); eauto.
  - rewrite (sum_map_insert _ _ _ st), (inv_inflight _ _ Hi) by done. simpl. lia.
  - lia.
  - rewrite (sum_map_insert _ _ _ st), (inv_queued _ _ Hi) by done. unfold queue_len. simpl. lia.
  - intros t Hact. rewrite is_Some_put by done. eauto with adm.
  - intros t st' Ht' Hnh. map_simpl; [exact (inv_active _ _ Hi _ _ Ht Hnh)|].
    by apply (inv_active _ _ Hi).
  - intros i le Hle. rewrite is_Some_put by done. map_simpl; try done. by eapply (inv_leases _ _ Hi).
  - intros i Hs%(inv_fresh_f _ _ Hi). lia.
  - intros i. rewrite lookup_insert_is_Some'. intros [<-|Hs%(inv_fresh_l _ _ Hi)]; unfold l; lia.
  - intros w i Hw%(inv_result _ _ Hi). rewrite lookup_insert_is_Some'. by right.
Qed.

(** Releasing a live lease gives both slots back. *)
Lemma inv_release hole s l le st :
  inv hole s → c_leases s !! l = Some le → l_released le = false →
  c_tenants s !! l_tenant le = Some st →
  inv hole (on_inflight Z.pred (on_tenants <[l_tenant le := set_inflight (ts_inflight st - 1) st]>
    (on_leases <[l := Lease (l_tenant le) (l_was_queued le) (l_granted_at le) true]> s))).
Proof.
  intros Hi Hl Hr Ht. set (tid := l_tenant le) in *. constructor; simpl; try apply Hi.
  - intros t. rewrite is_Some_put by done. apply Hi.
  - intros t st' Ht'. map_simpl.
    + destruct (inv_tenants _ _ Hi _ _ Ht). constructor; simpl; eauto; [lia|].
      rewrite (sum_map_insert _ _ _ le), (live_own _ le), live_other by (try right; done). lia.
    + destruct (inv_tenants _ _ Hi t st') as []; [done|]. constructor; simpl; eauto.
      rewrite (sum_map_insert _ _ _ le), !live_other by (try left; done). lia.
  - intros t1 t2 st1 st2 w H1 H2 Hw1 Hw2. map_simpl; try done.
    all: eapply (inv_sep _ _ Hi); eauto.
  - rewrite (sum_map_insert _ _ _ st), (inv_inflight _ _ Hi) by done. simpl. lia.
  - pose proof (inv_cap _ _ Hi). lia.
  - rewrite (sum_map_insert _ _ _ st), (inv_queued _ _ Hi) by done. unfold queue_len. simpl. lia.
  - intros t Hact. rewrite is_Some_put by done. eauto with adm.
  - intros t st' Ht' Hnh. map_simpl; [exact (inv_active _ _ Hi _ _ Ht Hnh)|].
    by apply (inv_active _ _ Hi).
  - intros i le' Hle. rewrite is_Some_put by done. map_simpl; try done. by eapply (inv_leases _ _ Hi).
  - intros i. rewrite lookup_insert_is_Some'. intros [<-|Hs]; by eapply (inv_fresh_l _ _ Hi).
  - intros w i Hw%(inv_result _ _ Hi). rewrite lookup_insert_is_Some'. by right.
Qed.

(** * The round-robin list *)

Lemma inv_activate s tid st :
  inv (only tid) s → c_tenants s !! tid = Some st → ts_queue st ≠ [] →
  inv no_hole (if decide (tid ∈ c_active_ids s) then s
               else on_active_ids (λ ids, {[tid]} ∪ ids) (on_active (λ l, l ++ [tid]) s)).
Proof.
  intros Hi Ht Hq. destruct (decide _) as [Hin|Hni].
  - constructor; try apply Hi. intros t st' Ht' _.
    destruct (decide (t = tid)) as [->|]; [|by apply (inv_active _ _ Hi)].
    apply (inv_ids _ _ Hi) in Hin. by simplify_eq.
  - constructor; simpl; try apply Hi.
    + intros t st' Ht'. by destruct (inv_tenants _ _ Hi _ _ Ht').
    + apply NoDup_app. split_and!; [apply Hi| |apply NoDup_singleton].
      intros t Hact ->%list_elem_of_singleton. by apply (inv_ids _ _ Hi) in Hact.
    + intros t. rewrite elem_of_app, elem_of_union, list_elem_of_singleton, elem_of_singleton,
        (inv_ids _ _ Hi). tauto.
    + intros t [Hact| ->%list_elem_of_singleton]%elem_of_app; [eauto with adm|done].
    + intros t st' Ht' _. rewrite elem_of_app, list_elem_of_singleton.
      destruct (decide (t = tid)) as [->|Hne]; [simplify_eq; tauto|].
      rewrite (inv_active _ _ Hi t st') by done. tauto.
Qed.

(** An inactive tenant with an empty queue needs no place in the list. *)
Lemma inv_unhole s tid st :
  inv (only tid) s → c_tenants s !! tid = Some st → (tid ∈ c_active s ↔ ts_queue st ≠ []) →
  inv no_hole s.
Proof.
  intros Hi Ht Hq. constructor; try apply Hi. intros t st' Ht' _.
  destruct (decide (t = tid)) as [->|]; [by simplify_eq|by apply (inv_active _ _ Hi)].
Qed.

(** The dispatcher takes the tenant at the head of the list. *)
Lemma inv_pop_active s tid rest :
  inv no_hole s → c_active s = tid :: rest →
  inv (only tid) (on_active_ids (λ ids, ids ∖ {[tid]}) (on_active (λ _, rest) s)) ∧ tid ∉ rest.
Proof.
  intros Hi Ha. pose proof (inv_nodup _ _ Hi) as Hnd. rewrite Ha in Hnd.
  apply NoDup_cons in Hnd as [Hni Hnd]. split; [|done].
  constructor; simpl; try apply Hi; [|done|..].
  - intros t st' Ht'. by destruct (inv_tenants _ _ Hi _ _ Ht').
  - intros t. rewrite elem_of_difference, elem_of_singleton, (inv_ids _ _ Hi), Ha, elem_of_cons.
    naive_solver.
  - intros t Ht. apply (inv_active_dom _ _ Hi). rewrite Ha. by right.
  - intros t st Ht Hne. rewrite <- (inv_listed _ t st Hi Ht).
    rewrite Ha, elem_of_cons. unfold only in Hne. tauto.
Qed.

(** A tenant leaves the list when its queue became empty. *)
Lemma deque_remove_spec {A} `{EqDecision A} (x : A) l :
  match deque_remove x l with
  | Some l' => x ∈ l ∧ l ≡ₚ x :: l' ∧ l' `sublist_of` l
  | None => x ∉ l
  end.
Proof.
  unfold deque_remove. case_decide as Hx; [|done]. split; [done|].
  induction l as [|y l IH]; [by apply elem_of_nil in Hx|]. case_decide as Hxy.
  { subst. split; [done|apply sublist_tail]. }
  apply elem_of_cons in Hx as [?|Hx]; [done|]. destruct (IH Hx) as [Hp Hs].
  split; [|by constructor]. rewrite Permutation_swap. by rewrite <- Hp.
Qed.
