(* ===== verification/AdmissionOps.v ===== *)
(** The critical sections of the admission controller against its invariant:
    each one keeps it, raises only what the code means to raise, and leaves no
    admissible waiter behind. *)
From S2P Require Import Prelude.
From S2P Require Import Python.
From S2P Require Import Errors.
From S2P Require Import Auth.
From S2P Require Import Admission.
From S2P Require Import AdmissionInv.

(** * Relations between the states of a section *)

(** Equal up to the queues, the clock and the observer. *)
Record same_rest (s s' : ctrl) : Prop := {
  sr_order : c_order s' = c_order s;
  sr_max : c_max_inflight s' = c_max_inflight s;
  sr_maxq : c_max_queue s' = c_max_queue s;
  sr_inflight : c_inflight s' = c_inflight s;
  sr_active : c_active s' = c_active s;
  sr_ids : c_active_ids s' = c_active_ids s;
  sr_closed : c_closed s' = c_closed s;
  sr_futures : c_futures s' = c_futures s;
  sr_leases : c_leases s' = c_leases s;
  sr_next : c_next s' = c_next s;
}.

(** Equal up to the clock and the observer. *)
Definition quiet (s s' : ctrl) : Prop :=
  same_rest s s' ∧ c_tenants s' = c_tenants s ∧ c_queued s' = c_queued s.

(** What a section does to the objects that exist when it starts: leases stay as
    they are, a new lease is the result of a future that was pending. *)
Record evolves (s s' : ctrl) : Prop := {
  ev_closed : c_closed s' = c_closed s;
  ev_order : c_order s' = c_order s;
  ev_max : c_max_inflight s' = c_max_inflight s;
  ev_maxq : c_max_queue s' = c_max_queue s;
  ev_next : (c_next s ≤ c_next s')%nat;
  ev_tenant tid st : c_tenants s !! tid = Some st →
    ∃ st', c_tenants s' !! tid = Some st' ∧ ts_tenant st' = ts_tenant st
           ∧ ts_inflight st ≤ ts_inflight st' ∧ ts_queue st' `sublist_of` ts_queue st
           ∧ ∀ w, w ∈ ts_queue st → c_futures s' !! w = Some FPending → w ∈ ts_queue st';
  ev_lease l le : c_leases s !! l = Some le → c_leases s' !! l = Some le;
  ev_new l le : c_leases s' !! l = Some le → c_leases s !! l = None →
    l_released le = false ∧
    ∃ w, c_futures s !! w = Some FPending ∧ c_futures s' !! w = Some (FResult l);
  ev_future w : c_futures s' !! w = c_futures s !! w ∨
    c_futures s !! w = Some FPending ∧ ∃ l, c_futures s' !! w = Some (FResult l)
                                           ∧ c_leases s !! l = None;
  ev_fifo tid st w1 w2 : c_tenants s !! tid = Some st → w1 ∈ ts_queue st → w2 ∈ ts_queue st →
    (w1 < w2)%nat → c_futures s' !! w1 = Some FPending → c_futures s' !! w2 = c_futures s !! w2;
  ev_owner tid st w l : c_tenants s !! tid = Some st → w ∈ ts_queue st →
    c_futures s !! w = Some FPending → c_futures s' !! w = Some (FResult l) →
    ∃ le, c_leases s' !! l = Some le ∧ l_tenant le = tid;
}.

#[export] Instance same_rest_refl : Reflexive same_rest.
Proof. by constructor. Qed.
#[export] Instance same_rest_trans : Transitive same_rest.
Proof. intros s1 s2 s3 [] []. constructor; congruence. Qed.
#[export] Instance quiet_refl : Reflexive quiet.
Proof. by split. Qed.
#[export] Instance quiet_trans : Transitive quiet.
Proof. intros s1 s2 s3 (?&?&?) (?&?&?). split_and!; [by etrans|congruence..]. Qed.

#[export] Instance evolves_refl : Reflexive evolves.
Proof. intros s. constructor; eauto; try congruence. intros. eexists. split_and!; eauto; lia. Qed.

#[export] Instance evolves_trans : Transitive evolves.
Proof.
  intros s1 s2 s3 H1 H2. constructor; try (etrans; [apply H2|apply H1]); try (etrans; [apply H1|apply H2]).
  - intros tid st Ht. destruct (ev_tenant _ _ H1 _ _ Ht) as (st2 & Ht2 & ? & ? & ? & Hp).
    destruct (ev_tenant _ _ H2 _ _ Ht2) as (st3 & ? & ? & ? & ? & Hp').
    exists st3. split_and!; [done|congruence|lia|by etrans|].
    intros w Hw Hf. apply Hp'; [apply Hp; [done|]|done].
    destruct (ev_future _ _ H2 w) as [<-|[? _]]; done.
  - intros l le Hl. by apply (ev_lease _ _ H2), (ev_lease _ _ H1).
  - intros l le Hl Hn. destruct (c_leases s2 !! l) as [le2|] eqn:Hl2.
    + destruct (ev_new _ _ H1 _ _ Hl2 Hn) as (? & w & Hw & Hw').
      apply (ev_lease _ _ H2) in Hl2. simplify_eq. split; [done|]. exists w. split; [done|].
      destruct (ev_future _ _ H2 w) as [->|[? _]]; congruence.
    + destruct (ev_new _ _ H2 _ _ Hl Hl2) as (? & w & Hw & Hw'). split; [done|]. exists w. split; [|done].
      destruct (ev_future _ _ H1 w) as [<-|[_ [? [? ?]]]]; congruence.
  - intros w. destruct (ev_future _ _ H1 w) as [Heq|[Hp [l [Hl Hn]]]].
    + destruct (ev_future _ _ H2 w) as [->|[Hp [l [Hl Hn]]]]; [by left|right].
      split; [congruence|]. exists l. split; [done|].
      apply eq_None_not_Some. intros [le Hle%(ev_lease _ _ H1)]. congruence.
    + right. split; [done|]. exists l. destruct (ev_future _ _ H2 w) as [->|[? _]]; [done|congruence].
  - intros tid st w1 w2 Ht Hw1 Hw2 Hlt Hp3.
    assert (c_futures s2 !! w1 = Some FPending) as Hp2.
    { destruct (ev_future _ _ H2 w1) as [<-|[? _]]; done. }
    rewrite <- (ev_fifo _ _ H1 _ _ _ _ Ht Hw1 Hw2 Hlt Hp2).
    destruct (ev_tenant _ _ H1 _ _ Ht) as (st2 & Ht2 & _ & _ & _ & Hk).
    destruct (ev_future _ _ H2 w2) as [Heq|[Hpw2 _]]; [done|].
    by apply (ev_fifo _ _ H2 tid st2 w1 w2); auto.
  - intros tid st w l Ht Hw Hp Hr. destruct (ev_future _ _ H2 w) as [Heq|[Hp2 _]].
    + rewrite Heq in Hr. destruct (ev_owner _ _ H1 _ _ _ _ Ht Hw Hp Hr) as (le & ? & ?).
      exists le. split; [by apply (ev_lease _ _ H2)|done].
    + destruct (ev_tenant _ _ H1 _ _ Ht) as (st2 & Ht2 & _ & _ & _ & Hk).
      by eapply (ev_owner _ _ H2); eauto.
Qed.

Lemma quiet_inv hole s s' : inv hole s → quiet s s' → inv hole s'.
Proof.
  intros Hi [[] [? ?]]. destruct s, s'; simpl in *; subst.
  destruct Hi as [? Ht]; constructor; simpl in *; try assumption.
  intros tid st Htid. by destruct (Ht tid st Htid).
Qed.

Lemma quiet_evolves s s' : quiet s s' → evolves s s'.
Proof.
  intros [[] [? ?]]. constructor; try congruence; try lia.
  - intros tid st Ht. exists st. split_and!; [congruence|done|lia|done|done].
  - intros w. left. congruence.
Qed.

(** No waiter could be admitted: the gateway is full, or every tenant with
    waiters is at its own limit. *)
Definition at_limit (s : ctrl) (tid : pystr) : Prop :=
  ∃ st, c_tenants s !! tid = Some st ∧ max_inflight (ts_tenant st) ≤ ts_inflight st.
Definition busy (s : ctrl) : Prop :=
  c_max_inflight s ≤ c_inflight s ∨ Forall (at_limit s) (c_active s).

Lemma quiet_busy s s' : busy s → quiet s s' → busy s'.
Proof.
  intros Hb [[] [Ht ?]]. unfold busy, at_limit in *. destruct Hb as [?|Hb]; [left; congruence|right].
  rewrite sr_active0, Ht. done.
Qed.

#[export] Hint Resolve quiet_inv quiet_evolves quiet_busy : adm.

(** * Primitive methods *)

Section ops.
Context (clock : nat → Z).

Lemma wp_notify (Q : unit → ctrl → Prop) X s :
  (∀ s', quiet s s' → Q () s') → wp notify_observer Q X s.
Proof. intros HQ. apply HQ. case_match; by repeat constructor. Qed.

Lemma wp_read_clock (Q : Z → ctrl → Prop) X s :
  (∀ t s', quiet s s' → Q t s') → wp (read_clock clock) Q X s.
Proof. intros HQ. apply HQ. by repeat constructor. Qed.

Lemma wp_observe_wait t0 o t1 (Q : unit → ctrl → Prop) X s :
  (∀ s', quiet s s' → Q () s') → wp (observe_wait clock t0 o t1) Q X s.
Proof.
  intros HQ. unfold observe_wait. do 2 wp_step. case_match; [by wp_step; apply HQ|].
  wp_step. destruct t1; [wp_step; wp_step; apply HQ; by repeat constructor|].
  apply wp_read_clock. intros t s' Hq. wp_step. apply HQ. etrans; [done|by repeat constructor].
Qed.

Lemma wp_tenant tid st (Q : tenant_state → ctrl → Prop) X s :
  c_tenants s !! tid = Some st → Q st s → wp (tenant tid) Q X s.
Proof. intros Ht HQ. unfold tenant. do 2 wp_step. by eapply wp_unwrap. Qed.

(** Dropping resolved waiters leaves the tenant a queue whose head, if any, is
    pending. *)
Record discarded (tid : pystr) (st : tenant_state) (q : list nat) (s s' : ctrl) : Prop := {
  di_rest : same_rest s s';
  di_tenants : c_tenants s' = <[tid := set_queue q st]> (c_tenants s);
  di_suffix : q `sublist_of` ts_queue st;
  di_head w q' : q = w :: q' → future_done s w = false;
di_kept w : w ∈ ts_queue st → future_done s w = false → w ∈ q;
}.

Lemma wp_discard_loop hole n tid st b s :
  inv hole s → hole tid → c_tenants s !! tid = Some st → (length (ts_queue st) ≤ n)%nat →
  wp (discard_loop n tid b)
     (λ _ s', inv hole s' ∧ ∃ q, discarded tid st q s s') (λ _ _, False) s.
Proof.
  revert st b s. induction n as [|n IH]; intros st b s Hi Hh Ht Hn; simpl.
  { wp_step. split; [done|]. destruct st as [ctx i [|]]; simpl in *; [|lia].
    exists []. split; [done| |done..]. by rewrite insert_id. }
  wp_step. eapply wp_tenant; [done|]. do 2 wp_step.
  assert (Hsame : inv hole s ∧ (∀ w q', ts_queue st = w :: q' → future_done s w = false) →
    inv hole s ∧ ∃ q, discarded tid st q s s).
  { intros [? Hhd]. split; [done|]. exists (ts_queue st). split; [done| |done..].
    destruct st; simpl. by rewrite insert_id. }
  destruct (ts_queue st) as [|w rest] eqn:Hq; [by wp_step; apply Hsame|].
  destruct (future_done s w) eqn:Hd;
    [|wp_step; apply Hsame; split; [done|congruence]].
  unfold put_tenant. do 4 wp_step.
  pose proof (inv_tenants _ _ Hi _ _ Ht) as [_ _ _ Hnd _ _ _]. rewrite Hq in Hnd.
  apply NoDup_cons in Hnd as [_ Hnd].
  eapply wp_mono; [apply (IH (set_queue rest st))|..]; simpl in *; [|done| |lia| |done].
  - apply inv_shrink_queue; rewrite ?Hq; try done; [by apply sublist_tail|].
    unfold queue_len. rewrite Hq. simpl. lia.
  - by rewrite lookup_insert_eq.
  - intros _ s' [Hi' [q [Hr Hts Hsuf Hhd Hk]]]. split; [done|]. exists q.
    split; [etrans; [|exact Hr]; by constructor| |rewrite Hq; by apply sublist_cons|done|].
    + rewrite Hts. simpl. by rewrite insert_insert_eq.
    + rewrite Hq. intros v [->|Hv]%elem_of_cons; [by rewrite Hd|by apply Hk].
Qed.

Lemma wp_discard hole tid st s :
  inv hole s → hole tid → c_tenants s !! tid = Some st →
  wp (discard_completed_waiters_locked tid)
     (λ _ s', inv hole s' ∧ ∃ q, discarded tid st q s s') (λ _ _, False) s.
Proof.
  intros Hi Hh Ht. unfold discard_completed_waiters_locked. wp_step.
  eapply wp_tenant; [done|]. wp_step. eapply wp_mono; [by apply wp_discard_loop|..|done].
  intros b s1 [Hi1 [q [Hr Hts Hsuf Hhd Hk]]]. destruct b; [|wp_step; eauto using discarded].
  apply wp_notify. intros s2 Hq. split; [eauto with adm|]. exists q. destruct Hq as (?&?&?).
  split; [by etrans|congruence|done..].
Qed.

Lemma discarded_evolves tid st q s s' :
  c_tenants s !! tid = Some st → discarded tid st q s s' → evolves s s'.
Proof.
  intros Ht [[] Hts Hsuf _ Hk]. constructor; try congruence; try lia.
  - intros t st' Ht'. rewrite Hts. destruct (decide (t = tid)) as [->|].
    + simplify_eq. exists (set_queue q st). rewrite lookup_insert_eq. split_and!; try done.
      intros w Hw Hp. apply Hk; [done|]. unfold future_done.
      by rewrite <- sr_futures0, Hp.
    + exists st'. by rewrite lookup_insert_ne.
  - intros w. left. congruence.
Qed.
(** * Granting *)

Definition grant_state (tid : pystr) (st : tenant_state) (wq : bool) (now : Z) (s : ctrl) : ctrl :=
  on_leases <[c_next s := Lease tid wq now false]> (on_next S
    (on_inflight Z.succ (on_tenants <[tid := set_inflight (ts_inflight st + 1) st]> s))).

Lemma wp_grant hole tid wq st s (Q : nat → ctrl → Prop) X :
  inv hole s → c_tenants s !! tid = Some st → can_admit st s = true →
  (∀ now s', inv hole s' → quiet (grant_state tid st wq now s) s' → Q (c_next s) s') →
  wp (grant_locked clock tid wq) Q X s.
Proof.
  intros Hi Ht Ha HQ. unfold grant_locked, put_tenant, read_clock. wp_step.
  eapply wp_tenant; [done|]. do 2 wp_step. rewrite Ha. simpl. wp_steps.
  apply wp_notify. intros s' Hq. wp_step.
  eapply (HQ (clock (c_reads s))); [|etrans; [|exact Hq]; by repeat constructor].
  eapply quiet_inv; [by apply (inv_grant _ _ _ _ wq (clock (c_reads s)) Hi Ht Ha)|].
  etrans; [|exact Hq]. by repeat constructor.
Qed.

Lemma wp_activate tid st s (Q : unit → ctrl → Prop) X :
  inv (only tid) s → c_tenants s !! tid = Some st → ts_queue st ≠ [] →
  (∀ s', inv no_hole s' → evolves s s' → c_tenants s' = c_tenants s →
    c_inflight s' = c_inflight s → c_queued s' = c_queued s → c_futures s' = c_futures s →
    c_leases s' = c_leases s → (tid ∉ c_active s → c_active s' = c_active s ++ [tid]) → Q () s') →
  wp (activate_tenant_locked tid) Q X s.
Proof.
  intros Hi Ht Hq HQ. apply wp_modify.
  apply HQ; [by eapply inv_activate|..]; case_decide as Hin; simpl; try done.
  - constructor; simpl; eauto; try congruence. intros t st' Ht'. exists st'. by split_and!.
  - intros Hni. by apply (inv_ids _ _ Hi) in Hin.
Qed.

Lemma pending_of_waiting s w f :
  c_futures s !! w = Some f → waiting_future f → future_done s w = false →
  c_futures s !! w = Some FPending.
Proof. unfold future_done. intros -> [-> | ->]; [done|]. simpl. congruence. Qed.

(** The admitted waiter is in no queue any more. *)
Lemma granted_not_queued hole tid st w q n s t st' :
  inv hole s → c_tenants s !! tid = Some st → ts_queue st = w :: q →
  <[tid := set_inflight n (set_queue q st)]> (<[tid := set_queue q st]> (c_tenants s)) !! t
    = Some st' → w ∉ ts_queue st'.
Proof.
  intros Hi Ht Hq Ht' Hw. pose proof (to_nodup _ _ _ (inv_tenants _ _ Hi _ _ Ht)) as Hnd.
  rewrite Hq in Hnd. apply NoDup_cons in Hnd as [Hni _].
  rewrite insert_insert_eq in Ht'. map_simpl; [done|].
  assert (tid = t) by (eapply (inv_sep _ _ Hi); [done..| |done]; rewrite Hq; by left). done.
Qed.

Lemma grant_evolves hole s s' tid st w q n l le :
  inv hole s →
  c_closed s' = c_closed s → c_order s' = c_order s → c_max_inflight s' = c_max_inflight s →
  c_max_queue s' = c_max_queue s → (c_next s ≤ c_next s')%nat →
  c_tenants s' = <[tid := set_inflight (ts_inflight st + n) (set_queue q st)]> (c_tenants s) →
  0 ≤ n → ts_queue st = w :: q → c_tenants s !! tid = Some st →
  c_futures s' = <[w := FResult l]> (c_futures s) → c_futures s !! w = Some FPending →
  c_leases s' = <[l := le]> (c_leases s) → c_leases s !! l = None →
  l_released le = false → l_tenant le = tid →
  evolves s s'.
Proof.
  intros Hi ? ? ? ? ? Hts Hn Hq Ht Hfs Hp Hls Hl Hr Hlt. constructor; try done.
  - intros t st' Ht'. rewrite Hts. destruct (decide (t = tid)) as [->|].
    + simplify_eq. exists (set_inflight (ts_inflight st + n) (set_queue q st)).
      rewrite lookup_insert_eq, Hq. simpl. split_and!; [done..|lia|by apply sublist_tail|].
      intros v [->|Hv]%elem_of_cons; [|done]. by rewrite Hfs, lookup_insert_eq.
    + exists st'. by rewrite lookup_insert_ne.
  - intros i le' Hle. rewrite Hls, lookup_insert_ne; congruence.
  - intros i le' Hle Hn'. rewrite Hls in Hle. map_simpl. split; [done|]. exists w.
    by rewrite Hfs, lookup_insert_eq.
  - intros v. rewrite Hfs. destruct (decide (w = v)) as [<-|].
    + rewrite lookup_insert_eq. eauto 6.
    + left. by rewrite lookup_insert_ne.
  - intros t st' w1 w2 Ht' Hw1 Hw2 Hltw. rewrite Hfs. intros Hp1.
    destruct (decide (w = w2)) as [<-|]; [exfalso|by rewrite lookup_insert_ne].
    assert (tid = t) as <- by (eapply (inv_sep _ _ Hi); [done..| |done]; rewrite Hq; by left).
    simplify_eq. pose proof (to_fifo _ _ _ (inv_tenants _ _ Hi _ _ Ht)) as Hs.
    rewrite Hq in Hs, Hw1. apply StronglySorted_inv in Hs as [_ Hs]. rewrite Forall_forall in Hs.
    apply elem_of_cons in Hw1 as [->|Hw1]; [lia|]. specialize (Hs _ Hw1). lia.
  - intros t st' v i Ht' Hv Hpv. rewrite Hfs. intros Hr'. map_simpl.
    exists le. rewrite Hls, lookup_insert_eq. split; [done|].
    eapply (inv_sep _ _ Hi); [done..| |done]. rewrite Hq. by left.
Qed.

(** The tenant whose head waiter is admitted goes to the back of the list, when
    it has more of them. *)
Definition granted_head (tid : pystr) (st : tenant_state) (w : nat) (q : list nat) (s s' : ctrl)
    : Prop :=
  c_tenants s' = <[tid := set_inflight (ts_inflight st + 1) (set_queue q st)]> (c_tenants s) ∧
  c_active s' = c_active s ++ match q with [] => [] | _ => [tid] end ∧
  ∃ l, c_futures s' = <[w := FResult l]> (c_futures s).

(** The part of the dispatcher that admits the waiter [w] at the head of a
    tenant's queue. *)
Lemma wp_dispatch_grant tid st w q s :
  inv (only tid) s → c_tenants s !! tid = Some st → ts_queue st = w :: q →
  future_done s w = false → ts_inflight st < max_inflight (ts_tenant st) →
  c_inflight s < c_max_inflight s → tid ∉ c_active s →
  wp (do! put_tenant tid (set_queue q st) in
      do! modify (on_queued Z.pred) in
      do! (match q with [] => ret () | _ => activate_tenant_locked tid end) in
      let! l := grant_locked clock tid true in
      do! complete_future w (FResult l) in
      ret true)
    (λ b s', b = true ∧ inv no_hole s' ∧ evolves s s' ∧ c_inflight s' = c_inflight s + 1 ∧
      granted_head tid st w q s s')
    (λ _ _, False) s.
Proof.
  intros Hi Ht Hq Hd Hlim Hg Hni. unfold put_tenant. do 4 wp_step.
  pose proof (inv_tenants _ _ Hi _ _ Ht) as [_ _ _ Hnd _ Hfut _]. rewrite Hq in Hnd, Hfut.
  apply NoDup_cons in Hnd as [Hwq Hnd].
  destruct (Hfut w) as (f & Hf & Hwf); [by left|].
  pose proof (pending_of_waiting _ _ _ Hf Hwf Hd) as Hp.
  set (s1 := on_queued Z.pred (on_tenants <[tid := set_queue q st]> s)).
  assert (Hi1 : inv (only tid) s1).
  { apply inv_shrink_queue; rewrite ?Hq; try done; [by apply sublist_tail|].
    unfold queue_len. rewrite Hq. simpl. lia. }
  assert (Ht1 : c_tenants s1 !! tid = Some (set_queue q st)) by apply lookup_insert_eq.
  wp_step. eapply (wp_mono _ (λ _ s2, inv no_hole s2 ∧ c_tenants s2 = c_tenants s1 ∧
    c_inflight s2 = c_inflight s ∧ c_futures s2 = c_futures s ∧ c_leases s2 = c_leases s ∧
    evolves s1 s2 ∧ c_active s2 = c_active s ++ match q with [] => [] | _ => [tid] end)
    _ (λ _ _, False));
    [destruct q as [|w' q]|..|done].
  - wp_step. split_and!; try done; [|by rewrite app_nil_r].
    apply (inv_unhole _ tid (set_queue [] st)); [done..|]. by split; [intros ?%Hni|].
  - eapply wp_activate; [done..|]. intros s2 ? ? ? ? _ ? ? Ha. split_and!; try done. by apply Ha.
  - intros _ s2 (Hi2 & Hts & Hin & Hfs & Hls & Hev & Hact). wp_step.
    eapply wp_grant; [done|by rewrite Hts| |].
    { unfold can_admit. simpl. rewrite Hin, (ev_max _ _ Hev). simpl. lia. }
    intros now s3 Hi3 [[] [Hts3 _]]. unfold complete_future. do 3 wp_step.
    unfold future_done. rewrite sr_futures0. simpl. rewrite Hfs, Hp. simpl. do 2 wp_step.
    split_and!; [done| | |simpl; rewrite sr_inflight0; simpl; lia|split_and!; simpl].
    + apply inv_set_result; [done| | | |].
      * rewrite sr_leases0. simpl. by rewrite lookup_insert_eq.
      * rewrite sr_futures0. simpl. by rewrite Hfs, Hp.
      * rewrite Hts3. simpl. rewrite Hts. intros t st'. by apply (granted_not_queued _ _ _ _ _ _ _ _ _ Hi Ht Hq).
      * rewrite sr_futures0. simpl. intros v [? Hl]%(inv_result _ _ Hi2).
        apply mk_is_Some, (inv_fresh_l _ _ Hi2) in Hl. lia.
    + destruct Hev. subst s1. simpl in *. eapply (grant_evolves _ s _ tid st w q 1); simpl; try done; try congruence.
      * lia.
      * by rewrite Hts3, Hts, insert_insert_eq.
      * by rewrite sr_futures0, Hfs.
      * by rewrite sr_leases0, Hls.
      * rewrite <- Hls. apply eq_None_not_Some. intros ?%(inv_fresh_l _ _ Hi2). lia.
      * done.
      * done.
    + rewrite Hts3. simpl. rewrite Hts. apply insert_insert_eq.
    + rewrite sr_active0. simpl. by rewrite Hact.
    + exists (c_next s2). by rewrite sr_futures0, <- Hfs.
Qed.

(** * Dispatching *)

Lemma at_limit_evolves s s' tid : evolves s s' → at_limit s tid → at_limit s' tid.
Proof.
  intros Hev (st & Ht & Hl). destruct (ev_tenant _ _ Hev _ _ Ht) as (st' & Ht' & Hc & ? & _ & _).
  exists st'. rewrite Hc. split; [done|lia].
Qed.

Lemma at_limits_evolve s s' l : evolves s s' → Forall (at_limit s) l → Forall (at_limit s') l.
Proof. intros Hev Hl. eapply Forall_impl; [done|]. intros tid. by apply at_limit_evolves. Qed.

(** A candidate leaves the list and its resolved waiters are dropped. *)
Lemma wp_candidate tid rest s :
  inv no_hole s → c_active s = tid :: rest →
  wp (discard_completed_waiters_locked tid)
    (λ _ s', inv (only tid) s' ∧ evolves s s' ∧ c_inflight s' = c_inflight s ∧
      c_active s' = rest ∧ (tid ∉ rest) ∧ (∃ st, c_tenants s' !! tid = Some st ∧
      ∀ w q, ts_queue st = w :: q → future_done s' w = false) ∧
      (∀ t, t ≠ tid → c_tenants s' !! t = c_tenants s !! t) ∧ c_futures s' = c_futures s ∧
      (∀ st, c_tenants s !! tid = Some st → ∃ q, c_tenants s' !! tid = Some (set_queue q st)))
    (λ _ _, False) (on_active_ids (λ ids, ids ∖ {[tid]}) (on_active (λ _, rest) s)).
Proof.
  intros Hi Ha. destruct (inv_pop_active _ _ _ Hi Ha) as [Hi1 Hni].
  destruct (inv_active_dom _ _ Hi tid) as [st Ht]; [rewrite Ha; by left|].
  set (s1 := on_active_ids _ _) in *. assert (evolves s s1) as Hev.
  { constructor; simpl; eauto; try congruence. intros t st' Ht'. exists st'. by split_and!. }
  eapply wp_mono; [by apply (wp_discard (only tid) _ st)|..|done].
  intros _ s' [Hi' [q Hdi]]. pose proof (discarded_evolves tid st q s1 s' Ht Hdi) as Hev'.
  destruct Hdi as [[] Hts _ Hhd _]. split_and!; [done|by etrans|done..| | |done|].
  - exists (set_queue q st). rewrite Hts, lookup_insert_eq. split; [done|].
    intros w q' Hq. unfold future_done in *. rewrite sr_futures0. by apply (Hhd w q').
  - intros t Hne. by rewrite Hts, lookup_insert_ne.
  - intros st' Ht'. simplify_eq. exists q. by rewrite Hts, lookup_insert_eq.
Qed.

Definition round_post (s : ctrl) (granted : bool) (s' : ctrl) : Prop :=
  inv no_hole s' ∧ evolves s s' ∧
  if granted then c_inflight s' = c_inflight s + 1
  else c_inflight s' = c_inflight s ∧ Forall (at_limit s') (c_active s').

Lemma round_post_step s s1 b s' :
  evolves s s1 → c_inflight s1 = c_inflight s → round_post s1 b s' → round_post s b s'.
Proof.
  intros He Hi (? & ? & Hb). split_and!; [done|by etrans|]. destruct b; [lia|].
  destruct Hb. split; [congruence|done].
Qed.

(** One round looks at every listed tenant until it can admit a waiter; when it
    admits none, every tenant left in the list is at its limit. *)
Lemma wp_dispatch_round todo rest s :
  inv no_hole s → c_inflight s < c_max_inflight s →
  c_active s = todo ++ rest → Forall (at_limit s) rest →
  wp (dispatch_round clock (length todo)) (round_post s) (λ _ _, False) s.
Proof.
  revert rest s. induction todo as [|tid todo IH]; intros rest s Hi Hg Ha Hl; cbn [length dispatch_round].
  { wp_step. split_and!; [done..|]. by rewrite Ha. }
  do 2 wp_step. rewrite Ha. cbn [app]. do 2 wp_step. cbn [c_active_ids on_active].
  rewrite decide_False by (intros Hn; apply Hn, (inv_ids _ _ Hi); rewrite Ha; by left).
  do 3 wp_step. eapply wp_mono; [by apply (wp_candidate _ (todo ++ rest))|..|done].
  intros _ s1 (Hi1 & Hev & Hin & Ha1 & Hni & (st & Ht & Hhd) & _). cbn beta.
  wp_step. eapply wp_tenant; [done|].
  pose proof (ev_max _ _ Hev) as Hmax.
  destruct (ts_queue st) as [|w q] eqn:Hq.
  - eapply wp_mono; [apply (IH rest)|..|done]; [|lia|done|by eapply at_limits_evolve|].
    + apply (inv_unhole _ tid st); [done..|]. by rewrite Hq, Ha1; split; [intros ?%Hni|].
    + intros b s'. by apply round_post_step.
  - destruct (Z.leb_spec (max_inflight (ts_tenant st)) (ts_inflight st)) as [Hlim|Hlim].
    + wp_step. eapply wp_activate; [done..|by rewrite Hq|].
      intros s2 Hi2 Hev2 Hts Hin2 _ _ _ Ha2. rewrite Ha1, <- app_assoc in Ha2.
      eapply wp_mono; [apply (IH (rest ++ [tid]))|..|done]; [done| |by apply Ha2| |].
      * rewrite (ev_max _ _ Hev2). lia.
      * apply Forall_app. split; [by eapply at_limits_evolve, at_limits_evolve|].
        constructor; [|done]. exists st. by rewrite Hts.
      * intros b s'. apply round_post_step; [by etrans|congruence].
    + eapply wp_mono; [eapply (wp_dispatch_grant tid st w q)|..|done]; try done;
        [by eapply Hhd|lia|by rewrite Ha1|].
      intros b s' (-> & ? & ? & ? & _). split_and!; [done|by etrans|lia].
Qed.

(** The dispatcher admits waiters until none is admissible; the free slots
    bound its iterations. *)
Lemma wp_dispatch_while fuel s :
  inv no_hole s → c_max_inflight s - c_inflight s < Z.of_nat fuel →
  wp (dispatch_while clock fuel)
    (λ _ s', inv no_hole s' ∧ evolves s s' ∧ busy s') (λ _ _, False) s.
Proof.
  revert s. induction fuel as [|fuel IH]; intros s Hi Hf.
  { pose proof (inv_cap _ _ Hi). lia. }
  cbn [dispatch_while]. do 2 wp_step.
  destruct (Z.ltb_spec (c_inflight s) (c_max_inflight s)) as [Hlt|]; simpl;
    [|wp_step; split_and!; [done..|by left]].
  case_bool_decide as Ha; simpl; [wp_step; split_and!; [done..|right; by rewrite Ha]|].
  wp_step. eapply wp_mono; [apply (wp_dispatch_round (c_active s) []); rewrite ?app_nil_r; done|..|done].
  intros b s1 (Hi1 & Hev & Hb). destruct b; [|wp_step; split_and!; [done..|by right; apply Hb]].
  pose proof (ev_max _ _ Hev). eapply wp_mono; [apply IH; [done|lia]|..|done].
  intros _ s2 (? & ? & ?). split_and!; [done|by etrans|done].
Qed.

Lemma wp_dispatch s :
  inv no_hole s →
  wp (dispatch_locked clock)
    (λ _ s', inv no_hole s' ∧ evolves s s' ∧ (c_closed s = false → busy s') ∧
             (c_closed s = true → s' = s)) (λ _ _, False) s.
Proof.
  intros Hi. unfold dispatch_locked. do 2 wp_step. destruct (c_closed s) eqn:Hc.
  - wp_step. by split_and!.
  - eapply wp_mono; [apply wp_dispatch_while; [done|unfold dispatch_fuel; lia]|..|done].
    intros _ s' (? & ? & ?). by split_and!.
Qed.
End ops.
