(* ===== verification/AdmissionSections.v ===== *)
(** The remaining critical sections of the admission controller: withdrawing a
    waiter, releasing a lease, the two halves of [acquire] and [shutdown]. *)
From S2P Require Import Prelude.
From S2P Require Import Python.
From S2P Require Import Errors.
From S2P Require Import Auth.
From S2P Require Import Admission.
From S2P Require Import AdmissionInv.
From S2P Require Import AdmissionOps.

(** What every section that neither enqueues a call nor drains the queues does:
    the objects that exist keep their identity, a released lease stays released,
    and every new lease is the result of a future that was pending.  Only the
    leases in [R] can be released. *)
Record moves (R : nat → Prop) (s s' : ctrl) : Prop := {
  mv_closed : c_closed s' = c_closed s;
  mv_next : (c_next s ≤ c_next s')%nat;
  mv_tenant tid st : c_tenants s !! tid = Some st →
    ∃ st', c_tenants s' !! tid = Some st' ∧ ts_tenant st' = ts_tenant st
           ∧ ts_queue st' `sublist_of` ts_queue st
           ∧ ∀ w, w ∈ ts_queue st → c_futures s' !! w = Some FPending → w ∈ ts_queue st';
  mv_order : c_order s' = c_order s;
  mv_max : c_max_inflight s' = c_max_inflight s;
  mv_maxq : c_max_queue s' = c_max_queue s;
  mv_lease l le : c_leases s !! l = Some le →
    ∃ le', c_leases s' !! l = Some le' ∧ l_tenant le' = l_tenant le ∧
           (l_released le = true → l_released le' = true) ∧ (R l ∨ le' = le);
  mv_new l le : c_leases s' !! l = Some le → c_leases s !! l = None →
    (R l ∨ l_released le = false) ∧ ∃ w, c_futures s !! w = Some FPending ∧ c_futures s' !! w = Some (FResult l);
  mv_future w : c_futures s' !! w = c_futures s !! w ∨
    c_futures s !! w = Some FPending ∧ ∃ l, c_futures s' !! w = Some (FResult l)
                                           ∧ c_leases s !! l = None;
  mv_fifo tid st w1 w2 : c_tenants s !! tid = Some st → w1 ∈ ts_queue st → w2 ∈ ts_queue st →
    (w1 < w2)%nat → c_futures s' !! w1 = Some FPending → c_futures s' !! w2 = c_futures s !! w2;
  mv_owner tid st w l : c_tenants s !! tid = Some st → w ∈ ts_queue st →
    c_futures s !! w = Some FPending → c_futures s' !! w = Some (FResult l) →
    ∃ le, c_leases s' !! l = Some le ∧ l_tenant le = tid;
}.

#[export] Instance moves_refl R : Reflexive (moves R).
Proof. intros s. constructor; eauto 7; intros; congruence. Qed.

#[export] Instance moves_trans R : Transitive (moves R).
Proof.
  intros s1 s2 s3 H1 H2. constructor; try (etrans; [apply H2|apply H1]); try (etrans; [apply H1|apply H2]).
  - intros tid st Ht. destruct (mv_tenant _ _ _ H1 _ _ Ht) as (st2 & Ht2 & ? & ? & Hp).
    destruct (mv_tenant _ _ _ H2 _ _ Ht2) as (st3 & ? & ? & ? & Hp').
    exists st3. split_and!; [done|congruence|by etrans|].
    intros w Hw Hf. apply Hp'; [apply Hp; [done|]|done].
    destruct (mv_future _ _ _ H2 w) as [<-|[? _]]; done.
  - intros l le Hl. destruct (mv_lease _ _ _ H1 _ _ Hl) as (le2 & Hl2 & ? & ? & ?).
    destruct (mv_lease _ _ _ H2 _ _ Hl2) as (le3 & ? & ? & ? & ?).
    exists le3. split_and!; [done|congruence|auto|].
    destruct_or?; [by left..|right; congruence].
  - intros l le Hl Hn. destruct (c_leases s2 !! l) as [le2|] eqn:Hl2.
    + destruct (mv_new _ _ _ H1 _ _ Hl2 Hn) as (Hr & w & Hw & Hw'). split.
      { destruct (mv_lease _ _ _ H2 _ _ Hl2) as (le3 & ? & _ & _ & [?|?]); [by left|].
        destruct Hr; [by left|right; congruence]. }
      exists w. split; [done|].
      destruct (mv_future _ _ _ H2 w) as [->|[? _]]; congruence.
    + destruct (mv_new _ _ _ H2 _ _ Hl Hl2) as (? & w & Hw & Hw'). split; [done|]. exists w. split; [|done].
      destruct (mv_future _ _ _ H1 w) as [<-|[_ [? [? ?]]]]; congruence.
  - intros w. destruct (mv_future _ _ _ H1 w) as [Heq|[Hp [l [Hl Hn]]]].
    + destruct (mv_future _ _ _ H2 w) as [->|[Hp [l [Hl Hn]]]]; [by left|right].
      split; [congruence|]. exists l. split; [done|].
      apply eq_None_not_Some. intros [le Hle]. 
      destruct (mv_lease _ _ _ H1 _ _ Hle) as (? & ? & _). congruence.
    + right. split; [done|]. exists l. destruct (mv_future _ _ _ H2 w) as [->|[? _]]; [done|congruence].
  - intros tid st w1 w2 Ht Hw1 Hw2 Hlt Hp3.
    assert (c_futures s2 !! w1 = Some FPending) as Hp2.
    { destruct (mv_future _ _ _ H2 w1) as [<-|[? _]]; done. }
    rewrite <- (mv_fifo _ _ _ H1 _ _ _ _ Ht Hw1 Hw2 Hlt Hp2).
    destruct (mv_tenant _ _ _ H1 _ _ Ht) as (st2 & Ht2 & _ & _ & Hk).
    destruct (mv_future _ _ _ H2 w2) as [Heq|[Hpw2 _]]; [done|].
    by apply (mv_fifo _ _ _ H2 tid st2 w1 w2); auto.
  - intros tid st w l Ht Hw Hp Hr. destruct (mv_future _ _ _ H2 w) as [Heq|[Hp2 _]].
    + rewrite Heq in Hr. destruct (mv_owner _ _ _ H1 _ _ _ _ Ht Hw Hp Hr) as (le & Hle & ?).
      destruct (mv_lease _ _ _ H2 _ _ Hle) as (le' & ? & ? & _). exists le'. split; [done|congruence].
    + destruct (mv_tenant _ _ _ H1 _ _ Ht) as (st2 & Ht2 & _ & _ & Hk).
      by eapply (mv_owner _ _ _ H2); eauto.
Qed.

Lemma evolves_moves R s s' : evolves s s' → moves R s s'.
Proof.
  intros He. constructor; try apply He.
  - intros tid st Ht. destruct (ev_tenant _ _ He _ _ Ht) as (st' & ? & ? & _ & ? & ?). by exists st'.
  - intros l le Hl. exists le. split_and!; auto. by apply (ev_lease _ _ He).
  - intros l le Hl Hn. destruct (ev_new _ _ He _ _ Hl Hn). auto.
Qed.
#[export] Hint Resolve evolves_moves : adm.

Lemma moves_weaken (R R' : nat → Prop) s s' : (∀ l, R l → R' l) → moves R s s' → moves R' s s'.
Proof.
  intros HR Hm. constructor; try apply Hm.
  - intros l le Hl. destruct (mv_lease _ _ _ Hm _ _ Hl) as (le' & ? & ? & ? & [?|?]);
      exists le'; auto 6.
  - intros l le Hl Hn. destruct (mv_new _ _ _ Hm _ _ Hl Hn) as ([?|?] & ?); auto.
Qed.

(** A future that is done stays as it is. *)
Lemma moves_done R s s' w f :
  moves R s s' → c_futures s !! w = Some f → fut_done f = true → c_futures s' !! w = Some f.
Proof. intros Hm Hf Hd. destruct (mv_future _ _ _ Hm w) as [->|[? _]]; [done|]. by simplify_eq. Qed.

Abbreviation none := (λ _ : nat, False).

(** Except for a closed gateway, a section leaves no admissible waiter. *)
Definition settled (s : ctrl) : Prop := c_closed s = false → busy s.

Section sections.
Context (clock : nat → Z).

Lemma wp_settle s :
  inv no_hole s →
  wp (dispatch_locked clock) (λ _ s', inv no_hole s' ∧ evolves s s' ∧ settled s') (λ _ _, False) s.
Proof.
  intros Hi. eapply wp_mono; [by apply wp_dispatch|..|done].
  intros _ s' (? & Hev & Hb & ?). split_and!; try done.
  unfold settled. by rewrite (ev_closed _ _ Hev).
Qed.

(** * Withdrawing a waiter *)

Lemma wp_deactivate tid st s (Q : unit → ctrl → Prop) X :
  inv (only tid) s → c_tenants s !! tid = Some st → ts_queue st = [] →
  (∀ s', inv no_hole s' → evolves s s' → c_tenants s' = c_tenants s →
    c_futures s' = c_futures s → c_leases s' = c_leases s → Q () s') →
  wp (deactivate_tenant_locked tid) Q X s.
Proof.
  intros Hi Ht Hq HQ. unfold deactivate_tenant_locked. do 2 wp_step. case_decide as Hin.
  { wp_step. apply HQ; try done. apply (inv_unhole _ tid st); [done..|].
    rewrite (inv_ids _ _ Hi) in Hin. by rewrite Hq. }
  do 3 wp_step. pose proof (deque_remove_spec tid (c_active s)) as Hd.
    apply (inv_ids _ _ Hi) in Hin. cbn [c_active on_active_ids].
    destruct (deque_remove tid (c_active s)) as [l|] eqn:Hl; [|done]. destruct Hd as (_ & Hp & Hsub).
    assert ((tid ∉ l) ∧ NoDup l) as [Hni Hnd].
    { pose proof (inv_nodup _ _ Hi) as Hn. rewrite Hp in Hn. by apply NoDup_cons in Hn. }
    eapply wp_unwrap; [done|]. wp_step.
    assert (∀ t, t ∈ c_active s ↔ t = tid ∨ t ∈ l) as Hmem.
    { intros t. by rewrite Hp, elem_of_cons. }
    apply HQ; try done.
    + constructor; simpl; try apply Hi; try done.
      * intros t st' Ht'. by destruct (inv_tenants _ _ Hi _ _ Ht').
      * intros t. rewrite elem_of_difference, elem_of_singleton, (inv_ids _ _ Hi), Hmem. naive_solver.
      * intros t Hact. apply (inv_active_dom _ _ Hi), Hmem. by right.
      * intros t st' Ht' _. destruct (decide (t = tid)) as [->|Hne]; [by simplify_eq; rewrite Hq|].
        rewrite <- (inv_active _ _ Hi t st' Ht' Hne), Hmem. naive_solver.
    + constructor; simpl; eauto; try congruence. intros t st' Ht'. by exists st'.
Qed.

(** The queue of a resolved waiter's tenant after the withdrawal. *)
Definition withdrawn (tid : pystr) (w : nat) (removed : bool) (s s' : ctrl) : Prop :=
  inv no_hole s' ∧ evolves s s' ∧ c_futures s' = c_futures s ∧ c_leases s' = c_leases s ∧
  (∃ st', c_tenants s' !! tid = Some st' ∧ w ∉ ts_queue st') ∧
  (removed = true → ∃ st, c_tenants s !! tid = Some st ∧ w ∈ ts_queue st).

Lemma wp_remove_waiter tid st w s :
  inv no_hole s → c_tenants s !! tid = Some st → future_done s w = true →
  wp (remove_waiter_locked tid w) (λ b s', withdrawn tid w b s s') (λ _ _, False) s.
Proof.
  intros Hi Ht Hd. unfold remove_waiter_locked, put_tenant. wp_step.
  eapply wp_tenant; [done|]. pose proof (deque_remove_spec w (ts_queue st)) as Hr.
  destruct (deque_remove w (ts_queue st)) as [q|] eqn:Hq; [|wp_step; split_and!; eauto; done].
  destruct Hr as (Hin & Hp & Hsub). do 4 wp_step.
  set (s1 := on_queued Z.pred (on_tenants <[tid := set_queue q st]> s)).
  pose proof (to_nodup _ _ _ (inv_tenants _ _ Hi _ _ Ht)) as Hnd.
  rewrite Hp in Hnd. apply NoDup_cons in Hnd as [Hni _].
  assert (Hlen : length (ts_queue st) = S (length q)) by by rewrite Hp.
  assert (Hi1 : inv (only tid) s1).
  { eapply inv_shrink_queue; try done; [by eapply inv_weaken|].
    unfold queue_len. rewrite Hlen. lia. }
  assert (Ht1 : c_tenants s1 !! tid = Some (set_queue q st)) by apply lookup_insert_eq.
  assert (Hev : evolves s s1).
  { constructor; simpl; eauto; try congruence. intros t st' Ht'.
    destruct (decide (t = tid)) as [->|]; [|exists st'; by rewrite lookup_insert_ne].
    simplify_eq. exists (set_queue q st). rewrite lookup_insert_eq. split_and!; try done.
    intros v Hv Hpe. simpl. rewrite Hp in Hv. apply elem_of_cons in Hv as [->|Hv]; [|done].
    unfold future_done in Hd. by rewrite Hpe in Hd. }
  wp_step. eapply (wp_mono _ (λ _ s2, inv no_hole s2 ∧ evolves s1 s2 ∧
    c_tenants s2 = c_tenants s1 ∧ c_futures s2 = c_futures s1 ∧ c_leases s2 = c_leases s1)
    _ (λ _ _, False)); [destruct q as [|w' q]|..|done].
  - by eapply wp_deactivate.
  - assert (tid ∈ c_active s1) as Hact.
    { apply (inv_listed s tid st Hi Ht). intros Hn. rewrite Hn in Hin. by apply elem_of_nil in Hin. }
    wp_step. split_and!; try done. by apply (inv_unhole _ tid (set_queue (w' :: q) st)).
  - intros _ s2 (Hi2 & Hev2 & Hts & Hfs & Hls). wp_step. apply wp_notify. intros s3 Hq3. wp_step.
    destruct Hq3 as (Hsr & Hts3 & Hqd). split_and!.
    + by eapply quiet_inv.
    + etrans; [done|]. etrans; [done|]. by apply quiet_evolves.
    + rewrite (sr_futures _ _ Hsr). by rewrite Hfs.
    + rewrite (sr_leases _ _ Hsr). by rewrite Hls.
    + exists (set_queue q st). by rewrite Hts3, Hts, Ht1.
    + eauto.
Qed.

(** * Releasing *)

Definition release_state (l : nat) (le : lease) (st : tenant_state) (s : ctrl) : ctrl :=
  on_inflight Z.pred (on_tenants <[l_tenant le := set_inflight (ts_inflight st - 1) st]>
    (on_leases <[l := Lease (l_tenant le) (l_was_queued le) (l_granted_at le) true]> s)).

(** The accounting check of [_release_locked] never fails. *)
Lemma wp_release_live l le s (Q : unit → ctrl → Prop) X :
  inv no_hole s → c_leases s !! l = Some le → l_released le = false →
  (∀ st s', c_tenants s !! l_tenant le = Some st → quiet (release_state l le st s) s' → Q () s') →
  wp (release_locked l) Q X s.
Proof.
  intros Hi Hl Hr HQ. unfold release_locked, put_tenant. do 3 wp_step. eapply wp_unwrap; [done|].
  rewrite Hr. destruct (inv_leases _ _ Hi _ _ Hl) as [st Ht]. wp_step. eapply wp_tenant; [done|].
  assert (0 < ts_inflight st) as Hpos.
  { rewrite (to_live _ _ _ (inv_tenants _ _ Hi _ _ Ht)).
    assert (live (l_tenant le) le ≤ sum_map (live (l_tenant le)) (c_leases s)).
    { apply (sum_map_lookup_le _ _ l); [intros; apply live_nonneg|done]. }
    assert (live (l_tenant le) le = 1) by (by apply live_own). lia. }
  pose proof (inflight_le_global _ _ _ _ Hi Ht).
  destruct (Z.leb_spec (ts_inflight st) 0), (Z.leb_spec (c_inflight s) 0); try lia. simpl.
  do 6 wp_step. apply wp_notify. intros s' Hq. by apply (HQ st).
Qed.

Lemma release_moves l le st s :
  c_leases s !! l = Some le → c_tenants s !! l_tenant le = Some st →
  moves (eq l) s (release_state l le st s).
Proof.
  intros Hl Ht. constructor; simpl; eauto.
  - intros t st' Ht'. destruct (decide (t = l_tenant le)) as [->|].
    + simplify_eq. rewrite lookup_insert_eq. by eexists.
    + rewrite lookup_insert_ne by done. by exists st'.
  - intros i le' Hle'. destruct (decide (i = l)) as [->|].
    + simplify_eq. rewrite lookup_insert_eq. eexists. split_and!; auto.
    + rewrite lookup_insert_ne by done. eauto 7.
  - intros i le' Hle' Hn. map_simpl.
  - congruence.
Qed.

Lemma wp_release_locked l le s :
  inv no_hole s → c_leases s !! l = Some le →
  wp (release_locked l)
    (λ _ s', inv no_hole s' ∧ moves (eq l) s s' ∧ c_futures s' = c_futures s ∧
             ∃ le', c_leases s' !! l = Some le' ∧ l_released le' = true)
    (λ _ _, False) s.
Proof.
  intros Hi Hl. destruct (l_released le) eqn:Hr.
  - unfold release_locked. do 3 wp_step. eapply wp_unwrap; [done|]. rewrite Hr.
    wp_step. split_and!; eauto; done.
  - eapply wp_release_live; [done..|]. intros st s' Ht Hq. split_and!.
    + eapply quiet_inv; [|exact Hq]. by apply inv_release.
    + etrans; [by apply release_moves|]. by apply evolves_moves, quiet_evolves.
    + by rewrite (sr_futures _ _ (proj1 Hq)).
    + rewrite (sr_leases _ _ (proj1 Hq)). simpl. rewrite lookup_insert_eq. by eexists.
Qed.

Lemma wp_release l s :
  inv no_hole s → is_Some (c_leases s !! l) →
  wp (release clock l)
    (λ _ s', inv no_hole s' ∧ moves (eq l) s s' ∧ settled s' ∧
             ∃ le', c_leases s' !! l = Some le' ∧ l_released le' = true)
    (λ _ _, False) s.
Proof.
  intros Hi [le Hl]. unfold release. wp_step.
  eapply wp_mono; [by eapply wp_release_locked|..|done].
  intros _ s1 (Hi1 & Hm & _ & le' & Hl' & Hr). eapply wp_mono; [by apply wp_settle|..|done].
  intros _ s2 (Hi2 & Hev & Hs). split_and!; [done| |done|].
  - etrans; [done|]. by apply evolves_moves.
  - exists le'. split; [by apply (ev_lease _ _ Hev)|done].
Qed.

(** * Resuming a suspended call *)

Definition left_queue (tid : pystr) (w : nat) (s : ctrl) : Prop :=
  ∃ st, c_tenants s !! tid = Some st ∧ w ∉ ts_queue st.

Lemma moves_left_queue R tid w s s' : moves R s s' → left_queue tid w s → left_queue tid w s'.
Proof.
  intros Hm (st & Ht & Hw). destruct (mv_tenant _ _ _ Hm _ _ Ht) as (st' & ? & _ & Hs & _).
  exists st'. split; [done|]. intros Hin. apply Hw. by eapply elem_of_sublist.
Qed.

(** What a resumed call leaves behind, whatever it raises. *)
Record ended (R : nat → Prop) (tid : pystr) (w : nat) (s s' : ctrl) : Prop := {
  en_inv : inv no_hole s';
  en_moves : moves R s s';
  en_settled : settled s → settled s';
  en_left : left_queue tid w s';
}.

Lemma ended_weaken (R R' : nat → Prop) tid w s s' :
  (∀ l, R l → R' l) → ended R tid w s s' → ended R' tid w s s'.
Proof. intros HR []. constructor; auto. by eapply moves_weaken. Qed.

Lemma wp_acquire_timed_out {A} R tid st w s (Q : A → ctrl → Prop) :
  inv no_hole s → c_tenants s !! tid = Some st → future_done s w = true →
  wp (acquire_timed_out clock tid w) Q
    (λ e s', e = gw AdmissionTimeoutError ∧ ended R tid w s s') s.
Proof.
  intros Hi Ht Hd. unfold acquire_timed_out. wp_step.
  eapply wp_mono; [by eapply wp_remove_waiter|..|done].
  intros b s1 (Hi1 & Hev & _ & _ & Hl & _). wp_step. eapply wp_mono; [by apply wp_settle|..|done].
  intros _ s2 (Hi2 & Hev2 & Hs). wp_step. split; [done|]. constructor; try done.
  - by apply evolves_moves; etrans.
  - by eapply moves_left_queue; [apply (evolves_moves none)|].
Qed.

(** A cancelled call gives back a slot it had been granted. *)
Lemma wp_acquire_cancelled {A} tid st w f s (Q : A → ctrl → Prop) :
  inv no_hole s → c_tenants s !! tid = Some st → c_futures s !! w = Some f →
  fut_done f = true → (∀ e, f = FException e → e = gw AdmissionUnavailableError) →
  wp (acquire_cancelled clock tid w) Q
    (λ e s', e = CancelledError ∧ ended (λ l, f = FResult l) tid w s s' ∧
      ∀ l, f = FResult l → ∃ le, c_leases s' !! l = Some le ∧ l_released le = true) s.
Proof.
  intros Hi Ht Hf Hd He. unfold acquire_cancelled. wp_step.
  eapply wp_mono; [eapply wp_remove_waiter; [done..|by unfold future_done; rewrite Hf]|..|done].
  intros b s1 (Hi1 & Hev & Hfs & Hls & Hl & Hin). do 3 wp_step. rewrite Hfs, Hf.
  apply (wp_mono _ (λ _ s2, inv no_hole s2 ∧ moves (λ l, f = FResult l) s1 s2 ∧
    ∀ l, f = FResult l → ∃ le, c_leases s2 !! l = Some le ∧ l_released le = true)
    _ (λ _ _, False)); [|intros _ s2 (Hi2 & Hm & Hr)|done].
  - destruct f as [|l|e|]; try done.
    + destruct b.
      { exfalso. destruct (Hin eq_refl) as (st' & Ht' & Hw).
        destruct (to_futures _ _ _ (inv_tenants _ _ Hi _ _ Ht') _ Hw) as (f & Hf' & Hwf).
        rewrite Hf in Hf'. destruct Hwf; congruence. }
      destruct (inv_result _ _ Hi _ _ Hf) as [le Hle]. rewrite <- Hls in Hle.
      eapply wp_mono; [by eapply wp_release_locked|..|done].
      intros _ s2 (? & Hm & _ & ?). split_and!; [done| |by intros l' [= ->]].
      eapply moves_weaken; [|exact Hm]. by intros l' <-.
    + rewrite (He e eq_refl). destruct b; apply wp_ret; split_and!; done.
  - wp_step. eapply wp_mono; [by apply wp_settle|..|done].
    intros _ s3 (Hi3 & Hev3 & Hs). wp_step. split_and!; [done|constructor|].
    + done.
    + etrans; [by apply evolves_moves|]. etrans; [done|]. by apply evolves_moves.
    + done.
    + eapply moves_left_queue; [by apply (evolves_moves none)|]. by eapply moves_left_queue.
    + intros l Hfl. destruct (Hr l Hfl) as (le & Hle & ?). exists le.
      split; [by apply (ev_lease _ _ Hev3)|done].
Qed.

Lemma wp_acquire_except {A} t0 e s (Q : A → ctrl → Prop) :
  wp (acquire_except clock t0 e) Q (λ e' s', e' = e ∧ quiet s s') s.
Proof.
  unfold acquire_except. repeat case_match; repeat wp_step; try done.
  all: apply wp_observe_wait; intros s' Hq; by wp_step.
Qed.

Lemma wp_acquire_else t0 l s :
  is_Some (c_leases s !! l) →
  wp (acquire_else clock t0 l) (λ l' s', l' = l ∧ quiet s s') (λ _ _, False) s.
Proof.
  intros [le Hl]. unfold acquire_else. do 3 wp_step. eapply wp_unwrap; [done|]. wp_step.
  apply wp_observe_wait. intros s' Hq. by wp_step.
Qed.

Lemma quiet_ended R tid w s s' :
  inv no_hole s → quiet s s' → left_queue tid w s → ended R tid w s s'.
Proof.
  intros Hi Hq Hl. constructor.
  - by eapply quiet_inv.
  - by apply evolves_moves, quiet_evolves.
  - intros Hs. unfold settled. rewrite (sr_closed _ _ (proj1 Hq)). intros Hc.
    eapply quiet_busy; [by apply Hs|done].
  - eapply moves_left_queue; [by apply (evolves_moves none), quiet_evolves|done].
Qed.

Lemma ended_quiet R tid w s s' s'' : ended R tid w s s' → quiet s' s'' → ended R tid w s s''.
Proof.
  intros [Hi Hm Hs Hl] Hq. destruct (quiet_ended R tid w s' s'' Hi Hq Hl) as [? ? Hs' ?].
  constructor; auto. by etrans.
Qed.

(** How a suspended call ends, by what woke it and what became of its future. *)
Definition resume_result (k : wake) (f : future exn nat) : exn + nat :=
  match k, f with
  | WakeTimeout, _ => inl (gw AdmissionTimeoutError)
  | WakeCancel, _ | WakeNormal, FCancelled => inl CancelledError
  | WakeNormal, FResult l => inr l
  | WakeNormal, FException e => inl e
  | WakeNormal, FPending => inl InvalidStateError
  end.

Definition resumed (fr : frame) (w : nat) (f : future exn nat) (s : ctrl) (r : exn + nat)
    (s' : ctrl) : Prop :=
  r = resume_result (f_wake fr) f ∧
  ended (λ l, f_wake fr = WakeCancel ∧ f = FResult l) (f_tenant fr) w s s' ∧
  (f_wake fr = WakeCancel → ∀ l, f = FResult l →
    ∃ le, c_leases s' !! l = Some le ∧ l_released le = true).

Lemma wp_acquire_resume fr w f st s :
  inv no_hole s → c_tenants s !! f_tenant fr = Some st → c_futures s !! w = Some f →
  fut_done f = true → (∀ e, f = FException e → e = gw AdmissionUnavailableError) →
  wp (acquire_resume clock fr w f)
    (λ l s', resumed fr w f s (inr l) s') (λ e s', resumed fr w f s (inl e) s') s.
Proof.
  intros Hi Ht Hf Hd He. unfold acquire_resume. wp_step. apply wp_try.
  assert (Hexc : ∀ e s1, resumed fr w f s (inl e) s1 →
    wp (acquire_except clock (f_started fr) e)
      (λ a, wp (acquire_else clock (f_started fr) a) (λ l, resumed fr w f s (inr l))
              (λ e, resumed fr w f s (inl e)))
      (λ e, resumed fr w f s (inl e)) s1).
  { intros e s1 (Hr & Hen & Hc). eapply wp_mono; [apply (wp_acquire_except _ _ _ (λ _ _, False))|done|].
    intros e' s2 [-> Hq]. split_and!; [done|by eapply ended_quiet|].
    by rewrite (sr_leases _ _ (proj1 Hq)). }
  assert (Hcan : (f_wake fr = WakeCancel ∨ f_wake fr = WakeNormal ∧ f = FCancelled) →
    wp (acquire_cancelled clock (f_tenant fr) w)
      (λ a, wp (acquire_else clock (f_started fr) a) (λ l, resumed fr w f s (inr l))
              (λ e, resumed fr w f s (inl e)))
      (λ e, wp (acquire_except clock (f_started fr) e)
      (λ a, wp (acquire_else clock (f_started fr) a) (λ l, resumed fr w f s (inr l))
              (λ e, resumed fr w f s (inl e)))
      (λ e, resumed fr w f s (inl e))) s).
  { intros Hk. eapply wp_mono; [by apply (wp_acquire_cancelled _ st _ f _ (λ _ _, False))|done|].
    intros e s1 (-> & Hen & Hr). apply Hexc. split_and!; [by destruct Hk as [-> | [-> ->]]| |done].
    eapply ended_weaken; [|exact Hen]. intros l Hl. by destruct Hk as [?|[_ ->]]. }
  assert (Hleft : f_wake fr = WakeNormal → f ≠ FCancelled → left_queue (f_tenant fr) w s).
  { intros _ Hnc. exists st. split; [done|]. intros Hw.
    destruct (to_futures _ _ _ (inv_tenants _ _ Hi _ _ Ht) _ Hw) as (f' & Hf' & Hwf).
    rewrite Hf in Hf'. simplify_eq. by destruct Hwf as [-> | ->]. }
  destruct (f_wake fr) eqn:Hk.
  - destruct f as [|l|e|]; [done|..|by apply Hcan; right].
    + wp_step. eapply wp_mono; [apply wp_acquire_else; by eapply (inv_result _ _ Hi)|..|done].
      intros l' s1 [-> Hq]. split_and!; [by rewrite Hk|apply quiet_ended; [done..|by apply Hleft]|by rewrite Hk].
    + wp_step. apply Hexc. split_and!; [by rewrite Hk|apply quiet_ended; [done|done|by apply Hleft]|by rewrite Hk].
  - eapply wp_mono; [eapply (wp_acquire_timed_out _ _ st _ _ (λ _ _, False)); [done..|]|done|].
    { unfold future_done. by rewrite Hf. }
    intros e s1 [-> Hen]. apply Hexc. split_and!; [by rewrite Hk|done|by rewrite Hk].
  - destruct f; apply Hcan; by left.
Qed.

(** * Starting a call *)

(** The state with a new waiter of the tenant in its queue. *)
Definition enqueue_state (tid : pystr) (st : tenant_state) (s : ctrl) : ctrl :=
  on_queued Z.succ (on_tenants <[tid := set_queue (ts_queue st ++ [c_next s]) st]>
    (on_futures <[c_next s := FPending]> (on_next S s))).

Record admitted_now (tid : pystr) (l : nat) (s s' : ctrl) : Prop := {
  an_closed : c_closed s' = c_closed s;
  an_order : c_order s' = c_order s;
  an_max : c_max_inflight s' = c_max_inflight s;
  an_maxq : c_max_queue s' = c_max_queue s;
  an_queue t st : c_tenants s !! t = Some st →
    ∃ st', c_tenants s' !! t = Some st' ∧ ts_tenant st' = ts_tenant st ∧ ts_queue st' = ts_queue st;
  an_queue' t st' : c_tenants s' !! t = Some st' →
    ∃ st, c_tenants s !! t = Some st ∧ ts_queue st = ts_queue st';
  an_futures : c_futures s' = c_futures s;
  an_fresh : c_leases s !! l = None;
  an_lease : ∃ now, c_leases s' = <[l := Lease tid false now false]> (c_leases s);
}.

(** The three ways [_acquire] refuses a call, each with the state that
    justifies it. *)
Definition refused (t : tenant_context) (s : ctrl) (e : exn) : Prop :=
  (e = gw AdmissionUnavailableError ∧ (c_closed s = true ∨ c_tenants s !! tenant_id t = None)) ∨
  (e = gw TenantQueueFullError ∧ c_closed s = false ∧
    ∃ st, c_tenants s !! tenant_id t = Some st ∧ queue_len st = max_queue (ts_tenant st)) ∨
  (e = gw GatewayQueueFullError ∧ c_closed s = false ∧ c_queued s = c_max_queue s).

(** The two ways it goes on: at once when nobody of the tenant waits and both
    limits leave a slot; at the back of the queue otherwise. *)
Definition started (t : tenant_context) (s : ctrl) (a : acquisition) (s' : ctrl) : Prop :=
  match a with
  | Granted l => ∃ s1 st, moves none s s1 ∧ inv no_hole s1 ∧ c_tenants s1 !! tenant_id t = Some st ∧
      ts_queue st = [] ∧ can_admit st s1 = true ∧ admitted_now (tenant_id t) l s1 s'
  | Waiting w => ∃ s1 st, moves none s s1 ∧ inv no_hole s1 ∧ settled s1 ∧
      c_tenants s1 !! tenant_id t = Some st ∧
      (ts_queue st ≠ [] ∨ can_admit st s1 = false) ∧ queue_len st < max_queue (ts_tenant st) ∧
      c_queued s1 < c_max_queue s1 ∧ w = c_next s1 ∧ moves none (enqueue_state (tenant_id t) st s1) s'
  end.

Lemma busy_grant tid st wq now s :
  inv no_hole s → busy s → c_tenants s !! tid = Some st → can_admit st s = true →
  busy (grant_state tid st wq now s).
Proof.
  intros Hi [Hb|Hb] Ht [_ Hc%Z.ltb_lt]%andb_prop; [lia|]. right.
  eapply Forall_impl; [exact Hb|]. intros t (st' & Ht' & Hl). unfold at_limit. simpl.
  destruct (decide (t = tid)) as [->|]; [|exists st'; by rewrite lookup_insert_ne].
  simplify_eq. rewrite lookup_insert_eq. eexists. split; [done|]. simpl. lia.
Qed.

Lemma grant_admitted tid st wq now s s' :
  inv no_hole s → c_tenants s !! tid = Some st →
  quiet (grant_state tid st wq now s) s' → wq = false → admitted_now tid (c_next s) s s'.
Proof.
  intros Hi Ht [[] [Hts _]] ->. constructor; try done.
  - intros t st' Ht'. rewrite Hts. simpl. destruct (decide (t = tid)) as [->|].
    + simplify_eq. rewrite lookup_insert_eq. by eexists.
    + rewrite lookup_insert_ne by done. by eexists.
  - intros t st'. rewrite Hts. simpl. intros Ht'. map_simpl; by eexists.
  - apply eq_None_not_Some. intros ?%(inv_fresh_l _ _ Hi). lia.
  - by exists now.
Qed.

Lemma wp_acquire_locked t s :
  inv no_hole s →
  wp (acquire_locked clock t)
    (λ a s', inv no_hole s' ∧ settled s' ∧ c_closed s = false ∧ started t s a s')
    (λ e s', inv no_hole s' ∧ moves none s s' ∧ (settled s → settled s') ∧ refused t s' e) s.
Proof.
  intros Hi. unfold acquire_locked. do 2 wp_step.
  destruct (c_closed s) eqn:Hc; [wp_step; split_and!; try done; left; auto|].
  wp_step. unfold state_for. do 2 wp_step.
  destruct (c_tenants s !! tenant_id t) as [st0|] eqn:Ht0;
    [wp_step|wp_step; split_and!; try done; left; auto].
  wp_step. eapply wp_mono; [by apply wp_settle|..|done]. intros _ s1 (Hi1 & Hev & Hs).
  destruct (ev_tenant _ _ Hev _ _ Ht0) as (st & Ht & _). set (tid := tenant_id t) in *.
  wp_step. eapply wp_tenant; [done|]. do 2 wp_step.
  pose proof (evolves_moves none _ _ Hev) as Hm. pose proof (ev_closed _ _ Hev) as Hc1.
  assert (Hno : bool_decide (ts_queue st = []) && can_admit st s1 = false →
    ts_queue st ≠ [] ∨ can_admit st s1 = false).
  { case_bool_decide; simpl; auto. }
  destruct (bool_decide (ts_queue st = []) && can_admit st s1) eqn:Hnow.
  { apply andb_prop in Hnow as [Hq%bool_decide_eq_true Ha]. wp_step.
    eapply wp_grant; [done..|]. intros now s2 Hi2 Hq2. wp_step. split_and!; try done.
    - intros _. eapply quiet_busy; [|done]. apply busy_grant; try done. apply Hs. congruence.
    - exists s1, st. split_and!; try done. by eapply grant_admitted. }
  pose proof (to_qbound _ _ _ (inv_tenants _ _ Hi1 _ _ Ht)) as Hqb. fold (queue_len st).
  destruct (Z.leb_spec (max_queue (ts_tenant st)) (queue_len st)).
  { wp_step. split_and!; try done. right. left. split_and!; [done|congruence|]. exists st. split; [done|lia]. }
  pose proof (inv_qcap _ _ Hi1). destruct (Z.leb_spec (c_max_queue s1) (c_queued s1)).
  { wp_step. split_and!; try done. right. right. split_and!; [done|congruence|lia]. }
  unfold put_tenant. wp_steps.
  assert (Hi2 : inv (only tid) (enqueue_state tid st s1)).
  { apply inv_enqueue; try done. by eapply inv_weaken. }
  eapply (wp_activate _ (set_queue _ st)); [done|apply lookup_insert_eq|by destruct (ts_queue st)|].
  intros s2 Hi3 Hev2 _ _ _ _ _ _. wp_step. apply wp_notify. intros s3 Hq3.
  wp_step. eapply wp_mono; [apply wp_settle; by eapply quiet_inv|..|done].
  intros _ s4 (Hi4 & Hev4 & Hs4). wp_step. split_and!; try done.
  exists s1, st. split_and!; auto.
  apply evolves_moves. etrans; [done|]. etrans; [by apply quiet_evolves|done].
Qed.

Lemma quiet_moves R s s' : quiet s s' → moves R s s'.
Proof. intros. by apply evolves_moves, quiet_evolves. Qed.

Lemma quiet_refused t s s' e : quiet s s' → refused t s e → refused t s' e.
Proof.
  intros [[] [Hts Hqd]]. unfold refused. by rewrite Hts, Hqd, sr_closed, sr_maxq.
Qed.

Lemma quiet_settled s s' : settled s → quiet s s' → settled s'.
Proof.
  intros Hs Hq. unfold settled. rewrite (sr_closed _ _ (proj1 Hq)). intros Hc.
  eapply quiet_busy; [by apply Hs|done].
Qed.

Lemma admitted_quiet tid l s s' s'' :
  admitted_now tid l s s' → quiet s' s'' → admitted_now tid l s s''.
Proof.
  intros [] [[] [Hts _]]. constructor; rewrite ?Hts; try done; try congruence.
  destruct an_lease0 as [now ?]. exists now. congruence.
Qed.

Lemma wp_acquire_begin t s :
  inv no_hole s → settled s →
  wp (acquire_begin clock t)
    (λ '(_, a) s', inv no_hole s' ∧ settled s' ∧ c_closed s = false ∧ started t s a s')
    (λ e s', inv no_hole s' ∧ moves none s s' ∧ settled s' ∧ refused t s' e) s.
Proof.
  intros Hi Hs. unfold acquire_begin. wp_step. apply wp_read_clock. intros t0 s0 Hq0.
  pose proof (quiet_inv _ _ _ Hi Hq0) as Hi0. pose proof (quiet_moves none _ _ Hq0) as Hm0.
  pose proof (quiet_settled _ _ Hs Hq0) as Hs0.
  wp_step. apply wp_try. eapply wp_mono; [by apply wp_acquire_locked|..].
  - intros a s1 (Hi1 & Hs1 & Hc & Hst). rewrite (sr_closed _ _ (proj1 Hq0)) in Hc.
    destruct a as [l|w].
    + destruct Hst as (s2 & st & Hm & Hi2 & Ht & Hq & Ha & Han). wp_step.
      assert (is_Some (c_leases s1 !! l)).
      { destruct (an_lease _ _ _ _ Han) as [now ->]. by rewrite lookup_insert_eq. }
      eapply wp_mono; [by apply wp_acquire_else|..|done].
      intros l' s3 [-> Hq3]. wp_step. split_and!; [exact (quiet_inv _ _ _ Hi1 Hq3)|exact (quiet_settled _ _ Hs1 Hq3)|done|].
      exists s2, st. split_and!; try done; [by etrans|by eapply admitted_quiet].
    + destruct Hst as (s2 & st & Hm & ?). wp_step. split_and!; try done.
      exists s2, st. split; [by etrans|done].
  - intros e s1 (Hi1 & Hm1 & Hs1 & Hr).
    eapply wp_mono; [apply (wp_acquire_except _ _ _ (λ _ _, False))|done|].
    intros e' s2 [-> Hq2]. split_and!.
    + exact (quiet_inv _ _ _ Hi1 Hq2).
    + etrans; [done|]. etrans; [done|]. by apply quiet_moves.
    + eapply quiet_settled; [by apply Hs1|done].
    + by eapply quiet_refused.
Qed.

(** * Shutting down *)

(** Draining leaves slots and leases alone; the futures it completes fail. *)
Record drains (s s' : ctrl) : Prop := {
  dr_order : c_order s' = c_order s;
  dr_max : c_max_inflight s' = c_max_inflight s;
  dr_maxq : c_max_queue s' = c_max_queue s;
  dr_inflight : c_inflight s' = c_inflight s;
  dr_leases : c_leases s' = c_leases s;
  dr_closed : c_closed s' = c_closed s;
  dr_tenant tid st : c_tenants s !! tid = Some st →
    ∃ st', c_tenants s' !! tid = Some st' ∧ ts_inflight st' = ts_inflight st
           ∧ ts_queue st' `sublist_of` ts_queue st
           ∧ ∀ w, w ∈ ts_queue st → c_futures s' !! w = Some FPending → w ∈ ts_queue st';
  dr_future w : c_futures s' !! w = c_futures s !! w ∨
    c_futures s !! w = Some FPending ∧
    c_futures s' !! w = Some (FException (gw AdmissionUnavailableError));
  dr_context tid st : c_tenants s !! tid = Some st →
    ∃ st', c_tenants s' !! tid = Some st' ∧ ts_tenant st' = ts_tenant st;
}.

#[local] Instance drains_refl : Reflexive drains.
Proof. intros s. constructor; eauto. Qed.
#[local] Instance drains_trans : Transitive drains.
Proof.
  intros s1 s2 s3 H1 H2. constructor; try (etrans; [apply H2|apply H1]).
  - intros tid st Ht. destruct (dr_tenant _ _ H1 _ _ Ht) as (st2 & Ht2 & ? & ? & Hp).
    destruct (dr_tenant _ _ H2 _ _ Ht2) as (st3 & ? & ? & ? & Hp').
    exists st3. split_and!; [done|congruence|by etrans|].
    intros w Hw Hf. apply Hp'; [apply Hp; [done|]|done].
    destruct (dr_future _ _ H2 w) as [<-|[? _]]; done.
  - intros w. destruct (dr_future _ _ H1 w) as [<-|[? Hf]]; [apply (dr_future _ _ H2)|].
    right. split; [done|]. destruct (dr_future _ _ H2 w) as [->|[? _]]; [done|congruence].
  - intros tid st Ht. destruct (dr_context _ _ H1 _ _ Ht) as (st2 & Ht2 & ?).
    destruct (dr_context _ _ H2 _ _ Ht2) as (st3 & ? & ?). exists st3. split; [done|congruence].
Qed.

(** Popping a queue keeps the tenants' contexts. *)
Lemma popped_context (m : gmap pystr tenant_state) tid st q :
  m !! tid = Some st → ∀ t st', m !! t = Some st' →
  ∃ st'', <[tid := set_queue q st]> m !! t = Some st'' ∧ ts_tenant st'' = ts_tenant st'.
Proof.
  intros Ht t st' Ht'. destruct (decide (t = tid)) as [->|]; [|exists st'; by rewrite lookup_insert_ne].
  simplify_eq. rewrite lookup_insert_eq. by eexists.
Qed.

Abbreviation anyone := (λ _ : pystr, True).

Lemma wp_drain_queue n tid st s :
  inv anyone s → c_tenants s !! tid = Some st → (length (ts_queue st) ≤ n)%nat →
  wp (drain_queue n tid)
    (λ _ s', inv anyone s' ∧ drains s s' ∧
             ∃ st', c_tenants s' !! tid = Some st' ∧ ts_queue st' = [])
    (λ _ _, False) s.
Proof.
  revert st s. induction n as [|n IH]; intros st s Hi Ht Hn; cbn [drain_queue].
  { wp_step. split_and!; try done. exists st. by destruct (ts_queue st); [|simpl in *; lia]. }
  wp_step. eapply wp_tenant; [done|]. destruct (ts_queue st) as [|w q] eqn:Hq; [wp_step; split_and!; eauto; done|].
  pose proof (inv_tenants _ _ Hi _ _ Ht) as [_ _ _ Hnd _ Hfut _]. rewrite Hq in Hnd, Hfut.
  apply NoDup_cons in Hnd as [Hwq Hnd]. destruct (Hfut w) as (f & Hf & Hwf); [by left|].
  unfold put_tenant. do 4 wp_step.
  set (s1 := on_queued Z.pred (on_tenants <[tid := set_queue q st]> s)).
  assert (Hi1 : inv anyone s1).
  { apply inv_shrink_queue; rewrite ?Hq; try done; [by apply sublist_tail|].
    unfold queue_len. rewrite Hq. simpl. lia. }
  assert (Hno : ∀ t st', c_tenants s1 !! t = Some st' → w ∉ ts_queue st').
  { intros t st' Ht'. apply (granted_not_queued _ tid st w q (ts_inflight st) s t st' Hi Ht Hq).
    rewrite insert_insert_eq. by destruct st. }
  do 2 wp_step. fold s1. wp_step.
  apply (wp_mono _ (λ _ s2, inv anyone s2 ∧ drains s s2 ∧ c_tenants s2 = c_tenants s1)
    _ (λ _ _, False)); [|intros _ s2 (Hi2 & Hd & Hts)|done].
  - destruct (future_done s1 w) eqn:Hdone.
    + wp_step. split_and!; [done| |done]. constructor; simpl; eauto using popped_context.
      intros t st' Ht'. destruct (decide (t = tid)) as [->|]; [|exists st'; by rewrite lookup_insert_ne].
      simplify_eq. rewrite lookup_insert_eq, Hq. eexists. split_and!; [done..|by apply sublist_tail|].
      intros v [->|Hv]%elem_of_cons; [|done]. unfold future_done in Hdone. simpl in Hdone.
      intros Hp. by rewrite Hp in Hdone.
    + pose proof (pending_of_waiting _ _ _ Hf Hwf Hdone) as Hp.
      unfold complete_future. do 2 wp_step. rewrite Hdone. wp_step.
      split_and!; [apply inv_set_exception; [done|by simpl; rewrite Hf|done]| |done].
      constructor; simpl; eauto using popped_context.
      * intros t st' Ht'. destruct (decide (t = tid)) as [->|]; [|exists st'; by rewrite lookup_insert_ne].
        simplify_eq. rewrite lookup_insert_eq, Hq. eexists. split_and!; [done..|by apply sublist_tail|].
        intros v [->|Hv]%elem_of_cons; [|done]. by rewrite lookup_insert_eq.
      * intros v. destruct (decide (w = v)) as [<-|]; [right; by rewrite lookup_insert_eq|].
        left. by rewrite lookup_insert_ne.
  - eapply wp_mono; [apply (IH (set_queue q st)); [done|by rewrite Hts; apply lookup_insert_eq|simpl in *; lia]|..|done].
    intros _ s3 (? & ? & ?). split_and!; [done|by etrans|done].
Qed.

Lemma wp_drain_tenants tids s :
  inv anyone s → (∀ tid, tid ∈ tids → is_Some (c_tenants s !! tid)) →
  wp (drain_tenants tids)
    (λ _ s', inv anyone s' ∧ drains s s' ∧
       ∀ tid st, tid ∈ tids → c_tenants s' !! tid = Some st → ts_queue st = [])
    (λ _ _, False) s.
Proof.
  revert s. induction tids as [|tid tids IH]; intros s Hi Hdom; cbn [drain_tenants].
  { wp_step. split_and!; try done. by intros ? ? ?%elem_of_nil. }
  destruct (Hdom tid) as [st Ht]; [by left|]. wp_step. eapply wp_tenant; [done|]. wp_step.
  eapply wp_mono; [by eapply wp_drain_queue|..|done]. intros _ s1 (Hi1 & Hd1 & st1 & Ht1 & Hq1).
  eapply wp_mono; [apply IH; [done|]|..|done].
  { intros t Hin. destruct (Hdom t) as [st' Ht']; [by right|].
    destruct (dr_tenant _ _ Hd1 _ _ Ht') as (? & ? & _). by eexists. }
  intros _ s2 (Hi2 & Hd2 & He). split_and!; [done|by etrans|].
  intros t st2 [->|Hin]%elem_of_cons Ht2; [|by eapply He].
  destruct (dr_tenant _ _ Hd2 _ _ Ht1) as (st3 & ? & _ & Hs & _). simplify_eq.
  rewrite Hq1 in Hs. by apply sublist_nil_r in Hs.
Qed.

(** Shutting an open gateway down. *)
Definition shut (s s' : ctrl) : Prop :=
  inv no_hole s' ∧ c_closed s' = true ∧ c_queued s' = 0 ∧
  (∀ tid st, c_tenants s' !! tid = Some st → ts_queue st = []) ∧
  drains (on_closed (λ _, true) s) s'.

Lemma wp_shutdown s :
  inv no_hole s →
  wp shutdown (λ _ s', if c_closed s then s' = s else shut s s') (λ _ _, False) s.
Proof.
  intros Hi. unfold shutdown. do 2 wp_step. destruct (c_closed s) eqn:Hc; [by wp_step|].
  do 3 wp_step. set (s0 := on_closed (λ _, true) s).
  assert (Hi0 : inv anyone s0) by (by eapply inv_weaken; [apply inv_closed_flag|]).
  eapply wp_mono; [apply (wp_drain_tenants (c_order s) s0 Hi0); by apply Hi|..|done].
  intros _ s1 (Hi1 & Hd & He). do 6 wp_step.
  assert (Hempty : ∀ tid st, c_tenants s1 !! tid = Some st → ts_queue st = []).
  { intros tid st Ht. apply (He tid st); [|done]. rewrite <- (dr_order _ _ Hd : _ = c_order s).
    apply (inv_order _ _ Hi1). by eexists. }
  assert (Hq : c_queued s1 = 0).
  { rewrite (inv_queued _ _ Hi1). apply sum_map_zero. intros tid st Ht. unfold queue_len.
    by rewrite (Hempty tid st Ht). }
  cbn [c_queued on_active_ids on_active]. rewrite Hq. simpl. apply wp_notify. intros s2 Hq2.
  set (s1' := on_active_ids _ _) in Hq2.
  assert (Hi1' : inv no_hole s1').
  { constructor; simpl; try apply Hi1.
    - intros tid st Ht. by destruct (inv_tenants _ _ Hi1 _ _ Ht).
    - constructor.
    - set_solver.
    - by intros tid ?%elem_of_nil.
    - intros tid st Ht _. rewrite (Hempty tid st Ht). split; [by intros ?%elem_of_nil|done]. }
  pose proof (quiet_inv _ _ _ Hi1' Hq2). destruct Hq2 as [[] [Hts Hqd]].
  split_and!; try done.
  - rewrite sr_closed. apply (dr_closed _ _ Hd).
  - by rewrite Hqd.
  - by rewrite Hts.
  - destruct Hd. constructor; simpl in *; rewrite ?Hts; try congruence.
    + by rewrite sr_futures.
    + by rewrite sr_futures.
    + done.
Qed.

(** * Construction *)

Definition initial_tenants (ts : list tenant_context) : gmap pystr tenant_state :=
  foldl (λ m t, <[tenant_id t := TenantState t 0 []]> m) ∅ ts.

Lemma list_to_set_size_le (l : list pystr) : (size (list_to_set l : gset pystr) ≤ length l)%nat.
Proof.
  induction l as [|x l IH]; simpl; [done|].
  pose proof (size_union_alt {[x]} (list_to_set l : gset pystr)) as Hs.
  assert (list_to_set l ∖ {[x]} ⊆ (list_to_set l : gset pystr)) as Hsub%subseteq_size by set_solver.
  rewrite Hs, size_singleton. lia.
Qed.

Lemma list_to_set_size_NoDup (l : list pystr) :
  size (list_to_set l : gset pystr) = length l → NoDup l.
Proof.
  induction l as [|x l IH]; simpl; intros Hs; constructor.
  - intros Hin. assert ({[x]} ∪ list_to_set l = (list_to_set l : gset pystr)) as Heq by set_solver.
    rewrite Heq in Hs. pose proof (list_to_set_size_le l). lia.
  - apply IH. rewrite size_union_alt, size_singleton in Hs.
    assert (list_to_set l ∖ {[x]} ⊆ (list_to_set l : gset pystr)) as Hsub%subseteq_size by set_solver.
    pose proof (list_to_set_size_le l). lia.
Qed.

Lemma dom_initial ts (m : gmap pystr tenant_state) :
  dom (foldl (λ m t, <[tenant_id t := TenantState t 0 []]> m) m ts)
  = list_to_set (tenant_id <$> ts) ∪ dom m.
Proof.
  revert m. induction ts as [|t ts IH]; intros m; simpl; [set_solver|].
  rewrite IH, dom_insert_L. set_solver.
Qed.

Lemma initial_NoDup ts : size (initial_tenants ts) = length ts → NoDup (tenant_id <$> ts).
Proof.
  intros Hs. apply list_to_set_size_NoDup. rewrite length_fmap, <- Hs, <- size_dom.
  unfold initial_tenants. rewrite dom_initial. f_equal. set_solver.
Qed.

Lemma NoDup_initial ts : NoDup (tenant_id <$> ts) → size (initial_tenants ts) = length ts.
Proof.
  intros Hnd. rewrite <- size_dom. unfold initial_tenants. rewrite dom_initial.
  replace (list_to_set (tenant_id <$> ts) ∪ dom ∅ : gset pystr) with
    (list_to_set (tenant_id <$> ts) : gset pystr) by set_solver.
  by rewrite size_list_to_set, length_fmap.
Qed.

Lemma tenants_init ts (m : gmap pystr tenant_state) :
  NoDup (tenant_id <$> ts) → (∀ t, t ∈ ts → m !! tenant_id t = None) →
  ∀ tid st, foldl (λ m t, <[tenant_id t := TenantState t 0 []]> m) m ts !! tid = Some st ↔
    m !! tid = Some st ∨ ∃ t, t ∈ ts ∧ tenant_id t = tid ∧ st = TenantState t 0 [].
Proof.
  revert m. induction ts as [|t ts IH]; intros m Hnd Hm tid st; simpl.
  { split; [by left|]. intros [?|(t & ?%elem_of_nil & _)]; done. }
  apply NoDup_cons in Hnd as [Hni Hnd]. rewrite IH; [|done|].
  - split.
    + intros [Hi|(t' & ? & <- & ->)]; [|right; exists t'; set_solver]. map_simpl; [|by left].
      right. exists t. set_solver.
    + intros [Hi|(t' & Hin & <- & ->)].
      * left. rewrite lookup_insert_ne; [done|]. intros <-. by rewrite Hm in Hi by set_solver.
      * apply elem_of_cons in Hin as [->|Hin]; [left; apply lookup_insert_eq|right]. eauto.
  - intros t' Hin. rewrite lookup_insert_ne; [apply Hm; set_solver|].
    intros Heq. apply Hni. rewrite Heq. by apply list_elem_of_fmap_2.
Qed.

(** What [__init__] checks of its arguments, the contexts being valid. *)
Definition limits_ok (t : tenant_context) : Prop := 0 < max_inflight t ∧ 0 ≤ max_queue t.

Lemma ctrl_init_ok ts gmi gmq timeout ob s :
  Forall limits_ok ts → ctrl_init ts gmi gmq timeout ob = inr s →
  inv no_hole s ∧ busy s ∧ c_closed s = false ∧ c_futures s = ∅ ∧ c_leases s = ∅ ∧
  c_max_inflight s = gmi ∧ c_max_queue s = gmq ∧ c_inflight s = 0 ∧ c_queued s = 0 ∧
  0 < gmi ∧ 0 ≤ gmq ∧
  (∀ tid st, c_tenants s !! tid = Some st →
     ∃ t, t ∈ ts ∧ tenant_id t = tid ∧ st = TenantState t 0 []) ∧
  ∀ t, t ∈ ts → c_tenants s !! tenant_id t = Some (TenantState t 0 []).
Proof.
  unfold ctrl_init. intros Hok.
  destruct (Z.leb_spec gmi 0), (Z.ltb_spec gmq 0), (Z.leb_spec timeout 0); try done. simpl.
  fold (initial_tenants ts). destruct (Nat.eqb_spec (size (initial_tenants ts)) (length ts)) as [Hsz|]; [|done].
  simpl. intros [= Hs]. pose proof (initial_NoDup _ Hsz) as Hnd.
  assert (Hts : ∀ tid st, initial_tenants ts !! tid = Some st ↔
    ∃ t, t ∈ ts ∧ tenant_id t = tid ∧ st = TenantState t 0 []).
  { intros tid st. unfold initial_tenants. rewrite tenants_init; [|done|done].
    rewrite lookup_empty. naive_solver. }
  set (s0 := Ctrl _ _ _ _ _ _ _ _ _ _ _ _ _ _ _) in Hs.
  assert (Hi : inv no_hole s0).
  { assert (Hz : ∀ f, (∀ t, f (TenantState t 0 []) = 0) → sum_map f (initial_tenants ts) = 0).
    { intros f Hf. apply sum_map_zero. intros tid st Ht. apply Hts in Ht as (t & _ & _ & ->). done. }
    constructor; simpl; try done.
    - intros tid. rewrite list_elem_of_fmap. split.
      + intros (t & -> & Hin). exists (TenantState t 0 []). apply Hts. eauto.
      + intros [st (t & ? & <- & _)%Hts]. eauto.
    - intros tid st (t & Hin & <- & ->)%Hts. rewrite Forall_forall in Hok.
      destruct (Hok t Hin). constructor; simpl; try done; try lia.
      + constructor.
      + constructor.
      + by intros w ?%elem_of_nil.
    - intros t1 t2 st1 st2 w (? & _ & _ & ->)%Hts _ ?%elem_of_nil. done.
    - by rewrite Hz.
    - lia.
    - by rewrite Hz.
    - constructor.
    - set_solver.
    - by intros tid ?%elem_of_nil.
    - intros tid st (t & _ & _ & ->)%Hts _. split; [by intros ?%elem_of_nil|done].
    - by intros i [].
    - by intros i []. }
  assert (Hq : quiet s0 s) by (rewrite <- Hs; case_match; by repeat constructor).
  pose proof (quiet_inv _ _ _ Hi Hq). destruct Hq as [[] [Ht Hqd]].
  split_and!; try done; try congruence.
  - right. rewrite sr_active. by apply Forall_nil.
  - rewrite Ht. intros tid st. apply Hts.
  - rewrite Ht. intros t Hin. apply Hts. eauto.
Qed.
End sections.
