(* ===== verification/AdmissionSystem.v ===== *)
(** The admission controller under every interleaving of calls, releases,
    timers, cancellations and shutdown: the system invariant and the theorems
    about reachable states. *)
From S2P Require Import Prelude.
From S2P Require Import Python.
From S2P Require Import Errors.
From S2P Require Import Auth.
From S2P Require Import Admission.
From S2P Require Import AdmissionInv.
From S2P Require Import AdmissionOps.
From S2P Require Import AdmissionSections.

(** * Suspended calls and the leases handed out *)

Record calls_ok (late : bool) (s : ctrl) (fs : gmap nat frame) (held : gset nat) : Prop := {
  co_frame w fr : fs !! w = Some fr →
    is_Some (c_futures s !! w) ∧ is_Some (c_tenants s !! f_tenant fr);
  co_pending w : c_futures s !! w = Some FPending →
    ∃ fr st, fs !! w = Some fr ∧ f_wake fr = WakeNormal ∧
             c_tenants s !! f_tenant fr = Some st ∧ w ∈ ts_queue st;
  co_queued tid st w : c_tenants s !! tid = Some st → w ∈ ts_queue st →
    ∃ fr, fs !! w = Some fr ∧ f_tenant fr = tid;
  co_exn w e : c_futures s !! w = Some (FException e) → e = gw AdmissionUnavailableError;
  co_held l : l ∈ held → is_Some (c_leases s !! l);
  co_unheld w fr l : fs !! w = Some fr → c_futures s !! w = Some (FResult l) → l ∉ held;
  co_owner l le : late = false → c_leases s !! l = Some le → l_released le = false →
    l ∈ held ∨ ∃ w fr, fs !! w = Some fr ∧ c_futures s !! w = Some (FResult l);
  co_timer w fr : late = false → fs !! w = Some fr → f_wake fr = WakeTimeout →
    c_futures s !! w = Some FCancelled;
  co_normal w fr : fs !! w = Some fr → f_wake fr = WakeNormal → c_futures s !! w ≠ Some FCancelled;
}.

Lemma moves_tenant_inv hole R s s' tid st' :
  inv hole s → inv no_hole s' → moves R s s' → c_tenants s' !! tid = Some st' →
  ∃ st, c_tenants s !! tid = Some st ∧ ts_queue st' `sublist_of` ts_queue st.
Proof.
  intros Hi Hi' Hm Ht'. assert (is_Some (c_tenants s !! tid)) as [st Ht].
  { apply (inv_order _ _ Hi). rewrite <- (mv_order _ _ _ Hm). apply (inv_order _ _ Hi'). by eexists. }
  exists st. split; [done|]. destruct (mv_tenant _ _ _ Hm _ _ Ht) as (st2 & ? & _ & ? & _). by simplify_eq.
Qed.

Lemma calls_moves hole R late s s' fs held :
  inv hole s → inv no_hole s' → moves R s s' → calls_ok late s fs held → calls_ok late s' fs held.
Proof.
  intros Hi Hi' Hm Hc. constructor.
  - intros w fr Hw. destruct (co_frame _ _ _ _ Hc _ _ Hw) as [[f Hf] [st Ht]]. split.
    + destruct (mv_future _ _ _ Hm w) as [->|[_ [l [-> _]]]]; eauto.
    + destruct (mv_tenant _ _ _ Hm _ _ Ht) as (? & ? & _). eauto.
  - intros w Hp. assert (c_futures s !! w = Some FPending) as Hps.
    { destruct (mv_future _ _ _ Hm w) as [<-|[? _]]; done. }
    destruct (co_pending _ _ _ _ Hc _ Hps) as (fr & st & ? & ? & Ht & Hin).
    destruct (mv_tenant _ _ _ Hm _ _ Ht) as (st' & ? & _ & _ & Hk). exists fr, st'. eauto.
  - intros tid st' w Ht' Hin. destruct (moves_tenant_inv _ _ _ _ _ _ Hi Hi' Hm Ht') as (st & Ht & Hs).
    eapply (co_queued _ _ _ _ Hc); [done|]. by eapply elem_of_sublist.
  - intros w e He. destruct (mv_future _ _ _ Hm w) as [Hf|[_ [l [Hf _]]]]; [|congruence].
    apply (co_exn _ _ _ _ Hc w). congruence.
  - intros l [le Hle]%(co_held _ _ _ _ Hc). destruct (mv_lease _ _ _ Hm _ _ Hle) as (? & ? & _). eauto.
  - intros w fr l Hw Hf. destruct (mv_future _ _ _ Hm w) as [Hf'|[_ [l' [Hf' Hn]]]].
    + eapply (co_unheld _ _ _ _ Hc); [done|congruence].
    + intros [le ?]%(co_held _ _ _ _ Hc). congruence.
  - intros l le' Hl Hle' Hr. destruct (c_leases s !! l) as [le|] eqn:Hle.
    + destruct (mv_lease _ _ _ Hm _ _ Hle) as (le2 & Hle2 & _ & Hrr & _).
      destruct (co_owner _ _ _ _ Hc l le Hl Hle) as [?|(w & fr & Hw & Hf)]; [|by left|].
      { destruct (l_released le); [|done]. specialize (Hrr eq_refl). congruence. }
      right. exists w, fr. split; [done|]. by eapply moves_done.
    + destruct (mv_new _ _ _ Hm _ _ Hle' Hle) as (_ & w & Hp & Hf).
      destruct (co_pending _ _ _ _ Hc _ Hp) as (fr & _ & ? & _). right. by exists w, fr.
  - intros w fr Hl Hw Hk. eapply moves_done; [done|by eapply (co_timer _ _ _ _ Hc)|done].
  - intros w fr Hw Hk. destruct (mv_future _ _ _ Hm w) as [->|[_ [l [-> _]]]]; [|done].
    by eapply (co_normal _ _ _ _ Hc).
Qed.

(** A new call suspends. *)
Lemma calls_enqueue late s fs held tid st t0 :
  inv no_hole s → c_tenants s !! tid = Some st → calls_ok late s fs held →
  calls_ok late (enqueue_state tid st s) (<[c_next s := Frame tid t0 WakeNormal]> fs) held.
Proof.
  intros Hi Ht Hc. set (w0 := c_next s).
  assert (Hnf : ∀ w f, c_futures s !! w = Some f → w ≠ w0).
  { intros w f Hf%mk_is_Some%(inv_fresh_f _ _ Hi) ->. unfold w0 in Hf. lia. }
  assert (Hfs : ∀ w fr, fs !! w = Some fr → w ≠ w0).
  { intros w fr Hw. destruct (co_frame _ _ _ _ Hc _ _ Hw) as [[f Hf] _]. by eapply Hnf. }
  assert (Hq0 : ∀ t st' w, c_tenants s !! t = Some st' → w ∈ ts_queue st' → w ≠ w0).
  { intros t st' w Ht' Hw. destruct (to_futures _ _ _ (inv_tenants _ _ Hi _ _ Ht') _ Hw) as (f & Hf & _).
    by eapply Hnf. }
  constructor; simpl.
  - intros w fr Hw. rewrite !lookup_insert_is_Some'. map_simpl; [eauto|].
    destruct (co_frame _ _ _ _ Hc w fr) as [? ?]; eauto.
  - intros w Hp. map_simpl.
    + rewrite lookup_insert_eq. eexists _, _. split_and!; [done|done|apply lookup_insert_eq|].
      simpl. set_solver.
    + destruct (co_pending _ _ _ _ Hc w) as (fr & st' & ? & ? & Ht' & ?); [done|].
      rewrite lookup_insert_ne by done. destruct (decide (f_tenant fr = tid)) as [<-|].
      * simplify_eq. exists fr. eexists. split_and!; [done|done|by rewrite lookup_insert_eq|].
        simpl. set_solver.
      * exists fr, st'. by rewrite lookup_insert_ne.
  - intros t st' w Ht' Hw. map_simpl.
    + apply elem_of_app in Hw as [Hw| ->%list_elem_of_singleton].
      * rewrite lookup_insert_ne by (intros <-; by eapply Hq0). by eapply (co_queued _ _ _ _ Hc).
      * rewrite lookup_insert_eq. eauto.
    + rewrite lookup_insert_ne by (intros <-; by eapply Hq0). by eapply (co_queued _ _ _ _ Hc).
  - intros w e He. map_simpl. by eapply (co_exn _ _ _ _ Hc).
  - apply Hc.
  - intros w fr l Hw Hf. map_simpl. by eapply (co_unheld _ _ _ _ Hc).
  - intros l le Hl Hle Hr. destruct (co_owner _ _ _ _ Hc l le Hl Hle Hr) as [?|(w & fr & Hw & Hf)]; [by left|].
    right. exists w, fr. rewrite !lookup_insert_ne; eauto using not_eq_sym.
  - intros w fr Hl Hw Hk. map_simpl. rewrite lookup_insert_ne by done. by eapply (co_timer _ _ _ _ Hc).
  - intros w fr Hw Hk. map_simpl; [by rewrite lookup_insert_eq|].
    rewrite lookup_insert_ne by done. by eapply (co_normal _ _ _ _ Hc).
Qed.

(** A new call is admitted at once. *)
Lemma calls_admit late s s' fs held tid l :
  inv no_hole s → admitted_now tid l s s' → calls_ok late s fs held →
  calls_ok late s' fs ({[l]} ∪ held).
Proof.
  intros Hi [_ _ _ _ Hq Hq' Hf Hn [now Hls]] Hc. constructor; rewrite ?Hf; try apply Hc.
  - intros w fr Hw. destruct (co_frame _ _ _ _ Hc _ _ Hw) as [? [st Ht]]. split; [done|].
    destruct (Hq _ _ Ht) as (? & ? & _). eauto.
  - intros w Hp. destruct (co_pending _ _ _ _ Hc _ Hp) as (fr & st & ? & ? & Ht & ?).
    destruct (Hq _ _ Ht) as (st' & ? & _ & He). exists fr, st'. by rewrite He.
  - intros t st' w Ht' Hw. destruct (Hq' _ _ Ht') as (st & Ht & He). rewrite <- He in Hw.
    by eapply (co_queued _ _ _ _ Hc).
  - intros i Hi'. rewrite Hls, lookup_insert_is_Some'.
    apply elem_of_union in Hi' as [->%elem_of_singleton|Hh]; [by left|right; by apply Hc].
  - intros w fr i Hw Hfw. rewrite elem_of_union, elem_of_singleton. intros [->|Hh].
    + apply (inv_result _ _ Hi) in Hfw as [? ?]. congruence.
    + by eapply (co_unheld _ _ _ _ Hc).
  - intros i le Hl Hle Hr. rewrite Hls in Hle. map_simpl; [left; set_solver|].
    destruct (co_owner _ _ _ _ Hc i le) as [?|?]; try done; [left; set_solver|by right].
Qed.

(** A timer or a cancellation wakes a suspended call. *)
Lemma calls_wake late s fs held w fr k :
  fs !! w = Some fr → k ≠ WakeNormal →
  (late = false → k = WakeTimeout → c_futures s !! w = Some FPending) →
  calls_ok late s fs held →
  calls_ok late (on_futures (alter fut_cancel w) s)
    (<[w := Frame (f_tenant fr) (f_started fr) k]> fs) held.
Proof.
  intros Hw Hk Hp Hc. constructor; simpl; try apply Hc.
  - intros v fr' Hv. rewrite lookup_alter_is_Some.
    map_simpl; [exact (co_frame _ _ _ _ Hc _ _ Hw)|by eapply (co_frame _ _ _ _ Hc)].
  - intros v Hv. destruct (decide (w = v)) as [<-|Hne].
    { rewrite lookup_alter_eq in Hv. destruct (c_futures s !! w) as [[]|]; done. }
    rewrite lookup_alter_ne in Hv by done. rewrite lookup_insert_ne by done. by apply Hc.
  - intros t st v Ht Hv. destruct (co_queued _ _ _ _ Hc _ _ _ Ht Hv) as (fr' & Hfr & <-).
    destruct (decide (w = v)) as [<-|Hne]; [|rewrite lookup_insert_ne by done; eauto].
    rewrite lookup_insert_eq. simplify_eq. by eexists.
  - intros v e [He|(_ & _ & [=])]%lookup_cancel. by eapply (co_exn _ _ _ _ Hc).
  - intros v fr' l Hv [Hf|(_ & _ & [=])]%lookup_cancel. map_simpl; by eapply (co_unheld _ _ _ _ Hc).
  - intros l le Hl Hle Hr. destruct (co_owner _ _ _ _ Hc l le Hl Hle Hr) as [?|(v & fr' & Hv & Hf)]; [by left|].
    right. destruct (decide (w = v)) as [<-|Hne].
    + exists w. eexists. by rewrite lookup_insert_eq, lookup_alter_eq, Hf.
    + exists v, fr'. by rewrite lookup_insert_ne, lookup_alter_ne by done.
  - intros v fr' Hl Hv Hk'. map_simpl.
    + rewrite lookup_alter_eq, Hp; done.
    + rewrite lookup_alter_ne by done. by eapply (co_timer _ _ _ _ Hc).
  - intros v fr' Hv Hk'. map_simpl. rewrite lookup_alter_ne by done. by eapply (co_normal _ _ _ _ Hc).
Qed.

(** A suspended call ends, with its lease or without one. *)
Lemma calls_end late s fs held held' w fr f :
  inv no_hole s → fs !! w = Some fr → c_futures s !! w = Some f → fut_done f = true →
  left_queue (f_tenant fr) w s → calls_ok late s fs held →
  (held' = held ∨ ∃ l, f = FResult l ∧ held' = {[l]} ∪ held) →
  (∀ l le, late = false → f = FResult l → c_leases s !! l = Some le → l_released le = false →
     l ∈ held') →
  calls_ok late s (delete w fs) held'.
Proof.
  intros Hi Hw Hf Hd (st & Ht & Hq) Hc Hh Hl.
  assert (Hsub : held ⊆ held') by (destruct Hh as [->|(l & _ & ->)]; set_solver).
  constructor; try apply Hc.
  - intros v fr' [_ Hv]%lookup_delete_Some. by eapply (co_frame _ _ _ _ Hc).
  - intros v Hv. assert (w ≠ v) by (intros <-; rewrite Hf in Hv; by simplify_eq).
    rewrite lookup_delete_ne by done. by apply Hc.
  - intros t st' v Ht' Hv. destruct (co_queued _ _ _ _ Hc _ _ _ Ht' Hv) as (fr' & Hfr & <-).
    destruct (decide (w = v)) as [<-|Hne]; [by simplify_eq|].
    exists fr'. by rewrite lookup_delete_ne.
  - intros l Hin. destruct Hh as [->|(l' & -> & ->)]; [by apply Hc|].
    apply elem_of_union in Hin as [->%elem_of_singleton|Hin]; [|by apply Hc].
    by eapply (inv_result _ _ Hi).
  - intros v fr' l [Hne Hv]%lookup_delete_Some Hfv. destruct Hh as [->|(l' & -> & ->)]; [by eapply (co_unheld _ _ _ _ Hc)|].
    rewrite elem_of_union, elem_of_singleton. intros [->|Hin].
    + assert (w = v) by (by eapply (inv_once _ _ Hi)). done.
    + by eapply (co_unheld _ _ _ _ Hc).
  - intros l le Hlate Hle Hr. destruct (co_owner _ _ _ _ Hc l le Hlate Hle Hr) as [?|(v & fr' & Hv & Hfv)].
    { left. by apply Hsub. }
    destruct (decide (w = v)) as [<-|Hne].
    + left. simplify_eq. by eapply Hl.
    + right. exists v, fr'. by rewrite lookup_delete_ne.
  - intros v fr' Hlate [_ Hv]%lookup_delete_Some Hk. by eapply (co_timer _ _ _ _ Hc).
  - intros v fr' [_ Hv]%lookup_delete_Some Hk. by eapply (co_normal _ _ _ _ Hc).
Qed.

(** The gateway shuts down. *)
Lemma calls_shut late s s' fs held :
  inv no_hole s → shut s s' → calls_ok late s fs held → calls_ok late s' fs held.
Proof.
  intros Hi (Hi' & _ & _ & He & Hd) Hc. destruct Hd as [Ho _ _ _ Hls _ Ht Hf _]; simpl in *.
  constructor; rewrite ?Hls; try apply Hc.
  - intros w fr Hw. destruct (co_frame _ _ _ _ Hc _ _ Hw) as [[f Hfw] [st Hst]]. split.
    + destruct (Hf w) as [->|[_ ->]]; eauto.
    + destruct (Ht _ _ Hst) as (? & ? & _). eauto.
  - intros w Hp. exfalso. assert (c_futures s !! w = Some FPending) as Hps.
    { destruct (Hf w) as [<-|[? _]]; done. }
    destruct (co_pending _ _ _ _ Hc _ Hps) as (fr & st & _ & _ & Hst & Hin).
    destruct (Ht _ _ Hst) as (st' & Hst' & _ & _ & Hk). specialize (Hk _ Hin Hp).
    rewrite (He _ _ Hst') in Hk. by apply elem_of_nil in Hk.
  - intros tid st w Hst Hin. rewrite (He _ _ Hst) in Hin. by apply elem_of_nil in Hin.
  - intros w e Hfw. destruct (Hf w) as [Heq|[_ Heq]]; rewrite Heq in Hfw; [|by simplify_eq].
    by eapply (co_exn _ _ _ _ Hc).
  - intros w fr l Hw Hfw. destruct (Hf w) as [Heq|[_ Heq]]; rewrite Heq in Hfw; [|done].
    by eapply (co_unheld _ _ _ _ Hc).
  - intros l le Hlate Hle Hr. destruct (co_owner _ _ _ _ Hc l le Hlate Hle Hr) as [?|(w & fr & Hw & Hfw)]; [by left|].
    right. exists w, fr. split; [done|]. by destruct (Hf w) as [->|[? _]]; [|congruence].
  - intros w fr Hlate Hw Hk. pose proof (co_timer _ _ _ _ Hc w fr Hlate Hw Hk) as Hfw.
    by destruct (Hf w) as [->|[? _]]; [|congruence].
  - intros w fr Hw Hk. destruct (Hf w) as [->|[_ ->]]; [by eapply (co_normal _ _ _ _ Hc)|done].
Qed.

(** The lease a suspended call is about to return is one of its tenant that has
    not been released. *)
Definition live_ok (s : ctrl) (fs : gmap nat frame) : Prop :=
  ∀ w fr l, fs !! w = Some fr → c_futures s !! w = Some (FResult l) →
    ∃ le, c_leases s !! l = Some le ∧ l_released le = false ∧ l_tenant le = f_tenant fr.

Lemma live_moves R late s s' fs fs0 held :
  inv no_hole s' → calls_ok late s fs0 held → fs ⊆ fs0 →
  (∀ l, R l → is_Some (c_leases s !! l) ∧
        ∀ w fr, fs !! w = Some fr → c_futures s !! w ≠ Some (FResult l)) →
  moves R s s' → live_ok s fs → live_ok s' fs.
Proof.
  intros Hi' Hc Hsub HR Hm Hlv w fr l Hw Hf. destruct (mv_future _ _ _ Hm w) as [Heq|(Hp & l' & Hl' & Hn)].
  - rewrite Heq in Hf. destruct (Hlv _ _ _ Hw Hf) as (le & Hle & Hr).
    destruct (mv_lease _ _ _ Hm _ _ Hle) as (le' & Hle' & _ & _ & [Hl| ->]); [|eauto].
    destruct (HR _ Hl) as [_ Hno]. by edestruct Hno.
  - simplify_eq. destruct (co_pending _ _ _ _ Hc _ Hp) as (fr' & st & Hw' & _ & Ht & Hin).
    pose proof (lookup_weaken _ _ _ _ Hw Hsub). simplify_eq. destruct (mv_owner _ _ _ Hm _ _ _ _ Ht Hin Hp Hf) as (le & Hle & ?).
    exists le. split; [done|]. split; [|done].
    destruct (mv_new _ _ _ Hm _ _ Hle Hn) as ([Hl|?] & _); [|done].
    destruct (HR _ Hl) as [[? ?] _]. congruence.
Qed.

Lemma live_moves_none late s s' fs held :
  inv no_hole s' → calls_ok late s fs held → moves none s s' → live_ok s fs → live_ok s' fs.
Proof. intros Hi Hc Hm. by apply (live_moves none late _ _ _ fs held). Qed.

Lemma live_enqueue s fs tid st fr :
  live_ok s fs → live_ok (enqueue_state tid st s) (<[c_next s := fr]> fs).
Proof. intros Hlv w fr' l Hw Hf. simpl in *. map_simpl. by eapply Hlv. Qed.

Lemma live_admit s s' fs tid l :
  admitted_now tid l s s' → live_ok s fs → live_ok s' fs.
Proof.
  intros Han Hlv w fr i Hw Hf. rewrite (an_futures _ _ _ _ Han) in Hf.
  destruct (Hlv _ _ _ Hw Hf) as (le & Hle & ?). exists le. split; [|done].
  pose proof (an_fresh _ _ _ _ Han). destruct (an_lease _ _ _ _ Han) as [now ->].
  rewrite lookup_insert_ne; congruence.
Qed.

Lemma live_wake s fs w fr k :
  fs !! w = Some fr → live_ok s fs →
  live_ok (on_futures (alter fut_cancel w) s) (<[w := Frame (f_tenant fr) (f_started fr) k]> fs).
Proof.
  intros Hw Hlv v fr' l Hv [Hf|(_ & _ & [=])]%lookup_cancel.
  apply lookup_insert_Some in Hv as [[<- <-]|[_ Hv]]; [exact (Hlv _ _ _ Hw Hf)|by eapply Hlv].
Qed.

Lemma live_shut s s' fs : shut s s' → live_ok s fs → live_ok s' fs.
Proof.
  intros (_ & _ & _ & _ & Hd) Hlv w fr l Hw Hf. rewrite (dr_leases _ _ Hd). eapply Hlv; [done|].
  destruct (dr_future _ _ Hd w) as [Heq|[_ ?]]; simpl in *; congruence.
Qed.

(** * The system invariant *)

Record sys_ok (late : bool) (y : system) : Prop := {
  so_inv : inv no_hole (y_ctrl y);
  so_settled : settled (y_ctrl y);
  so_closed tid st : c_closed (y_ctrl y) = true → c_tenants (y_ctrl y) !! tid = Some st →
    ts_queue st = [];
  so_calls : calls_ok late (y_ctrl y) (y_frames y) (y_held y);
  so_live : live_ok (y_ctrl y) (y_frames y);
}.

(** An unreleased lease of the tenant. *)
Definition usable_lease (y : system) (tid : pystr) (l : nat) : Prop :=
  ∃ le, c_leases (y_ctrl y) !! l = Some le ∧ l_released le = false ∧ l_tenant le = tid.

(** What each event may answer. *)
Definition answer_ok (y : system) (ev : event) (o : outcome) (y' : system) : Prop :=
  match ev, o with
  | EvAcquire t, OLease l => c_leases (y_ctrl y) !! l = None ∧ l ∈ y_held y' ∧
      usable_lease y' (tenant_id t) l
  | EvAcquire t, OSuspended w => y_frames y !! w = None ∧ is_Some (y_frames y' !! w)
  | EvAcquire t, ORaised e => refused t (y_ctrl y') e
  | EvResume w, OLease l => (l ∉ y_held y) ∧ l ∈ y_held y' ∧ y_frames y' !! w = None ∧
      ∃ fr, y_frames y !! w = Some fr ∧ f_wake fr = WakeNormal ∧ usable_lease y' (f_tenant fr) l
  | EvResume w, ORaised e => y_frames y' !! w = None ∧ ∃ fr, y_frames y !! w = Some fr ∧
      (e = gw AdmissionTimeoutError ∧ f_wake fr = WakeTimeout ∨
       e = CancelledError ∧ f_wake fr = WakeCancel ∨
       e = gw AdmissionUnavailableError ∧ f_wake fr = WakeNormal)
  | EvTimer _, ONone | EvCancel _, ONone | EvRelease _, ONone | EvShutdown, ONone
  | EvObserver _, ONone => True
  | _, _ => False
  end.

Lemma finish_wp {A} y (m : adm A) (Q : A → ctrl → Prop) X (k : A → ctrl → outcome * system) o y' :
  wp m Q X (y_ctrl y) → finish y m k = (o, y') →
  (∃ a c, k a c = (o, y') ∧ Q a c) ∨
  (∃ e c, (ORaised e, System c (y_frames y) (y_held y)) = (o, y') ∧ X e c).
Proof. unfold wp, finish. destruct (m (y_ctrl y)) as [[e|a] c]; eauto 6. Qed.

Lemma moves_drained R s s' :
  inv no_hole s → inv no_hole s' → moves R s s' →
  (∀ tid st, c_closed s = true → c_tenants s !! tid = Some st → ts_queue st = []) →
  ∀ tid st, c_closed s' = true → c_tenants s' !! tid = Some st → ts_queue st = [].
Proof.
  intros Hi Hi' Hm He tid st' Hc Ht'. rewrite (mv_closed _ _ _ Hm) in Hc.
  destruct (moves_tenant_inv _ _ _ _ _ _ Hi Hi' Hm Ht') as (st & Ht & Hs).
  rewrite (He _ _ Hc Ht) in Hs. by apply sublist_nil_r in Hs.
Qed.

Lemma sys_moves R late y s' :
  (∀ l, R l → l ∈ y_held y) →
  sys_ok late y → inv no_hole s' → moves R (y_ctrl y) s' → settled s' →
  sys_ok late (System s' (y_frames y) (y_held y)).
Proof.
  intros HR [Hi Hs Hcl Hc Hlv] Hi' Hm Hs'. constructor; simpl; try done.
  - by apply (moves_drained R (y_ctrl y)).
  - by apply (calls_moves no_hole R late (y_ctrl y)).
  - eapply live_moves; [done|done|done| |done|done]. intros l Hl%HR. split; [by apply Hc|].
    intros w fr Hw Hf. by eapply (co_unheld _ _ _ _ Hc).
Qed.

Section system.
Context (clock : nat → Z).

Lemma finish_acquire late y t o y' :
  sys_ok late y → exec clock late (EvAcquire t) y = Some (o, y') →
  sys_ok late y' ∧ answer_ok y (EvAcquire t) o y'.
Proof.
  intros Hy [= Hex]. pose proof Hy as [Hi Hs Hcl Hc Hlv].
  eapply finish_wp in Hex as [([t0 a] & s' & Hex & Hr)|(e & s' & Hex & Hr)];
    [..|by apply (wp_acquire_begin clock t)].
  - destruct Hr as (Hi' & Hs' & Hnc & Hst). destruct a as [l|w]; simplify_eq; simpl.
    + destruct Hst as (s1 & st & Hm & Hi1 & Ht & Hq & Ha & Han).
      pose proof (calls_moves _ _ _ _ _ _ _ Hi Hi1 Hm Hc) as Hc1. split; [constructor; simpl; try done|].
      * rewrite (an_closed _ _ _ _ Han), (mv_closed _ _ _ Hm). congruence.
      * by eapply calls_admit.
      * eapply live_admit; [done|]. by eapply (live_moves_none _ (y_ctrl y)).
      * split_and!; [|set_solver|].
        2:{ destruct (an_lease _ _ _ _ Han) as [now Hls]. exists (Lease (tenant_id t) false now false).
            simpl. by rewrite Hls, lookup_insert_eq. }
        apply eq_None_not_Some. intros [le Hle]. destruct (mv_lease _ _ _ Hm _ _ Hle) as (? & ? & _). pose proof (an_fresh _ _ _ _ Han). congruence.
    + destruct Hst as (s1 & st & Hm & Hi1 & Hs1 & Ht & _ & Hqb & Hgb & -> & Hm').
      pose proof (calls_moves _ _ _ _ _ _ _ Hi Hi1 Hm Hc) as Hc1.
      assert (Hi2 : inv (only (tenant_id t)) (enqueue_state (tenant_id t) st s1)).
      { apply inv_enqueue; try done. by eapply inv_weaken. }
      split; [constructor; simpl; try done|].
      * rewrite (mv_closed _ _ _ Hm'). simpl. rewrite (mv_closed _ _ _ Hm). congruence.
      * eapply calls_moves; [done..|]. by apply calls_enqueue.
      * eapply live_moves_none; [done|by apply calls_enqueue|done|]. apply live_enqueue. by eapply (live_moves_none _ (y_ctrl y)).
      * split; [|by rewrite lookup_insert_eq]. apply eq_None_not_Some.
        intros [fr Hfr]. destruct (co_frame _ _ _ _ Hc1 _ _ Hfr) as [?%(inv_fresh_f _ _ Hi1) _]. lia.
  - destruct Hr as (Hi' & Hm & Hs' & Hr). simplify_eq. split; [by apply (sys_moves none)|done].
Qed.

Lemma finish_resume late y w o y' :
  sys_ok late y → exec clock late (EvResume w) y = Some (o, y') →
  sys_ok late y' ∧ answer_ok y (EvResume w) o y'.
Proof.
  intros Hy. simpl. pose proof Hy as [Hi Hs Hcl Hc Hlv].
  destruct (y_frames y !! w) as [fr|] eqn:Hw; [|done].
  destruct (c_futures (y_ctrl y) !! w) as [f|] eqn:Hf; [|done].
  destruct (fut_done f) eqn:Hd; [|done]. intros [= Hex].
  destruct (co_frame _ _ _ _ Hc _ _ Hw) as [_ [st Ht]].
  assert (He : ∀ e, f = FException e → e = gw AdmissionUnavailableError).
  { intros e ->. by eapply (co_exn _ _ _ _ Hc). }
  assert (Hend : ∀ r s' held', resumed fr w f (y_ctrl y) r s' →
    (held' = y_held y ∨ ∃ l, f = FResult l ∧ held' = {[l]} ∪ y_held y) →
    (∀ l le, late = false → f = FResult l → c_leases s' !! l = Some le →
       l_released le = false → l ∈ held') →
    sys_ok late (System s' (delete w (y_frames y)) held')).
  { intros r s' held' (_ & [Hi' Hm Hs' Hl] & _) Hh Hlive. constructor; simpl; auto.
    - by eapply (moves_drained _ (y_ctrl y)).
    - eapply calls_end; try done; [by eapply (moves_done _ (y_ctrl y))|
        by eapply (calls_moves no_hole _ late (y_ctrl y))].
    - eapply live_moves; [done|exact Hc|apply delete_subseteq| |done|].
      + intros l [_ ->]. split; [by eapply (inv_result _ _ Hi)|].
        intros v fr' [Hne _]%lookup_delete_Some Hv. apply Hne. by eapply (inv_once _ _ Hi).
      + intros v fr' l [_ Hv]%lookup_delete_Some Hfv. by eapply Hlv. }
  eapply finish_wp in Hex as [(l & s' & [= <- <-] & Hr)|(e & s' & [= <- <-] & Hr)];
    [..|by apply (wp_acquire_resume clock fr w f st)]; simpl in *.
  - pose proof (proj1 Hr) as Hres. unfold resume_result in Hres.
    destruct (f_wake fr) eqn:Hk, f as [|l'| |]; try done. simplify_eq. split.
    + eapply Hend; [done|by eauto|]. intros i le _ [= <-]. set_solver.
    + split_and!; [by eapply (co_unheld _ _ _ _ Hc)|set_solver|by rewrite lookup_delete_eq|].
      exists fr. split_and!; [done|done|]. destruct Hr as (_ & [_ Hm _ _] & _).
      destruct (Hlv _ _ _ Hw Hf) as (le & Hle & ? & ?).
      destruct (mv_lease _ _ _ Hm _ _ Hle) as (le' & Hle' & _ & _ & [[? _]| ->]); [congruence|].
      by exists le.
  - pose proof Hr as (Hres & _ & Hrel). unfold resume_result in Hres. split.
    + eapply Hend; [done|by left|]. intros l le Hlate -> Hle Hle'.
      destruct (f_wake fr) eqn:Hk; [done|..].
      * pose proof (co_timer _ _ _ _ Hc _ _ Hlate Hw Hk). congruence.
      * destruct (Hrel eq_refl l eq_refl) as (? & ? & ?). congruence.
    + rewrite lookup_delete_eq. split; [done|]. exists fr. split; [done|].
      destruct (f_wake fr) eqn:Hk, f as [|l'|e'|]; simplify_eq; auto.
      by destruct (co_normal _ _ _ _ Hc w fr).
Qed.

Lemma sys_step late y ev o y' :
  sys_ok late y → step clock late y ev o y' → sys_ok late y' ∧ answer_ok y ev o y'.
Proof.
  intros Hy Hst. destruct Hst as [y ev o y' Hex]. pose proof Hy as [Hi Hs Hcl Hc Hlv].
  destruct ev as [t|w|w|w|l| |b].
  - by apply finish_acquire.
  - simpl in Hex. destruct (y_frames y !! w) as [[tid t0 []]|] eqn:Hw; try done.
    destruct (c_futures (y_ctrl y) !! w) as [f|] eqn:Hf; [|done].
    destruct (fut_done f && negb late) eqn:Hg; simplify_eq. split; [|done].
    constructor; simpl; auto using inv_cancel_future;
      [|by apply (live_wake _ _ w (Frame tid t0 WakeNormal))].
    apply (calls_wake late _ _ _ w (Frame tid t0 WakeNormal)); try done.
    intros -> _. rewrite andb_true_r in Hg. by destruct f.
  - simpl in Hex. destruct (y_frames y !! w) as [fr|] eqn:Hw; [|done].
    assert (sys_ok late (set_wake w WakeCancel fr y)).
    { constructor; simpl; auto using inv_cancel_future, live_wake. by apply calls_wake. }
    destruct fr as [tid t0 []]; simplify_eq; by split.
  - by apply finish_resume.
  - simpl in Hex. case_decide as Hl; [|done]. injection Hex as Hex.
    eapply finish_wp in Hex; [|apply (wp_release clock); [done|by apply Hc]].
    destruct Hex as [(? & s' & [= <- <-] & Hi' & Hm & Hs' & _)|(e & s' & _ & Hr)]; [|done].
    split; [eapply sys_moves; [|done..]; by intros ? <-|done].
  - injection Hex as Hex.
    eapply finish_wp in Hex; [|by apply wp_shutdown].
    destruct Hex as [(? & s' & [= <- <-] & Hsh)|(e & s' & _ & Hr)]; [|done].
    split; [|done]. destruct (c_closed (y_ctrl y)) eqn:Hcd; [subst; by destruct y|].
    pose proof Hsh as (Hi' & Hc' & _ & He & _). constructor; simpl; eauto.
    + unfold settled. congruence.
    + by apply (calls_shut late (y_ctrl y)).
    + by apply (live_shut (y_ctrl y)).
  - cbn [exec] in Hex. apply (inj Some) in Hex.
    assert (wp (set_observer b) (λ _ s', quiet (y_ctrl y) s') (λ _ _, False) (y_ctrl y)) as Hwp.
    { unfold set_observer. do 2 wp_step. apply wp_notify. intros s' Hq. etrans; [|done]. by repeat constructor. }
    eapply finish_wp in Hex as [(? & s' & [= <- <-] & Hq)|(e & s' & _ & Hr)]; [..|done]; [|done].
    split; [|done]. apply (sys_moves none); [done|done|exact (quiet_inv _ _ _ Hi Hq)|by apply quiet_moves|exact (quiet_settled _ _ Hs Hq)].
Qed.

(** A configuration the gateway starts with: valid contexts, as [TenantContext]
    guarantees, and a controller that [__init__] accepted. *)
Definition configured (ts : list tenant_context) (gmi gmq : Z) (c0 : ctrl) : Prop :=
  Forall limits_ok ts ∧ ∃ timeout ob, ctrl_init ts gmi gmq timeout ob = inr c0.

Lemma sys_init late ts gmi gmq c0 :
  configured ts gmi gmq c0 → sys_ok late (System c0 ∅ ∅).
Proof.
  intros (Hok & timeout & ob & Hinit).
  destruct (ctrl_init_ok _ _ _ _ _ _ Hok Hinit) as (Hi & Hb & Hc & Hf & Hl & _ & _ & _ & _ & _ & _ & Ht & _).
  constructor; simpl; [done|by intros _|congruence| |by intros ???[=]]. constructor; rewrite ?Hf, ?Hl; try done; try set_solver.
  intros tid st w (t & _ & _ & ->)%Ht ?%elem_of_nil. done.
Qed.

Lemma sys_reachable late ts gmi gmq c0 y :
  configured ts gmi gmq c0 → reachable clock late c0 y → sys_ok late y.
Proof.
  intros Hcfg. induction 1 as [|y ev o y' Hr IH Hst]; [by eapply sys_init|].
  by eapply sys_step.
Qed.

Lemma run_reachable late evs c0 y y' :
  reachable clock late c0 y → run clock late evs y = Some y' → reachable clock late c0 y'.
Proof.
  revert y. induction evs as [|ev evs IH]; intros y Hr; simpl; [by intros [= <-]|].
  destruct (exec clock late ev y) as [[o y1]|] eqn:He; [|done].
  intros Hrun. eapply (IH y1); [|done]. by eapply reachable_step; [|constructor].
Qed.
End system.
