(* ===== verification/AdmissionLost.v ===== *)
(** The one way to lose an admission slot: a timer of [wait_for] that overtakes the grant
    of its call.  Every unreleased lease is held by a caller, on its way to one, or was
    overtaken, and each such timer accounts for at most one lease. *)
From S2P Require Import Prelude.
From S2P Require Import Python.
From S2P Require Import Errors.
From S2P Require Import Auth.
From S2P Require Import Admission.
From S2P Require Import AdmissionInv.
From S2P Require Import AdmissionOps.
From S2P Require Import AdmissionSections.
From S2P Require Import AdmissionSystem.

(** The lease a waiting call was granted when its timer fires, if any. *)
Definition overtakes (ev : event) (y : system) : option nat :=
  match ev with
  | EvTimer w => match c_futures (y_ctrl y) !! w with Some (FResult l) => Some l | _ => None end
  | _ => None
  end.
Definition overtaking (ev : event) (y : system) : nat := match overtakes ev y with Some _ => 1 | None => 0 end.

(** Every unreleased lease is held, in [L], or granted to a call that will return it. *)
Definition accounted (L : gset nat) (s : ctrl) (fs : gmap nat frame) (held : gset nat) : Prop :=
  ∀ l le, c_leases s !! l = Some le → l_released le = false →
    l ∈ held ∨ l ∈ L ∨ ∃ w fr, fs !! w = Some fr ∧ c_futures s !! w = Some (FResult l) ∧ f_wake fr ≠ WakeTimeout.

Lemma accounted_moves late hole R L s s' fs held :
  inv hole s → inv no_hole s' → moves R s s' → calls_ok late s fs held → accounted L s fs held → accounted L s' fs held.
Proof.
  intros Hi Hi' Hm Hc Ha l le' Hle' Hr. destruct (c_leases s !! l) as [le|] eqn:Hle.
  - destruct (mv_lease _ _ _ Hm _ _ Hle) as (le2 & Hle2 & _ & Hrr & _).
    destruct (Ha l le Hle) as [?|[?|(w & fr & Hw & Hf & Hk)]]; [|by left|by right; left|].
    { destruct (l_released le); [|done]. specialize (Hrr eq_refl). congruence. }
    right. right. exists w, fr. split_and!; [done|by eapply moves_done|done].
  - destruct (mv_new _ _ _ Hm _ _ Hle' Hle) as (_ & w & Hp & Hf).
    destruct (co_pending _ _ _ _ Hc _ Hp) as (fr & _ & ? & Hk & _). right. right. exists w, fr. by rewrite Hk.
Qed.

Lemma accounted_enqueue late L s fs held tid st t0 :
  inv no_hole s → calls_ok late s fs held → accounted L s fs held →
  accounted L (enqueue_state tid st s) (<[c_next s := Frame tid t0 WakeNormal]> fs) held.
Proof.
  intros Hi Hc Ha l le Hle Hr. destruct (Ha l le Hle Hr) as [?|[?|(w & fr & Hw & Hf & Hk)]]; [by left|by right; left|].
  assert (w ≠ c_next s) by (intros ->; apply mk_is_Some, (inv_fresh_f _ _ Hi) in Hf; lia).
  right. right. exists w, fr. simpl. by rewrite !lookup_insert_ne by done.
Qed.

Lemma accounted_admit L s s' fs held tid l :
  admitted_now tid l s s' → accounted L s fs held → accounted L s' fs ({[l]} ∪ held).
Proof.
  intros Han Ha i le Hle Hr. destruct (an_lease _ _ _ _ Han) as [now Hls]. rewrite Hls in Hle.
  apply lookup_insert_Some in Hle as [[<- _]|[_ Hle]]; [left; set_solver|].
  rewrite (an_futures _ _ _ _ Han). destruct (Ha i le Hle Hr) as [?|[?|?]]; [left; set_solver|by right; left|by right; right].
Qed.

(** What waking a call makes of [L]. *)
Lemma accounted_wake L L' s fs held w fr k :
  fs !! w = Some fr → (k = WakeTimeout → ∀ l, c_futures s !! w = Some (FResult l) → l ∈ L') → L ⊆ L' →
  accounted L s fs held →
  accounted L' (on_futures (alter fut_cancel w) s) (<[w := Frame (f_tenant fr) (f_started fr) k]> fs) held.
Proof.
  intros Hw Hk Hsub Ha l le Hle Hr. simpl in Hle.
  destruct (Ha l le Hle Hr) as [?|[?|(v & fr' & Hv & Hf & Hk')]]; [by left|right; left; by apply Hsub|].
  right. destruct (decide (w = v)) as [<-|Hne].
  - assert (k = WakeTimeout ∨ k ≠ WakeTimeout) as [Hkt|Hkn] by (destruct k; auto); [left; by apply Hk|].
    right. exists w. eexists. rewrite lookup_insert_eq. simpl. by rewrite lookup_alter_eq, Hf.
  - right. exists v, fr'. simpl. by rewrite lookup_insert_ne, lookup_alter_ne by done.
Qed.

Lemma accounted_end L s fs held held' w fr f :
  fs !! w = Some fr → c_futures s !! w = Some f → accounted L s fs held → held ⊆ held' →
  (∀ l le, f_wake fr ≠ WakeTimeout → f = FResult l → c_leases s !! l = Some le → l_released le = false → l ∈ held') →
  accounted L s (delete w fs) held'.
Proof.
  intros Hw Hf Ha Hsub Hl l le Hle Hr. destruct (Ha l le Hle Hr) as [?|[?|(v & fr' & Hv & Hfv & Hk)]];
    [left; by apply Hsub|by right; left|]. destruct (decide (w = v)) as [<-|Hne].
  - left. simplify_eq. by eapply Hl.
  - right. right. exists v, fr'. by rewrite lookup_delete_ne.
Qed.

Lemma accounted_shut L s s' fs held : shut s s' → accounted L s fs held → accounted L s' fs held.
Proof.
  intros (_ & _ & _ & _ & Hd) Ha l le Hle Hr. rewrite (dr_leases _ _ Hd) in Hle.
  destruct (Ha l le Hle Hr) as [?|[?|(w & fr & Hw & Hf & Hk)]]; [by left|by right; left|].
  right. right. exists w, fr. split_and!; [done| |done]. destruct (dr_future _ _ Hd w) as [->|[? _]]; [done|simpl in *; congruence].
Qed.

(** * Events *)

Section steps.
Context (clock : nat → Z) (late : bool).
Abbreviation spared L y := (accounted L (y_ctrl y) (y_frames y) (y_held y)).

Lemma spared_acquire L y t o y' :
  sys_ok late y → spared L y → exec clock late (EvAcquire t) y = Some (o, y') → spared L y'.
Proof.
  intros Hy Ha [= Hex]. pose proof Hy as [Hi Hs Hcl Hc _].
  eapply finish_wp in Hex as [([t0 a] & s' & Hex & Hr)|(e & s' & Hex & Hr)];
    [..|by apply (wp_acquire_begin clock t)].
  - destruct Hr as (Hi' & _ & _ & Hst). destruct a as [l|w]; simplify_eq; simpl.
    + destruct Hst as (s1 & st & Hm & Hi1 & _ & _ & _ & Han). eapply accounted_admit; [done|].
      by eapply (accounted_moves late _ _ _ (y_ctrl y)).
    + destruct Hst as (s1 & st & Hm & Hi1 & _ & Ht & _ & Hqb & Hgb & -> & Hm').
      pose proof (calls_moves _ _ _ _ _ _ _ Hi Hi1 Hm Hc) as Hc1.
      assert (Hi2 : inv (only (tenant_id t)) (enqueue_state (tenant_id t) st s1)).
      { apply inv_enqueue; try done. by eapply inv_weaken. }
      eapply (accounted_moves late); [exact Hi2|done|exact Hm'|by apply calls_enqueue|].
      eapply accounted_enqueue; [done|done|]. by eapply (accounted_moves late _ _ _ (y_ctrl y)).
  - destruct Hr as (Hi' & Hm & _ & _). simplify_eq. by eapply (accounted_moves late _ _ _ (y_ctrl y)).
Qed.

Lemma spared_resume L y w o y' :
  sys_ok late y → spared L y → exec clock late (EvResume w) y = Some (o, y') → spared L y'.
Proof.
  intros Hy Ha. simpl. pose proof Hy as [Hi Hs Hcl Hc _].
  destruct (y_frames y !! w) as [fr|] eqn:Hw; [|done].
  destruct (c_futures (y_ctrl y) !! w) as [f|] eqn:Hf; [|done].
  destruct (fut_done f) eqn:Hd; [|done]. intros [= Hex].
  destruct (co_frame _ _ _ _ Hc _ _ Hw) as [_ [st Ht]].
  assert (He : ∀ e, f = FException e → e = gw AdmissionUnavailableError).
  { intros e ->. by eapply (co_exn _ _ _ _ Hc). }
  assert (Hend : ∀ r s' held', resumed fr w f (y_ctrl y) r s' → y_held y ⊆ held' →
    (∀ l le, f_wake fr ≠ WakeTimeout → f = FResult l → c_leases s' !! l = Some le → l_released le = false → l ∈ held') →
    accounted L s' (delete w (y_frames y)) held').
  { intros r s' held' (_ & [Hi' Hm _ _] & _) Hsub Hlive.
    eapply accounted_end; [exact Hw|by eapply (moves_done _ (y_ctrl y))| |done|done].
    by eapply (accounted_moves late _ _ _ (y_ctrl y)). }
  eapply finish_wp in Hex as [(l & s' & [= <- <-] & Hr)|(e & s' & [= <- <-] & Hr)];
    [..|by apply (wp_acquire_resume clock fr w f st)]; simpl in *.
  - pose proof (proj1 Hr) as Hres. unfold resume_result in Hres.
    destruct (f_wake fr) eqn:Hk, f as [|l'| |]; try done. simplify_eq.
    eapply Hend; [done|set_solver|]. intros i le _ [= <-]. set_solver.
  - pose proof Hr as (Hres & _ & Hrel). unfold resume_result in Hres.
    eapply Hend; [done|done|]. intros l le Hnt -> Hle Hle'. destruct (f_wake fr) eqn:Hk; [done|done|].
    destruct (Hrel eq_refl l eq_refl) as (? & ? & ?). congruence.
Qed.

(** Every event keeps the account, where an overtaken lease is written off. *)
Lemma spared_step L y ev o y' :
  sys_ok late y → spared L y → exec clock late ev y = Some (o, y') →
  spared (match overtakes ev y with Some l => {[l]} ∪ L | None => L end) y'.
Proof.
  intros Hy Ha Hex. pose proof Hy as [Hi Hs Hcl Hc _]. destruct ev as [t|w|w|w|l| |b].
  - by eapply spared_acquire.
  - simpl in Hex |- *. destruct (y_frames y !! w) as [[tid t0 []]|] eqn:Hw; try done.
    destruct (c_futures (y_ctrl y) !! w) as [f|] eqn:Hf; [|done].
    destruct (fut_done f && negb late); [done|]. injection Hex as <- <-.
    apply (accounted_wake L _ _ _ _ w (Frame tid t0 WakeNormal)); [done| | |done].
    + intros _ l Hl. rewrite Hf in Hl. injection Hl as ->. set_solver.
    + destruct f; set_solver.
  - simpl in Hex |- *. destruct (y_frames y !! w) as [fr|] eqn:Hw; [|done].
    assert (spared L (set_wake w WakeCancel fr y)) by by apply (accounted_wake L L _ _ _ w fr WakeCancel).
    by destruct fr as [tid t0 []]; simplify_eq.
  - by eapply spared_resume.
  - simpl in Hex. case_decide as Hl; [|done]. injection Hex as Hex.
    eapply finish_wp in Hex; [|apply (wp_release clock); [done|by apply Hc]].
    destruct Hex as [(? & s' & [= <- <-] & Hi' & Hm & _)|(e & s' & _ & Hr)]; [|done].
    by eapply (accounted_moves late _ _ _ (y_ctrl y)).
  - injection Hex as Hex. eapply finish_wp in Hex; [|by apply wp_shutdown].
    destruct Hex as [(? & s' & [= <- <-] & Hsh)|(e & s' & _ & Hr)]; [|done].
    destruct (c_closed (y_ctrl y)) eqn:Hcd; [by subst s'|]. by apply (accounted_shut L (y_ctrl y)).
  - cbn [exec] in Hex. apply (inj Some) in Hex. unfold finish in Hex.
    assert (Hq : quiet (y_ctrl y) (set_observer b (y_ctrl y)).2).
    { assert (wp (set_observer b) (λ _ s', quiet (y_ctrl y) s') (λ _ _, False) (y_ctrl y)) as Hwp.
      { unfold set_observer. do 2 wp_step. apply wp_notify. intros s' Hq. etrans; [|done]. by repeat constructor. }
      unfold wp in Hwp. by destruct (set_observer b (y_ctrl y)) as [[e|[]] s']. }
    destruct (set_observer b (y_ctrl y)) as [[e|[]] s'] eqn:Hob; injection Hex as <- <-; simpl in *;
      (eapply (accounted_moves late _ none); [exact Hi|exact (quiet_inv _ _ _ Hi Hq)|by apply quiet_moves|done|done]).
Qed.

(** Only a timer that is late overtakes. *)
Lemma overtakes_late ev y o y' : exec clock false ev y = Some (o, y') → overtakes ev y = None.
Proof.
  destruct ev as [|w| | | | |]; try done. cbn [exec overtakes].
  destruct (y_frames y !! w) as [[tid t0 []]|]; try done. by destruct (c_futures (y_ctrl y) !! w) as [[]|].
Qed.
End steps.

(** * What is left in use *)

(** The unreleased leases of the tenants in [D]. *)
Definition unreleased (le : lease) : bool := negb (l_released le).
Definition unreleased_of (D : gset pystr) (le : lease) : Z :=
  if decide (l_tenant le ∈ D ∧ l_released le = false) then 1 else 0.

Lemma unreleased_tenants (m : gmap pystr tenant_state) (L : gmap nat lease) :
  (∀ tid st, m !! tid = Some st → ts_inflight st = sum_map (AdmissionInv.live tid) L) →
  sum_map ts_inflight m = sum_map (unreleased_of (dom m)) L.
Proof.
  induction m as [|tid st m Hn IH] using map_ind; intros Hst.
  - rewrite sum_map_empty, sum_map_zero; [done|]. intros l le _. unfold unreleased_of.
    case_decide as Hd; [|done]. rewrite dom_empty in Hd. by destruct Hd as [?%elem_of_empty _].
  - rewrite sum_map_insert_None by done. rewrite (Hst tid st) by apply lookup_insert_eq.
    rewrite IH by (intros tid' st' Hm; apply Hst; rewrite lookup_insert_ne; [done|congruence]).
    symmetry. apply sum_map_plus. intros l le _.
    assert (Hiff : l_tenant le ∈ dom (<[tid:=st]> m) ↔ l_tenant le = tid ∨ l_tenant le ∈ dom m)
      by (rewrite dom_insert; set_solver).
    assert (tid ∉ dom m) by by apply not_elem_of_dom.
    unfold unreleased_of, AdmissionInv.live. repeat case_decide; naive_solver lia.
Qed.

(** The slots in use are the unreleased leases. *)
Lemma unreleased_total s :
  inv no_hole s → c_inflight s = Z.of_nat (size (filter (λ ll : nat * lease, unreleased ll.2 = true) (c_leases s))).
Proof.
  intros Hi. rewrite (inv_inflight _ _ Hi), <- (sum_map_indicator unreleased).
  rewrite (unreleased_tenants _ (c_leases s)).
  - apply sum_map_ext. intros l le Hl. unfold unreleased, unreleased_of.
    assert (l_tenant le ∈ dom (c_tenants s)) by (apply elem_of_dom; by eapply (inv_leases _ _ Hi)).
    destruct (l_released le); simpl; case_decide; naive_solver.
  - intros tid st Ht. apply (to_live _ _ _ (inv_tenants _ _ Hi _ _ Ht)).
Qed.

(** When no call is suspended and every held lease is released, nothing waits, and the
    slots in use are those of overtaken leases. *)
Lemma idle_accounted late L y :
  sys_ok late y → accounted L (y_ctrl y) (y_frames y) (y_held y) → y_frames y = ∅ →
  (∀ l le, l ∈ y_held y → c_leases (y_ctrl y) !! l = Some le → l_released le = true) →
  0 ≤ c_inflight (y_ctrl y) ≤ Z.of_nat (size L) ∧ c_queued (y_ctrl y) = 0 ∧
  ∀ tid st, c_tenants (y_ctrl y) !! tid = Some st → 0 ≤ ts_inflight st ≤ c_inflight (y_ctrl y) ∧ ts_queue st = [].
Proof.
  intros [Hi _ _ Hc _] Ha Hfr Hrel.
  assert (Hq : ∀ tid st, c_tenants (y_ctrl y) !! tid = Some st → ts_queue st = []).
  { intros tid st Ht. destruct (ts_queue st) as [|w q] eqn:Hq; [done|].
    destruct (co_queued _ _ _ _ Hc tid st w Ht) as (fr & Hw & _); [rewrite Hq; by left|]. by rewrite Hfr in Hw. }
  split; [|split].
  - rewrite (unreleased_total _ Hi). split; [lia|]. apply inj_le. rewrite <- size_dom. apply subseteq_size.
    intros l [le [Hl Hu]%map_lookup_filter_Some]%elem_of_dom. unfold unreleased in Hu. simpl in Hu.
    destruct (l_released le) eqn:Hr; [done|]. destruct (Ha l le Hl Hr) as [Hh|[?|(w & fr & Hw & _)]]; [|done|].
    + pose proof (Hrel l le Hh Hl). congruence.
    + by rewrite Hfr in Hw.
  - rewrite (inv_queued _ _ Hi). apply sum_map_zero. intros tid st Ht. unfold queue_len. by rewrite (Hq _ _ Ht).
  - intros tid st Ht. split; [|by apply (Hq tid)]. split; [by eapply inflight_nonneg|]. rewrite (inv_inflight _ _ Hi).
    apply (sum_map_lookup_le ts_inflight _ tid); [|done]. intros k v Hk. by eapply inflight_nonneg.
Qed.
