(* ===== verification/AdmissionStep.v ===== *)
(** What one event does to the controller's objects: the configuration is kept,
    and no call overtakes an earlier one of its tenant. *)
From S2P Require Import Prelude.
From S2P Require Import Python.
From S2P Require Import Errors.
From S2P Require Import Auth.
From S2P Require Import Admission.
From S2P Require Import AdmissionInv.
From S2P Require Import AdmissionOps.
From S2P Require Import AdmissionSections.
From S2P Require Import AdmissionSystem.

(** * A preorder that contains every part of a step *)

Record advances (s s' : ctrl) : Prop := {
  ad_closed : c_closed s' = c_closed s;
  ad_order : c_order s' = c_order s;
  ad_max : c_max_inflight s' = c_max_inflight s;
  ad_maxq : c_max_queue s' = c_max_queue s;
  ad_tenant tid st : c_tenants s !! tid = Some st →
    ∃ st', c_tenants s' !! tid = Some st' ∧ ts_tenant st' = ts_tenant st
           ∧ ∀ w, w ∈ ts_queue st → c_futures s' !! w = Some FPending → w ∈ ts_queue st';
  ad_future w f : c_futures s !! w = Some f →
    c_futures s' !! w = Some f ∨
    f = FPending ∧ ∃ f', c_futures s' !! w = Some f' ∧ fut_done f' = true;
  ad_fifo tid st w1 w2 : c_tenants s !! tid = Some st → w1 ∈ ts_queue st → w2 ∈ ts_queue st →
    (w1 < w2)%nat → c_futures s' !! w1 = Some FPending → c_futures s' !! w2 = c_futures s !! w2;
}.

(** A future that is pending after a step was pending before it. *)
Lemma advances_pending s s' w f :
  advances s s' → c_futures s !! w = Some f → c_futures s' !! w = Some FPending → f = FPending.
Proof.
  intros Ha Hf Hp. destruct (ad_future _ _ Ha _ _ Hf) as [?|[-> _]]; [|done]. congruence.
Qed.

Lemma queued_future hole s tid st w :
  inv hole s → c_tenants s !! tid = Some st → w ∈ ts_queue st → ∃ f, c_futures s !! w = Some f.
Proof.
  intros Hi Ht Hw. destruct (to_futures _ _ _ (inv_tenants _ _ Hi _ _ Ht) w Hw) as (f & ? & _). eauto.
Qed.

Lemma advances_trans hole s1 s2 s3 :
  inv hole s1 → advances s1 s2 → advances s2 s3 → advances s1 s3.
Proof.
  intros Hi H1 H2.
  assert (Hback : ∀ w f, c_futures s1 !! w = Some f → c_futures s3 !! w = Some FPending →
    c_futures s2 !! w = Some FPending).
  { intros w f Hf Hp. destruct (ad_future _ _ H1 _ _ Hf) as [Hf2|[-> (f2 & Hf2 & Hd)]].
    - by rewrite (advances_pending _ _ _ _ H2 Hf2 Hp) in Hf2.
    - rewrite (advances_pending _ _ _ _ H2 Hf2 Hp) in Hd. done. }
  constructor; try (etrans; [apply H2|apply H1]).
  - intros tid st Ht. destruct (ad_tenant _ _ H1 _ _ Ht) as (st2 & Ht2 & ? & Hk).
    destruct (ad_tenant _ _ H2 _ _ Ht2) as (st3 & ? & ? & Hk'). exists st3.
    split_and!; [done|congruence|]. intros w Hw Hp.
    destruct (queued_future _ _ _ _ _ Hi Ht Hw) as [f Hf]. eauto.
  - intros w f Hf. destruct (ad_future _ _ H1 _ _ Hf) as [Hf2|[-> (f2 & Hf2 & Hd)]].
    + by apply (ad_future _ _ H2).
    + right. split; [done|]. exists f2. split; [|done].
      destruct (ad_future _ _ H2 _ _ Hf2) as [?|[-> _]]; done.
  - intros tid st w1 w2 Ht Hw1 Hw2 Hlt Hp3.
    destruct (queued_future _ _ _ _ _ Hi Ht Hw1) as [f1 Hf1].
    destruct (queued_future _ _ _ _ _ Hi Ht Hw2) as [f2 Hf2].
    pose proof (Hback _ _ Hf1 Hp3) as Hp2.
    pose proof (ad_fifo _ _ H1 _ _ _ _ Ht Hw1 Hw2 Hlt Hp2) as Heq. rewrite <- Heq.
    destruct (ad_tenant _ _ H1 _ _ Ht) as (st2 & Ht2 & _ & Hk).
    rewrite Hf2 in Heq. destruct (ad_future _ _ H2 _ _ Heq) as [?|[-> _]]; [congruence|].
    apply (ad_fifo _ _ H2 tid st2 w1 w2); auto.
Qed.

Lemma moves_advances R s s' : moves R s s' → advances s s'.
Proof.
  intros Hm. constructor; try apply Hm.
  - intros tid st Ht. destruct (mv_tenant _ _ _ Hm _ _ Ht) as (st' & ? & ? & _ & ?). by exists st'.
  - intros w f Hf. destruct (mv_future _ _ _ Hm w) as [->|[Hp [l [Hl _]]]]; [by left|right].
    split; [congruence|]. by exists (FResult l).
Qed.

Lemma enqueue_advances s tid st :
  inv no_hole s → c_tenants s !! tid = Some st → advances s (enqueue_state tid st s).
Proof.
  intros Hi Ht. assert (Hne : ∀ w f, c_futures s !! w = Some f → c_next s ≠ w).
  { intros w f Hf%mk_is_Some%(inv_fresh_f _ _ Hi) Heq. lia. }
  constructor; simpl; try done.
  - intros t st' Ht'. destruct (decide (t = tid)) as [->|]; [|exists st'; by rewrite lookup_insert_ne].
    simplify_eq. rewrite lookup_insert_eq. eexists. split_and!; [done..|]. simpl. set_solver.
  - intros w f Hf. left. by rewrite lookup_insert_ne by eauto.
  - intros t st' w1 w2 Ht' _ Hw2 _ _. destruct (queued_future _ _ _ _ _ Hi Ht' Hw2) as [f Hf].
    by rewrite lookup_insert_ne by eauto.
Qed.

Lemma admitted_advances tid l s s' : admitted_now tid l s s' → advances s s'.
Proof.
  intros [? ? ? ? Hq _ Hf _ _]. constructor; rewrite ?Hf; try done; [|by left].
  intros t st Ht. destruct (Hq _ _ Ht) as (st' & ? & ? & He). exists st'. by rewrite He.
Qed.

(** * One event *)

Record stepped (s s' : ctrl) : Prop := {
  sd_closed : c_closed s = true → c_closed s' = true;
  sd_order : c_order s' = c_order s;
  sd_max : c_max_inflight s' = c_max_inflight s;
  sd_maxq : c_max_queue s' = c_max_queue s;
  sd_tenant tid st : c_tenants s !! tid = Some st →
    ∃ st', c_tenants s' !! tid = Some st' ∧ ts_tenant st' = ts_tenant st;
  sd_fifo tid st w1 w2 l : c_tenants s !! tid = Some st → w1 ∈ ts_queue st → w2 ∈ ts_queue st →
    (w1 < w2)%nat → c_futures s' !! w2 = Some (FResult l) → c_futures s' !! w1 ≠ Some FPending;
}.

Lemma queued_no_result hole s tid st w l :
  inv hole s → c_tenants s !! tid = Some st → w ∈ ts_queue st → c_futures s !! w ≠ Some (FResult l).
Proof.
  intros Hi Ht Hw. destruct (to_futures _ _ _ (inv_tenants _ _ Hi _ _ Ht) w Hw) as (f & -> & [-> | ->]); done.
Qed.

Lemma advances_stepped hole s s' : inv hole s → advances s s' → stepped s s'.
Proof.
  intros Hi Ha. constructor; try apply Ha.
  - intros Hc. by rewrite (ad_closed _ _ Ha).
  - intros tid st Ht. destruct (ad_tenant _ _ Ha _ _ Ht) as (st' & ? & ? & _). eauto.
  - intros tid st w1 w2 l Ht Hw1 Hw2 Hlt Hr Hp.
    rewrite (ad_fifo _ _ Ha _ _ _ _ Ht Hw1 Hw2 Hlt Hp) in Hr. by eapply queued_no_result.
Qed.

Lemma wake_stepped s w : inv no_hole s → stepped s (on_futures (alter fut_cancel w) s).
Proof.
  intros Hi. constructor; simpl; try done; [eauto|].
  intros tid st w1 w2 l Ht _ Hw2 _ [Hr|(_ & _ & [=])]%lookup_cancel. by edestruct queued_no_result.
Qed.

Section step.
Context (clock : nat → Z).

Lemma started_advances t s a s' : inv no_hole s → started t s a s' → advances s s'.
Proof.
  intros Hi. destruct a as [l|w].
  - intros (s1 & st & Hm & Hi1 & _ & _ & _ & Han).
    eapply advances_trans; [done|by eapply moves_advances|by eapply admitted_advances].
  - intros (s1 & st & Hm & Hi1 & _ & Ht & _ & _ & _ & -> & Hm').
    eapply advances_trans; [done|by eapply moves_advances|].
    eapply advances_trans; [done|by apply enqueue_advances|by eapply moves_advances].
Qed.

Lemma shut_stepped s s' : inv no_hole s → shut s s' → stepped s s'.
Proof.
  intros Hi (Hi' & Hc & _ & He & Hd). constructor; try done; try apply Hd.
  intros tid st w1 w2 l Ht Hw1 Hw2 Hlt Hr Hp.
  destruct (dr_tenant _ _ Hd _ _ Ht) as (st' & Ht' & _ & _ & Hk).
  specialize (Hk _ Hw1 Hp). rewrite (He _ _ Ht') in Hk. by apply elem_of_nil in Hk.
Qed.

Lemma step_stepped late y ev o y' :
  sys_ok late y → step clock late y ev o y' → stepped (y_ctrl y) (y_ctrl y').
Proof.
  intros Hy Hst. inversion Hst as [? ? ? ? Hex]; subst. pose proof Hy as [Hi Hs _ Hc _].
  assert (Hmv : ∀ R s', moves R (y_ctrl y) s' → stepped (y_ctrl y) s').
  { intros R s' ?. eapply advances_stepped; [done|by eapply moves_advances]. }
  destruct ev as [t|w|w|w|l| |b]; cbn [exec] in Hex.
  - apply (inj Some) in Hex.
    eapply finish_wp in Hex as [([t0 a] & s' & Hex & Hr)|(e & s' & [= <- <-] & Hr)];
      [| |by apply (wp_acquire_begin clock t)].
    + destruct Hr as (_ & _ & _ & Hr%started_advances); [|done].
      destruct a; simplify_eq; by eapply advances_stepped.
    + eapply Hmv, Hr.
  - destruct (y_frames y !! w) as [[tid t0 []]|]; try done.
    destruct (c_futures (y_ctrl y) !! w) as [f|]; [|done].
    destruct (fut_done f && negb late); simplify_eq. by apply wake_stepped.
  - destruct (y_frames y !! w) as [[tid t0 []]|]; simplify_eq; by apply wake_stepped.
  - destruct (y_frames y !! w) as [fr|] eqn:Hw; [|done].
    destruct (c_futures (y_ctrl y) !! w) as [f|] eqn:Hf; [|done].
    destruct (fut_done f) eqn:Hd; [|done]. apply (inj Some) in Hex.
    destruct (co_frame _ _ _ _ Hc _ _ Hw) as [_ [st Ht]].
    eapply finish_wp in Hex; [|apply (wp_acquire_resume clock fr w f st); try done].
    + destruct Hex as [(? & s' & [= <- <-] & _ & [] & _)|(e & s' & [= <- <-] & _ & [] & _)]; by eapply Hmv.
    + intros e ->. by eapply (co_exn _ _ _ _ Hc).
  - case_decide as Hl; [|done]. apply (inj Some) in Hex.
    eapply finish_wp in Hex; [|apply (wp_release clock); [done|by apply Hc]].
    destruct Hex as [(? & s' & [= <- <-] & _ & Hm & _)|(e & s' & _ & Hr)]; [|done]. by eapply Hmv.
  - apply (inj Some) in Hex. eapply finish_wp in Hex; [|by apply wp_shutdown].
    destruct Hex as [(? & s' & [= <- <-] & Hsh)|(e & s' & _ & Hr)]; [|done].
    destruct (c_closed (y_ctrl y)); [subst; by apply (Hmv none)|by apply shut_stepped].
  - apply (inj Some) in Hex. injection Hex as <- <-. apply (Hmv none).
    destruct b; apply quiet_moves; by repeat constructor.
Qed.
End step.
