(* ===== verification/AdmissionFair.v ===== *)
(** Round-robin fairness of the dispatcher: a tenant that could be served is
    either served or moves up. *)
From S2P Require Import Prelude.
From S2P Require Import Python.
From S2P Require Import Errors.
From S2P Require Import Auth.
From S2P Require Import Admission.
From S2P Require Import AdmissionInv.
From S2P Require Import AdmissionOps.
From S2P Require Import AdmissionSections.

(** The tenant has a waiter that still waits, and a slot of its own is free. *)
Definition servable (s : ctrl) (tid : pystr) (n : Z) : Prop :=
  ∃ st, c_tenants s !! tid = Some st ∧ ts_inflight st = n ∧ n < max_inflight (ts_tenant st) ∧
    ∃ w, w ∈ ts_queue st ∧ c_futures s !! w = Some FPending.

(** It stands behind [k] other tenants. *)
Definition position (s : ctrl) (tid : pystr) (k : nat) : Prop :=
  ∃ pre post, c_active s = pre ++ tid :: post ∧ length pre = k.

(** What a round does for it: it is served, or one it stood behind was. *)
Definition served_or_closer (tid : pystr) (n : Z) (k : nat) (s' : ctrl) : Prop :=
  (∃ st, c_tenants s' !! tid = Some st ∧ ts_inflight st = n + 1) ∨
  (servable s' tid n ∧ ∃ k', (k' < k)%nat ∧ position s' tid k').

Section fairness.
Context (clock : nat → Z).

Lemma served_mono tid n k k' s' :
  (k ≤ k')%nat → served_or_closer tid n k s' → served_or_closer tid n k' s'.
Proof. intros Hk [?|(? & j & ? & ?)]; [by left|right]. split; [done|]. exists j. split; [lia|done]. Qed.

(** A step that does not touch the tenant and leaves its pending waiters
    pending keeps it servable. *)
Lemma servable_other s s' tid n :
  c_tenants s' !! tid = c_tenants s !! tid →
  (∀ st w, c_tenants s !! tid = Some st → w ∈ ts_queue st →
     c_futures s !! w = Some FPending → c_futures s' !! w = Some FPending) →
  servable s tid n → servable s' tid n.
Proof.
  intros Ht Hf (st & Hst & ? & ? & w & ? & ?). exists st. rewrite Ht. split_and!; [done..|]. eauto.
Qed.

Lemma pending_at_head s st w q :
  (∀ w' q', ts_queue st = w' :: q' → future_done s w' = false) →
  ts_queue st = w :: q → future_done s w = false.
Proof. eauto. Qed.

Lemma wp_round_fair n tid m pre post s :
  inv no_hole s → c_inflight s < c_max_inflight s → c_active s = pre ++ tid :: post →
  servable s tid n → (length pre < m)%nat →
  wp (dispatch_round clock m)
    (λ b s', b = true ∧ served_or_closer tid n (length pre) s') (λ _ _, False) s.
Proof.
  revert pre post s. induction m as [|m IH]; intros pre post s Hi Hg Ha Hsv Hm; [lia|].
  cbn [dispatch_round]. do 2 wp_step.
  destruct (c_active s) as [|t rest] eqn:Hact; [by destruct pre|].
  do 2 wp_step. cbn [c_active_ids on_active].
  rewrite decide_False by (intros Hn; apply Hn, (inv_ids _ _ Hi); rewrite Hact; by left).
  do 3 wp_step. eapply wp_mono; [by apply wp_candidate|..|done].
  intros _ s1 (Hi1 & Hev & Hin & Ha1 & Hni & (st & Ht & Hhd) & Hoth & Hfs & Hown). cbn beta.
  pose proof (ev_max _ _ Hev) as Hmax. wp_step. eapply wp_tenant; [done|].
  destruct pre as [|t' pre]; injection Ha as -> ->; simpl in Hm |- *.
  - (* the tenant's own turn *)
    destruct Hsv as (st0 & Ht0 & Hn & Hlim & w & Hw & Hp).
    destruct (ev_tenant _ _ Hev _ _ Ht0) as (st' & Ht' & Hc & _ & _ & Hk).
    rewrite Ht in Ht'. injection Ht' as <-. rewrite <- Hfs in Hp. specialize (Hk w Hw Hp).
    destruct (Hown _ Ht0) as [q0 Hq0]. rewrite Ht in Hq0. injection Hq0 as ->. simpl in *.
    destruct q0 as [|w0 q]; [by apply elem_of_nil in Hk|].
    destruct (Z.leb_spec (max_inflight (ts_tenant st0)) (ts_inflight st0)); [lia|].
    eapply wp_mono; [apply (wp_dispatch_grant clock tid _ w0 q s1 Hi1 Ht eq_refl (Hhd _ _ eq_refl));
      [simpl; lia|lia|by rewrite Ha1]|..|done].
    intros b s' (-> & _ & _ & _ & (Hts & _)). split; [done|]. left. rewrite Hts, lookup_insert_eq.
    eexists. split; [done|]. simpl. lia.
  - (* another tenant's turn *)
    assert (Hne : tid ≠ t') by (intros <-; apply Hni, elem_of_app; right; by left).
    assert (Hsv1 : servable s1 tid n).
    { eapply servable_other; [by apply Hoth| |done]. intros. by rewrite Hfs. }
    destruct (ts_queue st) as [|w q] eqn:Hq.
    + eapply wp_mono; [apply (IH pre post)|..|done]; try done; [|lia|lia|].
      * apply (inv_unhole _ t' st); [done..|]. by rewrite Hq, Ha1; split; [intros ?%Hni|].
      * intros b s' [-> Hs]. split; [done|]. eapply served_mono; [|done]. simpl. lia.
    + destruct (Z.leb_spec (max_inflight (ts_tenant st)) (ts_inflight st)).
      * wp_step. eapply wp_activate; [done..|by rewrite Hq|].
        intros s2 Hi2 Hev2 Hts Hin2 _ Hfs2 _ Ha2. rewrite Ha1, <- app_assoc in Ha2. simpl in Ha2.
        eapply wp_mono; [apply (IH pre (post ++ [t']))|..|done]; try done.
        -- rewrite (ev_max _ _ Hev2). lia.
        -- by apply Ha2.
        -- eapply servable_other; [by rewrite Hts| |done]. intros. by rewrite Hfs2.
        -- lia.
        -- intros b s' [-> Hs]. split; [done|]. eapply served_mono; [|done]. simpl. lia.
      * eapply wp_mono; [apply (wp_dispatch_grant clock t' st w q s1 Hi1 Ht Hq (Hhd _ _ eq_refl));
          [lia|lia|by rewrite Ha1]|..|done].
        intros b s' (-> & Hi' & Hev' & _ & (Hts & Ha' & l & Hfs')). split; [done|]. right. split.
        -- eapply servable_other; [by rewrite Hts, lookup_insert_ne| |done].
           intros st0 v Ht0 Hv Hp. rewrite Hfs', lookup_insert_ne; [done|]. intros <-.
           apply Hne. eapply (inv_sep _ _ Hi1); [done..|]. rewrite Hq. by left.
        -- exists (length pre). split; [simpl; lia|].
           rewrite Ha1, <- app_assoc in Ha'. simpl in Ha'. by eexists pre, _.
Qed.

(** One free slot is given away in one round. *)
Lemma wp_dispatch_fair n tid k s :
  inv no_hole s → c_closed s = false → c_inflight s + 1 = c_max_inflight s →
  servable s tid n → position s tid k →
  wp (dispatch_locked clock) (λ _ s', served_or_closer tid n k s') (λ _ _, False) s.
Proof.
  intros Hi Hc Hone Hsv (pre & post & Ha & <-). unfold dispatch_locked. do 2 wp_step. rewrite Hc.
  assert (dispatch_fuel s = 2%nat) as ->.
  { unfold dispatch_fuel. replace (c_max_inflight s - c_inflight s) with 1 by lia. done. }
  cbn [dispatch_while]. do 2 wp_step. rewrite (proj2 (Z.ltb_lt _ _)), bool_decide_false by
    first [lia | rewrite Ha; by destruct pre]. simpl. wp_step.
  assert (Hlt : c_inflight s < c_max_inflight s) by lia.
  eapply wp_mono; [apply wp_conj;
    [apply (wp_dispatch_round clock (c_active s) []); rewrite ?app_nil_r; done|
     eapply (wp_round_fair n tid _ pre post); try done; rewrite Ha, length_app; simpl; lia]|..|by intros ?? []].
  intros b s' [(_ & Hev & Hb) [-> Hs]]. simpl in *. do 2 wp_step.
  rewrite (proj2 (Z.ltb_ge _ _)); [simpl; by wp_step|]. rewrite (ev_max _ _ Hev). lia.
Qed.

Lemma wp_release_fair n tid k l le s :
  inv no_hole s → c_closed s = false → c_inflight s = c_max_inflight s →
  c_leases s !! l = Some le → l_released le = false → l_tenant le ≠ tid →
  servable s tid n → position s tid k →
  wp (release clock l) (λ _ s', served_or_closer tid n k s') (λ _ _, False) s.
Proof.
  intros Hi Hc Hfull Hl Hr Hne (st & Ht & Hn & Hlim & w & Hw & Hp) (pre & post & Ha & Hk).
  unfold release. wp_step. eapply wp_release_live; [done..|]. intros st' s' Ht' Hq.
  assert (Hi' : inv no_hole s') by (eapply quiet_inv; [|exact Hq]; by apply inv_release).
  destruct Hq as [[] [Hts _]]. simpl in *. apply wp_dispatch_fair; [done|congruence|lia|..].
  - exists st. rewrite Hts, lookup_insert_ne, sr_futures by done. eauto 7.
  - exists pre, post. by rewrite sr_active.
Qed.
End fairness.
