(* ===== verification/AdmissionTheorems.v ===== *)
(** What the admission controller guarantees in every reachable state, whatever
    the interleaving of calls, releases, timers, cancellations and shutdown. *)
From S2P Require Import Prelude.
From S2P Require Import Python.
From S2P Require Import Errors.
From S2P Require Import Auth.
From S2P Require Import Admission.
From S2P Require Import AdmissionInv.
From S2P Require Import AdmissionOps.
From S2P Require Import AdmissionSections.
From S2P Require Import AdmissionSystem.
From S2P Require Import AdmissionStep.
From S2P Require Import AdmissionFair.

(** * A small gateway for the concrete runs *)

Definition tenant_a : tenant_context := TenantContext "a" 1 2.
Definition tenant_b : tenant_context := TenantContext "b" 2 2.
Definition demo_tenants : list tenant_context := [tenant_a; tenant_b].
Definition demo_clock (n : nat) : Z := Z.of_nat n.
Definition demo_ctrl : ctrl :=
  match ctrl_init demo_tenants 1 3 5 true with
  | inr c => c
  | inl _ => Ctrl [] 0 0 false ∅ 0 0 [] ∅ false ∅ ∅ 0 0 []
  end.
Definition demo_start : system := System demo_ctrl ∅ ∅.
Definition demo (late : bool) (evs : list event) : system :=
  default demo_start (run demo_clock late evs demo_start).

Lemma demo_configured : configured demo_tenants 1 3 demo_ctrl.
Proof. split; [repeat constructor; simpl; lia|]. by exists 5, true. Qed.

Lemma demo_reachable late evs :
  is_Some (run demo_clock late evs demo_start) → reachable demo_clock late demo_ctrl (demo late evs).
Proof.
  intros [y Hy]. unfold demo. rewrite Hy. by eapply run_reachable; [constructor|].
Qed.

Section theorems.
Context (clock : nat → Z).
Context (late : bool) (ts : list tenant_context) (gmi gmq : Z) (c0 : ctrl).
Context (Hcfg : configured ts gmi gmq c0).

(** The configuration never changes. *)
Lemma reachable_config y :
  reachable clock late c0 y →
  c_max_inflight (y_ctrl y) = gmi ∧ c_max_queue (y_ctrl y) = gmq ∧
  (∀ tid st, c_tenants (y_ctrl y) !! tid = Some st → ts_tenant st ∈ ts) ∧
  ∀ t, t ∈ ts → ∃ st, c_tenants (y_ctrl y) !! tenant_id t = Some st ∧ ts_tenant st = t.
Proof.
  induction 1 as [|y ev o y' Hr IH Hst].
  - destruct Hcfg as (Hok & timeout & ob & Hinit).
    destruct (ctrl_init_ok _ _ _ _ _ _ Hok Hinit) as (_ & _ & _ & _ & _ & ? & ? & _ & _ & _ & _ & Ht & Ht').
    split_and!; [done|done|by intros tid st (t & ? & _ & ->)%Ht|].
    intros t Hin. eexists. by split; [apply Ht'|].
  - pose proof (sys_reachable clock late ts gmi gmq c0 y Hcfg Hr) as Hy.
    destruct (sys_step clock _ _ _ _ _ Hy Hst) as [Hy' _].
    destruct (step_stepped clock _ _ _ _ _ Hy Hst) as [_ Ho Hm Hmq Ht _].
    destruct IH as (? & ? & Hin & Hall). split_and!; try congruence.
    + intros tid st' Ht'. assert (is_Some (c_tenants (y_ctrl y) !! tid)) as [st Hst0].
      { apply (inv_order _ _ (so_inv _ _ Hy)). rewrite <- Ho.
        apply (inv_order _ _ (so_inv _ _ Hy')). eauto. }
      destruct (Ht _ _ Hst0) as (st2 & ? & Heq). simplify_eq. rewrite Heq. eauto.
    + intros t Hint. destruct (Hall t Hint) as (st & Hst0 & <-).
      destruct (Ht _ _ Hst0) as (st' & ? & ?). eauto.
Qed.
End theorems.

(** A suspended call can be resumed or waits for a slot. *)
Lemma suspended_call clock late ts gmi gmq c0 y w fr :
  configured ts gmi gmq c0 → reachable clock late c0 y → y_frames y !! w = Some fr →
  (∃ o y', exec clock late (EvResume w) y = Some (o, y')) ∨
  (c_closed (y_ctrl y) = false ∧
   ∃ st, c_tenants (y_ctrl y) !! f_tenant fr = Some st ∧ w ∈ ts_queue st ∧
     (c_inflight (y_ctrl y) = gmi ∨ ts_inflight st = max_inflight (ts_tenant st))).
Proof.
  intros Hcfg Hr Hw. pose proof (sys_reachable clock late ts gmi gmq c0 y Hcfg Hr) as [Hi Hs Hcl Hc _].
  destruct (reachable_config clock late ts gmi gmq c0 Hcfg y Hr) as (Hm & _ & _ & _).
  destruct (co_frame _ _ _ _ Hc _ _ Hw) as [[f Hf] _]. destruct (fut_done f) eqn:Hd.
  { left. cbn [exec]. rewrite Hw, Hf, Hd. destruct (finish _ _ _) as [o y']. by exists o, y'. }
  right. destruct f; try done. destruct (co_pending _ _ _ _ Hc _ Hf) as (fr' & st & ? & _ & Ht & Hin).
  simplify_eq. assert (c_closed (y_ctrl y) = false) as Hopen.
  { apply not_true_iff_false. intros Hct. rewrite (Hcl _ _ Hct Ht) in Hin. by apply elem_of_nil in Hin. }
  split; [done|]. exists st. split_and!; [done..|]. pose proof (inv_cap _ _ Hi).
  destruct (Hs Hopen) as [Hfull|Hall]; [left; lia|right].
  rewrite Forall_forall in Hall. destruct (Hall (f_tenant fr)) as (st' & ? & ?).
  { apply (inv_listed _ _ _ Hi Ht). intros Hq. rewrite Hq in Hin. by apply elem_of_nil in Hin. }
  simplify_eq. pose proof (to_bound _ _ _ (inv_tenants _ _ Hi _ _ Ht)). lia.
Qed.

Lemma shutdown_closes clock late y o y' :
  sys_ok late y → step clock late y EvShutdown o y' → c_closed (y_ctrl y') = true.
Proof.
  intros Hy Hst. inversion Hst as [? ? ? ? Hex]; subst. cbn [exec] in Hex. apply (inj Some) in Hex.
  eapply finish_wp in Hex; [|apply wp_shutdown, Hy].
  destruct Hex as [(? & s' & [= <- <-] & Hsh)|(e & s' & _ & Hr)]; [|done].
  destruct (c_closed (y_ctrl y)) eqn:Hc; [by subst|apply Hsh].
Qed.

Lemma run_closed clock late evs y y' :
  sys_ok late y → run clock late evs y = Some y' → c_closed (y_ctrl y) = true →
  c_closed (y_ctrl y') = true.
Proof.
  revert y. induction evs as [|ev evs IH]; intros y Hy; simpl; [by intros [= <-]|].
  destruct (exec clock late ev y) as [[o y1]|] eqn:He; [|done]. intros Hrun Hc.
  apply step_exec in He. destruct (sys_step clock _ _ _ _ _ Hy He) as [Hy1 _].
  apply (IH y1); [done..|]. by apply (step_stepped clock _ _ _ _ _ Hy He).
Qed.

Lemma closed_refuses clock late y t :
  sys_ok late y → c_closed (y_ctrl y) = true →
  ∃ y', exec clock late (EvAcquire t) y = Some (ORaised (gw AdmissionUnavailableError), y').
Proof.
  intros Hy Hc. destruct (exec clock late (EvAcquire t) y) as [[o y']|] eqn:Hex; [|done].
  pose proof (wp_acquire_begin clock t _ (so_inv _ _ Hy) (so_settled _ _ Hy)) as Hwp.
  cbn [exec] in Hex. apply (inj Some) in Hex.
  eapply finish_wp in Hex as [(? & s' & _ & Hr)|(e & s' & [= <- <-] & Hr)]; [| |exact Hwp].
  - destruct x as [? a]. destruct Hr as (_ & _ & ? & _). congruence.
  - destruct Hr as (_ & Hm & _ & Hr). pose proof (mv_closed _ _ _ Hm) as Hc'.
    destruct Hr as [[-> _]|[(_ & ? & _)|(_ & ? & _)]]; [eauto|congruence..].
Qed.

(** C7: In every reachable state each tenant's inflight count and queue length,
    and their totals over the tenants, are within the configured limits, and the
    round-robin list holds exactly the tenants with waiters, each once. *)
Theorem admission_capacity clock late ts gmi gmq c0 y :
  configured ts gmi gmq c0 → reachable clock late c0 y →
  (∀ t, t ∈ ts → ∃ st, c_tenants (y_ctrl y) !! tenant_id t = Some st ∧
     0 ≤ ts_inflight st ≤ max_inflight t ∧ queue_len st ≤ max_queue t) ∧
  c_inflight (y_ctrl y) = sum_map ts_inflight (c_tenants (y_ctrl y)) ∧
  0 ≤ c_inflight (y_ctrl y) ≤ gmi ∧
  c_queued (y_ctrl y) = sum_map queue_len (c_tenants (y_ctrl y)) ∧
  0 ≤ c_queued (y_ctrl y) ≤ gmq ∧
  NoDup (c_active (y_ctrl y)) ∧
  ∀ tid, tid ∈ c_active (y_ctrl y) ↔
    ∃ st, c_tenants (y_ctrl y) !! tid = Some st ∧ ts_queue st ≠ [].
Proof.
  intros Hcfg Hr. pose proof (so_inv _ _ (sys_reachable clock late ts gmi gmq c0 y Hcfg Hr)) as Hi.
  destruct (reachable_config clock late ts gmi gmq c0 Hcfg y Hr) as (<- & <- & _ & Hall).
  pose proof (inv_cap _ _ Hi). pose proof (inv_qcap _ _ Hi). pose proof (queued_nonneg _ _ Hi).
  split_and!; try done; eauto with adm.
  - intros t (st & Hst & <-)%Hall. exists st. pose proof (inflight_nonneg _ _ _ _ Hi Hst).
    by destruct (inv_tenants _ _ Hi _ _ Hst).
  - rewrite (inv_inflight _ _ Hi). apply sum_map_nonneg. eauto using inflight_nonneg.
  - intros tid. split.
    + intros Ha. destruct (inv_active_dom _ _ Hi _ Ha) as [st Hst]. exists st. split; [done|].
      by apply (inv_listed _ _ _ Hi Hst).
    + intros (st & Hst & Hq). by apply (inv_listed _ _ _ Hi Hst).
Qed.

(** Three calls of which one is admitted and two wait. *)
Definition busy_events : list event := [EvAcquire tenant_a; EvAcquire tenant_b; EvAcquire tenant_a].

Lemma admission_capacity_witness :
  configured demo_tenants 1 3 demo_ctrl ∧
  reachable demo_clock false demo_ctrl (demo false busy_events) ∧
  0 ≤ c_inflight (y_ctrl (demo false busy_events)) ≤ 1.
Proof.
  assert (Hr : reachable demo_clock false demo_ctrl (demo false busy_events)).
  { apply demo_reachable. vm_compute. by eexists. }
  split; [exact demo_configured|]. split; [exact Hr|].
  destruct (admission_capacity _ _ _ _ _ _ _ demo_configured Hr) as (_ & _ & H & _). exact H.
Defined.

(** C21: Every event answers as it should: a call is admitted with a fresh lease,
    suspended, or refused with the error whose cause holds in the state; a
    resumed call returns the lease it was granted, which nobody holds yet, or
    raises the error of what woke it; releasing, shutting down and attaching an
    observer never raise.  No internal error of the controller (accounting,
    missing key, invalid future, unbounded loop) can occur. *)
Theorem admission_answers clock late ts gmi gmq c0 y ev o y' :
  configured ts gmi gmq c0 → reachable clock late c0 y → step clock late y ev o y' →
  answer_ok y ev o y'.
Proof.
  intros Hcfg Hr Hst. eapply sys_step; [|exact Hst]. by eapply sys_reachable.
Qed.

Lemma admission_answers_witness :
  ∃ o y', step demo_clock false (demo false busy_events) (EvAcquire tenant_b) o y' ∧
          answer_ok (demo false busy_events) (EvAcquire tenant_b) o y'.
Proof.
  assert (Hr : reachable demo_clock false demo_ctrl (demo false busy_events)).
  { apply demo_reachable. vm_compute. by eexists. }
  destruct (exec demo_clock false (EvAcquire tenant_b) (demo false busy_events)) as [[o y']|] eqn:He;
    [|vm_compute in He; discriminate He].
  exists o, y'. split; [by constructor|].
  exact (admission_answers _ _ _ _ _ _ _ _ _ _ demo_configured Hr (step_exec _ _ _ _ _ _ He)).
Defined.

(** C22: No call waits in vain: a suspended call can be resumed, or its gateway is
    open, it stands in its tenant's queue, and the gateway or that tenant has no
    free slot. *)
Theorem admission_work_conserving clock late ts gmi gmq c0 y w fr :
  configured ts gmi gmq c0 → reachable clock late c0 y → y_frames y !! w = Some fr →
  (∃ o y', exec clock late (EvResume w) y = Some (o, y')) ∨
  (c_closed (y_ctrl y) = false ∧
   ∃ st, c_tenants (y_ctrl y) !! f_tenant fr = Some st ∧ w ∈ ts_queue st ∧
     (c_inflight (y_ctrl y) = gmi ∨ ts_inflight st = max_inflight (ts_tenant st))).
Proof.
  intros Hcfg Hr Hw. by eapply suspended_call.
Qed.

Lemma admission_work_conserving_witness :
  ∃ w fr, y_frames (demo false busy_events) !! w = Some fr ∧
  ((∃ o y', exec demo_clock false (EvResume w) (demo false busy_events) = Some (o, y')) ∨
   (c_closed (y_ctrl (demo false busy_events)) = false ∧
    ∃ st, c_tenants (y_ctrl (demo false busy_events)) !! f_tenant fr = Some st ∧ w ∈ ts_queue st ∧
      (c_inflight (y_ctrl (demo false busy_events)) = 1 ∨
       ts_inflight st = max_inflight (ts_tenant st)))).
Proof.
  assert (Hr : reachable demo_clock false demo_ctrl (demo false busy_events)).
  { apply demo_reachable. vm_compute. by eexists. }
  destruct (y_frames (demo false busy_events) !! 1%nat) as [fr|] eqn:Hw;
    [|vm_compute in Hw; discriminate Hw].
  exists 1%nat, fr. split; [exact Hw|].
  exact (admission_work_conserving _ _ _ _ _ _ _ _ _ demo_configured Hr Hw).
Defined.

(** A tenant's inflight count is the number of its leases that have not been
    released, and a lease that a call returns is unreleased, belongs to the
    tenant that asked, and was not handed out before. *)
Theorem admission_leases clock late ts gmi gmq c0 y ev l y' :
  configured ts gmi gmq c0 → reachable clock late c0 y → step clock late y ev (OLease l) y' →
  (∀ tid st, c_tenants (y_ctrl y') !! tid = Some st →
     ts_inflight st = sum_map (live tid) (c_leases (y_ctrl y'))) ∧
  (l ∉ y_held y) ∧ l ∈ y_held y' ∧
  ∃ tid, usable_lease y' tid l ∧
    ((∃ t, ev = EvAcquire t ∧ tid = tenant_id t) ∨
     (∃ w fr, ev = EvResume w ∧ y_frames y !! w = Some fr ∧ tid = f_tenant fr)).
Proof.
  intros Hcfg Hr Hst. pose proof (sys_reachable clock late ts gmi gmq c0 y Hcfg Hr) as Hy.
  destruct (sys_step clock _ _ _ _ _ Hy Hst) as [[Hi' _ _ _ _] Ha].
  split. { intros tid st Ht. apply (to_live _ _ _ (inv_tenants _ _ Hi' _ _ Ht)). }
  destruct ev as [t|w|w|w| | |]; try done; cbn in Ha.
  - destruct Ha as (Hn & ? & ?). split_and!; [|done|eauto 6].
    intros [? ?]%(co_held _ _ _ _ (so_calls _ _ Hy)). congruence.
  - destruct Ha as (? & ? & _ & fr & ? & _ & ?). eauto 12.
Qed.

Lemma admission_leases_witness :
  ∃ l y', step demo_clock false (demo false [EvAcquire tenant_a; EvAcquire tenant_b; EvRelease 0])
            (EvResume 1) (OLease l) y' ∧
  (l ∉ y_held (demo false [EvAcquire tenant_a; EvAcquire tenant_b; EvRelease 0])).
Proof.
  set (y := demo false [EvAcquire tenant_a; EvAcquire tenant_b; EvRelease 0]).
  assert (Hr : reachable demo_clock false demo_ctrl y).
  { apply demo_reachable. vm_compute. by eexists. }
  destruct (exec demo_clock false (EvResume 1) y) as [[o y']|] eqn:He;
    [|vm_compute in He; discriminate He].
  destruct o as [l|w|e|]; try (vm_compute in He; discriminate He).
  exists l, y'. split; [by constructor|].
  exact (proj1 (proj2 (admission_leases _ _ _ _ _ _ _ _ _ _ demo_configured Hr (step_exec _ _ _ _ _ _ He)))).
Defined.

(** Once no call is suspended and every returned lease is released, every slot is free. *)
Lemma sys_idle y :
  sys_ok false y → y_frames y = ∅ →
  (∀ l le, l ∈ y_held y → c_leases (y_ctrl y) !! l = Some le → l_released le = true) →
  c_inflight (y_ctrl y) = 0 ∧ c_queued (y_ctrl y) = 0 ∧
  ∀ tid st, c_tenants (y_ctrl y) !! tid = Some st → ts_inflight st = 0 ∧ ts_queue st = [].
Proof.
  intros [Hi _ _ Hc _] Hfr Hrel.
  assert (Hz : ∀ tid st, c_tenants (y_ctrl y) !! tid = Some st → ts_inflight st = 0 ∧ ts_queue st = []).
  { intros tid st Ht. split.
    - rewrite (to_live _ _ _ (inv_tenants _ _ Hi _ _ Ht)). apply sum_map_zero. intros l le Hl.
      apply live_other. right. destruct (l_released le) eqn:Hle; [done|].
      destruct (co_owner _ _ _ _ Hc l le eq_refl Hl Hle) as [Hh|(w & fr & Hw & _)].
      + by rewrite <- (Hrel _ _ Hh Hl).
      + by rewrite Hfr in Hw.
    - destruct (ts_queue st) as [|w q] eqn:Hq; [done|].
      destruct (co_queued _ _ _ _ Hc tid st w Ht) as (fr & Hw & _); [rewrite Hq; by left|].
      by rewrite Hfr in Hw. }
  split_and!; [..|done].
  - rewrite (inv_inflight _ _ Hi). apply sum_map_zero. intros tid st Ht. by apply (Hz tid).
  - rewrite (inv_queued _ _ Hi). apply sum_map_zero. intros tid st Ht. unfold queue_len.
    by rewrite (proj2 (Hz _ _ Ht)).
Qed.

(** No capacity is lost: when a timer cannot overtake a grant that already
    happened, once no call is suspended and every returned lease is released,
    every slot is free again. *)
Theorem admission_no_leak clock ts gmi gmq c0 y :
  configured ts gmi gmq c0 → reachable clock false c0 y → y_frames y = ∅ →
  (∀ l le, l ∈ y_held y → c_leases (y_ctrl y) !! l = Some le → l_released le = true) →
  c_inflight (y_ctrl y) = 0 ∧ c_queued (y_ctrl y) = 0 ∧
  ∀ tid st, c_tenants (y_ctrl y) !! tid = Some st → ts_inflight st = 0 ∧ ts_queue st = [].
Proof.
  intros Hcfg Hr. apply sys_idle. by eapply sys_reachable.
Qed.

(** Two calls of which the second waits for the first, is granted its slot by the
    release, and releases it. *)
Definition drained_events : list event :=
  [EvAcquire tenant_a; EvAcquire tenant_a; EvRelease 0; EvResume 1; EvRelease 2].

Lemma admission_no_leak_witness :
  size (y_held (demo false drained_events)) = 2%nat ∧
  c_inflight (y_ctrl (demo false drained_events)) = 0.
Proof.
  assert (Hr : reachable demo_clock false demo_ctrl (demo false drained_events)).
  { apply demo_reachable. vm_compute. by eexists. }
  split; [vm_compute; reflexivity|].
  apply (admission_no_leak _ _ _ _ _ _ demo_configured Hr); [vm_compute; reflexivity|].
  intros l le Hl Hle.
  assert (Hrel : map_Forall (λ _ le, l_released le = true) (c_leases (y_ctrl (demo false drained_events)))).
  { apply (bool_decide_unpack _). vm_compute. exact I. }
  exact (Hrel l le Hle).
Defined.

(** The hypothesis of [admission_no_leak] on the timer is needed.  From Python
    3.12 on, [wait_for] raises [TimeoutError] in a task whose timer fires after
    its future was resolved and before the task runs again.  The handler of
    [TimeoutError] then drops the granted lease: no call is suspended, every
    returned lease is released, and a slot stays taken for good. *)
Theorem admission_leak_on_late_timer :
  ∃ y, reachable demo_clock true demo_ctrl y ∧ y_frames y = ∅ ∧
    (∀ l le, l ∈ y_held y → c_leases (y_ctrl y) !! l = Some le → l_released le = true) ∧
    c_inflight (y_ctrl y) = c_max_inflight (y_ctrl y) ∧ c_queued (y_ctrl y) = 0.
Proof.
  set (evs := [EvAcquire tenant_a; EvAcquire tenant_a; EvRelease 0; EvTimer 1; EvResume 1]).
  exists (demo true evs). split_and!.
  - apply demo_reachable. vm_compute. by eexists.
  - by vm_compute.
  - intros l le Hl Hle. assert (Hh : set_Forall (λ l, l = 0%nat) (y_held (demo true evs))).
    { apply (bool_decide_unpack _). vm_compute. exact I. }
    specialize (Hh l Hl). cbn in Hh. subst l. vm_compute in Hle. by injection Hle as <-.
  - by vm_compute.
  - by vm_compute.
Qed.

(** C24: Shutting down is final and strands nobody: the gateway stays closed, no
    call waits in a queue, every suspended call can be resumed, and every new
    call is refused as unavailable. *)
Theorem admission_shutdown clock late ts gmi gmq c0 y o y1 evs y2 :
  configured ts gmi gmq c0 → reachable clock late c0 y →
  step clock late y EvShutdown o y1 → run clock late evs y1 = Some y2 →
  o = ONone ∧ c_closed (y_ctrl y2) = true ∧ c_queued (y_ctrl y2) = 0 ∧
  (∀ w fr, y_frames y2 !! w = Some fr → ∃ o y', exec clock late (EvResume w) y2 = Some (o, y')) ∧
  ∀ t, ∃ y', exec clock late (EvAcquire t) y2 = Some (ORaised (gw AdmissionUnavailableError), y').
Proof.
  intros Hcfg Hr Hst Hrun.
  pose proof (sys_reachable clock late ts gmi gmq c0 y Hcfg Hr) as Hy.
  destruct (sys_step clock _ _ _ _ _ Hy Hst) as [Hy1 Ho].
  assert (Hr1 : reachable clock late c0 y1) by (by eapply reachable_step).
  assert (Hc1 : c_closed (y_ctrl y1) = true) by exact (shutdown_closes _ _ _ _ _ Hy Hst).
  split; [by destruct o|].
  pose proof (run_reachable clock late evs c0 y1 y2 Hr1 Hrun) as Hr2.
  pose proof (sys_reachable clock late ts gmi gmq c0 y2 Hcfg Hr2) as Hy2.
  assert (Hc2 : c_closed (y_ctrl y2) = true) by exact (run_closed _ _ _ _ _ Hy1 Hrun Hc1).
  split_and!; [done| | |].
  - rewrite (inv_queued _ _ (so_inv _ _ Hy2)). apply sum_map_zero. intros tid st Ht.
    unfold queue_len. by rewrite (so_closed _ _ Hy2 tid st Hc2 Ht).
  - intros w fr Hw.
    destruct (suspended_call clock late ts gmi gmq c0 y2 w fr Hcfg Hr2 Hw) as [?|[? _]]; [done|congruence].
  - intros t. by apply closed_refuses.
Qed.

Definition shutdown_events : list event := [EvAcquire tenant_a; EvRelease 0].

Lemma admission_shutdown_witness :
  ∃ o y1 y2, step demo_clock false (demo false busy_events) EvShutdown o y1 ∧
    run demo_clock false shutdown_events y1 = Some y2 ∧
    size (y_frames y2) = 2%nat ∧ c_closed (y_ctrl y2) = true.
Proof.
  assert (Hr : reachable demo_clock false demo_ctrl (demo false busy_events)).
  { apply demo_reachable. vm_compute. by eexists. }
  destruct (exec demo_clock false EvShutdown (demo false busy_events)) as [[o y1]|] eqn:He;
    [|vm_compute in He; discriminate He].
  destruct (run demo_clock false shutdown_events y1) as [y2|] eqn:Hrun.
  2:{ vm_compute in He. injection He as <- <-. vm_compute in Hrun. discriminate Hrun. }
  exists o, y1, y2. split; [by constructor|]. split; [exact Hrun|].
  split.
  - vm_compute in He. injection He as <- <-. vm_compute in Hrun. injection Hrun as <-.
    vm_compute. reflexivity.
  - apply step_exec in He.
    exact (proj1 (proj2 (admission_shutdown _ _ _ _ _ _ _ _ _ _ _ demo_configured Hr He Hrun))).
Defined.

(** C18: Calls of one tenant are admitted in the order they arrived: no event grants
    a slot to a waiting call while an earlier one of its tenant goes on waiting. *)
Theorem admission_fifo clock late ts gmi gmq c0 y ev o y' tid st w1 w2 l :
  configured ts gmi gmq c0 → reachable clock late c0 y → step clock late y ev o y' →
  c_tenants (y_ctrl y) !! tid = Some st → w1 ∈ ts_queue st → w2 ∈ ts_queue st → (w1 < w2)%nat →
  c_futures (y_ctrl y') !! w2 = Some (FResult l) → c_futures (y_ctrl y') !! w1 ≠ Some FPending.
Proof.
  intros Hcfg Hr Hst. pose proof (sys_reachable clock late ts gmi gmq c0 y Hcfg Hr) as Hy.
  apply (step_stepped clock _ _ _ _ _ Hy Hst).
Qed.

(** A gateway whose only slot tenant [b] holds, with two calls of [b] waiting. *)
Definition queue_events : list event := [EvAcquire tenant_b; EvAcquire tenant_b; EvAcquire tenant_b].

Lemma admission_fifo_witness :
  ∃ o y', step demo_clock false (demo false (queue_events ++ [EvCancel 1])) (EvRelease 0) o y' ∧
    (∃ l, c_futures (y_ctrl y') !! 2%nat = Some (FResult l)) ∧
    c_futures (y_ctrl y') !! 1%nat ≠ Some FPending.
Proof.
  set (y := demo false (queue_events ++ [EvCancel 1])).
  assert (Hr : reachable demo_clock false demo_ctrl y).
  { apply demo_reachable. vm_compute. by eexists. }
  destruct (exec demo_clock false (EvRelease 0) y) as [[o y']|] eqn:He;
    [|vm_compute in He; discriminate He].
  destruct (c_futures (y_ctrl y') !! 2%nat) as [[|l| |]|] eqn:Hl;
    try (vm_compute in He; injection He as <- <-; vm_compute in Hl; discriminate Hl).
  exists o, y'. split; [by constructor|]. split; [by exists l|].
  destruct (c_tenants (y_ctrl y) !! "b"%py) as [st|] eqn:Ht; [|vm_compute in Ht; discriminate Ht].
  apply (admission_fifo _ _ _ _ _ _ _ _ _ _ _ st 1 2 l demo_configured Hr (step_exec _ _ _ _ _ _ He) Ht);
    try (vm_compute in Ht; injection Ht as <-; apply (bool_decide_unpack _); vm_compute; exact I);
    exact Hl.
Defined.

(** The gateway accepts exactly the configurations with positive limits and
    distinct tenant identifiers, and starts empty and open. *)
Theorem admission_init ts gmi gmq timeout ob :
  (∃ c, ctrl_init ts gmi gmq timeout ob = inr c ∧ c_closed c = false ∧ c_inflight c = 0 ∧
        c_queued c = 0 ∧ c_active c = [] ∧ c_order c = tenant_id <$> ts) ↔
  0 < gmi ∧ 0 ≤ gmq ∧ 0 < timeout ∧ NoDup (tenant_id <$> ts).
Proof.
  unfold ctrl_init. fold (initial_tenants ts).
  destruct (Z.leb_spec gmi 0), (Z.ltb_spec gmq 0), (Z.leb_spec timeout 0); simpl;
    try (split; [by intros (? & ? & _)|lia]).
  destruct (Nat.eqb_spec (size (initial_tenants ts)) (length ts)) as [Hsz|Hsz]; simpl.
  - split; [intros _; split_and!; try lia; by apply initial_NoDup|intros _].
    eexists. split; [done|]. by destruct ob.
  - split; [by intros (? & ? & _)|]. intros (_ & _ & _ & Hnd). by destruct (Hsz (NoDup_initial _ Hnd)).
Qed.

(** C23: Round robin: when the gateway is full and a slot is released by another
    tenant, a tenant that has a waiting call and a free slot of its own and
    stands behind [k] tenants is served, or stands behind fewer than [k] and is
    still servable.  So at most [k] other grants precede its next one. *)
Theorem admission_round_robin clock late ts gmi gmq c0 y l le tid n k :
  configured ts gmi gmq c0 → reachable clock late c0 y →
  c_closed (y_ctrl y) = false → c_inflight (y_ctrl y) = gmi →
  l ∈ y_held y → c_leases (y_ctrl y) !! l = Some le → l_released le = false →
  l_tenant le ≠ tid → servable (y_ctrl y) tid n → position (y_ctrl y) tid k →
  ∃ y', step clock late y (EvRelease l) ONone y' ∧ served_or_closer tid n k (y_ctrl y').
Proof.
  intros Hcfg Hr Hopen Hfull Hh Hl Hrel Hne Hsv Hpos.
  pose proof (so_inv _ _ (sys_reachable clock late ts gmi gmq c0 y Hcfg Hr)) as Hi.
  destruct (reachable_config clock late ts gmi gmq c0 Hcfg y Hr) as (Hm & _).
  assert (Hwp : wp (release clock l) (λ _ s', served_or_closer tid n k s') (λ _ _, False) (y_ctrl y)).
  { eapply wp_release_fair; try done. congruence. }
  destruct (wp_returns _ _ _ Hwp) as ([] & s' & Heq & Hs).
  exists (System s' (y_frames y) (y_held y)). split; [|done]. constructor. cbn [exec].
  rewrite decide_True by done. unfold finish. by rewrite Heq.
Qed.

(** Tenant [a] holds the only slot; [b] waits behind a second call of [a]. *)
Definition rotation_events : list event := [EvAcquire tenant_a; EvAcquire tenant_a; EvAcquire tenant_b].

Lemma admission_round_robin_witness :
  ∃ y', step demo_clock false (demo false rotation_events) (EvRelease 0) ONone y' ∧
        served_or_closer "b"%py 0 1 (y_ctrl y').
Proof.
  set (y := demo false rotation_events).
  assert (Hr : reachable demo_clock false demo_ctrl y).
  { apply demo_reachable. vm_compute. by eexists. }
  destruct (c_leases (y_ctrl y) !! 0%nat) as [le|] eqn:Hl; [|vm_compute in Hl; discriminate Hl].
  destruct (c_tenants (y_ctrl y) !! "b"%py) as [st|] eqn:Ht; [|vm_compute in Ht; discriminate Ht].
  apply (admission_round_robin _ _ _ _ _ _ _ 0 le _ 0 1 demo_configured Hr).
  - vm_compute. reflexivity.
  - vm_compute. reflexivity.
  - apply (bool_decide_unpack _). vm_compute. exact I.
  - exact Hl.
  - vm_compute in Hl. by injection Hl as <-.
  - vm_compute in Hl. injection Hl as <-. discriminate.
  - exists st. split; [exact Ht|]. vm_compute in Ht. injection Ht as <-.
    split; [reflexivity|]. split; [reflexivity|]. exists 2%nat. split; [by left|]. vm_compute. reflexivity.
  - exists ["a"%py], []. split; vm_compute; reflexivity.
Defined.
