(* ===== verification/Routing.v ===== *)
(** gateway/routing/pool.py: health-filtered least-inflight routing, the leases
    and routed streams that own a backend assignment, and closing the pool.

    A method that awaits a backend is split at its awaits: the first half runs up
    to the call of the backend, the second takes the backend's answer.  No section
    under the pool's [_lock] awaits anything, so every half is atomic. *)
From S2P Require Import Prelude.
From S2P Require Import Python.
From S2P Require Import Errors.

(** * State *)

(** [_BackendSlot]; the leaf backend itself is the environment. *)
Record slot := Slot {
  sl_id : pystr;
  sl_healthy : option bool;
  sl_inflight : Z;
}.

(** [BackendLease]; the slot is given by its place in [_slots]. *)
Record backend_lease := BackendLease {
  bl_slot : nat;
  bl_weight : Z;
  bl_released : bool;
}.

(** [RoutedBackendStream]. *)
Record routed_stream := RoutedStream {
  rs_lease : nat;
  rs_closed : bool;
}.

Inductive operation := OpGenerate | OpStream | OpBatch.
Inductive op_outcome := Success | Error | Cancelled.

#[export] Instance operation_eq_dec : EqDecision operation.
Proof. solve_decision. Defined.
#[export] Instance op_outcome_eq_dec : EqDecision op_outcome.
Proof. solve_decision. Defined.

(** The calls made to the observer. *)
Inductive pool_observation :=
| PoolState (backends : list (pystr * (bool * Z)))
| PoolOperation (backend_id : pystr) (op : operation) (out : op_outcome).

Record pool := Pool {
  p_slots : list slot;
  p_cursor : nat;
  p_active : gset nat;
  p_streams : gset nat;
  p_started : bool;
  p_probing : bool;
  p_closed : bool;
  p_observer : bool;
  p_leases : gmap nat backend_lease;
  p_routed : gmap nat routed_stream;
  p_next : nat;
  p_log : list pool_observation;
}.

Definition with_slots (f : list slot → list slot) (s : pool) : pool :=
  Pool (f (p_slots s)) (p_cursor s) (p_active s) (p_streams s) (p_started s) (p_probing s) (p_closed s) (p_observer s) (p_leases s) (p_routed s) (p_next s) (p_log s).
Definition with_cursor (f : nat → nat) (s : pool) : pool :=
  Pool (p_slots s) (f (p_cursor s)) (p_active s) (p_streams s) (p_started s) (p_probing s) (p_closed s) (p_observer s) (p_leases s) (p_routed s) (p_next s) (p_log s).
Definition with_active (f : gset nat → gset nat) (s : pool) : pool :=
  Pool (p_slots s) (p_cursor s) (f (p_active s)) (p_streams s) (p_started s) (p_probing s) (p_closed s) (p_observer s) (p_leases s) (p_routed s) (p_next s) (p_log s).
Definition with_streams (f : gset nat → gset nat) (s : pool) : pool :=
  Pool (p_slots s) (p_cursor s) (p_active s) (f (p_streams s)) (p_started s) (p_probing s) (p_closed s) (p_observer s) (p_leases s) (p_routed s) (p_next s) (p_log s).
Definition with_started (f : bool → bool) (s : pool) : pool :=
  Pool (p_slots s) (p_cursor s) (p_active s) (p_streams s) (f (p_started s)) (p_probing s) (p_closed s) (p_observer s) (p_leases s) (p_routed s) (p_next s) (p_log s).
Definition with_probing (f : bool → bool) (s : pool) : pool :=
  Pool (p_slots s) (p_cursor s) (p_active s) (p_streams s) (p_started s) (f (p_probing s)) (p_closed s) (p_observer s) (p_leases s) (p_routed s) (p_next s) (p_log s).
Definition with_closed (f : bool → bool) (s : pool) : pool :=
  Pool (p_slots s) (p_cursor s) (p_active s) (p_streams s) (p_started s) (p_probing s) (f (p_closed s)) (p_observer s) (p_leases s) (p_routed s) (p_next s) (p_log s).
Definition with_observer (f : bool → bool) (s : pool) : pool :=
  Pool (p_slots s) (p_cursor s) (p_active s) (p_streams s) (p_started s) (p_probing s) (p_closed s) (f (p_observer s)) (p_leases s) (p_routed s) (p_next s) (p_log s).
Definition with_leases (f : gmap nat backend_lease → gmap nat backend_lease) (s : pool) : pool :=
  Pool (p_slots s) (p_cursor s) (p_active s) (p_streams s) (p_started s) (p_probing s) (p_closed s) (p_observer s) (f (p_leases s)) (p_routed s) (p_next s) (p_log s).
Definition with_routed (f : gmap nat routed_stream → gmap nat routed_stream) (s : pool) : pool :=
  Pool (p_slots s) (p_cursor s) (p_active s) (p_streams s) (p_started s) (p_probing s) (p_closed s) (p_observer s) (p_leases s) (f (p_routed s)) (p_next s) (p_log s).
Definition with_next (f : nat → nat) (s : pool) : pool :=
  Pool (p_slots s) (p_cursor s) (p_active s) (p_streams s) (p_started s) (p_probing s) (p_closed s) (p_observer s) (p_leases s) (p_routed s) (f (p_next s)) (p_log s).
Definition with_log (f : list pool_observation → list pool_observation) (s : pool) : pool :=
  Pool (p_slots s) (p_cursor s) (p_active s) (p_streams s) (p_started s) (p_probing s) (p_closed s) (p_observer s) (p_leases s) (p_routed s) (p_next s) (f (p_log s)).

Abbreviation rt := (sem pool exn).

(** * The methods *)

(** [_notify_observer] and [_observe_operation]; what the observer raises is
    swallowed. *)
Definition slot_healthy (s : slot) : bool := bool_decide (sl_healthy s = Some true).
Definition pool_state (p : pool) : list (pystr * (bool * Z)) :=
  (λ s, (sl_id s, (slot_healthy s && negb (p_closed p), sl_inflight s))) <$> p_slots p.
Definition notify_pool : rt unit :=
  modify (λ p, if p_observer p then with_log (λ l, l ++ [PoolState (pool_state p)]) p else p).
Definition observe_operation (i : nat) (op : operation) (out : op_outcome) : rt unit :=
  modify (λ p, match p_observer p, p_slots p !! i with
               | true, Some s => with_log (λ l, l ++ [PoolOperation (sl_id s) op out]) p
               | _, _ => p
               end).
Definition set_pool_observer (b : bool) : rt unit :=
  do! modify (with_observer (λ _, b)) in notify_pool.

(** The parts of [_select]. *)
Definition healthy_at (slots : list slot) (i : nat) : bool :=
  match slots !! i with Some s => slot_healthy s | None => false end.
Definition healthy_indices (slots : list slot) : list nat :=
  filter (λ i, healthy_at slots i = true) (seq 0 (length slots)).
Definition inflight_at (slots : list slot) (i : nat) : Z :=
  match slots !! i with Some s => sl_inflight s | None => 0 end.
(** Python's [min] of a non-empty sequence. *)
Definition min_list (x : Z) (xs : list Z) : Z := foldl Z.min x xs.
Definition select_candidates (slots : list slot) (m : Z) : list nat :=
  filter (λ i, inflight_at slots i = m) (healthy_indices slots).
(** [next(index for offset in range(n) if (index := (cursor + offset) % n) in c)]. *)
Fixpoint first_candidate (cursor n : nat) (offsets candidates : list nat) : option nat :=
  match offsets with
  | [] => None
  | o :: offsets =>
      let index := ((cursor + o) mod n)%nat in
      if decide (index ∈ candidates) then Some index
      else first_candidate cursor n offsets candidates
  end.
Definition add_inflight (w : Z) (s : slot) : slot :=
  Slot (sl_id s) (sl_healthy s) (sl_inflight s + w).

Definition select (weight : Z) : rt nat :=
  if weight <=? 0 then raise ValueError else
  let! p := get in
  if p_closed p then raise (gw NoHealthyBackendError) else
  match healthy_indices (p_slots p) with
  | [] => raise (gw NoHealthyBackendError)
  | i :: rest =>
      let m := min_list (inflight_at (p_slots p) i) (inflight_at (p_slots p) <$> rest) in
      let n := length (p_slots p) in
      let! sel := unwrap StopIteration
        (first_candidate (p_cursor p) n (seq 0 n) (select_candidates (p_slots p) m)) in
      do! modify (with_slots (alter (add_inflight weight) sel)) in
      do! modify (with_cursor (λ _, (sel + 1) mod n)%nat) in
      let l := p_next p in
      do! modify (with_next S) in
      do! modify (with_leases <[l := BackendLease sel weight false]>) in
      do! modify (with_active (union {[l]})) in
      do! notify_pool in
      ret l
  end.

(** [_release]. *)
Definition release_lease (l : nat) : rt unit :=
  let! p := get in
  let! le := unwrap KeyError (p_leases p !! l) in
  if bl_released le then ret () else
  let! s := unwrap IndexError (p_slots p !! bl_slot le) in
  if sl_inflight s <? bl_weight le then raise RuntimeError else
  do! modify (with_leases <[l := BackendLease (bl_slot le) (bl_weight le) true]>) in
  do! modify (with_slots (alter (add_inflight (- bl_weight le)) (bl_slot le))) in
  do! modify (with_active (λ a, a ∖ {[l]})) in
  notify_pool.

(** [_set_health] and [_mark_unhealthy], by place in [_slots]. *)
Definition set_healthy (h : option bool) (s : slot) : slot := Slot (sl_id s) h (sl_inflight s).
Definition set_health (i : nat) (healthy : bool) : rt unit :=
  let! p := get in
  if p_closed p then ret () else
  do! unwrap KeyError (p_slots p !! i) in
  do! modify (with_slots (alter (set_healthy (Some healthy)) i)) in
  notify_pool.
Definition mark_unhealthy (i : nat) : rt unit := set_health i false.

(** [_register_stream] and [_unregister_stream]. *)
Definition register_stream (st : nat) : rt bool :=
  let! p := get in
  if p_closed p then ret false else
  do! modify (with_streams (union {[st]})) in ret true.
Definition unregister_stream (st : nat) : rt unit := modify (with_streams (λ s, s ∖ {[st]})).

(** [isinstance(e, _HEALTH_IMPACTING_ERRORS)]. *)
Definition health_impacting (e : exn) : bool :=
  existsb (is_instance e) [BackendUnavailableError; BackendTimeoutError; BackendProtocolError;
                           BackendConfigurationError; BackendHTTPError].

Definition lease_of (l : nat) : rt backend_lease :=
  let! p := get in unwrap KeyError (p_leases p !! l).

(** ** generate and generate_batch *)

(** From the answer of [lease.backend.generate] or [.generate_batch] on. *)
Definition call_end {A} (op : operation) (l : nat) (r : exn + A) : rt A :=
  let! le := lease_of l in
  do! finally (match r with
       | inr _ => observe_operation (bl_slot le) op Success
       | inl CancelledError => observe_operation (bl_slot le) op Cancelled
       | inl e =>
           if health_impacting e then
             do! mark_unhealthy (bl_slot le) in observe_operation (bl_slot le) op Error
           else if is_exception e then observe_operation (bl_slot le) op Error
           else ret ()
       end) (release_lease l) in
  match r with inr a => ret a | inl e => raise e end.

(** Up to the call of the backend. *)
Definition generate_begin : rt nat := select 1.
Definition batch_begin (requests : Z) : rt nat :=
  if requests =? 0 then
    raise (Gateway (error_msg BackendCapabilityError "Batch generation requires at least one request"))
  else select requests.

(** ** Streams *)

(** [RoutedBackendStream._finish] up to [self._stream.aclose()]; [false] when the
    stream was closed already. *)
Definition finish_begin (st : nat) : rt bool :=
  let! p := get in
  let! rs := unwrap KeyError (p_routed p !! st) in
  if rs_closed rs then ret false else
  do! modify (with_routed <[st := RoutedStream (rs_lease rs) true]>) in
  ret true.

(** The rest of [_finish], [r] being how [aclose] ended. *)
Definition finish_end (st : nat) (out : op_outcome) (r : option exn) : rt unit :=
  let! p := get in
  let! rs := unwrap KeyError (p_routed p !! st) in
  let! le := lease_of (rs_lease rs) in
  let final := match r with
               | None => out
               | Some CancelledError => Cancelled
               | Some e => if is_exception e then Error else out
               end in
  do! finally (release_lease (rs_lease rs))
        (finally (unregister_stream st) (observe_operation (bl_slot le) OpStream final)) in
  match r with None => ret () | Some e => raise e end.

(** [stream] from the answer of [lease.backend.stream] on: a registered stream,
    or one the caller finishes with [Error] because the pool was closed. *)
Definition open_end (l : nat) (r : option exn) : rt (nat * bool) :=
  let! le := lease_of l in
  match r with
  | None =>
      let! p := get in
      let st := p_next p in
      do! modify (with_next S) in
      do! modify (with_routed <[st := RoutedStream l false]>) in
      let! registered := register_stream st in
      ret (st, registered)
  | Some e =>
      do! (match e with
           | CancelledError => observe_operation (bl_slot le) OpStream Cancelled
           | e =>
               do! (if health_impacting e then mark_unhealthy (bl_slot le) else ret ()) in
               observe_operation (bl_slot le) OpStream Error
           end) in
      do! release_lease l in
      raise e
  end.

(** How iterating a stream ends: [_iterate] finishes it with the outcome below
    after marking the backend; [GeneratorExit] is one of the other base
    exceptions, which only the [finally] clause handles. *)
Definition iterate_end (st : nat) (r : option exn) : rt op_outcome :=
  let! p := get in
  let! rs := unwrap KeyError (p_routed p !! st) in
  let! le := lease_of (rs_lease rs) in
  match r with
  | None => ret Success
  | Some CancelledError => ret Cancelled
  | Some e =>
      if health_impacting e then do! mark_unhealthy (bl_slot le) in ret Error
      else if is_exception e then ret Error else ret Cancelled
  end.

(** ** Lifecycle *)

Definition pool_start : rt bool :=
  let! p := get in
  if p_closed p then raise (gw NoHealthyBackendError) else
  if p_started p then ret false else
  do! modify (with_started (λ _, true)) in ret true.
Definition start_probing : rt unit :=
  modify (λ p, if negb (p_closed p) && negb (p_probing p) then with_probing (λ _, true) p else p).

(** [close] up to its first await: the leases and the streams to end. *)
Definition close_begin : rt (option (list nat * list nat)) :=
  let! p := get in
  if p_closed p then ret None else
  do! modify (with_closed (λ _, true)) in
  ret (Some (elements (p_active p), elements (p_streams p))).

(** [gather]: every release runs, and the first exception is raised. *)
Fixpoint release_all (ls : list nat) : rt unit :=
  match ls with
  | [] => ret ()
  | l :: ls => λ p,
      let '(r, p1) := release_lease l p in
      let '(r', p2) := release_all ls p1 in
      (match r with inl e => inl e | inr _ => r' end, p2)
  end.

(** [close] once the streams and the leaf backends are closed.  The releases are scheduled
    together and none suspends; that [close] itself is cancelled is left out. *)
Definition close_end (leases : list nat) : rt unit :=
  do! release_all leases in
  do! modify (with_slots (fmap (set_healthy (Some false)))) in
  notify_pool.

(** [is_routable]. *)
Definition is_routable (p : pool) : bool :=
  negb (p_closed p) && existsb slot_healthy (p_slots p).

(** [snapshot]. *)
Record pool_snapshot := PoolSnapshot {
  ps_closed : bool;
  ps_backends : list (pystr * (bool * Z));
}.
Definition take_pool_snapshot (p : pool) : pool_snapshot :=
  PoolSnapshot (p_closed p) ((λ s, (sl_id s, (slot_healthy s, sl_inflight s))) <$> p_slots p).

(** [BackendPool.__init__]. *)
Definition pool_init (ids : list pystr) (interval timeout : Z) (observer : bool) : exn + pool :=
  if bool_decide (ids = []) then inl ValueError else
  if (interval <=? 0) || (timeout <=? 0) then inl ValueError else
  if existsb (λ i, negb (str_truthy (str_strip i))) ids then inl ValueError else
  if negb (bool_decide (NoDup ids)) then inl ValueError else
  inr (notify_pool (Pool ((λ i, Slot i None 0) <$> ids) 0 ∅ ∅ false false false observer ∅ ∅ 0 [])).2.

(** * The event loop

    [r_calls]: leases whose backend call is in flight; [r_finishing]: streams
    whose [_finish] awaits the leaf's [aclose], with the outcome to record;
    [r_closing]: the leases and streams that a running [close] waits for. *)
Record rsys := RSys {
  r_pool : pool;
  r_calls : gmap nat operation;
  r_finishing : gmap nat op_outcome;
  r_closing : option (list nat * list nat);
}.

Inductive revent :=
| RvCall (op : operation) (requests : Z)       (* generate, stream, generate_batch *)
| RvAnswer (l : nat) (r : option exn)          (* the backend call ends *)
| RvIterated (st : nat) (r : option exn)       (* iterating the stream ends *)
| RvAclose (st : nat)                          (* aclose, by the consumer or by close *)
| RvStreamClosed (st : nat) (r : option exn)   (* the leaf stream's aclose ends *)
| RvStart
| RvProbing                                    (* the first probes are done *)
| RvHealth (i : nat) (healthy : bool)          (* a probe reports *)
| RvClose
| RvClosed                                     (* streams and leaf clients are closed *)
| RvObserver (b : bool).

Inductive routcome := ROLease (l : nat) | ROStream (st : nat) | RORaised (e : exn) | RONone.

Definition rfinish {A} (y : rsys) (m : rt A) (k : A → pool → routcome * rsys) : routcome * rsys :=
  match m (r_pool y) with
  | (inl e, p) => (RORaised e, RSys p (r_calls y) (r_finishing y) (r_closing y))
  | (inr a, p) => k a p
  end.

(** [_finish out] up to its await. *)
Definition start_finish (st : nat) (out : op_outcome) (o : routcome) (y : rsys) : routcome * rsys :=
  rfinish y (finish_begin st) (λ started p,
    (o, RSys p (r_calls y)
          (if started then <[st := out]> (r_finishing y) else r_finishing y) (r_closing y))).

Definition stream_ended (p : pool) (fin : gmap nat op_outcome) (st : nat) : bool :=
  match p_routed p !! st with
  | Some rs => rs_closed rs && bool_decide (fin !! st = None)
  | None => true
  end.

Definition rexec (ev : revent) (y : rsys) : option (routcome * rsys) :=
  let p0 := r_pool y in
  let with_pool p := RSys p (r_calls y) (r_finishing y) (r_closing y) in
  match ev with
  | RvCall op n =>
      let m := match op with OpBatch => batch_begin n | _ => generate_begin end in
      if n <? 0 then None else
      Some (rfinish y m (λ l p,
        (ROLease l, RSys p (<[l := op]> (r_calls y)) (r_finishing y) (r_closing y))))
  | RvAnswer l r =>
      match r_calls y !! l with
      | None => None
      | Some OpStream =>
          let y := RSys p0 (delete l (r_calls y)) (r_finishing y) (r_closing y) in
          Some (rfinish y (open_end l r) (λ '(st, registered) p,
            let y := RSys p (r_calls y) (r_finishing y) (r_closing y) in
            if registered then (ROStream st, y)
            else start_finish st Error (RORaised (gw NoHealthyBackendError)) y))
      | Some op =>
          let y := RSys p0 (delete l (r_calls y)) (r_finishing y) (r_closing y) in
          Some (rfinish y (call_end op l (match r with None => inr () | Some e => inl e end))
            (λ _ p, (RONone, RSys p (r_calls y) (r_finishing y) (r_closing y))))
      end
  | RvIterated st r =>
      match p_routed p0 !! st with
      | None => None
      | Some _ => Some (rfinish y (iterate_end st r) (λ out p, start_finish st out RONone (with_pool p)))
      end
  | RvAclose st =>
      match p_routed p0 !! st with
      | None => None
      | Some _ => Some (start_finish st Cancelled RONone y)
      end
  | RvStreamClosed st r =>
      match r_finishing y !! st with
      | None => None
      | Some out =>
          let y := RSys p0 (r_calls y) (delete st (r_finishing y)) (r_closing y) in
          Some (rfinish y (finish_end st out r) (λ _ p,
            (RONone, RSys p (r_calls y) (r_finishing y) (r_closing y))))
      end
  | RvStart => Some (rfinish y pool_start (λ _ p, (RONone, with_pool p)))
  | RvProbing =>
      if p_started p0 then Some (rfinish y start_probing (λ _ p, (RONone, with_pool p))) else None
  | RvHealth i b =>
      match p_slots p0 !! i with
      | None => None
      | Some _ => Some (rfinish y (set_health i b) (λ _ p, (RONone, with_pool p)))
      end
  | RvClose =>
      match r_closing y with
      | Some _ => None            (* [_close_lock] is held *)
      | None => Some (rfinish y close_begin (λ c p,
                  (RONone, RSys p (r_calls y) (r_finishing y) c)))
      end
  | RvClosed =>
      match r_closing y with
      | None => None
      | Some (ls, sts) =>
          if forallb (stream_ended p0 (r_finishing y)) sts then
            let y := RSys p0 (r_calls y) (r_finishing y) None in
            Some (rfinish y (close_end ls) (λ _ p, (RONone, RSys p (r_calls y) (r_finishing y) None)))
          else None
      end
  | RvObserver b => Some (rfinish y (set_pool_observer b) (λ _ p, (RONone, with_pool p)))
  end.

Inductive rreachable (p0 : pool) : rsys → Prop :=
| rreachable_init : rreachable p0 (RSys p0 ∅ ∅ None)
| rreachable_step y ev o y' :
    rreachable p0 y → rexec ev y = Some (o, y') → rreachable p0 y'.

Fixpoint rrun (evs : list revent) (y : rsys) : option rsys :=
  match evs with
  | [] => Some y
  | ev :: evs => match rexec ev y with Some (_, y') => rrun evs y' | None => None end
  end.
