(* ===== verification/RoutingInv.v ===== *)
(** The backend pool against its invariant: what selection chooses, the
    accounting of the slots, and the effect of every method. *)
From S2P Require Import Prelude.
From S2P Require Import Python.
From S2P Require Import Errors.
From S2P Require Import Routing.

(** The weight an unreleased lease puts on the slot [i]. *)
Definition weight_on (i : nat) (le : backend_lease) : Z :=
  if decide (bl_slot le = i ∧ bl_released le = false) then bl_weight le else 0.

Record rinv (p : pool) : Prop := {
  ri_slots : (0 < length (p_slots p))%nat;
  ri_cursor : (p_cursor p < length (p_slots p))%nat;
  ri_lease l le : p_leases p !! l = Some le →
    (bl_slot le < length (p_slots p))%nat ∧ 0 < bl_weight le;
  ri_inflight i s : p_slots p !! i = Some s → sl_inflight s = sum_map (weight_on i) (p_leases p);
  ri_active l : l ∈ p_active p ↔ ∃ le, p_leases p !! l = Some le ∧ bl_released le = false;
  ri_fresh_l l : is_Some (p_leases p !! l) → (l < p_next p)%nat;
  ri_fresh_s st : is_Some (p_routed p !! st) → (st < p_next p)%nat;
  ri_routed st rs : p_routed p !! st = Some rs → is_Some (p_leases p !! rs_lease rs);
}.

(** Equal up to health, the registered streams, the flags and the observer. *)
Record same_core (p p' : pool) : Prop := {
  sc_ids : sl_id <$> p_slots p' = sl_id <$> p_slots p;
  sc_inflight : sl_inflight <$> p_slots p' = sl_inflight <$> p_slots p;
  sc_cursor : p_cursor p' = p_cursor p;
  sc_active : p_active p' = p_active p;
  sc_closed : p_closed p' = p_closed p;
  sc_leases : p_leases p' = p_leases p;
  sc_routed : p_routed p' = p_routed p;
  sc_next : p_next p' = p_next p;
}.

#[export] Instance same_core_refl : Reflexive same_core.
Proof. by constructor. Qed.
#[export] Instance same_core_trans : Transitive same_core.
Proof. intros p1 p2 p3 [] []. constructor; congruence. Qed.

Lemma same_core_length p p' : same_core p p' → length (p_slots p') = length (p_slots p).
Proof. intros Hs. rewrite <- (length_fmap sl_id), (sc_ids _ _ Hs). apply length_fmap. Qed.

Lemma same_core_inv p p' : rinv p → same_core p p' → rinv p'.
Proof.
  intros Hi Hs. pose proof (same_core_length _ _ Hs) as Hlen. destruct Hs.
  constructor; rewrite ?Hlen, ?sc_cursor0, ?sc_active0, ?sc_leases0, ?sc_routed0, ?sc_next0; try apply Hi.
  intros i s Hs. assert ((sl_inflight <$> p_slots p) !! i = Some (sl_inflight s)) as Hsl.
  { rewrite <- sc_inflight0. by rewrite list_lookup_fmap, Hs. }
  rewrite list_lookup_fmap in Hsl. destruct (p_slots p !! i) as [s0|] eqn:Hs0; [|done].
  injection Hsl as Hsl. rewrite <- Hsl. by apply (ri_inflight _ Hi).
Qed.

(** * Selection *)

Lemma elem_of_healthy slots i : i ∈ healthy_indices slots ↔ healthy_at slots i = true.
Proof.
  unfold healthy_indices. rewrite list_elem_of_filter, elem_of_seq. split; [tauto|].
  intros H. split; [done|]. unfold healthy_at in H. destruct (slots !! i) eqn:Hi; [|done].
  apply lookup_lt_Some in Hi. lia.
Qed.

Lemma min_list_le x xs y : y ∈ x :: xs → min_list x xs ≤ y.
Proof.
  unfold min_list. revert x y. induction xs as [|z xs IH]; intros x y; simpl.
  - by intros ->%list_elem_of_singleton.
  - assert (foldl Z.min (x `min` z) xs ≤ x `min` z) by (apply IH; by left).
    intros [->|[->|Hy]%elem_of_cons]%elem_of_cons; [lia..|]. apply IH. by right.
Qed.

Lemma min_list_in x xs : min_list x xs ∈ x :: xs.
Proof.
  unfold min_list. revert x. induction xs as [|z xs IH]; intros x; simpl; [by left|].
  specialize (IH (x `min` z)). apply elem_of_cons in IH as [Heq|Hin].
  - rewrite Heq. destruct (Z.min_spec x z) as [[_ ->]|[_ ->]]; [by left|right; by left].
  - right. by right.
Qed.

(** The search goes round the ring from the cursor. *)
Definition distance (cursor n i : nat) : nat := ((i + n - cursor) mod n)%nat.

Lemma first_candidate_spec cursor n os cs :
  match first_candidate cursor n os cs with
  | Some i => i ∈ cs ∧ ∃ o os1 os2, os = os1 ++ o :: os2 ∧ i = ((cursor + o) mod n)%nat ∧
      ∀ o', o' ∈ os1 → ((cursor + o') mod n)%nat ∉ cs
  | None => ∀ o, o ∈ os → ((cursor + o) mod n)%nat ∉ cs
  end.
Proof.
  induction os as [|o os IH]; simpl; [by intros o ?%elem_of_nil|]. case_decide as Hin.
  - split; [done|]. exists o, [], os. split_and!; [done|done|]. by intros o' ?%elem_of_nil.
  - destruct (first_candidate cursor n os cs) as [i|].
    + destruct IH as (Hi & o' & os1 & os2 & -> & -> & Hno). split; [done|].
      exists o', (o :: os1), os2. split_and!; [done|done|]. by intros o2 [->|?%Hno]%elem_of_cons.
    + by intros o2 [->|?%IH]%elem_of_cons.
Qed.

Lemma ring_offset cursor n i :
  (cursor < n)%nat → (i < n)%nat → ((cursor + distance cursor n i) mod n = i)%nat.
Proof.
  intros Hc Hi. unfold distance. rewrite Nat.Div0.add_mod_idemp_r.
  replace (cursor + (i + n - cursor))%nat with (i + 1 * n)%nat by lia.
  rewrite Nat.Div0.mod_add. by apply Nat.mod_small.
Qed.

Lemma ring_distance cursor n o :
  (cursor < n)%nat → (o < n)%nat → distance cursor n ((cursor + o) mod n) = o.
Proof.
  intros Hc Ho. unfold distance. destruct (le_lt_dec n (cursor + o)) as [Hle|Hlt].
  - replace ((cursor + o) mod n)%nat with (cursor + o - n)%nat.
    + replace (cursor + o - n + n - cursor)%nat with o by lia. by apply Nat.mod_small.
    + replace (cursor + o)%nat with (cursor + o - n + 1 * n)%nat at 2 by lia.
      rewrite Nat.Div0.mod_add. symmetry. apply Nat.mod_small. lia.
  - rewrite (Nat.mod_small (cursor + o)) by done.
    replace (cursor + o + n - cursor)%nat with (o + 1 * n)%nat by lia.
    rewrite Nat.Div0.mod_add. by apply Nat.mod_small.
Qed.

(** The slot a selection must choose: healthy, least loaded among the healthy
    ones, and the first of those from the cursor on. *)
Record best (p : pool) (i : nat) : Prop := {
  be_healthy : healthy_at (p_slots p) i = true;
  be_least j : healthy_at (p_slots p) j = true → inflight_at (p_slots p) i ≤ inflight_at (p_slots p) j;
  be_first j : healthy_at (p_slots p) j = true →
    inflight_at (p_slots p) j = inflight_at (p_slots p) i →
    (distance (p_cursor p) (length (p_slots p)) i ≤ distance (p_cursor p) (length (p_slots p)) j)%nat;
}.

Lemma distance_inj cursor n i j :
  (cursor < n)%nat → (i < n)%nat → (j < n)%nat → distance cursor n i = distance cursor n j → i = j.
Proof. intros Hc Hi Hj Hd. by rewrite <- (ring_offset cursor n i), Hd, ring_offset. Qed.

Lemma healthy_at_lt slots i : healthy_at slots i = true → (i < length slots)%nat.
Proof. unfold healthy_at. destruct (slots !! i) eqn:Hi; [|done]. intros _. by eapply lookup_lt_Some. Qed.

(** There is one choice. *)
Lemma best_unique p i j : rinv p → best p i → best p j → i = j.
Proof.
  intros Hi [Hh1 Hl1 Hf1] [Hh2 Hl2 Hf2]. specialize (Hl1 _ Hh2) as ?. specialize (Hl2 _ Hh1) as ?.
  apply (distance_inj (p_cursor p) (length (p_slots p)));
    eauto using ri_cursor, healthy_at_lt. apply Nat.le_antisymm; [apply Hf1|apply Hf2]; auto; lia.
Qed.

Lemma wp_notify_pool (Q : unit → pool → Prop) X p :
  (∀ p', same_core p p' → p_slots p' = p_slots p → Q () p') → wp notify_pool Q X p.
Proof. intros HQ. apply HQ; by case_match. Qed.

Lemma wp_observe i op out (Q : unit → pool → Prop) X p :
  (∀ p', same_core p p' → p_slots p' = p_slots p → Q () p') → wp (observe_operation i op out) Q X p.
Proof. intros HQ. apply HQ; by repeat case_match. Qed.

Definition select_state (i : nat) (w : Z) (p : pool) : pool :=
  with_active (union {[p_next p]}) (with_leases <[p_next p := BackendLease i w false]>
    (with_next S (with_cursor (λ _, (i + 1) mod length (p_slots p))%nat
      (with_slots (alter (add_inflight w) i) p)))).

Lemma lookup_alter_slot f i j (slots : list slot) s' :
  alter f i slots !! j = Some s' →
  ∃ s, slots !! j = Some s ∧ s' = if decide (i = j) then f s else s.
Proof.
  destruct (decide (i = j)) as [->|Hne].
  - rewrite list_lookup_alter_eq. destruct (slots !! j); simpl; naive_solver.
  - rewrite list_lookup_alter_ne by done. naive_solver.
Qed.

Lemma weight_on_new i j w : weight_on j (BackendLease i w false) = if decide (i = j) then w else 0.
Proof. unfold weight_on. simpl. do 2 case_decide; naive_solver. Qed.

Lemma select_inv i w p :
  rinv p → (i < length (p_slots p))%nat → 0 < w → rinv (select_state i w p).
Proof.
  intros Hi Hlt Hw.
  assert (Hn : p_leases p !! p_next p = None).
  { apply eq_None_not_Some. intros ?%(ri_fresh_l _ Hi). lia. }
  constructor; simpl; rewrite ?length_alter; try apply Hi.
  - apply Nat.mod_upper_bound. lia.
  - intros l le Hl. map_simpl; [done|]. by apply (ri_lease _ Hi l).
  - intros j s' (s & Hs & ->)%lookup_alter_slot. rewrite sum_map_insert_None, weight_on_new by done.
    pose proof (ri_inflight _ Hi _ _ Hs). case_decide; simpl; lia.
  - intros l. rewrite elem_of_union, elem_of_singleton, (ri_active _ Hi). split.
    + intros [->|(le & Hl & ?)]; [rewrite lookup_insert_eq; eauto|].
      exists le. rewrite lookup_insert_ne; [done|]. intros <-. congruence.
    + intros (le & Hl & ?). map_simpl; eauto.
  - intros l [<-|?%(ri_fresh_l _ Hi)]%lookup_insert_is_Some'; lia.
  - intros st ?%(ri_fresh_s _ Hi). lia.
  - intros st rs Hst. rewrite lookup_insert_is_Some'. right. by apply (ri_routed _ Hi st).
Qed.

Lemma first_candidate_closest cursor n cs :
  (cursor < n)%nat → (∀ j, j ∈ cs → (j < n)%nat) →
  match first_candidate cursor n (seq 0 n) cs with
  | Some i => i ∈ cs ∧ ∀ j, j ∈ cs → (distance cursor n i ≤ distance cursor n j)%nat
  | None => cs = []
  end.
Proof.
  intros Hc Hcs. pose proof (first_candidate_spec cursor n (seq 0 n) cs) as Hf.
  destruct (first_candidate _ _ _ _) as [i|].
  - destruct Hf as (Hin & o & os1 & os2 & Hsq & -> & Hno). split; [done|]. intros j Hj.
    assert (Hlk : seq 0 n !! length os1 = Some o) by by rewrite Hsq, list_lookup_middle.
    apply lookup_seq in Hlk as [-> Hlt]. simpl. rewrite ring_distance by done.
    apply not_lt. intros Hjo. apply (Hno (distance cursor n j)); [|by rewrite ring_offset; auto].
    assert (seq 0 n !! distance cursor n j = Some (distance cursor n j)) as Hlk by (apply lookup_seq; lia).
    rewrite Hsq, lookup_app_l in Hlk by done. by eapply list_elem_of_lookup_2.
  - destruct cs as [|j cs]; [done|]. exfalso. assert (j ∈ j :: cs) as Hj by by left.
    apply (Hf (distance cursor n j)); [|by rewrite ring_offset; auto].
    apply elem_of_seq. unfold distance. pose proof (Nat.mod_upper_bound (j + n - cursor) n). lia.
Qed.

Lemma healthy_exists slots : healthy_indices slots = [] ↔ existsb slot_healthy slots = false.
Proof.
  split.
  - intros Hh. apply not_true_is_false. rewrite existsb_exists. intros (s & Hs & Hb).
    apply list_elem_of_In, list_elem_of_lookup in Hs as [i Hs].
    assert (i ∈ healthy_indices slots) as Hi by by apply elem_of_healthy; unfold healthy_at; rewrite Hs.
    rewrite Hh in Hi. by apply elem_of_nil in Hi.
  - intros He. destruct (healthy_indices slots) as [|i l] eqn:Hh; [done|exfalso].
    assert (healthy_at slots i = true) as Hi by (apply elem_of_healthy; rewrite Hh; by left).
    unfold healthy_at in Hi. destruct (slots !! i) as [s|] eqn:Hs; [|done].
    apply not_false_iff_true in He; [done|]. apply existsb_exists. exists s.
    split; [|done]. by eapply list_elem_of_In, list_elem_of_lookup_2.
Qed.

Lemma candidates_best p i0 rest m :
  healthy_indices (p_slots p) = i0 :: rest →
  m = min_list (inflight_at (p_slots p) i0) (inflight_at (p_slots p) <$> rest) →
  (∀ j, j ∈ select_candidates (p_slots p) m ↔
     healthy_at (p_slots p) j = true ∧ inflight_at (p_slots p) j = m) ∧
  (∀ j, healthy_at (p_slots p) j = true → m ≤ inflight_at (p_slots p) j) ∧
  select_candidates (p_slots p) m ≠ [].
Proof.
  intros Hh ->. set (m := min_list _ _).
  assert (Hc : ∀ j, j ∈ select_candidates (p_slots p) m ↔
    healthy_at (p_slots p) j = true ∧ inflight_at (p_slots p) j = m).
  { intros j. unfold select_candidates. rewrite list_elem_of_filter, elem_of_healthy. tauto. }
  split_and!; [done|..].
  - intros j Hj. apply min_list_le. rewrite <- fmap_cons. apply list_elem_of_fmap_2.
    rewrite <- Hh. by apply elem_of_healthy.
  - pose proof (min_list_in (inflight_at (p_slots p) i0) (inflight_at (p_slots p) <$> rest)) as Hin.
    rewrite <- fmap_cons, <- Hh in Hin. apply list_elem_of_fmap in Hin as (j & Heq & Hj).
    intros Hn. assert (j ∈ select_candidates (p_slots p) m) as Hjc.
    { apply Hc. split; [by apply elem_of_healthy|by rewrite <- Heq]. }
    rewrite Hn in Hjc. by apply elem_of_nil in Hjc.
Qed.

(** Selection finds the best slot whenever there is a healthy one. *)
Lemma wp_select w p (Q : nat → pool → Prop) X :
  rinv p → 0 < w →
  (is_routable p = false → X (gw NoHealthyBackendError) p) →
  (∀ i p', p_closed p = false → best p i → rinv p' → same_core (select_state i w p) p' →
     p_slots p' = p_slots (select_state i w p) → Q (p_next p) p') →
  wp (select w) Q X p.
Proof.
  intros Hi Hw HX HQ. unfold select. destruct (Z.leb_spec w 0); [lia|]. do 2 wp_step.
  unfold is_routable in HX. destruct (p_closed p) eqn:Hc; [by apply HX|].
  destruct (healthy_indices (p_slots p)) as [|i0 rest] eqn:Hh.
  { apply wp_raise, HX. simpl. by apply healthy_exists. }
  set (m := min_list _ _). destruct (candidates_best p i0 rest m Hh eq_refl) as (Hcs & Hm & Hne).
  pose proof (ri_cursor _ Hi) as Hcur.
  pose proof (first_candidate_closest (p_cursor p) (length (p_slots p))
    (select_candidates (p_slots p) m) Hcur) as Hf.
  destruct (first_candidate _ _ _ _) as [i|]; 
    [|destruct Hne; apply Hf; intros j [? _]%Hcs; by apply healthy_at_lt].
  destruct Hf as [Hin Hfirst]; [by intros j [? _]%Hcs; apply healthy_at_lt|].
  apply Hcs in Hin as [Hhi Hmi]. wp_step. eapply wp_unwrap; [done|]. wp_steps.
  apply wp_notify_pool. intros p' Hs Hsl. wp_step. apply (HQ i); try done.
  - constructor; [done|intros j Hj; rewrite Hmi; by apply Hm|].
    intros j Hj Heq. apply Hfirst, Hcs. split; [done|congruence].
  - eapply same_core_inv; [|done]. apply select_inv; eauto using healthy_at_lt.
Qed.

(** * Effects

    The leases, streams and health flags a method leaves behind. *)

Definition health (p : pool) : list (option bool) := sl_healthy <$> p_slots p.

Definition effect (ls : gmap nat backend_lease) (rs : gmap nat routed_stream)
    (h : list (option bool)) (p p' : pool) : Prop :=
  rinv p' ∧ p_leases p' = ls ∧ p_routed p' = rs ∧ health p' = h ∧ p_closed p' = p_closed p ∧
  (sl_id <$> p_slots p') = (sl_id <$> p_slots p).

Definition mark_released (l : nat) : gmap nat backend_lease → gmap nat backend_lease :=
  alter (λ le, BackendLease (bl_slot le) (bl_weight le) true) l.
Definition mark_closed (st : nat) : gmap nat routed_stream → gmap nat routed_stream :=
  alter (λ rs, RoutedStream (rs_lease rs) true) st.

(** No effect on leases, streams and health. *)
Definition inert (p p' : pool) : Prop := effect (p_leases p) (p_routed p) (health p) p p'.

Lemma same_core_inert p p' : rinv p → same_core p p' → p_slots p' = p_slots p → inert p p'.
Proof.
  intros Hi Hs Hsl. pose proof (same_core_inv _ _ Hi Hs). destruct Hs.
  unfold inert, effect, health. by rewrite Hsl.
Qed.

Lemma effect_inert ls rs h p p' p'' : effect ls rs h p p' → inert p' p'' → effect ls rs h p p''.
Proof.
  intros (?&?&?&?&?&?) (?&?&?&?&?&?). unfold effect. split_and!; congruence.
Qed.
Lemma inert_effect ls rs h p p' p'' : inert p p' → effect ls rs h p' p'' → effect ls rs h p p''.
Proof. intros (?&?&?&?&?&?) (?&?&?&?&?&?). unfold effect. split_and!; congruence. Qed.
Lemma inert_inv p p' : inert p p' → rinv p'.
Proof. by intros [? _]. Qed.
Lemma inert_refl p : rinv p → inert p p.
Proof. done. Qed.

Lemma wp_notify_inert (Q : unit → pool → Prop) X p :
  rinv p → (∀ p', inert p p' → Q () p') → wp notify_pool Q X p.
Proof. intros Hi HQ. apply wp_notify_pool. intros p' ? ?. apply HQ. by apply same_core_inert. Qed.
Lemma wp_observe_inert i op out (Q : unit → pool → Prop) X p :
  rinv p → (∀ p', inert p p' → Q () p') → wp (observe_operation i op out) Q X p.
Proof. intros Hi HQ. apply wp_observe. intros p' ? ?. apply HQ. by apply same_core_inert. Qed.

Lemma health_alter p i h :
  health (with_slots (alter (set_healthy h) i) p) = alter (λ _, h) i (health p).
Proof.
  unfold health. simpl. apply list_eq. intros j. rewrite list_lookup_fmap.
  destruct (decide (i = j)) as [->|Hne].
  - rewrite !list_lookup_alter_eq, list_lookup_fmap. by destruct (p_slots p !! j).
  - by rewrite !list_lookup_alter_ne, list_lookup_fmap by done.
Qed.

Lemma fmap_alter_slot {B} (g : slot → B) f i (slots : list slot) :
  (∀ s, g (f s) = g s) → g <$> alter f i slots = g <$> slots.
Proof.
  intros Hg. apply list_eq. intros j. rewrite !list_lookup_fmap.
  destruct (decide (i = j)) as [->|Hne]; [rewrite list_lookup_alter_eq|by rewrite list_lookup_alter_ne].
  destruct (slots !! j); simpl; [|done]. by rewrite Hg.
Qed.

(** Releasing an unreleased lease gives its weight back. *)
Lemma release_inv l le p :
  rinv p → p_leases p !! l = Some le → bl_released le = false →
  rinv (with_active (λ a, a ∖ {[l]}) (with_slots (alter (add_inflight (- bl_weight le)) (bl_slot le))
    (with_leases <[l := BackendLease (bl_slot le) (bl_weight le) true]> p))).
Proof.
  intros Hi Hl Hr. constructor; simpl; rewrite ?length_alter; try apply Hi.
  - intros i le' Hl'. map_simpl; [exact (ri_lease _ Hi _ _ Hl)|by eapply (ri_lease _ Hi)].
  - intros j s' (s & Hs & ->)%lookup_alter_slot. rewrite (sum_map_insert _ _ _ le) by done.
    pose proof (ri_inflight _ Hi _ _ Hs). unfold weight_on at 2 3. simpl.
    rewrite Hr. rewrite (decide_False (P := _ ∧ true = false)) by naive_solver.
    case_decide as Hd; [rewrite decide_True by done|rewrite decide_False by naive_solver]; simpl; lia.
  - intros i. rewrite elem_of_difference, elem_of_singleton, (ri_active _ Hi). split.
    + intros [(le' & Hl' & ?) Hne]. exists le'. by rewrite lookup_insert_ne.
    + intros (le' & Hl' & ?). map_simpl. split; [eauto|done].
  - intros i. rewrite lookup_insert_is_Some'. intros [<-|?]; by apply (ri_fresh_l _ Hi).
  - intros st rs Hst. rewrite lookup_insert_is_Some'. right. by apply (ri_routed _ Hi st).
Qed.

Lemma weight_nonneg p i l le : rinv p → p_leases p !! l = Some le → 0 ≤ weight_on i le.
Proof. intros Hi Hl. pose proof (ri_lease _ Hi _ _ Hl). unfold weight_on. case_decide; lia. Qed.

(** The accounting check of [_release] never fails. *)
Lemma wp_release_lease l p :
  rinv p → is_Some (p_leases p !! l) →
  wp (release_lease l)
    (λ _ p', effect (mark_released l (p_leases p)) (p_routed p) (health p) p p') (λ _ _, False) p.
Proof.
  intros Hi [le Hl]. unfold release_lease. do 3 wp_step. eapply wp_unwrap; [done|].
  assert (Hmr : mark_released l (p_leases p) = <[l := BackendLease (bl_slot le) (bl_weight le) true]> (p_leases p)).
  { unfold mark_released. apply map_eq. intros i. destruct (decide (l = i)) as [<-|].
    - by rewrite lookup_alter_eq, Hl, lookup_insert_eq.
    - by rewrite lookup_alter_ne, lookup_insert_ne. }
  rewrite Hmr. destruct (bl_released le) eqn:Hr.
  { wp_step. split_and!; try done. rewrite insert_id; [done|]. rewrite Hl. destruct le; simpl in *. congruence. }
  destruct (ri_lease _ Hi _ _ Hl) as [Hlt Hw]. apply lookup_lt_is_Some in Hlt as [s Hs].
  wp_step. eapply wp_unwrap; [done|].
  assert (bl_weight le ≤ sl_inflight s) as Hle.
  { rewrite (ri_inflight _ Hi _ _ Hs). etrans; [|apply (sum_map_lookup_le _ _ l le)]; [|eauto using weight_nonneg|done].
    unfold weight_on. by rewrite decide_True. }
  destruct (Z.ltb_spec (sl_inflight s) (bl_weight le)); [lia|]. wp_steps.
  pose proof (release_inv _ _ _ Hi Hl Hr) as Hi'. apply wp_notify_inert; [done|]. intros p' Hin.
  eapply effect_inert; [|exact Hin]. split_and!; try done; unfold health; simpl;
    by apply fmap_alter_slot.
Qed.

(** Setting a health flag is the only thing [_set_health] does, and a closed pool
    ignores it. *)
Definition health_after (p : pool) (i : nat) (b : bool) : list (option bool) :=
  if p_closed p then health p else alter (λ _, Some b) i (health p).

Lemma wp_set_health i b p (Q : unit → pool → Prop) X :
  rinv p → (i < length (p_slots p))%nat →
  (∀ p', effect (p_leases p) (p_routed p) (health_after p i b) p p' → Q () p') →
  wp (set_health i b) Q X p.
Proof.
  intros Hi Hlt HQ. unfold set_health. do 2 wp_step. unfold health_after in HQ.
  destruct (p_closed p); [wp_step; by apply HQ|].
  destruct (lookup_lt_is_Some_2 _ _ Hlt) as [s Hs]. wp_step. eapply wp_unwrap; [done|]. wp_steps.
  assert (same_core p (with_slots (alter (set_healthy (Some b)) i) p)) as Hsc.
  { constructor; try done; simpl; by apply fmap_alter_slot. }
  pose proof (same_core_inv _ _ Hi Hsc) as Hi'.
  apply wp_notify_inert; [done|]. intros p' Hin. apply HQ. eapply effect_inert; [|exact Hin].
  split_and!; try done; [apply health_alter|apply Hsc].
Qed.

(** What becomes of the health of the backend of a finished operation. *)
Definition health_result (p : pool) (i : nat) (r : option exn) : list (option bool) :=
  match r with
  | Some e => if health_impacting e then health_after p i false else health p
  | None => health p
  end.

Lemma is_some_released l ls : is_Some (ls !! l) → is_Some (mark_released l ls !! l).
Proof. intros [le Hl]. unfold mark_released. by rewrite lookup_alter_eq, Hl. Qed.

(** Releasing at the end of an operation, after whatever came before. *)
Lemma wp_release_after l p0 p h :
  is_Some (p_leases p0 !! l) → effect (p_leases p0) (p_routed p0) h p0 p →
  wp (release_lease l) (λ _ p', effect (mark_released l (p_leases p0)) (p_routed p0) h p0 p')
     (λ _ _, False) p.
Proof.
  intros Hl (Hi & Hls & Hrs & Hh & Hc & Hid). rewrite <- Hls in Hl.
  eapply wp_mono; [by apply wp_release_lease|..|done].
  intros _ p' (?&?&?&?&?&?). unfold effect. split_and!; congruence.
Qed.

Lemma lease_slot p l le : rinv p → p_leases p !! l = Some le → (bl_slot le < length (p_slots p))%nat.
Proof. intros Hi Hl. apply (ri_lease _ Hi _ _ Hl). Qed.

(** The end of [generate] and [generate_batch]: the lease is released whatever the
    backend answered, and the answer is passed on. *)
Lemma wp_call_end {A} op l le (r : exn + A) p :
  rinv p → p_leases p !! l = Some le →
  let eff := effect (mark_released l (p_leases p)) (p_routed p)
    (health_result p (bl_slot le) (match r with inl e => Some e | inr _ => None end)) p in
  wp (call_end op l r) (λ a p', r = inr a ∧ eff p') (λ e p', r = inl e ∧ eff p') p.
Proof.
  intros Hi Hl eff. unfold call_end, lease_of. do 3 wp_step. eapply wp_unwrap; [done|]. wp_step.
  apply wp_finally.
  set (h := health_result p (bl_slot le) (match r with inl e => Some e | inr _ => None end)) in *.
  eapply (wp_mono _ (λ _ p1, effect (p_leases p) (p_routed p) h p p1) _ (λ _ _, False)); [|..|done].
  - assert (Hobs : ∀ out p1, effect (p_leases p) (p_routed p) h p p1 →
      wp (observe_operation (bl_slot le) op out) (λ _ p2, effect (p_leases p) (p_routed p) h p p2)
         (λ _ _, False) p1).
    { intros out p1 He. apply wp_observe_inert; [apply He|]. intros p2 Hin. by eapply effect_inert. }
    destruct r as [e|a]; [|by apply Hobs].
    destruct (health_impacting e) eqn:Hhi.
    + destruct e; try discriminate. wp_step. unfold mark_unhealthy.
      apply wp_set_health; [done|by apply (lease_slot _ l)|]. intros p1 He. apply Hobs.
      unfold h. simpl. by rewrite Hhi.
    + assert (effect (p_leases p) (p_routed p) h p p) as He by (unfold h; simpl; by rewrite Hhi).
      destruct e; try (by apply Hobs); (destruct (is_exception _); [by apply Hobs|by wp_step]).
  - intros _ p1 He. eapply wp_mono; [by apply (wp_release_after l p p1 h)|..|done].
    intros [] p2 He2. clearbody h. destruct r; by wp_step.
Qed.

Lemma wp_finish_begin st rs p (Q : bool → pool → Prop) X :
  rinv p → p_routed p !! st = Some rs →
  (∀ p', effect (p_leases p) (mark_closed st (p_routed p)) (health p) p p' →
     Q (negb (rs_closed rs)) p') →
  wp (finish_begin st) Q X p.
Proof.
  intros Hi Hst HQ. unfold finish_begin. do 3 wp_step. eapply wp_unwrap; [done|].
  assert (Hmc : mark_closed st (p_routed p) = <[st := RoutedStream (rs_lease rs) true]> (p_routed p)).
  { unfold mark_closed. apply map_eq. intros i. destruct (decide (st = i)) as [<-|].
    - by rewrite lookup_alter_eq, Hst, lookup_insert_eq.
    - by rewrite lookup_alter_ne, lookup_insert_ne. }
  rewrite Hmc in HQ. destruct (rs_closed rs) eqn:Hr; wp_steps; apply HQ.
  - split_and!; try done. rewrite insert_id; [done|]. rewrite Hst. destruct rs; simpl in *. congruence.
  - split_and!; try done. constructor; simpl; try apply Hi.
    + intros i. rewrite lookup_insert_is_Some'. intros [<-|?]; by apply (ri_fresh_s _ Hi).
    + intros i rs' Hi'. map_simpl; [exact (ri_routed _ Hi _ _ Hst)|by eapply (ri_routed _ Hi)].
Qed.

Lemma wp_unregister st (Q : unit → pool → Prop) X p :
  rinv p → (∀ p', inert p p' → Q () p') → wp (unregister_stream st) Q X p.
Proof.
  intros Hi HQ. apply wp_modify, HQ. apply same_core_inert; [done|by constructor|done].
Qed.

(** The end of [_finish]: whatever [aclose] raised, the lease is released. *)
Lemma wp_finish_end st rs out r p :
  rinv p → p_routed p !! st = Some rs →
  let eff := effect (mark_released (rs_lease rs) (p_leases p)) (p_routed p) (health p) p in
  wp (finish_end st out r) (λ _ p', r = None ∧ eff p') (λ e p', r = Some e ∧ eff p') p.
Proof.
  intros Hi Hst eff. unfold finish_end, lease_of. do 3 wp_step. eapply wp_unwrap; [done|].
  destruct (ri_routed _ Hi _ _ Hst) as [le Hl]. do 3 wp_step. eapply wp_unwrap; [done|]. wp_step.
  apply wp_finally. eapply wp_mono; [apply wp_release_lease; eauto|..|done].
  intros [] p1 He1. apply wp_finally. apply wp_unregister; [apply He1|]. intros p2 Hin2.
  pose proof (effect_inert _ _ _ _ _ _ He1 Hin2) as He2.
  apply wp_observe_inert; [apply He2|]. intros p3 Hin3.
  pose proof (effect_inert _ _ _ _ _ _ He2 Hin3). destruct r; by wp_step.
Qed.

(** Opening a stream: a wrapper that owns the lease, or the lease is released. *)
Lemma wp_open_end l le r p :
  rinv p → p_leases p !! l = Some le →
  wp (open_end l r)
    (λ '(st, reg) p', r = None ∧ st = p_next p ∧ reg = negb (p_closed p) ∧
       effect (p_leases p) (<[st := RoutedStream l false]> (p_routed p)) (health p) p p')
    (λ e p', r = Some e ∧ effect (mark_released l (p_leases p)) (p_routed p)
       (health_result p (bl_slot le) r) p p') p.
Proof.
  intros Hi Hl. unfold open_end, lease_of. do 3 wp_step. eapply wp_unwrap; [done|].
  assert (Hsome : is_Some (p_leases p !! l)) by by eexists.
  set (h := health_result p (bl_slot le) r) in *.
  destruct r as [e|].
  - wp_step. eapply (wp_mono _ (λ _ p1, effect (p_leases p) (p_routed p) h p p1) _ (λ _ _, False)); [|..|done].
    + assert (Hobs : ∀ out p1, effect (p_leases p) (p_routed p) h p p1 →
        wp (observe_operation (bl_slot le) OpStream out)
           (λ _ p2, effect (p_leases p) (p_routed p) h p p2) (λ _ _, False) p1).
      { intros out p1 He. apply wp_observe_inert; [apply He|]. intros p2 Hin. by eapply effect_inert. }
      assert (Hm : wp (if health_impacting e then mark_unhealthy (bl_slot le) else ret ())
        (λ _ p1, effect (p_leases p) (p_routed p) h p p1) (λ _ _, False) p).
      { unfold h. simpl. destruct (health_impacting e); [|by wp_step].
        apply wp_set_health; [done|by apply (lease_slot _ l)|done]. }
      destruct e; try (wp_step; eapply wp_mono; [exact Hm|intros [] p1 He; by apply Hobs|done]).
      apply Hobs. by split_and!.
    + intros [] p1 He. wp_step. eapply wp_mono; [by apply (wp_release_after l p p1 h)|..|done].
      intros [] p2 He2. by wp_step.
  - do 7 wp_step. unfold register_stream. do 2 wp_step. cbn [p_closed with_routed with_next].
    assert (Hi1 : rinv (with_routed <[p_next p := RoutedStream l false]> (with_next S p))).
    { constructor; simpl; try apply Hi.
      - intros i ?%(ri_fresh_l _ Hi). lia.
      - intros i [<-|?%(ri_fresh_s _ Hi)]%lookup_insert_is_Some'; lia.
      - intros i rs Hrs. map_simpl; [done|by eapply (ri_routed _ Hi)]. }
    destruct (p_closed p) eqn:Hc; wp_steps; unfold effect; split_and!; try done.
    constructor; apply Hi1.
Qed.

(** * Closing *)

Definition mark_all (ls : list nat) (m : gmap nat backend_lease) : gmap nat backend_lease :=
  foldl (λ m l, mark_released l m) m ls.

Lemma lookup_mark_released l i m :
  mark_released l m !! i =
  (λ le, if decide (i = l) then BackendLease (bl_slot le) (bl_weight le) true else le) <$> m !! i.
Proof.
  unfold mark_released. destruct (decide (i = l)) as [->|Hne].
  - by rewrite lookup_alter_eq.
  - rewrite lookup_alter_ne by done. by destruct (m !! i).
Qed.

Lemma lookup_mark_all ls i m :
  mark_all ls m !! i =
  (λ le, if decide (i ∈ ls) then BackendLease (bl_slot le) (bl_weight le) true else le) <$> m !! i.
Proof.
  revert m. induction ls as [|l ls IH]; intros m; simpl.
  { by destruct (m !! i). }
  rewrite IH, lookup_mark_released. destruct (m !! i) as [le|]; simpl; [|done]. f_equal.
  repeat case_decide; try done; exfalso; set_solver.
Qed.

Lemma wp_release_all ls p :
  rinv p → (∀ l, l ∈ ls → is_Some (p_leases p !! l)) →
  wp (release_all ls) (λ _ p', effect (mark_all ls (p_leases p)) (p_routed p) (health p) p p')
     (λ _ _, False) p.
Proof.
  revert p. induction ls as [|l ls IH]; intros p Hi Hls; [by apply wp_ret|].
  destruct (wp_returns _ _ _ (wp_release_lease l p Hi (Hls l (list_elem_of_here _ _)))) as (u & p1 & Hr & He).
  pose proof He as (Hi1 & Hl1 & Hr1 & Hh1 & Hc1 & Hid1).
  assert (Hls1 : ∀ l', l' ∈ ls → is_Some (p_leases p1 !! l')).
  { intros l' Hin. rewrite Hl1, lookup_mark_released, fmap_is_Some. apply Hls. by right. }
  unfold wp. simpl. rewrite Hr. specialize (IH p1 Hi1 Hls1). unfold wp in IH.
  destruct (release_all ls p1) as [[e|[]] p2]; [done|]. destruct IH as (?&?&?&?&?&?).
  unfold effect. split_and!; try congruence.
Qed.

(** Closing ends every lease it found, whoever holds it, and every backend is
    unhealthy afterwards. *)
Lemma wp_close_end ls p :
  rinv p → (∀ l, l ∈ ls → is_Some (p_leases p !! l)) →
  wp (close_end ls)
    (λ _ p', effect (mark_all ls (p_leases p)) (p_routed p)
       (replicate (length (p_slots p)) (Some false)) p p') (λ _ _, False) p.
Proof.
  intros Hi Hls. unfold close_end. wp_step. eapply wp_mono; [by apply wp_release_all|..|done].
  intros [] p1 (Hi1 & ? & ? & ? & ? & Hid). do 2 wp_step.
  set (p2 := with_slots _ p1). assert (Hsc : same_core p1 p2).
  { constructor; try done; simpl; rewrite <- list_fmap_compose; by apply list_fmap_ext. }
  apply wp_notify_inert; [by eapply same_core_inv|]. intros p3 (?&?&?&Hh&?&?).
  unfold effect. split_and!; [done|simpl in *; congruence..| | |].
  - rewrite Hh. unfold health. simpl. rewrite <- list_fmap_compose.
    rewrite <- (length_fmap sl_id), <- Hid, length_fmap. clear.
    induction (p_slots p1) as [|s l IH]; simpl; [done|]. by f_equal.
  - simpl in *. congruence.
  - etrans; [done|]. etrans; [apply Hsc|done].
Qed.

(** * Construction *)

Lemma pool_init_ok ids interval timeout ob p :
  pool_init ids interval timeout ob = inr p →
  rinv p ∧ p_closed p = false ∧ p_leases p = ∅ ∧ p_routed p = ∅ ∧ is_routable p = false ∧
  sl_id <$> p_slots p = ids.
Proof.
  unfold pool_init. repeat case_match; try done. intros [= Hp].
  set (p0 := Pool _ _ _ _ _ _ _ _ _ _ _ _) in Hp.
  apply bool_decide_eq_false in H. destruct ids as [|i0 ids']; [done|]. set (ids := i0 :: ids') in *.
  assert (Hi : rinv p0).
  { constructor; simpl; try lia; try set_solver; try (by intros ? []).
    - intros i s Hs. rewrite sum_map_empty. rewrite lookup_cons_Some in Hs.
      destruct Hs as [[_ <-]|[_ Hs]]; [done|]. apply list_lookup_fmap_Some in Hs as (? & -> & _). done. }
  assert (Hs : same_core p0 p ∧ p_slots p = p_slots p0) by (subst p; simpl; case_match; by split).
  destruct Hs as [Hsc Hsl]. split; [by eapply same_core_inv|]. destruct Hsc.
  split_and!; try done.
  - unfold is_routable. rewrite Hsl. simpl. rewrite andb_false_iff. right.
    clear. induction ids'; simpl; [done|]. done.
  - rewrite Hsl. simpl. f_equal. rewrite <- list_fmap_compose. apply list_fmap_id.
Qed.
