(* ===== verification/RoutingSystem.v ===== *)
(** The backend pool under every interleaving of operations, streams, probes and
    closing: who owns a lease, and the theorems about reachable states. *)
From S2P Require Import Prelude.
From S2P Require Import Python.
From S2P Require Import Errors.
From S2P Require Import Routing.
From S2P Require Import RoutingInv.

(** * Ownership of the leases *)

Lemma mark_released_live l i m le :
  mark_released l m !! i = Some le → bl_released le = false → i ≠ l ∧ m !! i = Some le.
Proof.
  rewrite lookup_mark_released. destruct (m !! i) as [le0|]; simpl; [|done].
  case_decide; intros [= <-]; simpl; [done|]. by split.
Qed.

Lemma mark_all_live ls i m le :
  mark_all ls m !! i = Some le → bl_released le = false → (i ∉ ls) ∧ m !! i = Some le.
Proof.
  rewrite lookup_mark_all. destruct (m !! i) as [le0|]; simpl; [|done].
  case_decide; intros [= <-]; simpl; [done|]. by split.
Qed.

Lemma is_Some_mark_released l i m : is_Some (mark_released l m !! i) ↔ is_Some (m !! i).
Proof. by rewrite lookup_mark_released, fmap_is_Some. Qed.
Lemma is_Some_mark_all ls i m : is_Some (mark_all ls m !! i) ↔ is_Some (m !! i).
Proof. by rewrite lookup_mark_all, fmap_is_Some. Qed.

Lemma lookup_mark_closed st i m :
  mark_closed st m !! i =
  (λ rs, if decide (i = st) then RoutedStream (rs_lease rs) true else rs) <$> m !! i.
Proof.
  unfold mark_closed. destruct (decide (i = st)) as [->|Hne]; [by rewrite lookup_alter_eq|].
  rewrite lookup_alter_ne by done. by destruct (m !! i).
Qed.

Section ownership.
Implicit Types (L : gmap nat backend_lease) (R : gmap nat routed_stream)
  (C : gmap nat operation) (F : gmap nat op_outcome).

Record owned L R C F : Prop := {
  ow_call l op : C !! l = Some op → is_Some (L !! l);
  ow_excl l op st rs : C !! l = Some op → R !! st = Some rs → rs_lease rs ≠ l;
  ow_inj st1 st2 rs1 rs2 : R !! st1 = Some rs1 → R !! st2 = Some rs2 →
    rs_lease rs1 = rs_lease rs2 → st1 = st2;
  ow_fin st out : F !! st = Some out → ∃ rs, R !! st = Some rs ∧ rs_closed rs = true;
  ow_owner l le : L !! l = Some le → bl_released le = false →
    (∃ op, C !! l = Some op) ∨
    ∃ st rs, R !! st = Some rs ∧ rs_lease rs = l ∧ (rs_closed rs = false ∨ is_Some (F !! st));
}.

Lemma owned_new L R C F l le op :
  owned L R C F → L !! l = None → (∀ st rs, R !! st = Some rs → is_Some (L !! rs_lease rs)) →
  owned (<[l := le]> L) R (<[l := op]> C) F.
Proof.
  intros Ho Hn HR. constructor; try apply Ho.
  - intros l' op' Hl'. rewrite lookup_insert_is_Some'. map_simpl; [by left|].
    right. by eapply (ow_call _ _ _ _ Ho).
  - intros l' op' st rs Hl' Hst <-. map_simpl.
    + destruct (HR _ _ Hst) as [? ?]. congruence.
    + by eapply (ow_excl _ _ _ _ Ho).
  - intros l' le' Hl' Hr. map_simpl; [left; exists op; by rewrite lookup_insert_eq|].
    destruct (ow_owner _ _ _ _ Ho l' le') as [[op' ?]|?]; [done|done| |by right].
    left. exists op'. by rewrite lookup_insert_ne.
Qed.

(** The backend answered: the caller releases the lease. *)
Lemma owned_answer L R C F l : owned L R C F → owned (mark_released l L) R (delete l C) F.
Proof.
  intros Ho. constructor; try apply Ho.
  - intros l' op [_ Hl']%lookup_delete_Some. rewrite is_Some_mark_released.
    by eapply (ow_call _ _ _ _ Ho).
  - intros l' op st rs [_ Hl']%lookup_delete_Some. by apply (ow_excl _ _ _ _ Ho _ op).
  - intros l' le' Hl' Hr. destruct (mark_released_live _ _ _ _ Hl' Hr) as [Hne Hl].
    destruct (ow_owner _ _ _ _ Ho l' le' Hl Hr) as [[op ?]|?]; [left|by right].
    exists op. by rewrite lookup_delete_ne.
Qed.

(** A stream takes the lease over. *)
Lemma owned_stream L R C F l op st :
  owned L R C F → C !! l = Some op → R !! st = None →
  owned L (<[st := RoutedStream l false]> R) (delete l C) F.
Proof.
  intros Ho Hl Hst. constructor; try apply Ho.
  - intros l' op' [_ Hl']%lookup_delete_Some. by eapply (ow_call _ _ _ _ Ho).
  - intros l' op' st' rs [Hne Hl']%lookup_delete_Some Hrs. map_simpl; [done|].
    by eapply (ow_excl _ _ _ _ Ho).
  - intros st1 st2 rs1 rs2 H1 H2 Heq. map_simpl; try done; simpl in *;
      first [by eapply (ow_inj _ _ _ _ Ho)
            |exfalso; eapply (ow_excl _ _ _ _ Ho l op); [done|eassumption|congruence]].
  - intros st' out Hf. destruct (ow_fin _ _ _ _ Ho _ _ Hf) as (rs & ? & ?). exists rs.
    rewrite lookup_insert_ne; [done|]. intros <-. congruence.
  - intros l' le Hl' Hr. destruct (decide (l = l')) as [<-|Hne].
    { right. exists st, (RoutedStream l false). rewrite lookup_insert_eq. auto. }
    destruct (ow_owner _ _ _ _ Ho _ _ Hl' Hr) as [[op' ?]|(st' & rs & ? & ? & ?)].
    + left. exists op'. by rewrite lookup_delete_ne.
    + right. exists st', rs. rewrite lookup_insert_ne; [done|]. intros <-. congruence.
Qed.

(** Closing a stream starts its [_finish] unless that has been done. *)
Lemma owned_close L R C F st rs out :
  owned L R C F → R !! st = Some rs →
  owned L (mark_closed st R) C (if rs_closed rs then F else <[st := out]> F).
Proof.
  intros Ho Hst.
  assert (Hback : ∀ i rs', mark_closed st R !! i = Some rs' →
    ∃ rs0, R !! i = Some rs0 ∧ rs_lease rs' = rs_lease rs0).
  { intros i rs'. rewrite lookup_mark_closed. destruct (R !! i) as [rs0|]; simpl; [|done].
    intros [= <-]. exists rs0. split; [done|]. by case_decide. }
  constructor; try apply Ho.
  - intros l op st' rs' Hl (rs0 & ? & ->)%Hback. by eapply (ow_excl _ _ _ _ Ho).
  - intros st1 st2 rs1 rs2 (rs1' & ? & ->)%Hback (rs2' & ? & ->)%Hback. by eapply (ow_inj _ _ _ _ Ho).
  - intros st' o Hf. rewrite lookup_mark_closed.
    destruct (decide (st' = st)) as [->|Hne]; [rewrite Hst; simpl; by eexists|].
    assert (F !! st' = Some o) as Hf' by (destruct (rs_closed rs); [done|by rewrite lookup_insert_ne in Hf]).
    destruct (ow_fin _ _ _ _ Ho _ _ Hf') as (rs' & -> & ?). by eexists.
  - intros l le Hl Hr. destruct (ow_owner _ _ _ _ Ho _ _ Hl Hr) as [?|(st' & rs' & Hs & <- & Hw)]; [by left|right].
    exists st', (if decide (st' = st) then RoutedStream (rs_lease rs') true else rs').
    rewrite lookup_mark_closed, Hs. simpl. split; [done|]. case_decide as Heq.
    + subst st'. simplify_eq. split; [done|]. right. destruct (rs_closed rs) eqn:Hc.
      * destruct Hw; [congruence|done].
      * by rewrite lookup_insert_eq.
    + split; [done|]. destruct Hw as [?|?]; [by left|right].
      destruct (rs_closed rs); [done|by rewrite lookup_insert_ne].
Qed.

(** The end of [_finish] releases the lease. *)
Lemma owned_finished L R C F st rs :
  owned L R C F → R !! st = Some rs → owned (mark_released (rs_lease rs) L) R C (delete st F).
Proof.
  intros Ho Hst. constructor; try apply Ho.
  - intros l op Hl. rewrite is_Some_mark_released. by eapply (ow_call _ _ _ _ Ho).
  - intros st' out [_ Hf]%lookup_delete_Some. by apply (ow_fin _ _ _ _ Ho _ out).
  - intros l le Hl Hr. destruct (mark_released_live _ _ _ _ Hl Hr) as [Hne Hl'].
    destruct (ow_owner _ _ _ _ Ho _ _ Hl' Hr) as [?|(st' & rs' & ? & ? & ?)]; [by left|right].
    exists st', rs'. split_and!; [done..|]. rewrite lookup_delete_ne; [done|]. intros <-. by simplify_eq.
Qed.

Lemma owned_all L R C F ls : owned L R C F → owned (mark_all ls L) R C F.
Proof.
  intros Ho. constructor; try apply Ho.
  - intros l op Hl. rewrite is_Some_mark_all. by eapply (ow_call _ _ _ _ Ho).
  - intros l le Hl Hr. destruct (mark_all_live _ _ _ _ Hl Hr) as [_ Hl']. by eapply (ow_owner _ _ _ _ Ho).
Qed.
End ownership.

(** * The system invariant *)

Definition all_released (m : gmap nat backend_lease) : Prop :=
  ∀ l le, m !! l = Some le → bl_released le = true.

Record rsys_ok (y : rsys) : Prop := {
  ro_inv : rinv (r_pool y);
  ro_owned : owned (p_leases (r_pool y)) (p_routed (r_pool y)) (r_calls y) (r_finishing y);
  ro_closing ls sts : r_closing y = Some (ls, sts) → p_closed (r_pool y) = true ∧
    (∀ l, l ∈ ls → is_Some (p_leases (r_pool y) !! l)) ∧
    ∀ l le, p_leases (r_pool y) !! l = Some le → bl_released le = false → l ∈ ls;
  ro_shut : p_closed (r_pool y) = true → r_closing y = None →
    all_released (p_leases (r_pool y)) ∧
    health (r_pool y) = replicate (length (p_slots (r_pool y))) (Some false);
}.

(** No lease appears or comes back to life. *)
Definition no_new (L L' : gmap nat backend_lease) : Prop :=
  (∀ l le, L' !! l = Some le → bl_released le = false → L !! l = Some le) ∧
  ∀ l, is_Some (L !! l) → is_Some (L' !! l).

Lemma no_new_refl L : no_new L L.
Proof. by split. Qed.
Lemma no_new_mark l L : no_new L (mark_released l L).
Proof.
  split; [by intros l' le Hl Hr; apply (mark_released_live l)|].
  intros l'. by rewrite is_Some_mark_released.
Qed.
#[local] Hint Resolve no_new_refl no_new_mark : core.

Lemma effect_length L R h p p' : effect L R h p p' → length (p_slots p') = length (p_slots p).
Proof. intros (_ & _ & _ & _ & _ & Hid). by rewrite <- (length_fmap sl_id), Hid, length_fmap. Qed.

Lemma rsys_keep y p' L R h C' F' :
  rsys_ok y → effect L R h (r_pool y) p' → no_new (p_leases (r_pool y)) L →
  (p_closed (r_pool y) = true → h = health (r_pool y)) → owned L R C' F' →
  rsys_ok (RSys p' C' F' (r_closing y)).
Proof.
  intros Hy He [Hlive Hsome] Hh Ho. pose proof (effect_length _ _ _ _ _ He) as Hlen.
  destruct He as (Hi & HL & HR & Hhe & Hc & _). constructor; simpl; rewrite ?HL, ?HR, ?Hc, ?Hlen; try done.
  - intros ls sts Hcl. destruct (ro_closing _ Hy _ _ Hcl) as (? & Hs & Hin). split_and!; [done|auto|].
    intros l le Hl Hr. eapply Hin; [by apply Hlive|done].
  - intros Hcl Hn. destruct (ro_shut _ Hy Hcl Hn) as [Hall Hhs]. split; [|by rewrite Hhe, Hh].
    intros l le Hl. destruct (bl_released le) eqn:Hr; [done|]. rewrite <- Hr. by eapply Hall, Hlive.
Qed.

(** What each event may answer. *)
Definition ranswer_ok (y : rsys) (ev : revent) (o : routcome) (y' : rsys) : Prop :=
  let p := r_pool y in
  match ev, o with
  | RvCall op n, ROLease l => is_routable p = true ∧ p_leases p !! l = None ∧
      ∃ i, best p i ∧
        p_leases (r_pool y') !! l = Some (BackendLease i (match op with OpBatch => n | _ => 1 end) false)
  | RvCall op n, RORaised e =>
      (e = gw NoHealthyBackendError ∧ is_routable p = false) ∨
      (op = OpBatch ∧ n = 0 ∧ is_instance e BackendCapabilityError = true)
  | RvAnswer l r, RONone => r = None
  | RvAnswer l r, ROStream st => r = None ∧ ∃ rs, p_routed (r_pool y') !! st = Some rs ∧ rs_lease rs = l
  | RvAnswer l r, RORaised e => r = Some e ∨
      (r = None ∧ r_calls y !! l = Some OpStream ∧ p_closed p = true ∧ e = gw NoHealthyBackendError)
  | RvStreamClosed _ r, RONone => r = None
  | RvStreamClosed _ r, RORaised e => r = Some e
  | RvStart, RORaised e => p_closed p = true ∧ e = gw NoHealthyBackendError
  | RvStart, RONone => p_closed p = false
  | RvIterated _ _, RONone | RvAclose _, RONone | RvHealth _ _, RONone | RvClose, RONone
  | RvClosed, RONone | RvObserver _, RONone | RvProbing, RONone => True
  | _, _ => False
  end.

Lemma rfinish_wp {A} y (m : rt A) (Q : A → pool → Prop) X k o y' :
  wp m Q X (r_pool y) → rfinish y m k = (o, y') →
  (∃ a p, k a p = (o, y') ∧ Q a p) ∨
  (∃ e p, (RORaised e, RSys p (r_calls y) (r_finishing y) (r_closing y)) = (o, y') ∧ X e p).
Proof. unfold wp, rfinish. destruct (m (r_pool y)) as [[e|a] p]; eauto 6. Qed.

Lemma best_routable p i : p_closed p = false → best p i → is_routable p = true.
Proof.
  intros Hc [Hh _ _]. unfold is_routable. rewrite Hc. simpl. apply not_false_iff_true.
  rewrite <- healthy_exists. apply elem_of_healthy in Hh. intros Hn. rewrite Hn in Hh.
  by apply elem_of_nil in Hh.
Qed.

(** The [_finish] of a stream starts. *)
Lemma start_finish_ok st out o y rs :
  rsys_ok y → p_routed (r_pool y) !! st = Some rs →
  ∃ y', start_finish st out o y = (o, y') ∧ rsys_ok y' ∧
    effect (p_leases (r_pool y)) (mark_closed st (p_routed (r_pool y))) (health (r_pool y)) (r_pool y) (r_pool y').
Proof.
  intros Hy Hst. unfold start_finish.
  assert (Hwp : wp (finish_begin st) (λ b p', b = negb (rs_closed rs) ∧
    effect (p_leases (r_pool y)) (mark_closed st (p_routed (r_pool y))) (health (r_pool y)) (r_pool y) p')
    (λ _ _, False) (r_pool y)).
  { eapply wp_finish_begin; [apply Hy|done|done]. }
  destruct (rfinish y (finish_begin st) _) as [o' y'] eqn:Hex. eapply rfinish_wp in Hex; [|exact Hwp].
  destruct Hex as [(b & p' & [= <- <-] & -> & He)|(e & p' & _ & [])].
  eexists. split; [done|]. split; [|done]. eapply (rsys_keep y); [done|done|done|done|].
  pose proof (owned_close _ _ _ _ st rs out (ro_owned _ Hy) Hst) as Ho. by destruct (rs_closed rs).
Qed.

(** A failing backend loses its health only while the pool is open. *)
Lemma health_result_closed p i r : p_closed p = true → health_result p i r = health p.
Proof. intros Hc. unfold health_result, health_after. rewrite Hc. by repeat case_match. Qed.

(** What an event does to the health flags. *)
Definition health_ok (y : rsys) (ev : revent) (y' : rsys) : Prop :=
  let p := r_pool y in
  match ev with
  | RvAnswer l r => ∀ le, p_leases p !! l = Some le →
      health (r_pool y') = health_result p (bl_slot le) r
  | RvIterated st r => ∀ rs le, p_routed p !! st = Some rs → p_leases p !! rs_lease rs = Some le →
      health (r_pool y') = health_result p (bl_slot le) r
  | RvHealth i b => health (r_pool y') = health_after p i b
  | RvClosed => health (r_pool y') = replicate (length (p_slots p)) (Some false)
  | _ => health (r_pool y') = health p
  end.

Lemma call_ok y op n o y' :
  rsys_ok y → rexec (RvCall op n) y = Some (o, y') → rsys_ok y' ∧ ranswer_ok y (RvCall op n) o y' ∧ health_ok y (RvCall op n) y'.
Proof.
  intros Hy Hex. cbn [rexec] in Hex. destruct (Z.ltb_spec n 0); [done|]. apply (inj Some) in Hex.
  set (w := match op with OpBatch => n | _ => 1 end).
  assert (Hwp : wp (match op with OpBatch => batch_begin n | _ => generate_begin end)
    (λ l p', l = p_next (r_pool y) ∧ p_closed (r_pool y) = false ∧ ∃ i, best (r_pool y) i ∧ rinv p' ∧
       same_core (select_state i w (r_pool y)) p' ∧ health p' = health (r_pool y))
    (λ e p', p' = r_pool y ∧ ((e = gw NoHealthyBackendError ∧ is_routable (r_pool y) = false) ∨
       (op = OpBatch ∧ n = 0 ∧ is_instance e BackendCapabilityError = true))) (r_pool y)).
  { assert (Hsel : 0 < w → wp (select w)
      (λ l p', l = p_next (r_pool y) ∧ p_closed (r_pool y) = false ∧ ∃ i, best (r_pool y) i ∧ rinv p' ∧
       same_core (select_state i w (r_pool y)) p' ∧ health p' = health (r_pool y))
      (λ e p', p' = r_pool y ∧ ((e = gw NoHealthyBackendError ∧ is_routable (r_pool y) = false) ∨
       (op = OpBatch ∧ n = 0 ∧ is_instance e BackendCapabilityError = true))) (r_pool y)).
    { intros Hw. apply wp_select; [apply Hy|done|by auto|]. intros i p' ? ? ? ? Hsl.
      split_and!; [done..|]. exists i. split_and!; [done..|]. unfold health. rewrite Hsl.
      by apply fmap_alter_slot. }
    destruct op; try (by apply Hsel). unfold batch_begin. destruct (Z.eqb_spec n 0) as [->|Hn].
    - apply wp_raise. split; [done|]. by right.
    - apply Hsel. unfold w. lia. }
  eapply rfinish_wp in Hex; [|exact Hwp].
  destruct Hex as [(l & p' & [= <- <-] & -> & Hc & i & Hb & Hi & Hsc & Hhe)|(e & p' & [= <- <-] & -> & He)].
  - destruct Hsc as [Hid _ _ _ Hcl Hls Hrs Hnx]. simpl in *.
    assert (Hn : p_leases (r_pool y) !! p_next (r_pool y) = None).
    { apply eq_None_not_Some. intros ?%(ri_fresh_l _ (ro_inv _ Hy)). lia. }
    split.
    + constructor; simpl; rewrite ?Hls, ?Hrs, ?Hcl; try done; try congruence.
      * apply owned_new; [apply Hy|done|]. apply (ri_routed _ (ro_inv _ Hy)).
      * intros ls sts Hcls. destruct (ro_closing _ Hy _ _ Hcls). congruence.
    + split; [|done]. split_and!; [by eapply best_routable|done|]. exists i. split; [done|].
      by rewrite Hls, lookup_insert_eq.
  - split; [by destruct y|done].
Qed.

Lemma answer_ok_stream y l r o y' :
  rsys_ok y → r_calls y !! l = Some OpStream → rexec (RvAnswer l r) y = Some (o, y') →
  rsys_ok y' ∧ ranswer_ok y (RvAnswer l r) o y' ∧ health_ok y (RvAnswer l r) y'.
Proof.
  intros Hy Hl Hex. cbn [rexec] in Hex. rewrite Hl in Hex. apply (inj Some) in Hex.
  destruct (ow_call _ _ _ _ (ro_owned _ Hy) _ _ Hl) as [le Hle].
  set (y0 := RSys (r_pool y) (delete l (r_calls y)) (r_finishing y) (r_closing y)) in *.
  eapply (rfinish_wp y0) in Hex; [|exact (wp_open_end l le r _ (ro_inv _ Hy) Hle)].
  destruct Hex as [([st reg] & p' & Hex & -> & -> & -> & He)|(e & p' & [= <- <-] & -> & He)]; simpl in *.
  - assert (Hns : p_routed (r_pool y) !! p_next (r_pool y) = None).
    { apply eq_None_not_Some. intros ?%(ri_fresh_s _ (ro_inv _ Hy)). lia. }
    assert (Hy1 : rsys_ok (RSys p' (delete l (r_calls y)) (r_finishing y) (r_closing y))).
    { eapply (rsys_keep y); [done|done|done|done|]. eapply owned_stream; [apply Hy|done|done]. }
    destruct He as (_ & _ & HR & Hh & _).
    assert (Hrs : p_routed p' !! p_next (r_pool y) = Some (RoutedStream l false)).
    { by rewrite HR, lookup_insert_eq. }
    destruct (p_closed (r_pool y)) eqn:Hc; simpl in Hex.
    + destruct (start_finish_ok _ Error (RORaised (gw NoHealthyBackendError)) _ _ Hy1 Hrs) as (y2 & Heq & Hy2 & _ & _ & _ & Hh2 & _).
      rewrite Heq in Hex. simplify_eq. split_and!; [done|by right|]. intros le' _. simpl in *. congruence.
    + injection Hex as <- <-. split; [done|]. split; [|by intros le' _].
      split; [done|]. eexists. by split.
  - split_and!; [|by left|].
    + eapply (rsys_keep y); [done|done|done|by apply (health_result_closed _ (bl_slot le) (Some e))|]. by apply owned_answer, Hy.
    + intros le' Hle'. simplify_eq. apply He.
Qed.

Lemma answer_ok_call y l r o y' op :
  rsys_ok y → r_calls y !! l = Some op → op ≠ OpStream → rexec (RvAnswer l r) y = Some (o, y') →
  rsys_ok y' ∧ ranswer_ok y (RvAnswer l r) o y' ∧ health_ok y (RvAnswer l r) y'.
Proof.
  intros Hy Hl Hop Hex. cbn [rexec] in Hex. rewrite Hl in Hex.
  destruct (ow_call _ _ _ _ (ro_owned _ Hy) _ _ Hl) as [le Hle].
  set (y0 := RSys (r_pool y) (delete l (r_calls y)) (r_finishing y) (r_closing y)) in *.
  set (ans := match r with None => inr () | Some e => inl e end) in *.
  assert (Hex' : rfinish y0 (call_end op l ans) (λ _ p,
    (RONone, RSys p (r_calls y0) (r_finishing y0) (r_closing y0))) = (o, y')) by (by destruct op; simplify_eq).
  clear Hex. pose proof (wp_call_end op l le ans (r_pool y) (ro_inv _ Hy) Hle) as Hwp.
  assert (Hr : match ans with inl e => Some e | inr _ => None end = r) by by destruct r.
  rewrite Hr in Hwp. eapply (rfinish_wp y0) in Hex'; [|exact Hwp].
  assert (Hkeep : ∀ p', effect (mark_released l (p_leases (r_pool y))) (p_routed (r_pool y))
      (health_result (r_pool y) (bl_slot le) r) (r_pool y) p' →
    rsys_ok (RSys p' (r_calls y0) (r_finishing y0) (r_closing y0)) ∧
    health_ok y (RvAnswer l r) (RSys p' (r_calls y0) (r_finishing y0) (r_closing y0))).
  { intros p' He. split.
    - eapply (rsys_keep y); [done|done|done|by apply health_result_closed|]. by apply owned_answer, Hy.
    - intros le' Hle'. simplify_eq. apply He. }
  destruct Hex' as [([] & p' & [= <- <-] & Ha & He)|(e & p' & [= <- <-] & Ha & He)];
    destruct (Hkeep _ He) as [Hk1 Hk2]; split_and!; try done; destruct r; simplify_eq/=; auto.
Qed.

Lemma iterated_ok y st r o y' :
  rsys_ok y → rexec (RvIterated st r) y = Some (o, y') →
  rsys_ok y' ∧ ranswer_ok y (RvIterated st r) o y' ∧ health_ok y (RvIterated st r) y'.
Proof.
  intros Hy Hex. cbn [rexec] in Hex. destruct (p_routed (r_pool y) !! st) as [rs|] eqn:Hst; [|done].
  apply (inj Some) in Hex. pose proof (ro_inv _ Hy) as Hi.
  destruct (ri_routed _ Hi _ _ Hst) as [le Hle].
  assert (Hwp : wp (iterate_end st r) (λ _ p', effect (p_leases (r_pool y)) (p_routed (r_pool y))
    (health_result (r_pool y) (bl_slot le) r) (r_pool y) p') (λ _ _, False) (r_pool y)).
  { unfold iterate_end, lease_of. do 3 wp_step. eapply wp_unwrap; [done|]. do 3 wp_step.
    eapply wp_unwrap; [done|]. assert (Hid : ∀ h, h = health (r_pool y) →
      effect (p_leases (r_pool y)) (p_routed (r_pool y)) h (r_pool y) (r_pool y)) by (by intros h ->; split_and!).
    destruct r as [e|]; [|wp_step; by apply Hid]. simpl.
    destruct (health_impacting e) eqn:Hhi.
    - assert (e ≠ CancelledError) by by intros ->. destruct e; try done; wp_step; unfold mark_unhealthy.
      all: apply wp_set_health; [done|by eapply lease_slot|]; intros p1 He; wp_step; exact He.
    - destruct e; try (wp_step; by apply Hid); destruct (is_exception _); wp_step; by apply Hid. }
  eapply rfinish_wp in Hex; [|exact Hwp]. destruct Hex as [(out & p' & Hex & He)|(e & p' & _ & [])].
  assert (Hy1 : rsys_ok (RSys p' (r_calls y) (r_finishing y) (r_closing y))).
  { eapply (rsys_keep y); [done|done|done|by apply health_result_closed|apply Hy]. }
  destruct He as (_ & _ & HR & Hh & _). assert (Hst' : p_routed p' !! st = Some rs) by by rewrite HR.
  destruct (start_finish_ok _ out RONone _ _ Hy1 Hst') as (y2 & Heq & Hy2 & _ & _ & _ & Hh2 & _).
  rewrite Heq in Hex. simplify_eq. split_and!; [done|done|]. intros rs' le' ? ?. simpl in *. congruence.
Qed.

Lemma stream_closed_ok y st r o y' :
  rsys_ok y → rexec (RvStreamClosed st r) y = Some (o, y') →
  rsys_ok y' ∧ ranswer_ok y (RvStreamClosed st r) o y' ∧ health_ok y (RvStreamClosed st r) y'.
Proof.
  intros Hy Hex. cbn [rexec] in Hex. destruct (r_finishing y !! st) as [out|] eqn:Hf; [|done].
  apply (inj Some) in Hex. destruct (ow_fin _ _ _ _ (ro_owned _ Hy) _ _ Hf) as (rs & Hst & _).
  pose proof (wp_finish_end st rs out r _ (ro_inv _ Hy) Hst) as Hwp.
  set (y0 := RSys (r_pool y) (r_calls y) (delete st (r_finishing y)) (r_closing y)) in *.
  eapply (rfinish_wp y0) in Hex; [|exact Hwp].
  destruct Hex as [([] & p' & [= <- <-] & -> & He)|(e & p' & [= <- <-] & -> & He)].
  all: split_and!; [|done|apply He].
  all: eapply (rsys_keep y); [done|done|done|done|]; by eapply owned_finished; [apply Hy|].
Qed.

(** Methods that leave leases and streams alone. *)
Lemma inert_ok y (m : rt unit) h :
  rsys_ok y → (p_closed (r_pool y) = true → h = health (r_pool y)) →
  wp m (λ _ p', effect (p_leases (r_pool y)) (p_routed (r_pool y)) h (r_pool y) p') (λ _ _, False) (r_pool y) →
  ∃ y', rfinish y m (λ _ p, (RONone, RSys p (r_calls y) (r_finishing y) (r_closing y))) = (RONone, y') ∧
    rsys_ok y' ∧ health (r_pool y') = h.
Proof.
  intros Hy Hh Hwp. destruct (rfinish y m _) as [o y'] eqn:Hex. eapply rfinish_wp in Hex; [|exact Hwp].
  destruct Hex as [(? & p' & [= <- <-] & He)|(e & p' & _ & [])]. eexists. split; [done|].
  split; [|apply He]. eapply (rsys_keep y); [done|done|done|done|apply Hy].
Qed.

Lemma inert_sys y p' :
  rsys_ok y → inert (r_pool y) p' → rsys_ok (RSys p' (r_calls y) (r_finishing y) (r_closing y)).
Proof. intros Hy He. eapply (rsys_keep y); [done|done|done|done|apply Hy]. Qed.

Lemma close_ok y o y' :
  rsys_ok y → rexec RvClose y = Some (o, y') →
  rsys_ok y' ∧ ranswer_ok y RvClose o y' ∧ health_ok y RvClose y'.
Proof.
  intros Hy Hex. cbn [rexec] in Hex. destruct (r_closing y) eqn:Hcl; [done|].
  apply (inj Some) in Hex. unfold rfinish, close_begin, bind, get in Hex.
  destruct (p_closed (r_pool y)) eqn:Hc; injection Hex as <- <-; split_and!; try done.
  - destruct y; simpl in *; subst; done.
  - constructor; simpl; [|apply Hy| |done].
    + destruct (ro_inv _ Hy). by constructor.
    + intros ls sts [= <- <-]. split_and!; [done|..].
      * intros l Hin%elem_of_elements%(ri_active _ (ro_inv _ Hy)). destruct Hin as (le & ? & _). eauto.
      * intros l le Hl Hr. apply elem_of_elements, (ri_active _ (ro_inv _ Hy)). eauto.
Qed.

Lemma closed_ok y o y' :
  rsys_ok y → rexec RvClosed y = Some (o, y') →
  rsys_ok y' ∧ ranswer_ok y RvClosed o y' ∧ health_ok y RvClosed y' ∧
  all_released (p_leases (r_pool y')) ∧ p_closed (r_pool y') = true ∧ r_closing y' = None.
Proof.
  intros Hy Hex. cbn [rexec] in Hex. destruct (r_closing y) as [[ls sts]|] eqn:Hcl; [|done].
  destruct (forallb _ _); [|done]. apply (inj Some) in Hex.
  destruct (ro_closing _ Hy _ _ Hcl) as (Hc & Hs & Hin).
  set (y0 := RSys (r_pool y) (r_calls y) (r_finishing y) None) in *.
  eapply (rfinish_wp y0) in Hex; [|exact (wp_close_end ls _ (ro_inv _ Hy) Hs)].
  destruct Hex as [([] & p' & [= <- <-] & He)|(e & p' & _ & [])].
  pose proof (effect_length _ _ _ _ _ He) as Hlen. destruct He as (Hi & HL & HR & Hh & Hcc & _).
  assert (Hall : all_released (p_leases p')).
  { intros l le. rewrite HL. intros Hl. destruct (bl_released le) eqn:Hr; [done|].
    destruct (mark_all_live _ _ _ _ Hl Hr) as [Hno Hl']. by destruct (Hno (Hin _ _ Hl' Hr)). }
  split_and!; try done; [|simpl in *; congruence].
  constructor; simpl; [done| |done|by rewrite Hlen]. rewrite HL, HR. apply owned_all, Hy.
Qed.

Lemma rsys_step y ev o y' :
  rsys_ok y → rexec ev y = Some (o, y') → rsys_ok y' ∧ ranswer_ok y ev o y' ∧ health_ok y ev y'.
Proof.
  intros Hy Hex. pose proof (ro_inv _ Hy) as Hi.
  assert (Hinert : ∀ p', inert (r_pool y) p' → effect (p_leases (r_pool y)) (p_routed (r_pool y))
    (health (r_pool y)) (r_pool y) p') by done.
  destruct ev as [op n|l r|st r|st|st r| | |i b| | |b].
  - by apply call_ok.
  - destruct (r_calls y !! l) as [op|] eqn:Hl; [|cbn [rexec] in Hex; by rewrite Hl in Hex].
    destruct (decide (op = OpStream)) as [->|]; [by apply answer_ok_stream|by eapply answer_ok_call].
  - by apply iterated_ok.
  - cbn [rexec] in Hex. destruct (p_routed (r_pool y) !! st) as [rs|] eqn:Hst; [|done].
    destruct (start_finish_ok _ Cancelled RONone _ _ Hy Hst) as (y2 & Heq & Hy2 & _ & _ & _ & Hh & _).
    rewrite Heq in Hex. by simplify_eq.
  - by apply stream_closed_ok.
  - cbn [rexec] in Hex. apply (inj Some) in Hex. destruct (p_closed (r_pool y)) eqn:Hc.
    { unfold rfinish, pool_start, bind, get in Hex. rewrite Hc in Hex. injection Hex as <- <-.
      split_and!; [by destruct y|done|done]. }
    eapply (rfinish_wp _ _ (λ _ p', inert (r_pool y) p') (λ _ _, False)) in Hex.
    + destruct Hex as [(? & p' & [= <- <-] & He)|(e & p' & _ & [])].
      split_and!; [by eapply inert_sys|done|apply He].
    + unfold pool_start. do 2 wp_step. rewrite Hc. destruct (p_started _); wp_steps; [done|].
      apply same_core_inert; [done|by constructor|done].
  - cbn [rexec] in Hex. destruct (p_started _); [|done]. apply (inj Some) in Hex.
    destruct (inert_ok y start_probing (health (r_pool y))) as (y2 & Heq & ? & ?); [done|done| |].
    { apply wp_modify. case_match; [|done]. apply same_core_inert; [done|by constructor|done]. }
    rewrite Heq in Hex. by simplify_eq.
  - cbn [rexec] in Hex. destruct (p_slots (r_pool y) !! i) as [s|] eqn:Hs; [|done].
    destruct (inert_ok y (set_health i b) (health_after (r_pool y) i b)) as (y2 & Heq & ? & ?); [done| | |].
    { unfold health_after. by intros ->. }
    { apply wp_set_health; [done|by eapply lookup_lt_Some|done]. }
    rewrite Heq in Hex. by simplify_eq.
  - by apply close_ok.
  - destruct (closed_ok _ _ _ Hy Hex) as (?&?&?&_). by split_and!.
  - cbn [rexec] in Hex. apply (inj Some) in Hex.
    destruct (inert_ok y (set_pool_observer b) (health (r_pool y))) as (y2 & Heq & ? & ?); [done|done| |].
    { unfold set_pool_observer. do 2 wp_step.
      assert (Hob : inert (r_pool y) (with_observer (λ _, b) (r_pool y))).
      { apply same_core_inert; [done|by constructor|done]. }
      apply wp_notify_inert; [apply Hob|]. intros p' Hin. eapply effect_inert; [exact Hob|exact Hin]. }
    rewrite Heq in Hex. by simplify_eq.
Qed.

(** * A closed pool stays closed *)

Definition keeps_closed {A} (m : rt A) : Prop :=
  ∀ p, p_closed p = true → p_closed (m p).2 = true.

Section keeps_closed.
Lemma kc_ret {A} (a : A) : keeps_closed (ret a).
Proof. by intros p. Qed.
Lemma kc_raise {A} e : keeps_closed (@raise pool exn A e).
Proof. by intros p. Qed.
Lemma kc_get : keeps_closed get.
Proof. by intros p. Qed.
Lemma kc_unwrap {A} e (o : option A) : keeps_closed (unwrap e o).
Proof. by destruct o; intros p. Qed.
Lemma kc_modify f : (∀ p, p_closed p = true → p_closed (f p) = true) → keeps_closed (modify f).
Proof. intros Hf p. apply Hf. Qed.
Lemma kc_bind {A B} (m : rt A) (k : A → rt B) :
  keeps_closed m → (∀ a, keeps_closed (k a)) → keeps_closed (bind m k).
Proof. intros Hm Hk p Hp. unfold bind. specialize (Hm p Hp). destruct (m p) as [[e|a] p']; [done|by apply Hk]. Qed.
Lemma kc_finally {A} (m : rt A) f : keeps_closed m → keeps_closed f → keeps_closed (finally m f).
Proof.
  intros Hm Hf p Hp. unfold finally. specialize (Hm p Hp). destruct (m p) as [r p'].
  specialize (Hf p' Hm). by destruct (f p') as [[e|?] p''].
Qed.
End keeps_closed.

Create HintDb closed.
#[export] Hint Resolve kc_ret kc_raise kc_get kc_unwrap kc_bind kc_finally : closed.

(** Symbolic execution of a method for [keeps_closed]. *)
Ltac kc :=
  repeat first
    [ apply kc_bind; [|intros ?] | apply kc_finally | apply kc_ret | apply kc_raise | apply kc_get
    | apply kc_unwrap | solve [eauto with closed]
    | apply kc_modify; intros ? ?; simpl; repeat case_match; done
    | match goal with |- keeps_closed (match ?x with _ => _ end) => destruct x end ].

Lemma kc_notify : keeps_closed notify_pool.
Proof. unfold notify_pool. kc. Qed.
Lemma kc_observe i op out : keeps_closed (observe_operation i op out).
Proof. unfold observe_operation. kc. Qed.
#[export] Hint Resolve kc_notify kc_observe : closed.
Lemma kc_set_health i b : keeps_closed (set_health i b).
Proof. unfold set_health. kc. Qed.
Lemma kc_release l : keeps_closed (release_lease l).
Proof. unfold release_lease. kc. Qed.
#[export] Hint Resolve kc_set_health kc_release : closed.
Lemma kc_select w : keeps_closed (select w).
Proof. unfold select. kc. Qed.
Lemma kc_call_end {A} op l (r : exn + A) : keeps_closed (call_end op l r).
Proof. unfold call_end, lease_of, mark_unhealthy. kc. Qed.
Lemma kc_open_end l r : keeps_closed (open_end l r).
Proof. unfold open_end, lease_of, mark_unhealthy, register_stream. kc. Qed.
Lemma kc_finish_begin st : keeps_closed (finish_begin st).
Proof. unfold finish_begin. kc. Qed.
Lemma kc_finish_end st out r : keeps_closed (finish_end st out r).
Proof. unfold finish_end, lease_of, unregister_stream. kc. Qed.
Lemma kc_iterate_end st r : keeps_closed (iterate_end st r).
Proof. unfold iterate_end, lease_of, mark_unhealthy. kc. Qed.
Lemma kc_release_all ls : keeps_closed (release_all ls).
Proof.
  induction ls as [|l ls IH]; [apply kc_ret|]. intros p Hp. simpl.
  pose proof (kc_release l p Hp) as H1. destruct (release_lease l p) as [r p1].
  specialize (IH p1 H1). by destruct (release_all ls p1) as [r' p2].
Qed.
#[export] Hint Resolve kc_select kc_call_end kc_open_end kc_finish_begin kc_finish_end
  kc_iterate_end kc_release_all : closed.

Definition shut_down (y : rsys) : Prop := p_closed (r_pool y) = true ∧ r_closing y = None.

Lemma rfinish_shut {A} y (m : rt A) k :
  keeps_closed m → shut_down y → (∀ a p, p_closed p = true → shut_down (k a p).2) →
  shut_down (rfinish y m k).2.
Proof.
  intros Hm [Hc Hn] Hk. unfold rfinish. specialize (Hm _ Hc).
  destruct (m (r_pool y)) as [[e|a] p]; [done|by apply Hk].
Qed.

Lemma start_finish_shut st out o y : shut_down y → shut_down (start_finish st out o y).2.
Proof. intros Hy. apply rfinish_shut; [eauto with closed|done|]. intros b p Hp. split; [done|apply Hy]. Qed.

Lemma shut_step y ev o y' : shut_down y → rexec ev y = Some (o, y') → shut_down y'.
Proof.
  intros Hy. assert (Hf : ∀ {A} (m : rt A) k (y0 : rsys), keeps_closed m → shut_down y0 →
    (∀ a p, p_closed p = true → shut_down (k a p).2) → Some (rfinish y0 m k) = Some (o, y') → shut_down y').
  { intros A m k y0 Hm Hy0 Hk [= Heq]. pose proof (rfinish_shut y0 m k Hm Hy0 Hk) as Hs. by rewrite Heq in Hs. }
  assert (Hr : ∀ p C F, p_closed p = true → shut_down (RSys p C F (r_closing y))).
  { intros p C F Hp. split; [done|apply Hy]. }
  pose proof Hy as [Hc Hn]. destruct ev as [op n|l r|st r|st|st r| | |i b| | |b]; cbn [rexec].
  - destruct (n <? 0); [done|]. apply Hf; [|done|by intros; apply Hr].
    destruct op; unfold generate_begin, batch_begin; kc.
  - destruct (r_calls y !! l) as [op|]; [|done]. destruct op.
    1,3: apply Hf; [eauto with closed|by apply Hr|by intros; apply Hr].
    apply Hf; [eauto with closed|by apply Hr|]. intros [st reg] p Hp. destruct reg; [by apply Hr|].
    by apply start_finish_shut, Hr.
  - destruct (p_routed _ !! st); [|done]. apply Hf; [eauto with closed|done|].
    intros out p Hp. by apply start_finish_shut, Hr.
  - destruct (p_routed _ !! st); [|done]. intros [= Heq].
    pose proof (start_finish_shut st Cancelled RONone y Hy) as Hs. by rewrite Heq in Hs.
  - destruct (r_finishing y !! st); [|done]. apply Hf; [eauto with closed|by apply Hr|by intros; apply Hr].
  - apply Hf; [unfold pool_start; kc|done|by intros; apply Hr].
  - destruct (p_started _); [|done]. apply Hf; [unfold start_probing; kc|done|by intros; apply Hr].
  - destruct (p_slots _ !! i); [|done]. apply Hf; [eauto with closed|done|by intros; apply Hr].
  - rewrite Hn. unfold rfinish, close_begin, bind, get. rewrite Hc. by intros [= <- <-].
  - by rewrite Hn.
  - apply Hf; [unfold set_pool_observer; kc|done|by intros; apply Hr].
Qed.

Lemma shut_run y evs y' :
  rsys_ok y → p_closed (r_pool y) = true → r_closing y = None → rrun evs y = Some y' →
  rsys_ok y' ∧ p_closed (r_pool y') = true ∧ r_closing y' = None.
Proof.
  revert y. induction evs as [|ev evs IH]; intros y Hy Hc Hn; simpl; [by intros [= <-]|].
  destruct (rexec ev y) as [[o y1]|] eqn:He; [|done]. intros Hrun.
  destruct (rsys_step _ _ _ _ Hy He) as [Hy1 _].
  destruct (shut_step _ _ _ _ (conj Hc Hn) He) as [Hc1 Hn1]. by apply (IH y1).
Qed.
