(* ===== verification/RoutingTheorems.v ===== *)
(** What the backend pool guarantees in every reachable state. *)
From S2P Require Import Prelude.
From S2P Require Import Python.
From S2P Require Import Errors.
From S2P Require Import Routing.
From S2P Require Import RoutingInv.
From S2P Require Import RoutingSystem.

Lemma rsys_reachable ids interval timeout ob p0 y :
  pool_init ids interval timeout ob = inr p0 → rreachable p0 y → rsys_ok y.
Proof.
  intros Hinit. induction 1 as [|y ev o y' Hr IH Hex].
  - destruct (pool_init_ok _ _ _ _ _ Hinit) as (Hi & Hc & Hl & Hr & _).
    constructor; simpl; [done| |done|congruence]. constructor; rewrite ?Hl, ?Hr; try done; by intros [].
  - by eapply rsys_step.
Qed.

Lemma rrun_reachable p0 evs y y' : rreachable p0 y → rrun evs y = Some y' → rreachable p0 y'.
Proof.
  revert y. induction evs as [|ev evs IH]; intros y Hr; simpl; [by intros [= <-]|].
  destruct (rexec ev y) as [[o y1]|] eqn:He; [|done]. intros Hrun.
  eapply (IH y1); [|done]. by eapply rreachable_step.
Qed.

(** Once every lease is released no slot carries anything. *)
Lemma released_idle p i s :
  rinv p → all_released (p_leases p) → p_slots p !! i = Some s → sl_inflight s = 0.
Proof.
  intros Hi Hall Hs. rewrite (ri_inflight _ Hi _ _ Hs). apply sum_map_zero. intros l le Hl.
  unfold weight_on. rewrite decide_False; [done|]. intros [_ Hr]. by rewrite (Hall _ _ Hl) in Hr.
Qed.

(** Nothing is in flight when no operation is, and no stream is open or being closed. *)
Lemma rsys_idle y :
  rsys_ok y → r_calls y = ∅ → r_finishing y = ∅ →
  (∀ st rs, p_routed (r_pool y) !! st = Some rs → rs_closed rs = true) →
  ∀ i s, p_slots (r_pool y) !! i = Some s → sl_inflight s = 0.
Proof.
  intros Hy Hc Hf Hst i s. apply released_idle; [apply Hy|]. intros l le Hl.
  destruct (bl_released le) eqn:Hrel; [done|].
  destruct (ow_owner _ _ _ _ (ro_owned _ Hy) _ _ Hl Hrel) as [[op Ho]|(st & rs & Hrs & _ & [?|[? Ho]])].
  - by rewrite Hc in Ho.
  - by rewrite (Hst _ _ Hrs) in *.
  - by rewrite Hf in Ho.
Qed.

(** * A small pool for the concrete runs *)

Definition demo_pool : pool :=
  match pool_init ["b0"%py; "b1"%py] 1 1 true with
  | inr p => p
  | inl _ => Pool [] 0 ∅ ∅ false false false false ∅ ∅ 0 []
  end.
Definition demo_rstart : rsys := RSys demo_pool ∅ ∅ None.
Definition rdemo (evs : list revent) : rsys := default demo_rstart (rrun evs demo_rstart).

Lemma demo_pool_init : pool_init ["b0"%py; "b1"%py] 1 1 true = inr demo_pool.
Proof. reflexivity. Qed.

Lemma rdemo_reachable evs : is_Some (rrun evs demo_rstart) → rreachable demo_pool (rdemo evs).
Proof.
  intros [y Hy]. unfold rdemo. rewrite Hy. by eapply rrun_reachable; [constructor|].
Qed.

(** Both backends are healthy; a batch of three runs on the first. *)
Definition loaded_events : list revent := [RvHealth 0 true; RvHealth 1 true; RvCall OpBatch 3].

(** C15: A call is assigned to the backend that least-inflight selection prescribes:
    a healthy one, with the least weight in flight among the healthy ones, the
    first of those from the cursor on; there is exactly one such backend, and
    the lease carries the number of requests of the call. *)
Theorem pool_selects_best ids interval timeout ob p0 y op n l y' :
  pool_init ids interval timeout ob = inr p0 → rreachable p0 y →
  rexec (RvCall op n) y = Some (ROLease l, y') →
  ∃ i, best (r_pool y) i ∧ (∀ j, best (r_pool y) j → j = i) ∧
    p_leases (r_pool y) !! l = None ∧
    p_leases (r_pool y') !! l = Some (BackendLease i (match op with OpBatch => n | _ => 1 end) false).
Proof.
  intros Hinit Hr Hex. pose proof (rsys_reachable _ _ _ _ _ _ Hinit Hr) as Hy.
  destruct (rsys_step _ _ _ _ Hy Hex) as (_ & (_ & Hn & i & Hb & Hl) & _).
  exists i. split_and!; [done| |done|done]. intros j Hj. by apply (best_unique (r_pool y)); [apply Hy|..].
Qed.

Lemma pool_selects_best_witness :
  ∃ l y' i, rexec (RvCall OpGenerate 1) (rdemo loaded_events) = Some (ROLease l, y') ∧
    best (r_pool (rdemo loaded_events)) i ∧ i = 1%nat.
Proof.
  assert (Hr : rreachable demo_pool (rdemo loaded_events)).
  { apply rdemo_reachable. vm_compute. by eexists. }
  destruct (rexec (RvCall OpGenerate 1) (rdemo loaded_events)) as [[[l| | |] y']|] eqn:He;
    try (vm_compute in He; discriminate He).
  destruct (pool_selects_best _ _ _ _ _ _ _ _ _ _ demo_pool_init Hr He) as (i & Hb & _ & _ & Hl).
  exists l, y', i. split; [reflexivity|]. split; [exact Hb|].
  vm_compute in He. injection He as <- <-. vm_compute in Hl. by injection Hl.
Defined.

(** C30: Every event of the pool answers as it should.  A call is refused only when
    no healthy backend is routable, or as an empty batch; an operation ends with
    exactly what its backend answered, except that a stream that opens after the
    pool was closed is refused; no internal error (accounting, missing entry,
    failed search) can occur. *)
Theorem pool_answers ids interval timeout ob p0 y ev o y' :
  pool_init ids interval timeout ob = inr p0 → rreachable p0 y → rexec ev y = Some (o, y') →
  ranswer_ok y ev o y'.
Proof. intros Hinit Hr Hex. eapply rsys_step; [|exact Hex]. by eapply rsys_reachable. Qed.

Lemma pool_answers_witness :
  ∃ o y', rexec (RvAnswer 0 (Some (gw BackendTimeoutError))) (rdemo loaded_events) = Some (o, y') ∧
    ranswer_ok (rdemo loaded_events) (RvAnswer 0 (Some (gw BackendTimeoutError))) o y'.
Proof.
  assert (Hr : rreachable demo_pool (rdemo loaded_events)).
  { apply rdemo_reachable. vm_compute. by eexists. }
  destruct (rexec (RvAnswer 0 (Some (gw BackendTimeoutError))) (rdemo loaded_events)) as [[o y']|] eqn:He;
    [|vm_compute in He; discriminate He].
  exists o, y'. split; [reflexivity|].
  exact (pool_answers _ _ _ _ _ _ _ _ _ demo_pool_init Hr He).
Defined.

(** Who has the lease [l]: the call of a backend with it, or a stream that is open or being
    closed. *)
Inductive owner := ByCall (op : operation) | ByStream (st : nat).
Definition lease_owner (y : rsys) (l : nat) (w : owner) : Prop :=
  match w with
  | ByCall op => r_calls y !! l = Some op
  | ByStream st => ∃ rs, p_routed (r_pool y) !! st = Some rs ∧ rs_lease rs = l ∧
      (rs_closed rs = false ∨ is_Some (r_finishing y !! st))
  end.
Lemma unreleased_owner y l le : rsys_ok y → p_leases (r_pool y) !! l = Some le → bl_released le = false →
  ∃ w, lease_owner y l w ∧ ∀ w', lease_owner y l w' → w' = w.
Proof.
  intros Hy Hl Hrel. pose proof (ro_owned _ Hy) as Ho.
  destruct (ow_owner _ _ _ _ Ho _ _ Hl Hrel) as [[op Hop]|(st & rs & Hst & Hls & Hor)].
  - exists (ByCall op). split; [done|]. intros [op'|st] Hw; [simpl in *; congruence|]. destruct Hw as (rs & Hst & Hls & _).
    by destruct (ow_excl _ _ _ _ Ho _ _ _ _ Hop Hst).
  - exists (ByStream st). split; [by exists rs|]. intros [op|st'] Hw; simpl in Hw.
    + by destruct (ow_excl _ _ _ _ Ho _ _ _ _ Hw Hst).
    + destruct Hw as (rs' & Hst' & Hls' & _). f_equal. eapply (ow_inj _ _ _ _ Ho); [done..|congruence].
Qed.

(** C13: A backend's inflight number is the weight of its unreleased leases, and
    every unreleased lease has exactly one owner: an operation in flight, or a stream that
    is open or being closed; when there are none of these, nothing is in flight. *)
Theorem pool_accounting ids interval timeout ob p0 y :
  pool_init ids interval timeout ob = inr p0 → rreachable p0 y →
  (∀ i s, p_slots (r_pool y) !! i = Some s →
     sl_inflight s = sum_map (weight_on i) (p_leases (r_pool y)) ∧ 0 ≤ sl_inflight s) ∧
  (∀ l le, p_leases (r_pool y) !! l = Some le → bl_released le = false →
     ∃ w, lease_owner y l w ∧ ∀ w', lease_owner y l w' → w' = w) ∧
  (r_calls y = ∅ → r_finishing y = ∅ →
   (∀ st rs, p_routed (r_pool y) !! st = Some rs → rs_closed rs = true) →
   ∀ i s, p_slots (r_pool y) !! i = Some s → sl_inflight s = 0).
Proof.
  intros Hinit Hr. pose proof (rsys_reachable _ _ _ _ _ _ Hinit Hr) as Hy.
  pose proof (ro_inv _ Hy) as Hi. split_and!.
  - intros i s Hs. rewrite (ri_inflight _ Hi _ _ Hs). split; [done|]. apply sum_map_nonneg.
    intros l le Hl. by eapply weight_nonneg.
  - intros l le Hl Hrel. by eapply unreleased_owner.
  - by apply rsys_idle.
Qed.

(** A stream is opened, read to its end and closed. *)
Definition streamed_events : list revent :=
  [RvHealth 0 true; RvCall OpStream 1; RvAnswer 0 None; RvIterated 1 None; RvStreamClosed 1 None].

Lemma pool_accounting_witness :
  ∃ s, p_slots (r_pool (rdemo streamed_events)) !! 0%nat = Some s ∧ sl_inflight s = 0.
Proof.
  assert (Hr : rreachable demo_pool (rdemo streamed_events)).
  { apply rdemo_reachable. vm_compute. by eexists. }
  destruct (p_slots (r_pool (rdemo streamed_events)) !! 0%nat) as [s|] eqn:Hs;
    [|vm_compute in Hs; discriminate Hs].
  exists s. split; [reflexivity|].
  refine (proj2 (proj2 (pool_accounting _ _ _ _ _ _ demo_pool_init Hr)) _ _ _ 0%nat s Hs);
    [by vm_compute..|].
  assert (Hc : map_Forall (λ _ rs, rs_closed rs = true) (p_routed (r_pool (rdemo streamed_events)))).
  { apply (bool_decide_unpack _). vm_compute. exact I. }
  exact Hc.
Defined.

(** An event changes the backends' health as the code means it: an operation or
    stream that fails with an error that impacts health makes its backend
    unhealthy, other outcomes do not; a probe sets its backend's health; closing
    makes every backend unhealthy; a closed pool never changes health again. *)
Theorem pool_health ids interval timeout ob p0 y ev o y' :
  pool_init ids interval timeout ob = inr p0 → rreachable p0 y → rexec ev y = Some (o, y') →
  health_ok y ev y'.
Proof. intros Hinit Hr Hex. eapply rsys_step; [|exact Hex]. by eapply rsys_reachable. Qed.

Lemma pool_health_witness :
  ∃ o y', rexec (RvAnswer 0 (Some (gw BackendTimeoutError))) (rdemo loaded_events) = Some (o, y') ∧
    health (r_pool y') = [Some false; Some true].
Proof.
  assert (Hr : rreachable demo_pool (rdemo loaded_events)).
  { apply rdemo_reachable. vm_compute. by eexists. }
  destruct (rexec (RvAnswer 0 (Some (gw BackendTimeoutError))) (rdemo loaded_events)) as [[o y']|] eqn:He;
    [|vm_compute in He; discriminate He].
  exists o, y'. split; [reflexivity|].
  destruct (p_leases (r_pool (rdemo loaded_events)) !! 0%nat) as [le|] eqn:Hl;
    [|vm_compute in Hl; discriminate Hl].
  rewrite (pool_health _ _ _ _ _ _ _ _ _ demo_pool_init Hr He le Hl).
  vm_compute in Hl. injection Hl as <-. vm_compute. reflexivity.
Defined.

(** C31: Closing is final: from the moment it completes, whatever happens next, no
    backend is routable or healthy, nothing is in flight, and every call is
    refused. *)
Theorem pool_close ids interval timeout ob p0 y o y1 evs y2 :
  pool_init ids interval timeout ob = inr p0 → rreachable p0 y →
  rexec RvClosed y = Some (o, y1) → rrun evs y1 = Some y2 →
  is_routable (r_pool y2) = false ∧ all_released (p_leases (r_pool y2)) ∧
  (∀ i s, p_slots (r_pool y2) !! i = Some s → sl_inflight s = 0 ∧ sl_healthy s = Some false) ∧
  ∀ op n l y3, rexec (RvCall op n) y2 ≠ Some (ROLease l, y3).
Proof.
  intros Hinit Hr Hex Hrun. pose proof (rsys_reachable _ _ _ _ _ _ Hinit Hr) as Hy.
  destruct (closed_ok _ _ _ Hy Hex) as (Hy1 & _ & _ & _ & Hc1 & Hn1).
  destruct (shut_run _ _ _ Hy1 Hc1 Hn1 Hrun) as (Hy2 & Hc2 & Hn2).
  destruct (ro_shut _ Hy2 Hc2 Hn2) as [Hall Hh].
  assert (Hnr : is_routable (r_pool y2) = false) by (unfold is_routable; by rewrite Hc2).
  split_and!; [done|done|..].
  - intros i s Hs. split; [by eapply released_idle; [apply Hy2|..]|].
    assert (health (r_pool y2) !! i = Some (sl_healthy s)) as Hi by (unfold health; by rewrite list_lookup_fmap, Hs).
    rewrite Hh in Hi. by apply lookup_replicate in Hi as [-> _].
  - intros op n l y3 Hcall. destruct (rsys_step _ _ _ _ Hy2 Hcall) as (_ & (Hrt & _) & _). congruence.
Qed.

Lemma pool_close_witness :
  ∃ o y1 y2, rexec RvClosed (rdemo (loaded_events ++ [RvClose])) = Some (o, y1) ∧
    rrun [RvAnswer 0 None; RvHealth 0 true] y1 = Some y2 ∧ is_routable (r_pool y2) = false.
Proof.
  assert (Hr : rreachable demo_pool (rdemo (loaded_events ++ [RvClose]))).
  { apply rdemo_reachable. vm_compute. by eexists. }
  destruct (rexec RvClosed (rdemo (loaded_events ++ [RvClose]))) as [[o y1]|] eqn:He;
    [|vm_compute in He; discriminate He].
  destruct (rrun [RvAnswer 0 None; RvHealth 0 true] y1) as [y2|] eqn:Hrun.
  2:{ vm_compute in He. injection He as <- <-. vm_compute in Hrun. discriminate Hrun. }
  exists o, y1, y2. split; [reflexivity|]. split; [exact Hrun|].
  exact (proj1 (pool_close _ _ _ _ _ _ _ _ _ _ demo_pool_init Hr He Hrun)).
Defined.
