(* ===== verification/Json.v ===== *)
(** The [json.dumps] of Python's standard library on the values the gateway
    canonicalises, with [separators=(",", ":")] and [ensure_ascii=False], and the
    proof that equal texts come from equal values. *)
From Stdlib Require Import SpecFloat DecimalZ DecimalPos.
From S2P Require Import Prelude.
From S2P Require Import Python.

(** * Numbers *)

Fixpoint digits (u : Decimal.uint) : list N :=
  match u with
  | Decimal.Nil => []
  | Decimal.D0 u => 48%N :: digits u
  | Decimal.D1 u => 49%N :: digits u
  | Decimal.D2 u => 50%N :: digits u
  | Decimal.D3 u => 51%N :: digits u
  | Decimal.D4 u => 52%N :: digits u
  | Decimal.D5 u => 53%N :: digits u
  | Decimal.D6 u => 54%N :: digits u
  | Decimal.D7 u => 55%N :: digits u
  | Decimal.D8 u => 56%N :: digits u
  | Decimal.D9 u => 57%N :: digits u
  end.

(** [int.__repr__]. *)
Definition int_repr (z : Z) : list N :=
  match Z.to_int z with
  | Decimal.Pos u => digits u
  | Decimal.Neg u => 45%N :: digits u
  end.

Definition is_finite (f : spec_float) : bool :=
  match f with S754_zero _ | S754_finite _ _ _ => true | _ => false end.

(** The characters of a number: digits, sign, point and exponent. *)
Definition digit_char (c : N) : bool := ((48 <=? c) && (c <=? 57))%N.
Definition num_char (c : N) : bool :=
  (digit_char c || (c =? 43) || (c =? 45) || (c =? 46) || (c =? 101))%N.

(** [float.__repr__] is the interpreter's; what is documented of it: the shortest
    text that reads back as the same float, always with a point or an exponent,
    so that it never looks like an [int]. *)
Class FloatRepr := {
  float_repr : spec_float → list N;
  float_repr_chars f : is_finite f = true →
    float_repr f ≠ [] ∧ Forall (λ c, num_char c = true) (float_repr f);
  float_repr_point f : is_finite f = true → 46%N ∈ float_repr f ∨ 101%N ∈ float_repr f;
  float_repr_inj f g : is_finite f = true → is_finite g = true →
    float_repr f = float_repr g → f = g;
}.

(** * Strings *)

(** [json.encoder.ESCAPE_DCT]: quotes, backslashes and control characters. *)
Definition hex_digit (n : N) : N := (if n <? 10 then 48 + n else 87 + n)%N.
Definition escape_char (c : N) : list N :=
  (if c =? 34 then [92; 34]
   else if c =? 92 then [92; 92]
   else if c =? 10 then [92; 110]
   else if c =? 13 then [92; 114]
   else if c =? 9 then [92; 116]
   else if c =? 12 then [92; 102]
   else if c =? 8 then [92; 98]
   else if c <? 32 then [92; 117; 48; 48; hex_digit (c / 16); hex_digit (c mod 16)]
   else [c])%N.
Definition json_string (s : pystr) : list N := 34%N :: (codes s ≫= escape_char) ++ [34%N].

(** The same with [ensure_ascii=True]: every character outside of the printable ASCII
    ones is escaped, those beyond 16 bits as a pair of surrogates. *)
Definition hex4 (n : N) : list N :=
  [92; 117; hex_digit (n / 4096 mod 16); hex_digit (n / 256 mod 16); hex_digit (n / 16 mod 16); hex_digit (n mod 16)]%N.
Definition escape_ascii (c : N) : list N :=
  (if (c =? 34) || (c =? 92) || (c =? 10) || (c =? 13) || (c =? 9) || (c =? 12) || (c =? 8) then escape_char c
   else if (32 <=? c) && (c <=? 126) then [c]
   else if c <? 65536 then hex4 c
   else hex4 (55296 + (c - 65536) / 1024 mod 1024) ++ hex4 (56320 + (c - 65536) mod 1024))%N.
Definition json_ascii_string (s : pystr) : list N := 34%N :: (codes s ≫= escape_ascii) ++ [34%N].

(** * Values *)

Fixpoint intersperse (sep : N) (ls : list (list N)) : list N :=
  match ls with
  | [] => []
  | [l] => l
  | l :: ls => l ++ sep :: intersperse sep ls
  end.

Section encode.
Context `{FloatRepr}.

(** The encoder of strings, that of [ensure_ascii]. *)
Variable encode_string : pystr → list N.

Definition json_float (f : spec_float) : list N :=
  match f with
  | S754_nan => [78; 97; 78]
  | S754_infinity false => [73; 110; 102; 105; 110; 105; 116; 121]
  | S754_infinity true => [45; 73; 110; 102; 105; 110; 105; 116; 121]
  | _ => float_repr f
  end%N.

Fixpoint json_encode_with (v : pyval) : list N :=
  match v with
  | VNone => [110; 117; 108; 108]
  | VBool true => [116; 114; 117; 101]
  | VBool false => [102; 97; 108; 115; 101]
  | VInt z => int_repr z
  | VFloat f => json_float f
  | VStr s => encode_string s
  | VList l => 91%N :: intersperse 44 (map json_encode_with l) ++ [93%N]
  | VDict d => 123%N :: intersperse 44 (map (λ kv, encode_string kv.1 ++ 58%N :: json_encode_with kv.2) d)
                 ++ [125%N]
  end%N.
End encode.
Abbreviation json_encode := (json_encode_with json_string).

(** The order of strings: by code points, the shorter prefix first. *)
Fixpoint codes_le (a b : list N) : bool :=
  match a, b with
  | [], _ => true
  | _ :: _, [] => false
  | x :: a, y :: b => (x <? y)%N || ((x =? y)%N && codes_le a b)
  end.
Definition item_le (x y : pystr * pyval) : Prop := codes_le (codes x.1) (codes y.1) = true.
#[export] Instance item_le_dec x y : Decision (item_le x y) := decide (_ = true).

(** [sort_keys=True]: every dictionary is encoded as [sorted(d.items())]. *)
Fixpoint sort_keys (v : pyval) : pyval :=
  match v with
  | VList l => VList (map sort_keys l)
  | VDict d => VDict (merge_sort item_le (map (λ kv, (kv.1, sort_keys kv.2)) d))
  | _ => v
  end.

Definition json_dumps `{FloatRepr} (sorted : bool) (v : pyval) : pystr :=
  PyStr (json_encode (if sorted then sort_keys v else v)).

(** * Encoding is injective *)

(** Induction on values, through the lists and dictionaries. *)
Lemma pyval_ind' (P : pyval → Prop) :
  P VNone → (∀ b, P (VBool b)) → (∀ z, P (VInt z)) → (∀ f, P (VFloat f)) → (∀ s, P (VStr s)) →
  (∀ l, Forall P l → P (VList l)) →
  (∀ d, Forall (λ kv : pystr * pyval, P kv.2) d → P (VDict d)) →
  ∀ v, P v.
Proof.
  intros HN HB HZ HF HS HL HD. fix IH 1. intros [|b|z|f|s|l|d]; [done|auto..| |].
  - apply HL. induction l as [|v l IHl]; constructor; auto.
  - apply HD. induction d as [|[k v] d IHd]; constructor; simpl; auto.
Qed.

(** Finite floats only: what a strictly validated request holds. *)
Fixpoint finite_val (v : pyval) : Prop :=
  match v with
  | VFloat f => is_finite f = true
  | VList l => fold_right (λ v P, finite_val v ∧ P) True l
  | VDict d => fold_right (λ kv P, finite_val kv.2 ∧ P) True d
  | _ => True
  end.

Lemma fold_right_Forall {A} (P : A → Prop) l :
  fold_right (λ x Q, P x ∧ Q) True l ↔ Forall P l.
Proof. induction l; simpl; [done|]. rewrite Forall_cons. tauto. Qed.

Lemma finite_list l : finite_val (VList l) ↔ Forall finite_val l.
Proof. apply fold_right_Forall. Qed.
Lemma finite_dict d : finite_val (VDict d) ↔ Forall (λ kv, finite_val kv.2) d.
Proof. exact (fold_right_Forall (λ kv : pystr * pyval, finite_val kv.2) d). Qed.

(** ** Numbers *)

Lemma digits_chars u : Forall (λ c, digit_char c = true) (digits u).
Proof. induction u; simpl; constructor; done. Qed.

Lemma digits_inj u v : digits u = digits v → u = v.
Proof. revert v. induction u; intros []; simpl; intros [=]; f_equal; eauto. Qed.

Lemma digit_num c : digit_char c = true → num_char c = true.
Proof. unfold num_char. by intros ->. Qed.

Lemma digits_no_minus u v : 45%N :: digits u ≠ digits v.
Proof.
  intros Heq. assert (Hc : Forall (λ c, digit_char c = true) (45%N :: digits u))
    by (rewrite Heq; apply digits_chars).
  by apply Forall_inv in Hc.
Qed.

Lemma int_repr_inj z z' : int_repr z = int_repr z' → z = z'.
Proof.
  unfold int_repr. intros Heq. apply to_int_inj.
  destruct (Z.to_int z) as [u|u], (Z.to_int z') as [v|v].
  - f_equal. by apply digits_inj.
  - by destruct (digits_no_minus v u).
  - by destruct (digits_no_minus u v).
  - injection Heq as Heq. f_equal. by apply digits_inj.
Qed.

Lemma int_repr_chars z : Forall (λ c, digit_char c = true ∨ c = 45%N) (int_repr z).
Proof.
  assert (Hd : ∀ u, Forall (λ c, digit_char c = true ∨ c = 45%N) (digits u)).
  { intros u. eapply Forall_impl; [apply digits_chars|]. simpl. auto. }
  unfold int_repr. destruct (Z.to_int z); auto.
Qed.

Lemma int_repr_nonempty z : int_repr z ≠ [].
Proof.
  unfold int_repr, Z.to_int. destruct z as [|p|p]; [done| |done].
  pose proof (Unsigned.to_uint_nonnil p). by destruct (Pos.to_uint p).
Qed.

(** ** Strings *)

(** Reading one character of the text of a string back. *)
Definition unhex (n : N) : N := (if n <? 58 then n - 48 else n - 87)%N.
Definition unescape (l : list N) : option (N * list N) :=
  match l with
  | [] => None
  | c :: l =>
      if (c =? 34)%N then None else
      if negb (c =? 92)%N then Some (c, l) else
      match l with
      | [] => None
      | d :: l =>
          if (d =? 110)%N then Some (10%N, l) else
          if (d =? 114)%N then Some (13%N, l) else
          if (d =? 116)%N then Some (9%N, l) else
          if (d =? 102)%N then Some (12%N, l) else
          if (d =? 98)%N then Some (8%N, l) else
          if negb (d =? 117)%N then Some (d, l) else
          match l with
          | _ :: _ :: a :: b :: l => Some ((unhex a * 16 + unhex b)%N, l)
          | _ => None
          end
      end
  end.

Lemma unescape_escape c l : unescape (escape_char c ++ l) = Some (c, l).
Proof.
  destruct (decide (c < 32)%N) as [Hlt|Hge].
  - assert (Hall : Forall (λ c, unescape (escape_char c ++ l) = Some (c, l)) (N.of_nat <$> seq 0 32)).
    { repeat (constructor; [reflexivity|]). constructor. }
    rewrite Forall_forall in Hall. apply Hall. apply list_elem_of_fmap.
    exists (N.to_nat c). split; [lia|]. apply elem_of_seq. lia.
  - unfold escape_char.
    destruct (N.eqb_spec c 34) as [->|H1]; [done|].
    destruct (N.eqb_spec c 92) as [->|H2]; [done|].
    rewrite !(proj2 (N.eqb_neq c _)) by lia. rewrite (proj2 (N.ltb_ge c 32)) by lia.
    simpl. by rewrite (proj2 (N.eqb_neq c 34)), (proj2 (N.eqb_neq c 92)) by done.
Qed.

Lemma escape_not_quote c l : ∃ d l', escape_char c ++ l = d :: l' ∧ d ≠ 34%N.
Proof.
  pose proof (unescape_escape c l) as He. destruct (escape_char c ++ l) as [|d l']; [done|].
  exists d, l'. split; [done|]. intros ->. done.
Qed.

Lemma escape_inj s s' r r' :
  (s ≫= escape_char) ++ 34%N :: r = (s' ≫= escape_char) ++ 34%N :: r' → s = s' ∧ r = r'.
Proof.
  revert s'. induction s as [|c s IH]; intros [|c' s']; rewrite ?bind_cons.
  - by intros [=].
  - intros Heq. destruct (escape_not_quote c' ((s' ≫= escape_char) ++ 34%N :: r')) as (d & l & He & Hd).
    rewrite <- app_assoc, He in Heq. by injection Heq as ?.
  - intros Heq. destruct (escape_not_quote c ((s ≫= escape_char) ++ 34%N :: r)) as (d & l & He & Hd).
    rewrite <- app_assoc, He in Heq. by injection Heq as ?.
  - intros Heq. rewrite <- !app_assoc in Heq. apply (f_equal unescape) in Heq.
    rewrite !unescape_escape in Heq. injection Heq as -> Heq. by destruct (IH _ Heq) as [-> ->].
Qed.

Lemma json_string_inj s s' r r' :
  json_string s ++ r = json_string s' ++ r' → s = s' ∧ r = r'.
Proof.
  unfold json_string. simpl. intros [= Heq]. rewrite <- !app_assoc in Heq.
  destruct s as [s], s' as [s']. cbn [codes] in Heq. by destruct (escape_inj _ _ _ _ Heq) as [-> ->].
Qed.

(** ** Unique decodability

    What follows a value in a text: nothing, or a delimiter. *)
Definition closes (r : list N) : Prop :=
  match r with [] => True | c :: _ => c = 44%N ∨ c = 93%N ∨ c = 125%N end.

Lemma closes_num c r : closes (c :: r) → num_char c = false.
Proof. by intros [->|[->| ->]]. Qed.

(** A number ends where its characters end. *)
Lemma num_munch a b r r' :
  Forall (λ c, num_char c = true) a → Forall (λ c, num_char c = true) b →
  closes r → closes r' → a ++ r = b ++ r' → a = b ∧ r = r'.
Proof.
  intros Ha. revert b. induction Ha as [|c a Hc Ha IH]; intros b [|d b' Hd Hb] Hr Hr'; simpl.
  - done.
  - intros ->. apply closes_num in Hr. congruence.
  - intros <-. apply closes_num in Hr'. congruence.
  - intros [= -> Heq]. by destruct (IH _ Hb Hr Hr' Heq) as [-> ->].
Qed.

Section inj.
Context `{FloatRepr}.

Lemma json_float_chars f : is_finite f = true →
  json_float f = float_repr f ∧ json_float f ≠ [] ∧ Forall (λ c, num_char c = true) (json_float f).
Proof. intros Hf. assert (json_float f = float_repr f) as -> by (by destruct f). split; [done|by apply float_repr_chars]. Qed.

Lemma int_repr_num z : Forall (λ c, num_char c = true) (int_repr z).
Proof.
  eapply Forall_impl; [apply int_repr_chars|]. simpl. intros c [Hc| ->]; [by apply digit_num|done].
Qed.

(** An integer's text is never a float's. *)
Lemma int_float_repr z f : is_finite f = true → int_repr z ≠ float_repr f.
Proof.
  intros Hf Heq. pose proof (int_repr_chars z) as Hc. rewrite Heq, Forall_forall in Hc.
  destruct (float_repr_point f Hf) as [Hp|Hp]; by destruct (Hc _ Hp).
Qed.

(** The first character tells the kind of value. *)
Inductive kind := KWord (c : N) | KNum | KStr | KList | KDict.
Definition kind_of_char (c : N) : kind :=
  if num_char c then KNum else if (c =? 34)%N then KStr else if (c =? 91)%N then KList
  else if (c =? 123)%N then KDict else KWord c.
Definition kind_of (v : pyval) : kind :=
  match v with
  | VNone => KWord 110 | VBool true => KWord 116 | VBool false => KWord 102
  | VInt _ | VFloat _ => KNum | VStr _ => KStr | VList _ => KList | VDict _ => KDict
  end.

Lemma encode_kind v : finite_val v →
  ∃ c l, json_encode v = c :: l ∧ kind_of_char c = kind_of v.
Proof.
  intros Hv. destruct v as [|[]|z|f|s|l|d]; try (eexists _, _; split; [reflexivity|done]).
  - pose proof (int_repr_nonempty z). pose proof (int_repr_num z) as Hc. simpl.
    destruct (int_repr z) as [|c l]; [done|]. exists c, l. split; [done|].
    apply Forall_inv in Hc. unfold kind_of_char. by rewrite Hc.
  - destruct (json_float_chars f Hv) as (_ & Hn & Hc). simpl.
    destruct (json_float f) as [|c l]; [done|]. exists c, l. split; [done|].
    apply Forall_inv in Hc. unfold kind_of_char. by rewrite Hc.
Qed.

Definition decodable (v : pyval) : Prop :=
  ∀ w r r', finite_val v → finite_val w → closes r → closes r' →
    json_encode v ++ r = json_encode w ++ r' → v = w ∧ r = r'.

Lemma encode_same_kind v w r r' :
  finite_val v → finite_val w → json_encode v ++ r = json_encode w ++ r' → kind_of v = kind_of w.
Proof.
  intros Hv Hw Heq. destruct (encode_kind v Hv) as (c & l & Ec & <-), (encode_kind w Hw) as (d & k & Ed & <-).
  rewrite Ec, Ed in Heq. by injection Heq as -> _.
Qed.

Lemma decodable_flat v : finite_val v →
  match v with VList _ | VDict _ => False | _ => True end → decodable v.
Proof.
  intros Hv Hflat w r r' _ Hw Hr Hr' Heq. pose proof (encode_same_kind _ _ _ _ Hv Hw Heq) as Hk.
  destruct v as [|[]|z|f|s|l|d], w as [|[]|z'|f'|s'|l'|d']; try done; simpl in Heq.
  1-3: by injection Heq as ->.
  1-4: try (pose proof (int_repr_num z)); try (pose proof (int_repr_num z'));
       try (destruct (json_float_chars f Hv) as (Ef & _ & ?));
       try (destruct (json_float_chars f' Hw) as (Ef' & _ & ?));
       apply num_munch in Heq as [Hn ->]; [split; [|done]|assumption..].
  - f_equal. by apply int_repr_inj.
  - rewrite Ef' in Hn. by destruct (int_float_repr z f').
  - rewrite Ef in Hn. by destruct (int_float_repr z' f).
  - rewrite Ef, Ef' in Hn. f_equal. by apply float_repr_inj.
  - by destruct (json_string_inj _ _ _ _ Heq) as [-> ->].
Qed.

(** Sequences of uniquely decodable items, up to their closing bracket. *)
Section items.
Context {A : Type} (enc : A → list N) (ok : A → Prop) (cl : N).
Hypothesis cl_closes : cl = 93%N ∨ cl = 125%N.
Hypothesis enc_starts : ∀ x, ok x → ∃ c l, enc x = c :: l ∧ c ≠ cl.

Definition item_decodable (x : A) : Prop :=
  ∀ y r r', ok y → closes r → closes r' → enc x ++ r = enc y ++ r' → x = y ∧ r = r'.

Lemma intersperse_cons2 (a b : list N) ls :
  intersperse 44 (a :: b :: ls) = a ++ 44%N :: intersperse 44 (b :: ls).
Proof. done. Qed.

Lemma items_inj l k r r' :
  Forall ok l → Forall item_decodable l → Forall ok k →
  intersperse 44 (map enc l) ++ cl :: r = intersperse 44 (map enc k) ++ cl :: r' →
  l = k ∧ r = r'.
Proof.
  assert (Hcl : closes (cl :: r) ∧ closes (cl :: r')) by (simpl; tauto).
  assert (Hne : cl ≠ 44%N) by (destruct cl_closes as [->| ->]; done).
  assert (Hstart : ∀ x t, ok x → cl :: r ≠ enc x ++ t ∧ cl :: r' ≠ enc x ++ t).
  { intros x t Hx. destruct (enc_starts x Hx) as (c & u & -> & ?). split; by intros [=]. }
  intros Hl Hd. revert k. induction Hd as [|x l Hx Hd IH]; intros [|y k] Hk Heq.
  - by injection Heq as ->.
  - exfalso. apply Forall_inv in Hk. destruct k; simpl in Heq;
      rewrite <- ?app_assoc in Heq; by apply (proj1 (Hstart y _ Hk)) in Heq.
  - exfalso. apply Forall_inv in Hl. destruct l; simpl in Heq;
      rewrite <- ?app_assoc in Heq; symmetry in Heq; by apply (proj2 (Hstart x _ Hl)) in Heq.
  - apply Forall_cons in Hl as [Hox Hl], Hk as [Hoy Hk]. cbn [map] in Heq.
    assert (Hsep : ∀ t, closes (44%N :: t)) by (simpl; tauto).
    destruct l as [|x2 l], k as [|y2 k]; cbn [map] in Heq;
      rewrite ?intersperse_cons2, <- ?app_assoc in Heq.
    + destruct (Hx y _ _ Hoy (proj1 Hcl) (proj2 Hcl) Heq) as [-> [= ->]]. done.
    + destruct (Hx y _ _ Hoy (proj1 Hcl) (Hsep _) Heq) as [_ [= ? _]]. done.
    + destruct (Hx y _ _ Hoy (Hsep _) (proj2 Hcl) Heq) as [_ [= ? _]]. congruence.
    + destruct (Hx y _ _ Hoy (Hsep _) (Hsep _) Heq) as [-> [= Heq']].
      destruct (IH Hl (y2 :: k) Hk Heq') as [-> ->]. done.
Qed.
End items.

Lemma encode_starts cl v : finite_val v → cl = 93%N ∨ cl = 125%N →
  ∃ c l, json_encode v = c :: l ∧ c ≠ cl.
Proof.
  intros Hv Hcl. destruct (encode_kind v Hv) as (c & l & -> & Hk). exists c, l. split; [done|].
  intros ->. destruct v as [|[]| | | | |], Hcl as [->| ->]; done.
Qed.

Definition item_encode (kv : pystr * pyval) : list N :=
  json_string kv.1 ++ 58%N :: json_encode kv.2.

(** A text that is followed by nothing or by a delimiter is the text of one value. *)
Lemma encode_decodable v : decodable v.
Proof.
  induction v as [|b|z|f|s|l IH|d IH] using pyval_ind';
    try (intros w r r' Hv; by apply decodable_flat).
  - intros w r r' Hv Hw Hr Hr' Heq. pose proof (encode_same_kind _ _ _ _ Hv Hw Heq) as Hk.
    destruct w as [|[]| | | |k|]; try done. cbn [json_encode_with app] in Heq. injection Heq as Heq.
    rewrite <- !app_assoc in Heq. apply finite_list in Hv, Hw.
    destruct (items_inj json_encode finite_val 93%N (or_introl eq_refl)
                (λ x Hx, encode_starts 93%N x Hx (or_introl eq_refl)) l k r r' Hv) as [-> ->]; [|done..].
    rewrite Forall_forall in IH, Hv |- *. intros x Hx y t t' Hy. apply (IH x Hx y t t'); auto.
  - intros w r r' Hv Hw Hr Hr' Heq. pose proof (encode_same_kind _ _ _ _ Hv Hw Heq) as Hk.
    destruct w as [|[]| | | | |k]; try done. cbn [json_encode_with app] in Heq. injection Heq as Heq.
    rewrite <- !app_assoc in Heq. apply finite_dict in Hv, Hw.
    destruct (items_inj item_encode (λ kv, finite_val kv.2) 125%N (or_intror eq_refl)
                ltac:(intros x _; by eexists _, _) d k r r' Hv) as [-> ->]; [|done..].
    rewrite Forall_forall in IH, Hv |- *. intros [n x] Hx [m y] t t' Hy Ht Ht'.
    unfold item_encode. cbn [fst snd]. rewrite <- !app_assoc. intros Hkv.
    destruct (json_string_inj _ _ _ _ Hkv) as [-> [= Hval]].
    destruct (IH _ Hx y t t' (Hv _ Hx) Hy Ht Ht' Hval) as [<- ->]. done.
Qed.

(** Equal texts come from equal values. *)
Lemma json_encode_inj v w :
  finite_val v → finite_val w → json_encode v = json_encode w → v = w.
Proof.
  intros Hv Hw Heq.
  apply (encode_decodable v w [] [] Hv Hw I I). by rewrite Heq.
Qed.
End inj.

(** What a dictionary says does not depend on the order of its items. *)
Lemma dict_get_permutation {A} (d k : list (pystr * A)) s :
  NoDup d.*1 → d ≡ₚ k → dict_get d s = dict_get k s.
Proof.
  intros Hnd Hp. apply option_eq. intros v. rewrite !dict_get_in; [by rewrite Hp|by rewrite <- Hp|done].
Qed.

Lemma dict_permutation {A} (d k : list (pystr * A)) :
  NoDup d.*1 → NoDup k.*1 → (∀ s, dict_get d s = dict_get k s) → d ≡ₚ k.
Proof.
  intros Hd Hk Heq. apply NoDup_Permutation; [by eapply NoDup_fmap_1..|].
  intros [s v]. rewrite <- !dict_get_in by done. by rewrite Heq.
Qed.

(** Sorting the items of a dictionary is canonical: its keys are distinct. *)
Lemma codes_le_antisym a b : codes_le a b = true → codes_le b a = true → a = b.
Proof.
  revert b. induction a as [|x a IH]; intros [|y b]; simpl; try done.
  intros [Hx|[->%N.eqb_eq Hx]%andb_prop]%orb_prop [Hy|[Hxy Hy]%andb_prop]%orb_prop;
    rewrite ?N.ltb_lt, ?N.eqb_eq in *; try lia.
  f_equal. by apply IH.
Qed.

#[export] Instance codes_le_total : Total (λ a b, codes_le a b = true).
Proof.
  intros a. induction a as [|x a IH]; intros [|y b]; simpl; [by left|by left|by right|].
  destruct (N.lt_trichotomy x y) as [Hlt|[->|Hlt]].
  - left. by rewrite (proj2 (N.ltb_lt x y) Hlt).
  - rewrite N.eqb_refl, N.ltb_irrefl. simpl. apply IH.
  - right. by rewrite (proj2 (N.ltb_lt y x) Hlt).
Qed.

#[export] Instance item_le_total : Total item_le.
Proof. intros x y. unfold item_le. apply (total (λ a b, codes_le a b = true)). Qed.

#[export] Instance item_le_trans : Transitive item_le.
Proof.
  intros [[a] ?] [[b] ?] [[c] ?]. unfold item_le. simpl. revert b c.
  induction a as [|x a IH]; intros [|y b] [|z c]; simpl; try done.
  intros [Hx|[->%N.eqb_eq Hx]%andb_prop]%orb_prop [Hy|[Hyz%N.eqb_eq Hy]%andb_prop]%orb_prop;
    rewrite ?N.ltb_lt in *; apply orb_true_iff; rewrite N.ltb_lt; try (left; lia).
  right. subst. rewrite N.eqb_refl. simpl. by eapply IH.
Qed.

Lemma sort_canonical (d k : pydict) :
  NoDup d.*1 → d ≡ₚ k → merge_sort item_le d = merge_sort item_le k.
Proof.
  intros Hnd Hp. eapply StronglySorted_unique_strong; [|apply StronglySorted_merge_sort; apply _..|].
  - intros [k1 v1] [k2 v2]. rewrite !merge_sort_Permutation, <- Hp. intros H1 H2 H12 H21.
    assert (k1 = k2) as ->.
    { destruct k1 as [k1], k2 as [k2]. f_equal. by apply codes_le_antisym. }
    rewrite <- dict_get_in in H1, H2 by done. congruence.
  - by rewrite !merge_sort_Permutation.
Qed.
