(* ===== verification/JsonLoads.v ===== *)
(** The [json.loads] of Python's standard library: the scanner of texts, the decoding of
    bytes, [json.dumps] with any separators, and the proof that loading what was dumped
    gives the value back. *)
From Stdlib Require Import SpecFloat DecimalZ DecimalPos DecimalN.
From S2P Require Import Prelude.
From S2P Require Import Python.
From S2P Require Import Errors.
From S2P Require Import Json.

(** How loading fails: with [JSONDecodeError], because [int] refuses the many digits of
    a number (a [ValueError]), or because the text is nested too deeply. *)
Inductive json_error := JSONDecodeError | DigitLimit | RecursionError | UnicodeDecodeError | Unfinished.
#[export] Instance json_error_eq_dec : EqDecision json_error.
Proof. solve_decision. Defined.
(** [JSONDecodeError] and [UnicodeDecodeError] are [ValueError]s, and [RecursionError] is a
    [RuntimeError]. *)
Definition json_exn (e : json_error) : exn :=
  match e with
  | JSONDecodeError | DigitLimit | UnicodeDecodeError => ValueError
  | RecursionError => RuntimeError
  | Unfinished => OutOfFuel
  end.
(** What was read, and the rest of the text. *)
Abbreviation reading A := (json_error + (A * list N))%type.

(** * Strings *)

(** [WHITESPACE]. *)
Definition json_space (c : N) : bool := ((c =? 32) || (c =? 9) || (c =? 10) || (c =? 13))%N.
Fixpoint skip_space (l : list N) : list N :=
  match l with [] => [] | c :: l' => if json_space c then skip_space l' else l end.

Definition hex_value (c : N) : option N :=
  (if digit_char c then Some (c - 48)
   else if (97 <=? c) && (c <=? 102) then Some (c - 87)
   else if (65 <=? c) && (c <=? 70) then Some (c - 55)
   else None)%N.
(** [_decode_uXXXX]. *)
Definition hex4_value (a b c d : N) : option N :=
  match hex_value a, hex_value b, hex_value c, hex_value d with
  | Some a, Some b, Some c, Some d => Some (((a * 16 + b) * 16 + c) * 16 + d)%N
  | _, _, _, _ => None
  end.
(** [BACKSLASH]. *)
Definition backslash (c : N) : option N :=
  (if (c =? 34) || (c =? 92) || (c =? 47) then Some c
   else if c =? 98 then Some 8
   else if c =? 102 then Some 12
   else if c =? 110 then Some 10
   else if c =? 114 then Some 13
   else if c =? 116 then Some 9
   else None)%N.
Definition high_surrogate (c : N) : bool := ((55296 <=? c) && (c <=? 56319))%N.
Definition low_surrogate (c : N) : bool := ((56320 <=? c) && (c <=? 57343))%N.
Definition join_surrogates (c d : N) : N := (65536 + ((c - 55296) * 1024 + (d - 56320)))%N.

Definition cons_code (c : N) (r : option (list N * list N)) : option (list N * list N) :=
  match r with Some (s, rest) => Some (c :: s, rest) | None => None end.

(** [scanstring], strict, after the opening quote. *)
Fixpoint scan_string (l : list N) : option (list N * list N) :=
  match l with
  | [] => None
  | c :: l =>
      if (c =? 34)%N then Some ([], l)
      else if (c <? 32)%N then None
      else if negb (c =? 92)%N then cons_code c (scan_string l)
      else match l with
           | [] => None
           | e :: l =>
               if negb (e =? 117)%N then
                 match backslash e with Some c => cons_code c (scan_string l) | None => None end
               else match l with
                    | a :: b :: c :: d :: l =>
                        match hex4_value a b c d with
                        | None => None
                        | Some u =>
                            match l with
                            | s :: t :: a :: b :: c :: d :: l' =>
                                if high_surrogate u && (s =? 92)%N && (t =? 117)%N then
                                  match hex4_value a b c d with
                                  | None => None
                                  | Some u2 => if low_surrogate u2 then cons_code (join_surrogates u u2) (scan_string l')
                                               else cons_code u (scan_string l)
                                  end
                                else cons_code u (scan_string l)
                            | _ => cons_code u (scan_string l)
                            end
                        end
                    | _ => None
                    end
           end
  end.

(** * Numbers *)

Fixpoint span_digits (l : list N) : list N * list N :=
  match l with
  | [] => ([], [])
  | c :: l' => if digit_char c then let '(ds, r) := span_digits l' in (c :: ds, r) else ([], l)
  end.
(** The regular expression [NUMBER_RE], one group after the other. *)
Definition int_part (l : list N) : option (list N * list N) :=
  let '(sign, l) := match l with c :: l' => if (c =? 45)%N then ([c], l') else ([], l) | [] => ([], []) end in
  match l with
  | c :: l => if (c =? 48)%N then Some (sign ++ [c], l)
              else if digit_char c then let '(ds, r) := span_digits l in Some (sign ++ c :: ds, r)
              else None
  | [] => None
  end.
Definition frac_part (l : list N) : list N * list N :=
  match l with
  | c :: l' => if (c =? 46)%N then match span_digits l' with ([], _) => ([], l) | (ds, r) => (c :: ds, r) end else ([], l)
  | [] => ([], [])
  end.
Definition exp_part (l : list N) : list N * list N :=
  match l with
  | c :: l' =>
      if (c =? 101)%N || (c =? 69)%N then
        let '(sign, l'') := match l' with
                            | d :: k => if (d =? 43)%N || (d =? 45)%N then ([d], k) else ([], l')
                            | [] => ([], [])
                            end in
        match span_digits l'' with ([], _) => ([], l) | (ds, r) => (c :: sign ++ ds, r) end
      else ([], l)
  | [] => ([], [])
  end.

Fixpoint digits_value (acc : Z) (ds : list N) : Z :=
  match ds with [] => acc | c :: ds => digits_value (10 * acc + (Z.of_N c - 48)) ds end.
(** [sys.int_info.default_max_str_digits]. *)
Definition max_str_digits : nat := 4300.
(** [int(integer)] for an integer part. *)
Definition parse_int (text : list N) : json_error + Z :=
  let '(negative, ds) := match text with c :: ds => if (c =? 45)%N then (true, ds) else (false, text) | [] => (false, []) end in
  if (max_str_digits <? length ds)%nat then inl DigitLimit
  else inr (if (negative : bool) then - digits_value 0 ds else digits_value 0 ds).

(** [float(text)] is the interpreter's; what is documented of [repr]: its text of a finite
    float is a number with a fraction or an exponent, and [float] reads it back. *)
Definition digit_text (ds : list N) : Prop := ds ≠ [] ∧ Forall (λ c, digit_char c = true) ds.
Definition int_text (l : list N) : Prop :=
  ∃ sign c ds, l = sign ++ c :: ds ∧ (sign = [] ∨ sign = [45%N]) ∧ digit_char c = true ∧ Forall (λ c, digit_char c = true) ds ∧
    (c = 48%N → ds = []).
Definition frac_text (l : list N) : Prop := l = [] ∨ ∃ ds, l = 46%N :: ds ∧ digit_text ds.
Definition exp_text (l : list N) : Prop :=
  l = [] ∨ ∃ sign ds, l = 101%N :: sign ++ ds ∧ (sign = [] ∨ sign = [43%N] ∨ sign = [45%N]) ∧ digit_text ds.
Class FloatText `{FloatRepr} := {
  float_parse : list N → spec_float;
  float_repr_text f : is_finite f = true →
    ∃ i fr ex, float_repr f = i ++ fr ++ ex ∧ int_text i ∧ frac_text fr ∧ exp_text ex ∧ fr ++ ex ≠ [];
  float_parse_repr f : is_finite f = true → float_parse (float_repr f) = f;
}.

(** * Values *)

Section scan.
Variable to_float : list N → spec_float.

Definition scan_number (l : list N) : option (reading pyval) :=
  match int_part l with
  | None => None
  | Some (i, l) =>
      let '(fr, l) := frac_part l in
      let '(ex, l) := exp_part l in
      Some (match fr ++ ex with
            | [] => let? z := parse_int i in inr (VInt z, l)
            | _ => inr (VFloat (to_float (i ++ fr ++ ex)), l)
            end)
  end.

(** The rest of the text after a word, if it starts with it. *)
Fixpoint word (w l : list N) : option (list N) :=
  match w, l with
  | [], _ => Some l
  | c :: w, d :: l => if (c =? d)%N then word w l else None
  | _, [] => None
  end.
Definition words : list (pystr * pyval) :=
  [("null", VNone); ("true", VBool true); ("false", VBool false); ("NaN", VFloat S754_nan);
   ("Infinity", VFloat (S754_infinity false)); ("-Infinity", VFloat (S754_infinity true))]%py.
Fixpoint scan_word (ws : list (pystr * pyval)) (l : list N) : reading pyval :=
  match ws with
  | [] => inl JSONDecodeError
  | (w, v) :: ws => match word (codes w) l with Some l => inr (v, l) | None => scan_word ws l end
  end.

Section containers.
Variable scan_once : list N → reading pyval.

(** The loop of [JSONArray] from an element on. *)
Fixpoint scan_array (fuel : nat) (l : list N) : reading (list pyval) :=
  match fuel with
  | O => inl Unfinished
  | S fuel =>
      let? vl := scan_once l in
      match skip_space vl.2 with
      | c :: l =>
          if (c =? 93)%N then inr ([vl.1], l)
          else if (c =? 44)%N then let? vsl := scan_array fuel (skip_space l) in inr (vl.1 :: vsl.1, vsl.2)
          else inl JSONDecodeError
      | [] => inl JSONDecodeError
      end
  end.
(** The loop of [JSONObject] from a key on; a key that occurs again takes the new value. *)
Fixpoint scan_object (fuel : nat) (d : pydict) (l : list N) : reading pydict :=
  match fuel with
  | O => inl Unfinished
  | S fuel =>
      match l with
      | [] => inl JSONDecodeError
      | q :: l =>
          if negb (q =? 34)%N then inl JSONDecodeError else
          match scan_string l with
          | None => inl JSONDecodeError
          | Some (k, l) =>
              match skip_space l with
              | c :: l =>
                  if negb (c =? 58)%N then inl JSONDecodeError else
                  let? vl := scan_once (skip_space l) in
                  let d := dict_set d (PyStr k) vl.1 in
                  match skip_space vl.2 with
                  | c :: l =>
                      if (c =? 125)%N then inr (d, l)
                      else if (c =? 44)%N then scan_object fuel d (skip_space l)
                      else inl JSONDecodeError
                  | [] => inl JSONDecodeError
                  end
              | [] => inl JSONDecodeError
              end
          end
      end
  end.
End containers.

(** [scan_once]; [depth] is how many more containers the interpreter lets it enter. *)
Fixpoint scan_once (depth : nat) (l : list N) : reading pyval :=
  match l with
  | [] => inl JSONDecodeError
  | c :: l' =>
      if (c =? 34)%N then
        match scan_string l' with Some (s, r) => inr (VStr (PyStr s), r) | None => inl JSONDecodeError end
      else if (c =? 91)%N || (c =? 123)%N then
        match depth with
        | O => inl RecursionError
        | S depth =>
            match skip_space l' with
            | [] => inl JSONDecodeError
            | e :: r =>
                if (c =? 91)%N then
                  if (e =? 93)%N then inr (VList [], r)
                  else let? vl := scan_array (scan_once depth) (length l) (e :: r) in inr (VList vl.1, vl.2)
                else
                  if (e =? 125)%N then inr (VDict [], r)
                  else let? dl := scan_object (scan_once depth) (length l) [] (e :: r) in inr (VDict dl.1, dl.2)
            end
        end
      else match scan_number l with Some r => r | None => scan_word words l end
  end.

(** [json.loads] of a text. *)
Definition loads (depth : nat) (text : pystr) : json_error + pyval :=
  if match codes text with c :: _ => (c =? 65279)%N | [] => false end then inl JSONDecodeError else
  let? vl := scan_once depth (skip_space (codes text)) in
  match skip_space vl.2 with [] => inr vl.1 | _ => inl JSONDecodeError end.
End scan.

(** * Bytes *)

(** [bytes.decode("utf-8", "surrogatepass")]. *)
Definition continuation (c : N) : bool := ((128 <=? c) && (c <? 192))%N.
Fixpoint utf8_decode (l : list N) : option (list N) :=
  match l with
  | [] => Some []
  | a :: l =>
      if (a <? 128)%N then cons a <$> utf8_decode l
      else if ((194 <=? a) && (a <? 224))%N then
        match l with
        | b :: l => if continuation b then cons ((a - 192) * 64 + (b - 128))%N <$> utf8_decode l else None
        | _ => None
        end
      else if ((224 <=? a) && (a <? 240))%N then
        match l with
        | b :: c :: l =>
            let u := ((a - 224) * 4096 + (b - 128) * 64 + (c - 128))%N in
            if continuation b && continuation c && (2048 <=? u)%N then cons u <$> utf8_decode l else None
        | _ => None
        end
      else if ((240 <=? a) && (a <? 245))%N then
        match l with
        | b :: c :: d :: l =>
            let u := ((a - 240) * 262144 + (b - 128) * 4096 + (c - 128) * 64 + (d - 128))%N in
            if continuation b && continuation c && continuation d && ((65536 <=? u) && (u <? 1114112))%N
            then cons u <$> utf8_decode l else None
        | _ => None
        end
      else None
  end.
(** UTF-16 units and UTF-32 characters, in either order of bytes; with [surrogatepass]
    a lone surrogate is kept. *)
Fixpoint utf16_decode (big : bool) (l : list N) : option (list N) :=
  match l with
  | [] => Some []
  | a :: b :: l =>
      let u := (if big then a * 256 + b else b * 256 + a)%N in
      match l with
      | c :: d :: l' =>
          let u2 := (if big then c * 256 + d else d * 256 + c)%N in
          if high_surrogate u && low_surrogate u2 then cons (join_surrogates u u2) <$> utf16_decode big l'
          else cons u <$> utf16_decode big l
      | _ => cons u <$> utf16_decode big l
      end
  | _ => None
  end.
Fixpoint utf32_decode (big : bool) (l : list N) : option (list N) :=
  match l with
  | [] => Some []
  | a :: b :: c :: d :: l =>
      let u := (if big then ((a * 256 + b) * 256 + c) * 256 + d else ((d * 256 + c) * 256 + b) * 256 + a)%N in
      if (u <? 1114112)%N then cons u <$> utf32_decode big l else None
  | _ => None
  end.

(** [json.detect_encoding] and the decoding it selects. *)
Definition decode_json (l : list N) : option (list N) :=
  match l with
  | 0%N :: 0%N :: 254%N :: 255%N :: l => utf32_decode true l
  | 255%N :: 254%N :: 0%N :: 0%N :: l => utf32_decode false l
  | 254%N :: 255%N :: l => utf16_decode true l
  | 255%N :: 254%N :: l => utf16_decode false l
  | 239%N :: 187%N :: 191%N :: l => utf8_decode l
  | a :: b :: c :: d :: _ =>
      if (a =? 0)%N then if (b =? 0)%N then utf32_decode true l else utf16_decode true l
      else if (b =? 0)%N then if (c =? 0)%N && (d =? 0)%N then utf32_decode false l else utf16_decode false l
      else utf8_decode l
  | [a; b] => if (a =? 0)%N then utf16_decode true l else if (b =? 0)%N then utf16_decode false l else utf8_decode l
  | _ => utf8_decode l
  end.
(** [json.loads] of bytes. *)
Definition loads_bytes (to_float : list N → spec_float) (depth : nat) (l : list N) : json_error + pyval :=
  match decode_json l with
  | Some text => loads to_float depth (PyStr text)
  | None => inl UnicodeDecodeError
  end.

(** * Texts with separators *)

Fixpoint join (sep : list N) (ls : list (list N)) : list N :=
  match ls with [] => [] | [l] => l | l :: ls => l ++ sep ++ join sep ls end.

Section text.
Context `{FloatRepr}.
(** [separators=(isep, ksep)], and the encoder of strings. *)
Variables isep ksep : list N.
Variable encode_string : pystr → list N.

Fixpoint json_text (v : pyval) : list N :=
  match v with
  | VNone => codes "null"%py
  | VBool true => codes "true"%py
  | VBool false => codes "false"%py
  | VInt z => int_repr z
  | VFloat f => json_float f
  | VStr s => encode_string s
  | VList l => 91%N :: join isep (map json_text l) ++ [93%N]
  | VDict d => 123%N :: join isep (map (λ kv, encode_string kv.1 ++ ksep ++ json_text kv.2) d) ++ [125%N]
  end.
End text.
(** [json.dumps(v, indent=2)]; empty containers stay on their line. *)
Definition new_line (level : nat) : list N := 10%N :: replicate (2 * level) 32%N.
Fixpoint json_indented `{FloatRepr} (level : nat) (v : pyval) : list N :=
  match v with
  | VList ((_ :: _) as l) =>
      91%N :: new_line (S level) ++ join (44%N :: new_line (S level)) (map (json_indented (S level)) l) ++ new_line level ++ [93%N]
  | VDict ((_ :: _) as d) =>
      123%N :: new_line (S level) ++
        join (44%N :: new_line (S level)) (map (λ kv, json_ascii_string kv.1 ++ [58; 32]%N ++ json_indented (S level) kv.2) d) ++
        new_line level ++ [125%N]
  | v => json_text [44; 32]%N [58; 32]%N json_ascii_string v
  end.
(** [json.dumps(v)]. *)
Definition dumps `{FloatRepr} (v : pyval) : list N := json_text [44; 32]%N [58; 32]%N json_ascii_string v.

(** With the compact separators it is the encoder of Json. *)
Lemma json_text_compact `{FloatRepr} es v : json_text [44%N] [58%N] es v = json_encode_with es v.
Proof.
  assert (Hj : ∀ ls, join [44%N] ls = intersperse 44 ls).
  { induction ls as [|a [|b ls] IH]; [done..|]. rewrite intersperse_cons2, <- IH. done. }
  induction v as [|[]|z|f|s|l IH|d IH] using pyval_ind'; cbn [json_text json_encode_with]; try done.
  - rewrite Hj. do 3 f_equal. apply map_ext_Forall, IH.
  - rewrite Hj. do 3 f_equal. apply map_ext_Forall. eapply Forall_impl; [exact IH|]. intros [k v] Hv. cbn [fst snd app] in *. by rewrite Hv.
Qed.

(** * Reading ends *)

Lemma skip_space_length l : (length (skip_space l) ≤ length l)%nat.
Proof. induction l as [|c l IH]; [done|]. cbn [skip_space]. destruct (json_space c); cbn [length]; lia. Qed.
Lemma scan_string_length l s r : scan_string l = Some (s, r) → (length r < length l)%nat.
Proof.
  assert (Hcons : ∀ l' c s r, cons_code c (scan_string l') = Some (s, r) → ∃ s', scan_string l' = Some (s', r)).
  { intros l' c s' r'. destruct (scan_string l') as [[]|]; [|done]. intros [= _ ->]. by eexists. }
  revert s r. induction l as [l IH] using (induction_ltof1 _ (@length N)). unfold ltof in IH. intros s r Hs.
  assert (Hrec : ∀ l' c, (length l' < length l)%nat → cons_code c (scan_string l') = Some (s, r) → (length r < length l)%nat).
  { intros l' c Hl [s' Hs']%Hcons. pose proof (IH _ Hl _ _ Hs'). lia. }
  destruct l as [|c l]; [done|]. cbn [scan_string] in Hs.
  repeat (case_match; try done); simplify_eq; first [by apply Hrec in Hs; [|simpl; lia]|simpl; lia].
Qed.
Lemma span_digits_length l : (length (span_digits l).2 ≤ length l)%nat.
Proof. induction l as [|c l IH]; [done|]. cbn [span_digits]. destruct (digit_char c); [|done]. destruct (span_digits l). simpl in *. lia. Qed.
Lemma int_part_length l i r : int_part l = Some (i, r) → (length r < length l)%nat.
Proof.
  unfold int_part. intros Hi. assert (Hd : ∀ k, (length (span_digits k).2 ≤ length k)%nat) by exact span_digits_length.
  destruct l as [|c l]; [done|]. destruct (c =? 45)%N; [destruct l as [|c2 l]; [done|]|].
  all: repeat case_match; simplify_eq; try (simpl; lia).
  all: match goal with H : span_digits ?k = _ |- _ => specialize (Hd k); rewrite H in Hd; simpl in *; lia end.
Qed.
Lemma frac_part_length l : (length (frac_part l).2 ≤ length l)%nat.
Proof.
  unfold frac_part. destruct l as [|c l]; [done|]. pose proof (span_digits_length l).
  destruct (c =? 46)%N; [|done]. destruct (span_digits l) as [[] ?]; simpl in *; lia.
Qed.
Lemma exp_part_length l : (length (exp_part l).2 ≤ length l)%nat.
Proof.
  unfold exp_part. destruct l as [|c l]; [done|]. destruct (_ || _); [|done].
  destruct l as [|d k]; [done|]. pose proof (span_digits_length k). pose proof (span_digits_length (d :: k)).
  destruct ((d =? 43)%N || (d =? 45)%N); [destruct (span_digits k) as [[] ?]|destruct (span_digits (d :: k)) as [[] ?]]; simpl in *; lia.
Qed.

Section finishes.
Variable to_float : list N → spec_float.

(** A scanner that always ends, after reading something. *)
Definition advances {A} (l : list N) (r : reading A) : Prop :=
  match r with inr (_, rest) => (length rest < length l)%nat | inl e => e ≠ Unfinished end.

Lemma scan_number_advances l r : scan_number to_float l = Some r → advances l r.
Proof.
  unfold scan_number. destruct (int_part l) as [[i l1]|] eqn:Hi; [|done]. apply int_part_length in Hi.
  pose proof (frac_part_length l1). destruct (frac_part l1) as [fr l2]. pose proof (exp_part_length l2).
  destruct (exp_part l2) as [ex l3]. simpl in *. intros [= <-]. destruct (fr ++ ex); [|simpl; lia].
  unfold parse_int. destruct (match i with [] => _ | _ => _ end) as [neg ds]. destruct (_ <? _)%nat; simpl; [done|lia].
Qed.
Lemma word_length w l r : word w l = Some r → (length r ≤ length l)%nat.
Proof.
  revert l. induction w as [|c w IH]; intros l; cbn [word]; [by intros [= ->]|]. destruct l as [|d l]; [done|].
  destruct (c =? d)%N; [|done]. intros Hw%IH. simpl. lia.
Qed.
Lemma scan_word_advances l : advances l (scan_word words l).
Proof.
  assert (Hw : ∀ ws, Forall (λ wv : pystr * pyval, codes wv.1 ≠ []) ws → advances l (scan_word ws l)).
  { induction 1 as [|[w v] ws Hne _ IH]; [done|]. cbn [scan_word]. destruct (word (codes w) l) as [r|] eqn:E; [|done].
    cbn [fst] in Hne. destruct (codes w) as [|c cs]; [done|]. destruct l as [|d l]; [done|]. cbn [word] in E.
    destruct (c =? d)%N; [|done]. apply word_length in E. simpl. lia. }
  apply Hw. by repeat constructor.
Qed.

Section containers.
Variable sc : list N → reading pyval.
Hypothesis sc_advances : ∀ l, advances l (sc l).

Lemma scan_array_advances fuel l : (length l < fuel)%nat → advances l (scan_array sc fuel l).
Proof.
  revert l. induction fuel as [|fuel IH]; intros l Hl; [lia|]. cbn [scan_array]. pose proof (sc_advances l) as Hs.
  destruct (sc l) as [e|[v l1]]; [done|]. simpl in Hs |- *. pose proof (skip_space_length l1) as H1.
  destruct (skip_space l1) as [|c l2]; [done|]. simpl in H1. destruct (c =? 93)%N; [simpl; lia|]. destruct (c =? 44)%N; [|done].
  pose proof (skip_space_length l2) as H2. specialize (IH (skip_space l2) ltac:(lia)).
  destruct (scan_array sc fuel (skip_space l2)) as [e|[vs l3]]; simpl in *; [done|lia].
Qed.
Lemma scan_object_advances fuel d l : (length l < fuel)%nat → advances l (scan_object sc fuel d l).
Proof.
  revert d l. induction fuel as [|fuel IH]; intros d l Hl; [lia|]. cbn [scan_object]. destruct l as [|q l]; [done|].
  destruct (negb (q =? 34)%N); [done|]. destruct (scan_string l) as [[k l1]|] eqn:Hk; [|done]. apply scan_string_length in Hk.
  pose proof (skip_space_length l1) as H1. destruct (skip_space l1) as [|c l2]; [done|]. destruct (negb (c =? 58)%N); [done|].
  pose proof (skip_space_length l2) as H2. pose proof (sc_advances (skip_space l2)) as Hs.
  destruct (sc (skip_space l2)) as [e|[v l3]]; [done|]. simpl in *. pose proof (skip_space_length l3) as H3.
  destruct (skip_space l3) as [|c' l4]; [done|]. simpl in *. destruct (c' =? 125)%N; [simpl; lia|]. destruct (c' =? 44)%N; [|done].
  pose proof (skip_space_length l4) as H4. specialize (IH (dict_set d (PyStr k) v) (skip_space l4) ltac:(lia)).
  destruct (scan_object _ _ _ _) as [e|[d' l5]]; simpl in *; [done|lia].
Qed.
End containers.

Lemma scan_once_advances depth l : advances l (scan_once to_float depth l).
Proof.
  revert l. induction depth as [|depth IH]; intros [|c l]; try done; cbn [scan_once].
  all: destruct (c =? 34)%N; [destruct (scan_string l) as [[]|] eqn:Hs; [apply scan_string_length in Hs; simpl; lia|done]|].
  all: destruct ((c =? 91)%N || (c =? 123)%N).
  all: try (destruct (scan_number to_float (c :: l)) eqn:Hn; [by apply scan_number_advances|apply scan_word_advances]).
  - done.
  - pose proof (skip_space_length l) as H1. destruct (skip_space l) as [|e r]; [done|]. simpl in H1.
    pose proof (scan_array_advances _ IH (S (length l)) (e :: r) ltac:(simpl; lia)) as Ha.
    pose proof (scan_object_advances _ IH (S (length l)) [] (e :: r) ltac:(simpl; lia)) as Ho.
    destruct (c =? 91)%N; [destruct (e =? 93)%N; [simpl; lia|]|destruct (e =? 125)%N; [simpl; lia|]]; cbn [length].
    + destruct (scan_array _ _ _) as [|[]]; simpl in *; [done|lia].
    + destruct (scan_object _ _ _ _) as [|[]]; simpl in *; [done|lia].
Qed.

(** [json.loads] ends: the loops over the items never run out of text. *)
Theorem loads_ends depth t : loads to_float depth t ≠ inl Unfinished.
Proof.
  unfold loads. destruct (match codes t with [] => _ | _ => _ end); [done|].
  pose proof (scan_once_advances depth (skip_space (codes t))) as Ha.
  destruct (scan_once _ _ _) as [e|[v r]]; simpl in *; [congruence|]. by destruct (skip_space r).
Qed.
End finishes.

(** * Reading what was written *)

(** What may follow a number: nothing that continues it. *)
Definition ends_number (r : list N) : Prop :=
  match r with [] => True | c :: _ => digit_char c = false ∧ c ≠ 46%N ∧ c ≠ 101%N ∧ c ≠ 69%N end.

Lemma span_digits_app ds r : Forall (λ c, digit_char c = true) ds →
  match r with [] => True | c :: _ => digit_char c = false end → span_digits (ds ++ r) = (ds, r).
Proof.
  intros Hd Hr. induction Hd as [|c ds Hc Hd IH]; cbn [app span_digits].
  - destruct r as [|c r]; [done|]. cbn [span_digits]. by rewrite Hr.
  - by rewrite Hc, IH.
Qed.

Lemma digit_not c n : digit_char c = true → ¬ (48 ≤ n ≤ 57)%N → (c =? n)%N = false.
Proof. unfold digit_char. rewrite andb_true_iff, !N.leb_le. intros [? ?] ?. apply N.eqb_neq. lia. Qed.

Lemma int_part_app i r : int_text i → match r with [] => True | c :: _ => digit_char c = false end →
  int_part (i ++ r) = Some (i, r).
Proof.
  intros (sign & c & ds & -> & Hs & Hc & Hd & H0) Hr. unfold int_part.
  assert (Hgo : ∀ sg, (if (c =? 48)%N then Some (sg ++ [c], ds ++ r)
     else if digit_char c then let '(ds, r) := span_digits (ds ++ r) in Some (sg ++ c :: ds, r) else None)
     = Some (sg ++ c :: ds, r)).
  { intros sg. destruct (N.eqb_spec c 48) as [Heq|_]; [by rewrite (H0 Heq)|]. by rewrite Hc, span_digits_app. }
  destruct Hs as [-> | ->]; cbn [app].
  - rewrite (digit_not c 45) by (done || lia). exact (Hgo []).
  - exact (Hgo [45%N]).
Qed.

Lemma frac_part_app fr r : frac_text fr →
  match r with [] => True | c :: _ => digit_char c = false ∧ (fr = [] → c ≠ 46%N) end → frac_part (fr ++ r) = (fr, r).
Proof.
  intros [->|(ds & -> & Hne & Hd)] Hr; unfold frac_part.
  - destruct r as [|c r]; [done|]. cbn [app]. by rewrite (proj2 (N.eqb_neq c 46)) by naive_solver.
  - cbn [app]. change (46 =? 46)%N with true. cbn iota. rewrite span_digits_app; [|done|by destruct r; naive_solver].
    by destruct ds.
Qed.

Lemma exp_part_app ex r : exp_text ex → ends_number r → exp_part (ex ++ r) = (ex, r).
Proof.
  intros Hex Hr. assert (Hr' : match r with [] => True | c :: _ => digit_char c = false end) by (destruct r; [done|apply Hr]).
  destruct Hex as [->|(sign & ds & -> & Hs & Hne & Hd)]; unfold exp_part.
  - destruct r as [|c r]; [done|]. cbn [app]. destruct Hr as (_ & _ & H1 & H2).
    by rewrite (proj2 (N.eqb_neq c 101) H1), (proj2 (N.eqb_neq c 69) H2).
  - cbn [app]. change ((101 =? 101) || (101 =? 69))%N with true. cbn iota. rewrite <- app_assoc.
    pose proof (span_digits_app ds r Hd Hr') as Hsp. destruct ds as [|c ds]; [done|].
    destruct Hs as [->|[->| ->]]; cbn [app] in *; change ((43 =? 43) || (43 =? 45))%N with true;
      change ((45 =? 43) || (45 =? 45))%N with true; cbn iota.
    + assert (Hc : ((c =? 43) || (c =? 45))%N = false).
      { apply Forall_inv in Hd. by rewrite !(digit_not c) by (done || lia). }
      rewrite Hc. by rewrite Hsp.
    + by rewrite Hsp.
    + by rewrite Hsp.
Qed.

(** ** Integers *)

Fixpoint uint_value (acc : Z) (u : Decimal.uint) : Z :=
  match u with
  | Decimal.Nil => acc
  | Decimal.D0 u => uint_value (10 * acc) u
  | Decimal.D1 u => uint_value (10 * acc + 1) u
  | Decimal.D2 u => uint_value (10 * acc + 2) u
  | Decimal.D3 u => uint_value (10 * acc + 3) u
  | Decimal.D4 u => uint_value (10 * acc + 4) u
  | Decimal.D5 u => uint_value (10 * acc + 5) u
  | Decimal.D6 u => uint_value (10 * acc + 6) u
  | Decimal.D7 u => uint_value (10 * acc + 7) u
  | Decimal.D8 u => uint_value (10 * acc + 8) u
  | Decimal.D9 u => uint_value (10 * acc + 9) u
  end.
Lemma uint_value_acc u p : Z.pos (Pos.of_uint_acc u p) = uint_value (Z.pos p) u.
Proof. revert p. induction u; intros p; cbn [Pos.of_uint_acc uint_value]; rewrite ?IHu; try done; f_equal; lia. Qed.
Lemma uint_value_of u : uint_value 0 u = Z.of_N (Pos.of_uint u).
Proof. induction u; cbn [Pos.of_uint uint_value]; try done; symmetry; exact (uint_value_acc _ _). Qed.
Lemma digits_value_uint u acc : digits_value acc (digits u) = uint_value acc u.
Proof. revert acc. induction u; intros acc; cbn [digits digits_value uint_value]; rewrite ?IHu; try done; f_equal; lia. Qed.
Lemma digits_value_pos p : digits_value 0 (digits (Pos.to_uint p)) = Z.pos p.
Proof. rewrite digits_value_uint, uint_value_of, DecimalPos.Unsigned.of_to. done. Qed.

(** No number begins with a zero. *)
Lemma pos_digits_head p : ∃ c ds, digits (Pos.to_uint p) = c :: ds ∧ digit_char c = true ∧ c ≠ 48%N.
Proof.
  pose proof (DecimalN.Unsigned.to_of (Pos.to_uint p)) as Hu. change (Pos.to_uint p) with (N.to_uint (N.pos p)) in Hu at 1.
  rewrite DecimalN.Unsigned.of_to in Hu. change (N.to_uint (N.pos p)) with (Pos.to_uint p) in Hu.
  pose proof (DecimalPos.Unsigned.to_uint_nonzero p) as Hz.
  destruct (Pos.to_uint p) as [|u|u|u|u|u|u|u|u|u|u] eqn:Hp; [done|..]; cbn [digits];
    try (eexists _, _; split_and!; [done..|discriminate]).
  exfalso. unfold Decimal.unorm in Hu. cbn [Decimal.nzhead] in Hu.
  destruct (Decimal.nzhead u) eqn:Hn; try discriminate; [congruence|]. by apply DecimalFacts.nzhead_nonzero in Hn.
Qed.

(** How many digits [int] is asked to read. *)
Definition int_length (z : Z) : nat := length (digits (match z with Zpos p | Zneg p => Pos.to_uint p | Z0 => N.to_uint 0 end)).

Lemma digits_value_ge ds acc : 0 ≤ acc → Forall (λ c, digit_char c = true) ds →
  acc * 10 ^ Z.of_nat (length ds) ≤ digits_value acc ds.
Proof.
  intros Hacc Hd. induction Hd as [|c ds Hc Hd IH] in acc, Hacc |- *; cbn [digits_value length]; [lia|].
  apply andb_true_iff in Hc as [H1%N.leb_le H2%N.leb_le]. specialize (IH (10 * acc + (Z.of_N c - 48)) ltac:(lia)).
  rewrite Nat2Z.inj_succ, Z.pow_succ_r by lia. nia.
Qed.
(** A number below a power of ten has few digits. *)
Lemma int_length_le z n : (0 < n)%nat → Z.abs z < 10 ^ Z.of_nat n → (int_length z ≤ n)%nat.
Proof.
  intros Hn Hz. assert (Hp : ∀ p, Z.pos p < 10 ^ Z.of_nat n → (length (digits (Pos.to_uint p)) ≤ n)%nat).
  { intros p Hlt. destruct (pos_digits_head p) as (c & ds & E & Hc & H0). pose proof (digits_chars (Pos.to_uint p)) as Hd.
    pose proof (digits_value_pos p) as Hv. rewrite E in Hd, Hv |- *. apply Forall_cons in Hd as [_ Hd].
    apply andb_true_iff in Hc as [H1%N.leb_le H2%N.leb_le]. cbn [digits_value] in Hv.
    pose proof (digits_value_ge ds (10 * 0 + (Z.of_N c - 48)) ltac:(lia) Hd) as Hge. rewrite Hv in Hge.
    assert (0 < 10 ^ Z.of_nat (length ds)) by (apply Z.pow_pos_nonneg; lia).
    assert (Hlt' : 10 ^ Z.of_nat (length ds) < 10 ^ Z.of_nat n) by nia.
    apply Z.pow_lt_mono_r_iff in Hlt'; [cbn [length]|..]; lia. }
  unfold int_length. destruct z as [|p|p]; [cbn; lia|by apply Hp..].
Qed.

Lemma int_repr_text z : int_text (int_repr z).
Proof.
  unfold int_repr, Z.to_int. destruct z as [|p|p].
  - by exists [], 48%N, []; split_and!; [|left|..].
  - destruct (pos_digits_head p) as (c & ds & E & Hc & H0). pose proof (digits_chars (Pos.to_uint p)) as Hd.
    rewrite E in Hd |- *. apply Forall_cons in Hd as [_ Hd]. exists [], c, ds. split_and!; auto. done.
  - destruct (pos_digits_head p) as (c & ds & E & Hc & H0). pose proof (digits_chars (Pos.to_uint p)) as Hd.
    rewrite E in Hd |- *. apply Forall_cons in Hd as [_ Hd]. exists [45%N], c, ds. split_and!; auto. done.
Qed.

Lemma parse_int_repr z : (int_length z ≤ max_str_digits)%nat → parse_int (int_repr z) = inr z.
Proof.
  unfold int_length, parse_int, int_repr, Z.to_int. intros Hl. destruct z as [|p|p]; [done|..].
  - destruct (pos_digits_head p) as (c & ds & E & Hc & H0). pose proof (digits_value_pos p) as Hv.
    rewrite E in Hl, Hv |- *. rewrite (digit_not c 45) by (done || lia).
    rewrite (proj2 (Nat.ltb_ge _ _)) by exact Hl. by rewrite Hv.
  - change (45 =? 45)%N with true. cbn iota. rewrite (proj2 (Nat.ltb_ge _ _)) by exact Hl. by rewrite digits_value_pos.
Qed.

(** ** Strings *)

(** An encoder of the strings that satisfy [ok] whose texts are read back. *)
Definition string_reads (ok : pystr → Prop) (es : pystr → list N) : Prop :=
  ∀ s r, ok s → ∃ t, es s ++ r = 34%N :: t ∧ scan_string t = Some (codes s, r).

Lemma hex_value_digit n : (n < 16)%N → hex_value (hex_digit n) = Some n.
Proof.
  intros Hn. assert (Hall : Forall (λ n, hex_value (hex_digit n) = Some n) (N.of_nat <$> seq 0 16)) by (repeat constructor).
  rewrite Forall_forall in Hall. apply Hall. apply list_elem_of_fmap. exists (N.to_nat n). split; [lia|]. apply elem_of_seq. lia.
Qed.
Lemma hex4_value_digits n : (n < 65536)%N →
  hex4_value (hex_digit (n / 4096 mod 16)) (hex_digit (n / 256 mod 16)) (hex_digit (n / 16 mod 16)) (hex_digit (n mod 16)) = Some n.
Proof.
  intros Hn. unfold hex4_value. rewrite !hex_value_digit by (apply N.mod_lt; lia). f_equal.
  pose proof (N.div_mod n 16). pose proof (N.div_mod (n / 16) 16). pose proof (N.div_mod (n / 256) 16). pose proof (N.div_mod (n / 4096) 16).
  rewrite !N.Div0.div_div in *. change (16 * 16)%N with 256%N in *. change (256 * 16)%N with 4096%N in *. change (4096 * 16)%N with 65536%N in *.
  rewrite (N.div_small n 65536) in * by done. lia.
Qed.

(** One escaped character. *)
Lemma scan_short c r : c ∈ [34; 92; 10; 13; 9; 12; 8]%N → scan_string (escape_char c ++ r) = cons_code c (scan_string r).
Proof. intros Hc. repeat (apply elem_of_cons in Hc as [->|Hc]; [reflexivity|]). by apply not_elem_of_nil in Hc. Qed.
Lemma scan_plain c r : c ≠ 34%N → c ≠ 92%N → (32 ≤ c)%N → scan_string (c :: r) = cons_code c (scan_string r).
Proof.
  intros H1 H2 H3. cbn [scan_string]. rewrite (proj2 (N.eqb_neq c 34) H1), (proj2 (N.ltb_ge c 32) H3), (proj2 (N.eqb_neq c 92) H2). done.
Qed.
Lemma scan_hex4 n r : (n < 65536)%N → high_surrogate n = false → scan_string (hex4 n ++ r) = cons_code n (scan_string r).
Proof.
  intros Hn Hh. unfold hex4. cbn [app scan_string]. change (92 =? 34)%N with false. change (92 <? 32)%N with false.
  change (negb (92 =? 92)%N) with false. change (negb (117 =? 117)%N) with false. cbn iota.
  rewrite hex4_value_digits by done. rewrite Hh. cbn [andb]. by repeat case_match.
Qed.
Lemma scan_pair u v r : (u < 65536)%N → high_surrogate u = true → (v < 65536)%N → low_surrogate v = true →
  scan_string (hex4 u ++ hex4 v ++ r) = cons_code (join_surrogates u v) (scan_string r).
Proof.
  intros Hu Hh Hv Hl. unfold hex4. cbn [app scan_string]. change (92 =? 34)%N with false. change (92 <? 32)%N with false.
  change (negb (92 =? 92)%N) with false. change (negb (117 =? 117)%N) with false. cbn iota.
  rewrite !hex4_value_digits by done. rewrite Hh, Hl. done.
Qed.

Lemma escape_cases c :
  c ∈ [34; 92; 10; 13; 9; 12; 8]%N ∨ ((c < 32)%N ∧ escape_char c = hex4 c) ∨
  (c ≠ 34%N ∧ c ≠ 92%N ∧ (32 ≤ c)%N ∧ escape_char c = [c]).
Proof.
  destruct (decide (c ∈ [34; 92; 10; 13; 9; 12; 8]%N)) as [|Hn]; [by left|]. right. destruct (N.lt_ge_cases c 32) as [Hlt|Hge].
  - left. split; [done|]. assert (Hall : Forall (λ c, c ∉ [34; 92; 10; 13; 9; 12; 8]%N → escape_char c = hex4 c) (N.of_nat <$> seq 0 32)).
    { repeat (constructor; [by intros Hc; (reflexivity || (exfalso; apply Hc; by apply (bool_decide_unpack _)))|]). constructor. }
    rewrite Forall_forall in Hall. apply Hall; [|done]. apply list_elem_of_fmap. exists (N.to_nat c). split; [lia|].
    apply elem_of_seq. lia.
  - right. rewrite !not_elem_of_cons in Hn. destruct Hn as (? & ? & ? & ? & ? & ? & ? & _). split_and!; try done.
    unfold escape_char. rewrite !(proj2 (N.eqb_neq c _)) by done. by rewrite (proj2 (N.ltb_ge c 32)).
Qed.
Lemma scan_escape c r : scan_string (escape_char c ++ r) = cons_code c (scan_string r).
Proof.
  destruct (escape_cases c) as [Hs|[[Hlt ->]|(? & ? & ? & ->)]]; [by apply scan_short| |by apply scan_plain].
  apply scan_hex4; [lia|]. unfold high_surrogate. by rewrite (proj2 (N.leb_gt 55296 c)) by lia.
Qed.

(** A character that is not half of a pair. *)
Definition scalar (c : N) : Prop := (c < 55296 ∨ 57344 ≤ c < 1114112)%N.
#[export] Instance scalar_dec c : Decision (scalar c).
Proof. unfold scalar. apply _. Defined.
Lemma scan_halves q m r : (q < 1024)%N → (m < 1024)%N →
  scan_string (hex4 (55296 + q) ++ hex4 (56320 + m) ++ r) =
  cons_code (join_surrogates (55296 + q) (56320 + m)) (scan_string r).
Proof.
  intros. apply scan_pair; [lia| |lia|]; unfold high_surrogate, low_surrogate;
    apply andb_true_iff; split; apply N.leb_le; lia.
Qed.
Lemma join_split c : (65536 ≤ c)%N →
  join_surrogates (55296 + (c - 65536) / 1024) (56320 + (c - 65536) mod 1024) = c.
Proof.
  intros Hc. unfold join_surrogates. pose proof (N.div_mod (c - 65536) 1024 ltac:(done)) as Hd.
  generalize dependent ((c - 65536) / 1024)%N. intros q. generalize ((c - 65536) mod 1024)%N. intros m Hd.
  replace (55296 + q - 55296)%N with q by lia. replace (56320 + m - 56320)%N with m by lia. lia.
Qed.
Lemma scan_escape_ascii c r : scalar c → scan_string (escape_ascii c ++ r) = cons_code c (scan_string r).
Proof.
  intros Hc. unfold escape_ascii. destruct ((c =? 34)%N || _ || _ || _ || _ || _ || _) eqn:He; [apply scan_escape|].
  rewrite !orb_false_iff, !N.eqb_neq in He. destruct He as [[[[[[? ?] ?] ?] ?] ?] ?].
  destruct (N.leb_spec 32 c), (N.leb_spec c 126); cbn [andb]; try (by apply scan_plain).
  all: destruct (N.ltb_spec c 65536).
  all: try (apply scan_hex4; [done|]; unfold high_surrogate; apply andb_false_iff; rewrite !N.leb_gt; destruct Hc; lia).
  all: destruct Hc as [|[_ Hc]]; [lia|].
  all: assert ((c - 65536) mod 1024 < 1024)%N by (apply N.mod_lt; lia).
  all: assert ((c - 65536) / 1024 < 1024)%N by (apply N.Div0.div_lt_upper_bound; lia).
  all: rewrite (N.mod_small ((c - 65536) / 1024)) by done; rewrite <- app_assoc.
  all: by rewrite scan_halves, join_split.
Qed.

Lemma scan_codes (f : N → list N) cs r : (∀ c r, c ∈ cs → scan_string (f c ++ r) = cons_code c (scan_string r)) →
  scan_string ((cs ≫= f) ++ 34%N :: r) = Some (cs, r).
Proof.
  induction cs as [|c cs IH]; intros Hf; [done|]. rewrite bind_cons, <- app_assoc, Hf by set_solver.
  rewrite IH by set_solver. done.
Qed.
Lemma json_string_reads : string_reads (λ _, True) json_string.
Proof.
  intros s r _. unfold json_string. exists ((codes s ≫= escape_char) ++ 34%N :: r).
  split; [cbn [app]; by rewrite <- app_assoc|]. apply scan_codes. intros. apply scan_escape.
Qed.
Lemma json_ascii_reads : string_reads (λ s, Forall scalar (codes s)) json_ascii_string.
Proof.
  intros s r Hs. unfold json_ascii_string. exists ((codes s ≫= escape_ascii) ++ 34%N :: r).
  split; [cbn [app]; by rewrite <- app_assoc|]. apply scan_codes.
  intros c r' Hc. apply scan_escape_ascii. by eapply Forall_forall in Hs.
Qed.

(** ** Values *)

Section reads.
Context `{FloatText}.

Lemma scan_int z r : (int_length z ≤ max_str_digits)%nat → ends_number r →
  scan_number float_parse (int_repr z ++ r) = Some (inr (VInt z, r)).
Proof.
  intros Hz Hr. unfold scan_number. rewrite int_part_app by (apply int_repr_text || by destruct r; [|apply Hr]).
  change r with ([] ++ r) at 1. rewrite frac_part_app; [|by left|by destruct r; [|split; [|intros _]; apply Hr]].
  change r with ([] ++ r) at 1. rewrite exp_part_app by (done || by left). cbn [app]. by rewrite parse_int_repr.
Qed.

Lemma scan_float f r : is_finite f = true → ends_number r →
  scan_number float_parse (float_repr f ++ r) = Some (inr (VFloat f, r)).
Proof.
  intros Hf Hr. destruct (float_repr_text f Hf) as (i & fr & ex & E & Hi & Hfr & Hex & Hne).
  unfold scan_number. rewrite E, <- !app_assoc.
  assert (H1 : ∀ c k, fr ++ ex ++ r = c :: k → digit_char c = false).
  { intros c k Hk. destruct Hfr as [->|(ds & -> & _)]; [|by injection Hk as <-].
    destruct Hex as [->|(sg & ds & -> & _)]; [done|by injection Hk as <-]. }
  rewrite int_part_app; [|done|by destruct (fr ++ ex ++ r) eqn:Hk; [|eapply H1]].
  rewrite frac_part_app; [|done|].
  2: { destruct Hex as [->|(sg & ds & -> & _)]; [|done]. by destruct r; [|split; [|intros _]; apply Hr]. }
  rewrite exp_part_app by done. rewrite <- E, float_parse_repr by done. by destruct (fr ++ ex) eqn:?.
Qed.

(** What can be read back: every integer has few enough digits, strings satisfy [ok] and
    no key occurs twice. *)
Fixpoint readable (ok : pystr → Prop) (v : pyval) : Prop :=
  match v with
  | VInt z => (int_length z ≤ max_str_digits)%nat
  | VStr s => ok s
  | VList l => fold_right (λ v P, readable ok v ∧ P) True l
  | VDict d => NoDup d.*1 ∧ fold_right (λ kv P, (ok kv.1 ∧ readable ok kv.2) ∧ P) True d
  | _ => True
  end.
(** How deep the containers are nested. *)
Fixpoint nesting (v : pyval) : nat :=
  match v with
  | VList l => S (fold_right (λ v n, nesting v `max` n)%nat O l)
  | VDict d => S (fold_right (λ kv n, nesting kv.2 `max` n)%nat O d)
  | _ => O
  end.
Lemma readable_list ok l : readable ok (VList l) ↔ Forall (readable ok) l.
Proof. apply fold_right_Forall. Qed.
Lemma readable_dict ok d :
  readable ok (VDict d) ↔ NoDup d.*1 ∧ Forall (λ kv, ok kv.1 ∧ readable ok kv.2) d.
Proof. cbn [readable]. by rewrite (fold_right_Forall (λ kv : pystr * pyval, ok kv.1 ∧ readable ok kv.2) d). Qed.
Lemma nesting_Forall {A} (f : A → nat) l n : (fold_right (λ x m, f x `max` m) O l ≤ n)%nat ↔ Forall (λ x, f x ≤ n)%nat l.
Proof. induction l as [|x l IH]; simpl; [by split; [constructor|lia]|]. rewrite Forall_cons, <- IH. lia. Qed.

(** Any separators that are a comma and a colon with white space. *)
Context (wi wk : list N) (ok : pystr → Prop) (es : pystr → list N).
Hypothesis wi_space : Forall (λ c, json_space c = true) wi.
Hypothesis wk_space : Forall (λ c, json_space c = true) wk.
Hypothesis es_reads : string_reads ok es.
Abbreviation text := (json_text (44%N :: wi) (58%N :: wk) es).

Lemma skip_spaces w l : Forall (λ c, json_space c = true) w → skip_space (w ++ l) = skip_space l.
Proof. induction 1 as [|c w Hc Hw IH]; [done|]. cbn [app skip_space]. by rewrite Hc. Qed.

Lemma num_char_head c : num_char c = true → json_space c = false ∧ (c ≠ 93%N ∧ c ≠ 65279%N) ∧ c ≠ 34%N ∧ c ≠ 91%N ∧ c ≠ 123%N.
Proof.
  unfold num_char, digit_char, json_space. rewrite !orb_true_iff, andb_true_iff, !N.leb_le, !N.eqb_eq, !orb_false_iff, !N.eqb_neq. lia.
Qed.
Lemma es_head s : ok s → ∃ k, es s = 34%N :: k.
Proof.
  intros Hs. destruct (es_reads s [] Hs) as (t & E & _). rewrite app_nil_r in E. by exists t.
Qed.
Lemma number_head v : match v with VInt _ => True | VFloat f => is_finite f = true | _ => False end →
  ∃ c k, text v = c :: k ∧ num_char c = true.
Proof.
  intros Hv. assert (Hne : text v ≠ [] ∧ Forall (λ c, num_char c = true) (text v)).
  { destruct v; try done; cbn [json_text].
    - split; [apply int_repr_nonempty|apply int_repr_num].
    - by destruct (json_float_chars f Hv) as (_ & ? & ?). }
  destruct Hne as [Hne Hall]. destruct (text v) as [|c k]; [done|]. apply Forall_inv in Hall. by exists c, k.
Qed.
(** A value starts with no white space and is no closing bracket. *)
Lemma text_head v : readable ok v → ∃ c k, text v = c :: k ∧ json_space c = false ∧ c ≠ 93%N ∧ c ≠ 65279%N.
Proof.
  intros Hv. assert (Hn : match v with VInt _ => True | VFloat f => is_finite f = true | _ => False end →
    ∃ c k, text v = c :: k ∧ json_space c = false ∧ c ≠ 93%N ∧ c ≠ 65279%N).
  { intros (c & k & E & Hc)%number_head. apply num_char_head in Hc as (? & [? ?] & _). by exists c, k. }
  destruct v as [|[]|z|f|s|l|d]; try (by eexists _, _; split_and!; [reflexivity|..]); try by apply Hn.
  - destruct (is_finite f) eqn:Hf; [by apply Hn|].
    destruct f as [| [] | |]; try done; by eexists _, _; split_and!; [reflexivity|..].
  - destruct (es_head s Hv) as [k Hk]. exists 34%N, k. by split_and!.
Qed.
Lemma skip_text v r : readable ok v → skip_space (text v ++ r) = text v ++ r.
Proof. intros Hv. destruct (text_head v Hv) as (c & k & -> & Hc & _). cbn [app skip_space]. by rewrite Hc. Qed.

Section items.
Variable sc : list N → reading pyval.
Definition scans (v : pyval) : Prop := ∀ r, ends_number r → sc (text v ++ r) = inr (v, r).

Lemma scan_array_text l : ∀ fuel r, l ≠ [] → (length l ≤ fuel)%nat → Forall (readable ok) l → Forall scans l →
  scan_array sc fuel (join (44%N :: wi) (map text l) ++ 93%N :: r) = inr (l, r).
Proof.
  induction l as [|v l IH]; intros [|fuel] r Hne Hf Hok Hsc; try done; [simpl in Hf; lia|].
  apply Forall_cons in Hok as [_ Hok], Hsc as [Hv Hsc]. destruct l as [|v2 l].
  - cbn [map join scan_array]. by rewrite Hv.
  - change (join _ (map text (v :: v2 :: l))) with (text v ++ (44%N :: wi) ++ join (44%N :: wi) (map text (v2 :: l))).
    rewrite <- !app_assoc. cbn [scan_array]. rewrite Hv by done. cbn [sum_bind fst snd app skip_space].
    change (json_space 44) with false. change (44 =? 93)%N with false. change (44 =? 44)%N with true. cbn iota.
    rewrite skip_spaces by done.
    assert (Hs : skip_space (join (44%N :: wi) (map text (v2 :: l)) ++ 93%N :: r) = join (44%N :: wi) (map text (v2 :: l)) ++ 93%N :: r).
    { assert (Hj : ∃ k, join (44%N :: wi) (map text (v2 :: l)) = text v2 ++ k)
        by (destruct l; [exists []; by rewrite app_nil_r|by eexists]).
      destruct Hj as [k ->]. rewrite <- app_assoc. apply skip_text. by apply Forall_inv in Hok. }
    rewrite Hs, IH by (done || simpl in *; lia). done.
Qed.

Definition item_text (kv : pystr * pyval) : list N := es kv.1 ++ (58%N :: wk) ++ text kv.2.

Lemma scan_object_text d : ∀ fuel d0 r, d ≠ [] → (length d ≤ fuel)%nat → NoDup (d0 ++ d).*1 →
  Forall (λ kv, ok kv.1 ∧ readable ok kv.2) d → Forall (λ kv, scans kv.2) d →
  scan_object sc fuel d0 (join (44%N :: wi) (map item_text d) ++ 125%N :: r) = inr (d0 ++ d, r).
Proof.
  induction d as [|[k v] d IH]; intros [|fuel] d0 r Hne Hf Hnd Hok Hsc; try done; [simpl in Hf; lia|].
  apply Forall_cons in Hok as [[Hk Hv] Hok], Hsc as [Hs Hsc]. cbn [fst snd] in *.
  assert (Hset : dict_set d0 k v = d0 ++ [(k, v)]).
  { apply dict_set_new, dict_get_None. rewrite fmap_app, fmap_cons in Hnd. apply NoDup_app in Hnd as (_ & Hdis & _).
    intros Hin. apply (Hdis k Hin). left. }
  assert (Hone : ∀ t, ends_number t → ∃ t', (item_text (k, v)) ++ t = 34%N :: t' ∧ scan_string t' = Some (codes k, 58%N :: wk ++ text v ++ t)).
  { intros t _. destruct (es_reads k (58%N :: wk ++ text v ++ t) Hk) as (t' & E & Hread). exists t'.
    unfold item_text. cbn [fst snd]. by rewrite <- !app_assoc. }
  assert (Hstep : ∀ c t, json_space c = false → ends_number (c :: t) →
    scan_object sc (S fuel) d0 (item_text (k, v) ++ c :: t) =
    if (c =? 125)%N then inr (d0 ++ [(k, v)], t)
    else if (c =? 44)%N then scan_object sc fuel (d0 ++ [(k, v)]) (skip_space t) else inl JSONDecodeError).
  { intros c t Hc Ht. destruct (Hone (c :: t) Ht) as (t' & -> & Hread). cbn [scan_object].
    change (negb (34 =? 34)%N) with false. cbn iota. rewrite Hread. cbn [skip_space]. change (json_space 58) with false.
    cbn iota. change (negb (58 =? 58)%N) with false. cbn iota. rewrite skip_spaces, skip_text by done.
    rewrite Hs by done. cbn [sum_bind fst snd skip_space]. rewrite Hc.
    replace (PyStr (codes k)) with k by by destruct k. by rewrite Hset. }
  destruct d as [|kv2 d].
  - cbn [map join]. by rewrite Hstep.
  - change (join _ (map item_text ((k, v) :: kv2 :: d))) with (item_text (k, v) ++ 44%N :: wi ++ join (44%N :: wi) (map item_text (kv2 :: d))).
    rewrite <- app_assoc. cbn [app]. rewrite <- app_assoc, Hstep by done.
    change (44 =? 125)%N with false. change (44 =? 44)%N with true. cbn iota. rewrite skip_spaces by done.
    assert (Hsk : skip_space (join (44%N :: wi) (map item_text (kv2 :: d)) ++ 125%N :: r) = join (44%N :: wi) (map item_text (kv2 :: d)) ++ 125%N :: r).
    { assert (Hj : ∃ k, join (44%N :: wi) (map item_text (kv2 :: d)) = 34%N :: k).
      { apply Forall_inv in Hok as [Hk2 _]. destruct (es_head _ Hk2) as [k2 E2]. destruct d; cbn [map join]; unfold item_text at 1; rewrite E2; by eexists. }
      by destruct Hj as [k' ->]. }
    rewrite Hsk, IH; try done; [by rewrite <- app_assoc|simpl in *; lia|by rewrite <- app_assoc].
Qed.
End items.

Lemma join_length {A} (f : A → list N) sep l : Forall (λ x, f x ≠ []) l → (length l ≤ length (join sep (map f l)))%nat.
Proof.
  induction 1 as [|x l Hx Hl IH]; [done|]. destruct (f x) as [|c k] eqn:E; [done|].
  destruct l as [|y l]; cbn [map join length] in *; rewrite E, ?length_app; cbn [length]; lia.
Qed.

Lemma scan_once_number depth v r : match v with VInt _ => True | VFloat f => is_finite f = true | _ => False end →
  scan_number float_parse (text v ++ r) = Some (inr (v, r)) → scan_once float_parse depth (text v ++ r) = inr (v, r).
Proof.
  intros (c & k & E & Hc)%number_head. rewrite E. apply num_char_head in Hc as (_ & _ & H1 & H2 & H3). cbn [app]. intros Hi.
  destruct depth; cbn [scan_once];
    rewrite (proj2 (N.eqb_neq c 34) H1), (proj2 (N.eqb_neq c 91) H2), (proj2 (N.eqb_neq c 123) H3); cbn [orb]; by rewrite Hi.
Qed.

(** Inside a container. *)
Lemma scan_once_list depth l k c : json_space c = false → c ≠ 93%N → l = c :: k →
  scan_once float_parse (S depth) (91%N :: l) =
  let? vl := scan_array (scan_once float_parse depth) (S (length l)) l in inr (VList vl.1, vl.2).
Proof.
  intros Hc H93 ->. cbn [scan_once]. change (91 =? 34)%N with false. change ((91 =? 91)%N || (91 =? 123)%N) with true.
  change (91 =? 91)%N with true. cbn [skip_space]. by rewrite Hc, (proj2 (N.eqb_neq c 93) H93).
Qed.
Lemma scan_once_dict depth l k : l = 34%N :: k →
  scan_once float_parse (S depth) (123%N :: l) =
  let? dl := scan_object (scan_once float_parse depth) (S (length l)) [] l in inr (VDict dl.1, dl.2).
Proof. by intros ->. Qed.

Lemma text_nonempty v : readable ok v → text v ≠ [].
Proof. intros (c & k & -> & _)%text_head. done. Qed.

(** Scanning the text of a value gives the value and what follows it. *)
Theorem scan_text v depth r : readable ok v → (nesting v ≤ depth)%nat → ends_number r →
  scan_once float_parse depth (text v ++ r) = inr (v, r).
Proof.
  revert depth r. induction v as [|b|z|f|s|l IH|d IH] using pyval_ind'; intros depth r Hv Hn Hr.
  - by destruct depth.
  - by destruct depth, b.
  - by apply scan_once_number; [|apply scan_int].
  - destruct (is_finite f) eqn:Hf; [|by destruct depth, f as [| [] | |]].
    apply scan_once_number; [done|]. destruct (json_float_chars f Hf) as [E _]. cbn [json_text]. rewrite E. by apply scan_float.
  - cbn [json_text]. destruct (es_reads s r Hv) as (t & -> & Ht).
    destruct depth; cbn [scan_once]; change (34 =? 34)%N with true; cbn iota; rewrite Ht; by destruct s.
  - apply readable_list in Hv. destruct depth as [|depth]; [by inversion Hn|]. cbn [nesting] in Hn.
    apply le_S_n, nesting_Forall in Hn. destruct l as [|v l]; [done|].
    assert (Hsc : Forall (scans (scan_once float_parse depth)) (v :: l)).
    { rewrite Forall_forall in *. intros x Hx r' Hr'. by apply IH; auto. }
    cbn [json_text app]. rewrite <- app_assoc. cbn [app]. change (map _ (v :: l)) with (map text (v :: l)).
    destruct (text_head v) as (c & k & E & Hc & H93 & _); [by apply Forall_inv in Hv|].
    assert (Hj : ∃ k, join (44%N :: wi) (map text (v :: l)) ++ 93%N :: r = c :: k) by (destruct l; cbn [map join]; rewrite E; by eexists).
    destruct Hj as [k' Ek]. rewrite (scan_once_list depth _ _ c Hc H93 Ek), scan_array_text; try done.
    rewrite length_app. etrans; [apply (join_length text (44%N :: wi))|lia]. eapply Forall_impl; [exact Hv|apply text_nonempty].
  - apply readable_dict in Hv as [Hnd Hv]. destruct depth as [|depth]; [by inversion Hn|]. cbn [nesting] in Hn.
    apply le_S_n, (nesting_Forall (λ kv : pystr * pyval, nesting kv.2)) in Hn. destruct d as [|kv d]; [done|].
    assert (Hsc : Forall (λ kv, scans (scan_once float_parse depth) kv.2) (kv :: d)).
    { rewrite Forall_forall in *. intros x Hx r' Hr'. by apply IH; auto; apply Hv. }
    cbn [json_text app]. rewrite <- app_assoc. cbn [app]. change (map _ (kv :: d)) with (map item_text (kv :: d)).
    assert (Hitem : Forall (λ kv, item_text kv ≠ []) (kv :: d)).
    { eapply Forall_impl; [exact Hv|]. intros x [Hx _]. unfold item_text. by destruct (es_head _ Hx) as [k ->]. }
    assert (Hj : ∃ k, join (44%N :: wi) (map item_text (kv :: d)) ++ 125%N :: r = 34%N :: k).
    { apply Forall_inv in Hv as [Hk _]. destruct (es_head _ Hk) as [k E]. destruct d; cbn [map join]; unfold item_text at 1; rewrite E; by eexists. }
    destruct Hj as [k Ek]. rewrite (scan_once_dict depth _ k Ek), scan_object_text; try done.
    rewrite length_app. pose proof (join_length item_text (44%N :: wi) _ Hitem). lia.
Qed.

(** [json.loads] reverses [json.dumps], whatever white space follows. *)
Theorem loads_text v depth w : readable ok v → (nesting v ≤ depth)%nat → Forall (λ c, json_space c = true) w →
  loads float_parse depth (PyStr (text v ++ w)) = inr v.
Proof.
  intros Hv Hn Hw. pose proof (skip_text v w Hv) as Hk. assert (He : ends_number w).
  { destruct Hw as [|c w Hc _]; [done|]. unfold ends_number, digit_char. unfold json_space in Hc.
    rewrite !orb_true_iff, !N.eqb_eq in Hc. by destruct_or!; subst c. }
  pose proof (scan_text v depth w Hv Hn He) as Hs. unfold loads. cbn [codes]. rewrite Hk, Hs. cbn [sum_bind fst snd].
  rewrite <- (app_nil_r w), skip_spaces by done. destruct (text_head v Hv) as (c & k & E & _ & _ & Hb).
  rewrite E. cbn [app]. by rewrite (proj2 (N.eqb_neq c 65279) Hb).
Qed.
End reads.
