(* ===== verification/PlainFloats.v ===== *)
(** A concrete text of finite floats, their sign, mantissa and exponent, that satisfies
    what is assumed of [float.__repr__]: it is a number, reads back, and is never the
    text of an integer. *)
From Stdlib Require Import SpecFloat.
From S2P Require Import Prelude.
From S2P Require Import Python.
From S2P Require Import Json.
From S2P Require Import JsonLoads.

Definition plain_sign (s : bool) : list N := if s then [45%N] else [].
Definition plain_float_repr (f : spec_float) : list N :=
  match f with
  | S754_zero s => plain_sign s ++ [48; 46; 48]%N
  | S754_finite s m e => plain_sign s ++ digits (Pos.to_uint m) ++ 101%N :: int_repr e
  | _ => []
  end.

(** Reading it. *)
Definition split_sign (l : list N) : bool * list N :=
  match l with c :: l' => if (c =? 45)%N then (true, l') else (false, l) | [] => (false, []) end.
Definition signed_value (l : list N) : Z :=
  let '(s, ds) := split_sign l in if s then - digits_value 0 ds else digits_value 0 ds.
Definition plain_float_parse (l : list N) : spec_float :=
  let '(s, l) := split_sign l in
  let '(ds, r) := span_digits l in
  match digits_value 0 ds with
  | Zpos m => S754_finite s m (signed_value (drop 1 r))
  | _ => S754_zero s
  end.

Lemma split_sign_digits s ds c r : digit_char c = true → split_sign (plain_sign s ++ (c :: ds) ++ r) = (s, (c :: ds) ++ r).
Proof. intros Hc. destruct s; [done|]. cbn. by rewrite (digit_not c 45) by (done || lia). Qed.

Lemma signed_value_repr z : signed_value (int_repr z) = z.
Proof.
  unfold signed_value, int_repr, Z.to_int. destruct z as [|p|p]; [done|..].
  - destruct (pos_digits_head p) as (c & ds & E & Hc & _). pose proof (digits_value_pos p) as Hv. rewrite E in Hv |- *.
    pose proof (split_sign_digits false ds c [] Hc) as Hs. cbn [plain_sign app] in Hs. rewrite app_nil_r in Hs. by rewrite Hs.
  - cbn [split_sign]. change (45 =? 45)%N with true. cbn iota. by rewrite digits_value_pos.
Qed.

Lemma plain_parse_repr f : is_finite f = true → plain_float_parse (plain_float_repr f) = f.
Proof.
  destruct f as [s| | |s m e]; try done; intros _; [by destruct s|]. unfold plain_float_parse. cbn [plain_float_repr].
  destruct (pos_digits_head m) as (c & ds & E & Hc & _). pose proof (digits_chars (Pos.to_uint m)) as Hd.
  pose proof (digits_value_pos m) as Hv. rewrite E in Hd, Hv |- *. rewrite split_sign_digits, span_digits_app by done.
  rewrite Hv. cbn [drop]. by rewrite drop_0, signed_value_repr.
Qed.

Lemma plain_text f : is_finite f = true →
  ∃ i fr ex, plain_float_repr f = i ++ fr ++ ex ∧ int_text i ∧ frac_text fr ∧ exp_text ex ∧ fr ++ ex ≠ [].
Proof.
  assert (Hs : ∀ s, plain_sign s = [] ∨ plain_sign s = [45%N]) by (intros []; [by right|by left]).
  destruct f as [s| | |s m e]; try done; intros _; cbn [plain_float_repr].
  - exists (plain_sign s ++ [48%N]), [46; 48]%N, []. split_and!; [by rewrite <- app_assoc|by exists (plain_sign s), 48%N, []| |by left|done].
    right. exists [48%N]. split; [done|]. split; [done|by repeat constructor].
  - destruct (pos_digits_head m) as (c & ds & E & Hc & H0). pose proof (digits_chars (Pos.to_uint m)) as Hd.
    rewrite E in Hd |- *. apply Forall_cons in Hd as [_ Hd].
    exists (plain_sign s ++ c :: ds), [], (101%N :: int_repr e). split_and!; [by rewrite <- app_assoc| |by left| |done].
    + by exists (plain_sign s), c, ds.
    + right. destruct (int_repr_text e) as (sg & c' & ds' & Ei & Hsg & Hc' & Hd' & _). exists sg, (c' :: ds').
      split_and!; [by rewrite Ei|destruct Hsg as [->| ->]; auto|split; [done|by constructor]].
Qed.

Lemma plain_float_repr_chars f : is_finite f = true →
  plain_float_repr f ≠ [] ∧ Forall (λ c, num_char c = true) (plain_float_repr f).
Proof.
  assert (Hs : ∀ s, Forall (λ c, num_char c = true) (plain_sign s)) by (intros []; by repeat constructor).
  destruct f as [s| | |s m e]; try done; intros _; simpl; split; try (by destruct s).
  - apply Forall_app_2; [done|by repeat constructor].
  - by destruct s, (digits _).
  - apply Forall_app_2; [done|]. apply Forall_app_2; [|constructor; [done|apply int_repr_num]].
    eapply Forall_impl; [apply digits_chars|]. apply digit_num.
Qed.

#[local] Program Instance plain_floats : FloatRepr := {| float_repr := plain_float_repr |}.
Next Obligation. apply plain_float_repr_chars. Qed.
Next Obligation. intros [s| | |s m e]; try done; intros _; set_solver. Qed.
Next Obligation.
  intros f g Hf Hg Heq. by rewrite <- (plain_parse_repr f Hf), Heq, plain_parse_repr.
Qed.
#[local] Program Instance plain_texts : FloatText := {| float_parse := plain_float_parse |}.
Next Obligation. apply plain_text. Qed.
Next Obligation. apply plain_parse_repr. Qed.
