(* ===== verification/Chat.v ===== *)
(** gateway/schemas/chat.py: the supported request fields, their validation, and
    the payloads sent upstream. *)
From Stdlib Require Import SpecFloat.
From S2P Require Import Prelude.
From S2P Require Import Python.
From S2P Require Import Errors.

(** * Data *)

Inductive role := System | User | Assistant.

Record chat_message := ChatMessage {
  cm_role : role;
  cm_content : pystr;
}.

(** [so_set]: the client supplied [include_usage]. *)
Record stream_options := StreamOptions {
  so_include_usage : bool;
  so_set : bool;
}.

Inductive stop_value :=
| StopStr (s : pystr)
| StopList (l : list pystr).

(** The fields, in the order of the class body. *)
Inductive field :=
| FModel | FMessages | FTemperature | FTopP | FMaxTokens | FStop | FSeed | FN | FStream
| FStreamOptions.

#[export] Instance field_eq_dec : EqDecision field.
Proof. solve_decision. Defined.

Definition fields : list field :=
  [FModel; FMessages; FTemperature; FTopP; FMaxTokens; FStop; FSeed; FN; FStream; FStreamOptions].

Definition field_name (f : field) : pystr :=
  match f with
  | FModel => "model" | FMessages => "messages" | FTemperature => "temperature"
  | FTopP => "top_p" | FMaxTokens => "max_tokens" | FStop => "stop" | FSeed => "seed"
  | FN => "n" | FStream => "stream" | FStreamOptions => "stream_options"
  end%py.

(** [ChatCompletionRequest]; [cr_set] is pydantic's [model_fields_set], the fields
    the client supplied. *)
Record chat_request := ChatRequest {
  cr_model : pystr;
  cr_messages : list chat_message;
  cr_temperature : spec_float;
  cr_top_p : spec_float;
  cr_max_tokens : option Z;
  cr_stop : option stop_value;
  cr_seed : option Z;
  cr_n : Z;
  cr_stream : bool;
  cr_stream_options : option stream_options;
  cr_set : list field;
}.

(** * Validation *)

(** [ChatMessage.reject_blank_content] and [ChatCompletionRequest.reject_blank_model]. *)
Definition reject_blank_content (value : pystr) : exn + pystr :=
  if negb (str_truthy (str_strip value)) then inl ValueError else inr value.
Definition reject_blank_model (value : pystr) : exn + pystr :=
  if negb (str_truthy (str_strip value)) then inl ValueError else inr value.

Definition validate_stop (value : option stop_value) : exn + option stop_value :=
  match value with
  | None => inr None
  | Some v =>
      let values := match v with StopStr s => [s] | StopList l => l end in
      match values with
      | [] => inl ValueError
      | _ => if existsb (λ item, negb (str_truthy (str_strip item))) values
             then inl ValueError else inr value
      end
  end.

Definition validate_stream_options (r : chat_request) : exn + chat_request :=
  match cr_stream_options r with
  | Some _ => if negb (cr_stream r) then inl ValueError else inr r
  | None => inr r
  end.

Definition accepts {A} (v : exn + A) : bool := match v with inr _ => true | inl _ => false end.

(** The [Field] constraints: lengths, and the bounds of the numbers. *)
Definition float_one : spec_float := S754_finite false 4503599627370496 (-52).
Definition float_two : spec_float := S754_finite false 4503599627370496 (-51).
Definition float_in (lo hi x : spec_float) : bool := SFleb lo x && SFleb x hi.
Definition field_constraints (r : chat_request) : bool :=
  str_truthy (cr_model r)
  && negb (bool_decide (cr_messages r = []))
  && forallb (λ m, str_truthy (cm_content m)) (cr_messages r)
  && float_in (S754_zero false) float_two (cr_temperature r)
  && float_in (S754_zero false) float_one (cr_top_p r)
  && match cr_max_tokens r with Some m => 0 <? m | None => true end
  && (0 <? cr_n r).

(** A body of the right types is accepted when the required fields, those without
    a default, are supplied and no constraint and no validator rejects it. *)
Definition required_fields (r : chat_request) : bool :=
  bool_decide (FModel ∈ cr_set r) && bool_decide (FMessages ∈ cr_set r).
Definition request_valid (r : chat_request) : bool :=
  field_constraints r
  && required_fields r
  && forallb (λ m, accepts (reject_blank_content (cm_content m))) (cr_messages r)
  && accepts (reject_blank_model (cr_model r))
  && accepts (validate_stop (cr_stop r))
  && accepts (validate_stream_options r).

(** * Payloads *)

Definition role_value (r : role) : pystr :=
  match r with System => "system" | User => "user" | Assistant => "assistant" end%py.
Definition message_value (m : chat_message) : pyval :=
  VDict [("role", VStr (role_value (cm_role m))); ("content", VStr (cm_content m))]%py.
Definition stop_json (s : stop_value) : pyval :=
  match s with StopStr s => VStr s | StopList l => VList (VStr <$> l) end.
Definition options_value (o : stream_options) : pyval :=
  VDict (if so_set o then [("include_usage"%py, VBool (so_include_usage o))] else []).

(** The JSON value of a field, [None] for Python's [None]. *)
Definition field_value (r : chat_request) (f : field) : option pyval :=
  match f with
  | FModel => Some (VStr (cr_model r))
  | FMessages => Some (VList (message_value <$> cr_messages r))
  | FTemperature => Some (VFloat (cr_temperature r))
  | FTopP => Some (VFloat (cr_top_p r))
  | FMaxTokens => VInt <$> cr_max_tokens r
  | FStop => stop_json <$> cr_stop r
  | FSeed => VInt <$> cr_seed r
  | FN => Some (VInt (cr_n r))
  | FStream => Some (VBool (cr_stream r))
  | FStreamOptions => options_value <$> cr_stream_options r
  end.

(** A field that is supplied and not [None]. *)
Definition supplied (r : chat_request) (f : field) : option pyval :=
  if bool_decide (f ∈ cr_set r) then field_value r f else None.

(** [BaseModel.model_dump(mode="json", exclude_none=True, exclude_unset=True)] is
    pydantic's; documented of it: the result maps the name of every supplied
    field that is not [None] to its JSON value, and nothing else. *)
Class ModelDump := {
  model_dump : chat_request → pydict;
  model_dump_field r f : dict_get (model_dump r) (field_name f) = supplied r f;
  model_dump_keys r : NoDup (model_dump r).*1;
  model_dump_only r k v : dict_get (model_dump r) k = Some v → ∃ f, k = field_name f;
}.

Section payloads.
Context `{ModelDump}.

Definition to_upstream_payload (r : chat_request) : pydict := model_dump r.

Definition to_batch_shared_payload (r : chat_request) : pydict :=
  let payload := to_upstream_payload r in
  let payload := dict_pop payload "messages" in
  let payload := dict_pop payload "stream" in
  let payload := dict_pop payload "stream_options" in
  dict_pop payload "n".
End payloads.

(** The implementation of the interface that dumps the fields in order. *)
Definition plain_dump (r : chat_request) : pydict :=
  omap (λ f, (λ v, (field_name f, v)) <$> supplied r f) fields.

(** * Lemmas *)

Lemma field_name_inj f g : field_name f = field_name g → f = g.
Proof. by destruct f, g. Qed.

Lemma in_fields f : f ∈ fields.
Proof. apply (bool_decide_unpack _). by destruct f. Qed.

Definition batch_dropped : list field := [FMessages; FStream; FStreamOptions; FN].

Section lemmas.
Context `{ModelDump}.

Lemma shared_keys r : NoDup (to_batch_shared_payload r).*1.
Proof. unfold to_batch_shared_payload. do 4 apply dict_pop_keys. apply model_dump_keys. Qed.

(** The shared payload has the supplied fields except the four dropped ones. *)
Lemma shared_field r f :
  dict_get (to_batch_shared_payload r) (field_name f) =
  if decide (f ∈ batch_dropped) then None else supplied r f.
Proof.
  unfold to_batch_shared_payload, to_upstream_payload. rewrite !dict_get_pop, model_dump_field.
  by destruct f.
Qed.

Lemma shared_only r k v :
  dict_get (to_batch_shared_payload r) k = Some v → ∃ f, k = field_name f.
Proof.
  unfold to_batch_shared_payload, to_upstream_payload. rewrite !dict_get_pop.
  repeat case_decide; try done. apply model_dump_only.
Qed.
End lemmas.

(** [plain_dump] meets the interface. *)
Lemma plain_dump_elem r k v :
  (k, v) ∈ plain_dump r ↔ ∃ f, k = field_name f ∧ supplied r f = Some v.
Proof.
  unfold plain_dump. rewrite list_elem_of_omap. split.
  - intros (f & _ & Hf). destruct (supplied r f) as [v'|] eqn:Hs; [|done].
    injection Hf as <- <-. eauto.
  - intros (f & -> & Hs). exists f. rewrite Hs. split; [apply in_fields|done].
Qed.

Lemma plain_dump_keys r : NoDup (plain_dump r).*1.
Proof.
  assert (Hsub : (plain_dump r).*1 `sublist_of` field_name <$> fields).
  { unfold plain_dump. generalize fields. induction l as [|f l IH]; [done|]. simpl.
    destruct (supplied r f); simpl; [by apply sublist_skip|by apply sublist_cons]. }
  eapply sublist_NoDup; [|exact Hsub]. apply (bool_decide_unpack _). vm_compute. exact I.
Qed.

#[local] Program Instance plain_model_dump : ModelDump := {| model_dump := plain_dump |}.
Next Obligation.
  intros r f. apply option_eq. intros v. rewrite dict_get_in by apply plain_dump_keys.
  rewrite plain_dump_elem. split; [by intros (g & ->%field_name_inj & ?)|eauto].
Qed.
Next Obligation. apply plain_dump_keys. Qed.
Next Obligation.
  intros r k v. rewrite dict_get_in by apply plain_dump_keys. rewrite plain_dump_elem.
  intros (f & ? & _). eauto.
Qed.
