(* ===== verification/Compatibility.v ===== *)
(** gateway/batching/eligibility.py and the [compatibility_key] of
    gateway/batching/dynamic.py: which requests may be batched, and which of them
    together. *)
From Stdlib Require Import SpecFloat.
From S2P Require Import Prelude.
From S2P Require Import Python.
From S2P Require Import Json.
From S2P Require Import JsonLoads.
From S2P Require Import PlainFloats.
From S2P Require Import Errors.
From S2P Require Import Chat.

(** * Eligibility *)

Inductive batch_decision := Eligible | Bypass.
Inductive eligibility_reason := REligible | RDisabled | RStreaming | RNGt1.

Record batch_eligibility := BatchEligibility {
  be_decision : batch_decision;
  be_reason : eligibility_reason;
}.

(** [BatchEligibility.eligible]. *)
Definition eligible (e : batch_eligibility) : bool :=
  match be_decision e with Eligible => true | Bypass => false end.

Definition batching_eligibility (r : chat_request) (enabled : bool) : batch_eligibility :=
  if negb enabled then BatchEligibility Bypass RDisabled
  else if cr_stream r then BatchEligibility Bypass RStreaming
  else if 1 <? cr_n r then BatchEligibility Bypass RNGt1
  else BatchEligibility Eligible REligible.

(** * Compatibility *)

Section key.
Context `{FloatRepr, ModelDump}.

Definition compatibility_key (tenant_id : pystr) (r : chat_request) : pystr :=
  let canonical_shared := json_dumps true (VDict (to_batch_shared_payload r)) in
  json_dumps false (VList [VStr tenant_id; VStr canonical_shared]).

(** ** The values of the shared payload *)

Definition flat (v : pyval) : Prop := sort_keys v = v ∧ finite_val v.

Lemma float_in_finite lo hi x :
  is_finite lo = true → is_finite hi = true → float_in lo hi x = true → is_finite x = true.
Proof. unfold float_in. by destruct lo, hi, x as [| [] | |]. Qed.

Lemma flat_strings l : flat (VList (VStr <$> l)).
Proof.
  split; simpl.
  - f_equal. rewrite <- list_fmap_compose. by apply list_fmap_ext.
  - induction l; simpl; auto.
Qed.

Lemma supplied_flat r f v :
  request_valid r = true → f ∉ batch_dropped → supplied r f = Some v → flat v.
Proof.
  unfold request_valid, field_constraints. rewrite !andb_true_iff.
  intros ((((([[[[[[_ _] _] Ht] Hp] _] _] & _) & _) & _) & _) & _) Hf. unfold supplied.
  apply float_in_finite in Ht, Hp; [|done..].
  case_bool_decide; [|done]. destruct f; simpl;
    try (destruct (cr_max_tokens r)); try (destruct (cr_seed r)); try (destruct (cr_stop r) as [[]|]);
    simpl; intros Hv; simplify_eq; try (by split); try (destruct Hf; set_solver).
  all: apply flat_strings.
Qed.

Lemma shared_flat r : request_valid r = true →
  Forall (λ kv : pystr * pyval, flat kv.2) (to_batch_shared_payload r).
Proof.
  intros Hr. apply Forall_forall. intros [k v] Hkv. apply dict_get_in in Hkv; [|apply shared_keys].
  destruct (shared_only _ _ _ Hkv) as [f ->]. rewrite shared_field in Hkv.
  case_decide; [done|]. by eapply supplied_flat.
Qed.

Lemma flat_sorted (d : pydict) : Forall (λ kv, flat kv.2) d →
  sort_keys (VDict d) = VDict (merge_sort item_le d).
Proof.
  intros Hd. simpl. f_equal. f_equal.
  induction Hd as [|[k v] d [Hv _] _ IH]; simpl in *; [done|]. by rewrite Hv, IH.
Qed.

Lemma flat_dumps (d : pydict) : Forall (λ kv, flat kv.2) d →
  json_dumps true (VDict d) = PyStr (json_encode (VDict (merge_sort item_le d))).
Proof. intros Hd. unfold json_dumps. by rewrite flat_sorted. Qed.

Lemma flat_sorted_finite (d : pydict) : Forall (λ kv, flat kv.2) d →
  finite_val (VDict (merge_sort item_le d)).
Proof.
  intros Hd. apply finite_dict. rewrite merge_sort_Permutation.
  eapply Forall_impl; [exact Hd|]. by intros ? [].
Qed.

(** The canonical text of a shared payload determines what it says. *)
Lemma shared_text_inj r1 r2 :
  request_valid r1 = true → request_valid r2 = true →
  json_dumps true (VDict (to_batch_shared_payload r1))
    = json_dumps true (VDict (to_batch_shared_payload r2)) →
  ∀ f, f ∉ batch_dropped → supplied r1 f = supplied r2 f.
Proof.
  intros H1%shared_flat H2%shared_flat Heq f Hf.
  rewrite !flat_dumps in Heq by done. apply (f_equal codes) in Heq. cbn [codes] in Heq.
  apply json_encode_inj in Heq; [|by apply flat_sorted_finite..]. injection Heq as Heq.
  pose proof (shared_field r1 f) as E1. pose proof (shared_field r2 f) as E2.
  rewrite decide_False in E1, E2 by done. rewrite <- E1, <- E2.
  apply dict_get_permutation; [apply shared_keys|].
  by rewrite <- (merge_sort_Permutation item_le (to_batch_shared_payload r1)), Heq, merge_sort_Permutation.
Qed.

Lemma shared_text_eq r1 r2 :
  request_valid r1 = true → request_valid r2 = true →
  (∀ f, f ∉ batch_dropped → supplied r1 f = supplied r2 f) →
  json_dumps true (VDict (to_batch_shared_payload r1))
    = json_dumps true (VDict (to_batch_shared_payload r2)).
Proof.
  intros H1%shared_flat H2%shared_flat Heq.
  rewrite !flat_dumps by done. do 3 f_equal. apply sort_canonical; [apply shared_keys|].
  apply dict_permutation; [apply shared_keys..|]. intros k. apply option_eq. intros v.
  split; intros Hk; destruct (shared_only _ _ _ Hk) as [f ->]; rewrite shared_field in *;
    case_decide; try done; by rewrite Heq in *.
Qed.

Lemma pair_text_inj t1 t2 c1 c2 :
  json_dumps false (VList [VStr t1; VStr c1]) = json_dumps false (VList [VStr t2; VStr c2]) →
  t1 = t2 ∧ c1 = c2.
Proof.
  intros Heq. apply (f_equal codes) in Heq. apply json_encode_inj in Heq; [|done..].
  by injection Heq.
Qed.

(** Equal keys come from one tenant and equal shared fields. *)
Lemma compatibility_key_inj t1 t2 r1 r2 :
  request_valid r1 = true → request_valid r2 = true →
  compatibility_key t1 r1 = compatibility_key t2 r2 →
  t1 = t2 ∧ ∀ f, f ∉ batch_dropped → supplied r1 f = supplied r2 f.
Proof. intros H1 H2 [-> Heq]%pair_text_inj. split; [done|]. by apply shared_text_inj. Qed.

(** C27: Two valid requests share a compatibility key, and hence possibly a batch,
    exactly when they come from the same tenant and the client supplied the same
    values for every field but the messages, [stream], [stream_options] and [n]. *)
Theorem compatibility_key_spec t1 t2 r1 r2 :
  request_valid r1 = true → request_valid r2 = true →
  compatibility_key t1 r1 = compatibility_key t2 r2 ↔
  t1 = t2 ∧ ∀ f, f ∉ batch_dropped → supplied r1 f = supplied r2 f.
Proof.
  intros H1 H2. split.
  - by apply compatibility_key_inj.
  - intros [-> Heq]. unfold compatibility_key. by rewrite (shared_text_eq r1 r2).
Qed.
End key.

#[local] Existing Instance plain_floats.
#[local] Existing Instance plain_model_dump.

Definition demo_request (content : pystr) (seed : option Z) : chat_request :=
  ChatRequest "m" [ChatMessage User content] float_one float_one None (Some (StopStr "x")) seed 1
    false None [FModel; FMessages; FStop; FSeed].

(** Different prompts share a key, for the same tenant only. *)
Lemma compatibility_key_spec_witness :
  compatibility_key "a" (demo_request "hello" (Some 3)) = compatibility_key "a" (demo_request "bye" (Some 3))
  ∧ compatibility_key "a" (demo_request "hello" None) ≠ compatibility_key "b" (demo_request "hello" None).
Proof.
  split.
  - apply (compatibility_key_spec "a" "a" (demo_request "hello" (Some 3)) (demo_request "bye" (Some 3)));
      [reflexivity..|]. split; [reflexivity|]. intros [] Hf; try reflexivity. destruct Hf. left.
  - intros [Ht _]%(compatibility_key_spec "a" "b" (demo_request "hello" None) (demo_request "hello" None));
      [discriminate Ht|reflexivity..].
Defined.
