(* ===== verification/Batching.v ===== *)
(** gateway/batching/dynamic.py: size-or-time aggregation of admitted requests into
    upstream batches.

    No section under [_lock] awaits anything, so the lock is never contended and
    every stretch of code between two awaits is one atomic step: a submission up to
    its await, a timer after its sleep, a flush up to the call of the backend and
    from its answer on, the cancellation of a submitter, and shutting down. *)
From Stdlib Require Import SpecFloat.
From S2P Require Import Prelude.
From S2P Require Import Python.
From S2P Require Import Json.
From S2P Require Import Errors.
From S2P Require Import Chat.
From S2P Require Import Compatibility.

(** * State *)

Inductive flush_reason := BySize | ByTimeout.
Inductive batch_outcome := BSuccess | BError | BCancelled.
Inductive item_state := Pending | Dispatched | Completed | ItemCancelled.
Inductive usage_result := UObserved | UMissing | UInvalid.

#[export] Instance flush_reason_eq_dec : EqDecision flush_reason.
Proof. solve_decision. Defined.
#[export] Instance batch_outcome_eq_dec : EqDecision batch_outcome.
Proof. solve_decision. Defined.
#[export] Instance item_state_eq_dec : EqDecision item_state.
Proof. solve_decision. Defined.

(** [BackendBatchResult]. *)
Record backend_batch_result := BackendBatchResult {
  br_responses : list pydict;
  br_tokens : option Z;
  br_usage : usage_result;
}.

(** [_BatchItem]; its future holds the member's response. *)
Record item := Item {
  it_request : chat_request;
  it_future : future exn pydict;
  it_submitted : Z;
  it_state : item_state;
}.

(** [_PendingBatch]; a batch's timer task is named by the batch. *)
Record batch := Batch {
  ba_key : pystr;
  ba_items : list nat;
  ba_timer : bool;
}.

(** [_FlushOperation] with its task: [fl_cancel], the task's cancellation has been
    requested. *)
Record flush := Flush {
  fl_items : list nat;
  fl_reason : flush_reason;
  fl_started : bool;
  fl_cancel : bool;
}.

(** The calls made to the observer. *)
Inductive batch_observation :=
| BatchState (pending inflight : Z)
| BatchDispatched (reason : flush_reason) (size : Z) (waits : list Z)
| BatchCompleted (reason : flush_reason) (outcome : batch_outcome)
| BatchUsage (result : usage_result) (tokens : option Z) (members : Z).

(** [DynamicBatcher].  Items and batches are named by numbers; [b_timers] is
    [_timer_tasks] with the tasks' cancellation requests, [b_flushes] is
    [_flush_tasks] with [_flush_operations]; a task leaves them when it ends. *)
Record batcher := Batcher {
  b_max_size : Z;
  b_max_wait : spec_float;
  b_observer : bool;
  b_groups : list (pystr * nat);
  b_items : gmap nat item;
  b_batches : gmap nat batch;
  b_timers : gmap nat bool;
  b_flushes : gmap nat flush;
  b_pending : Z;
  b_inflight : Z;
  b_closed : bool;
  b_next : nat;
  b_reads : nat;
  b_log : list batch_observation;
}.

Definition up_groups (f : list (pystr * nat) → list (pystr * nat)) (s : batcher) : batcher :=
  Batcher (b_max_size s) (b_max_wait s) (b_observer s) (f (b_groups s)) (b_items s) (b_batches s) (b_timers s) (b_flushes s) (b_pending s) (b_inflight s) (b_closed s) (b_next s) (b_reads s) (b_log s).
Definition up_items (f : gmap nat item → gmap nat item) (s : batcher) : batcher :=
  Batcher (b_max_size s) (b_max_wait s) (b_observer s) (b_groups s) (f (b_items s)) (b_batches s) (b_timers s) (b_flushes s) (b_pending s) (b_inflight s) (b_closed s) (b_next s) (b_reads s) (b_log s).
Definition up_batches (f : gmap nat batch → gmap nat batch) (s : batcher) : batcher :=
  Batcher (b_max_size s) (b_max_wait s) (b_observer s) (b_groups s) (b_items s) (f (b_batches s)) (b_timers s) (b_flushes s) (b_pending s) (b_inflight s) (b_closed s) (b_next s) (b_reads s) (b_log s).
Definition up_timers (f : gmap nat bool → gmap nat bool) (s : batcher) : batcher :=
  Batcher (b_max_size s) (b_max_wait s) (b_observer s) (b_groups s) (b_items s) (b_batches s) (f (b_timers s)) (b_flushes s) (b_pending s) (b_inflight s) (b_closed s) (b_next s) (b_reads s) (b_log s).
Definition up_flushes (f : gmap nat flush → gmap nat flush) (s : batcher) : batcher :=
  Batcher (b_max_size s) (b_max_wait s) (b_observer s) (b_groups s) (b_items s) (b_batches s) (b_timers s) (f (b_flushes s)) (b_pending s) (b_inflight s) (b_closed s) (b_next s) (b_reads s) (b_log s).
Definition up_pending (f : Z → Z) (s : batcher) : batcher :=
  Batcher (b_max_size s) (b_max_wait s) (b_observer s) (b_groups s) (b_items s) (b_batches s) (b_timers s) (b_flushes s) (f (b_pending s)) (b_inflight s) (b_closed s) (b_next s) (b_reads s) (b_log s).
Definition up_inflight (f : Z → Z) (s : batcher) : batcher :=
  Batcher (b_max_size s) (b_max_wait s) (b_observer s) (b_groups s) (b_items s) (b_batches s) (b_timers s) (b_flushes s) (b_pending s) (f (b_inflight s)) (b_closed s) (b_next s) (b_reads s) (b_log s).
Definition up_closed (f : bool → bool) (s : batcher) : batcher :=
  Batcher (b_max_size s) (b_max_wait s) (b_observer s) (b_groups s) (b_items s) (b_batches s) (b_timers s) (b_flushes s) (b_pending s) (b_inflight s) (f (b_closed s)) (b_next s) (b_reads s) (b_log s).
Definition up_next (f : nat → nat) (s : batcher) : batcher :=
  Batcher (b_max_size s) (b_max_wait s) (b_observer s) (b_groups s) (b_items s) (b_batches s) (b_timers s) (b_flushes s) (b_pending s) (b_inflight s) (b_closed s) (f (b_next s)) (b_reads s) (b_log s).
Definition up_reads (f : nat → nat) (s : batcher) : batcher :=
  Batcher (b_max_size s) (b_max_wait s) (b_observer s) (b_groups s) (b_items s) (b_batches s) (b_timers s) (b_flushes s) (b_pending s) (b_inflight s) (b_closed s) (b_next s) (f (b_reads s)) (b_log s).
Definition up_log (f : list batch_observation → list batch_observation) (s : batcher) : batcher :=
  Batcher (b_max_size s) (b_max_wait s) (b_observer s) (b_groups s) (b_items s) (b_batches s) (b_timers s) (b_flushes s) (b_pending s) (b_inflight s) (b_closed s) (b_next s) (b_reads s) (f (b_log s)).

Definition with_state (x : item_state) (it : item) : item :=
  Item (it_request it) (it_future it) (it_submitted it) x.
Definition with_future (f : future exn pydict) (it : item) : item :=
  Item (it_request it) f (it_submitted it) (it_state it).
Definition with_items (f : list nat → list nat) (ba : batch) : batch :=
  Batch (ba_key ba) (f (ba_items ba)) (ba_timer ba).
Definition flush_started (fl : flush) : flush :=
  Flush (fl_items fl) (fl_reason fl) true (fl_cancel fl).
Definition flush_cancelled (fl : flush) : flush :=
  Flush (fl_items fl) (fl_reason fl) (fl_started fl) true.

Abbreviation bt := (sem batcher exn).

(** [del d[k]]. *)
Definition dict_del {A} (d : list (pystr * A)) (k : pystr) : option (list (pystr * A)) :=
  match dict_get d k with Some _ => Some (dict_pop d k) | None => None end.

(** [l.remove(x)]; members are compared by identity, as their futures are. *)
Fixpoint remove_first (i : nat) (l : list nat) : list nat :=
  match l with
  | [] => []
  | j :: l => if decide (j = i) then l else j :: remove_first i l
  end.

(** [for x in l: f(x)]. *)
Fixpoint for_each {S A} (l : list A) (f : A → sem S exn unit) : sem S exn unit :=
  match l with
  | [] => ret ()
  | x :: l => do! f x in for_each l f
  end.

(** [try: m] with what it raised as a value. *)
Definition reify {S E A} (m : sem S E A) : sem S E (E + A) :=
  λ s, match m s with (r, s') => (inr r, s') end.

Section batcher.
Context `{FloatRepr, ModelDump}.

(** The [n]-th reading of the injected clock, in ticks. *)
Variable clock : nat → Z.
Definition batch_clock : bt Z :=
  let! s := get in
  do! modify (up_reads Datatypes.S) in
  ret (clock (b_reads s)).

(** ** Observations; what the observer raises is swallowed. *)

Definition observe_batch (o : batch_observation) : bt unit :=
  modify (λ s, if b_observer s then up_log (λ l, l ++ [o]) s else s).
Definition notify_state : bt unit :=
  let! s := get in observe_batch (BatchState (b_pending s) (b_inflight s)).
Definition observe_dispatched (reason : flush_reason) (size : Z) (waits : list Z) : bt unit :=
  observe_batch (BatchDispatched reason size waits).
Definition observe_completed (reason : flush_reason) (outcome : batch_outcome) : bt unit :=
  observe_batch (BatchCompleted reason outcome).
Definition observe_usage (r : backend_batch_result) (members : Z) : bt unit :=
  observe_batch (BatchUsage (br_usage r) (br_tokens r) members).

(** ** Reading and writing the objects *)

Definition get_item (i : nat) : bt item := let! s := get in unwrap KeyError (b_items s !! i).
Definition get_batch (b : nat) : bt batch := let! s := get in unwrap KeyError (b_batches s !! b).
Definition set_item_state (i : nat) (x : item_state) : bt unit :=
  modify (up_items (alter (with_state x) i)).

(** [Future.set_result], [Future.set_exception]. *)
Definition resolve (i : nat) (f : future exn pydict) : bt unit :=
  let! it := get_item i in
  if fut_done (it_future it) then raise InvalidStateError
  else modify (up_items (alter (with_future f) i)).
(** [if not item.future.done(): ...]; tells whether it did. *)
Definition resolve_unless_done (i : nat) (f : future exn pydict) : bt bool :=
  let! it := get_item i in
  if fut_done (it_future it) then ret false else do! resolve i f in ret true.

Definition cancel_timer (b : nat) : bt unit := modify (up_timers (alter (λ _, true) b)).

(** ** Dispatching *)

(** [_detach_locked]; [current] is the timer that runs it, if a timer does. *)
Definition mark_dispatched (i : nat) : bt unit :=
  let! it := get_item i in
  if bool_decide (it_state it ≠ Pending) then raise RuntimeError
  else set_item_state i Dispatched.

Definition submission_times (s : batcher) (l : list nat) : list Z :=
  omap (λ i, it_submitted <$> b_items s !! i) l.

Definition detach_locked (b : nat) (reason : flush_reason) (current : option nat) : bt unit :=
  let! ba := get_batch b in
  let! s := get in
  if bool_decide (dict_get (b_groups s) (ba_key ba) ≠ Some b) || bool_decide (ba_items ba = [])
  then ret () else
  let! groups := unwrap KeyError (dict_del (b_groups s) (ba_key ba)) in
  do! modify (up_groups (λ _, groups)) in
  do! (if ba_timer ba && bool_decide (current ≠ Some b) then cancel_timer b else ret ()) in
  let! dispatched_at := batch_clock in
  do! for_each (ba_items ba) mark_dispatched in
  let size := Z.of_nat (length (ba_items ba)) in
  do! modify (up_pending (λ p, p - size)) in
  do! modify (up_inflight (λ n, n + 1)) in
  do! notify_state in
  do! observe_dispatched reason size
        ((λ t, Z.max 0 (dispatched_at - t)) <$> submission_times s (ba_items ba)) in
  let! s := get in
  do! modify (up_flushes (<[b_next s := Flush (ba_items ba) reason false false]>)) in
  modify (up_next Datatypes.S).

(** The end of the locked section of [submit]: the item joins its group. *)
Definition join_group (i b : nat) : bt nat :=
  do! modify (up_batches (alter (with_items (λ l, l ++ [i])) b)) in
  do! modify (up_pending (λ p, p + 1)) in
  do! notify_state in
  let! ba := get_batch b in
  let! s := get in
  do! (if b_max_size s <=? Z.of_nat (length (ba_items ba)) then detach_locked b BySize None
       else ret ()) in
  ret i.

(** [submit] up to its await; the item's number names the suspended call. *)
Definition submit_begin (tenant_id : pystr) (r : chat_request) : bt nat :=
  let! submitted_at := batch_clock in
  let! s := get in
  let i := b_next s in
  do! modify (up_items (<[i := Item r FPending submitted_at Pending]>)) in
  do! modify (up_next Datatypes.S) in
  let key := compatibility_key tenant_id r in
  let! s := get in
  if b_closed s then raise (gw BatchingUnavailableError) else
  let! b := match dict_get (b_groups s) key with
            | Some b => ret b
            | None =>
                let b := b_next s in
                do! modify (up_batches (<[b := Batch key [] true]>)) in
                do! modify (up_next Datatypes.S) in
                do! modify (up_groups (λ g, dict_set g key b)) in
                do! modify (up_timers (<[b := false]>)) in
                ret b
            end in
  join_group i b.

(** [_timer_expired] after its sleep, and the end of its task. *)
Definition timer_expired (b : nat) : bt unit :=
  do! detach_locked b ByTimeout (Some b) in
  modify (up_timers (delete b)).
(** The task of a cancelled timer ends at its sleep. *)
Definition timer_cancelled (b : nat) : bt unit := modify (up_timers (delete b)).

(** ** Executing *)

(** [_complete_success] for the zipped members; the sum counts the deliveries. *)
Fixpoint complete_members (l : list (nat * pydict)) : bt Z :=
  match l with
  | [] => ret 0
  | (i, response) :: l =>
      let! it := get_item i in
      match it_state it with
      | ItemCancelled => complete_members l
      | Dispatched =>
          do! set_item_state i Completed in
          let! delivered := resolve_unless_done i (FResult response) in
          let! n := complete_members l in
          ret ((if delivered then 1 else 0) + n)
      | _ => raise RuntimeError
      end
  end.
Definition complete_success (items : list nat) (r : backend_batch_result) : bt Z :=
  complete_members (zip items (br_responses r)).

(** [_fail_items]. *)
Definition fail_member (e : exn) (i : nat) : bt unit :=
  let! it := get_item i in
  match it_state it with
  | ItemCancelled => ret ()
  | Dispatched =>
      do! set_item_state i Completed in
      do! resolve_unless_done i (FException e) in ret ()
  | _ => raise RuntimeError
  end.
Definition fail_items (items : list nat) (e : exn) : bt unit := for_each items (fail_member e).

(** What the backend's [generate_batch] returns: a batch result, or an object of
    another type. *)
Inductive batch_answer := ABatch (r : backend_batch_result) | AOther.

Definition leave_inflight : bt unit :=
  let! s := get in
  if b_inflight s <=? 0 then raise RuntimeError
  else modify (up_inflight (λ n, n - 1)).

(** The [try] body of [_execute_batch] from the backend's answer on. *)
Definition execute_body (items : list nat) (answer : exn + batch_answer) : bt unit :=
  match answer with
  | inl e => raise e
  | inr AOther => raise (gw BackendProtocolError)
  | inr (ABatch r) =>
      if negb (bool_decide (length (br_responses r) = length items))
      then raise (gw BackendProtocolError) else
      let! delivered := complete_success items r in
      observe_usage r delivered
  end.

(** [_execute_batch] from the answer on, and the end of its task. *)
Definition execute_end (f : nat) (fl : flush) (answer : exn + batch_answer) : bt unit :=
  let items := fl_items fl in
  let! body := reify (execute_body items answer) in
  let '(outcome, handler) :=
    match body with
    | inr _ => (BSuccess, ret ())
    | inl CancelledError =>
        (BCancelled, do! fail_items items (gw BatchingUnavailableError) in raise CancelledError)
    | inl e => if is_exception e then (BError, fail_items items e) else (BError, raise e)
    end in
  let! ended := reify (finally handler
    (do! leave_inflight in do! notify_state in observe_completed (fl_reason fl) outcome)) in
  do! modify (up_flushes (delete f)) in
  match ended with
  | inr _ | inl CancelledError => ret ()
  | inl e => raise e
  end.

(** ** Cancelling *)

Definition cancel_pending (i : nat) (key : pystr) : bt unit :=
  let! s := get in
  match dict_get (b_groups s) key with
  | None => ret ()
  | Some b =>
      let! ba := get_batch b in
      if bool_decide (i ∈ ba_items ba) then
        let items := remove_first i (ba_items ba) in
        do! modify (up_batches (alter (with_items (λ _, items)) b)) in
        do! modify (up_pending (λ p, p - 1)) in
        do! (if bool_decide (items = []) then
               let! groups := unwrap KeyError (dict_del (b_groups s) key) in
               do! modify (up_groups (λ _, groups)) in
               if ba_timer ba then cancel_timer b else ret ()
             else ret ()) in
        notify_state
      else ret ()
  end.

(** [_cancel_item]. *)
Definition cancel_item (i : nat) (key : pystr) : bt unit :=
  let! it := get_item i in
  do! match it_state it with
      | Pending => do! cancel_pending i key in set_item_state i ItemCancelled
      | Dispatched => set_item_state i ItemCancelled
      | _ => ret ()
      end in
  modify (up_items (alter (λ it, with_future (fut_cancel (it_future it)) it) i)).

(** ** Shutting down *)

Definition shutdown_member (x : item_state) (count : bool) (i : nat) : bt unit :=
  let! it := get_item i in
  if bool_decide (it_state it = x) then
    do! set_item_state i Completed in
    do! (if count then modify (up_pending (λ p, p - 1)) else ret ()) in
    do! resolve_unless_done i (FException (gw BatchingUnavailableError)) in ret ()
  else ret ().

Definition shutdown_batch (b : nat) : bt unit :=
  let! ba := get_batch b in
  do! (if ba_timer ba then cancel_timer b else ret ()) in
  for_each (ba_items ba) (shutdown_member Pending true).

(** One flush task; the reasons are those of the flushes that never started. *)
Fixpoint shutdown_flushes (fs : list nat) : bt (list flush_reason) :=
  match fs with
  | [] => ret []
  | f :: fs =>
      do! modify (up_flushes (alter flush_cancelled f)) in
      let! s := get in
      match b_flushes s !! f with
      | None => shutdown_flushes fs
      | Some fl =>
          if fl_started fl then shutdown_flushes fs else
          do! for_each (fl_items fl) (shutdown_member Dispatched false) in
          do! leave_inflight in
          let! reasons := shutdown_flushes fs in
          ret (fl_reason fl :: reasons)
      end
  end.

(** [shutdown] up to its [gather]; false when there is nothing to do.  The set of
    flush tasks is iterated in an order the language leaves open. *)
Definition shutdown_begin : bt bool :=
  let! s := get in
  if b_closed s then ret false else
  do! modify (up_closed (λ _, true)) in
  let pending_batches := (b_groups s).*2 in
  do! modify (up_groups (λ _, [])) in
  do! for_each pending_batches shutdown_batch in
  let! s := get in
  let! never_started := shutdown_flushes ((map_to_list (b_flushes s)).*1) in
  do! notify_state in
  do! for_each never_started (λ reason, observe_completed reason BCancelled) in
  ret true.

(** [snapshot]. *)
Definition batch_snapshot : bt (Z * Z) := let! s := get in ret (b_pending s, b_inflight s).
End batcher.

(** [DynamicBatcher.__init__]; the first notification happens here. *)
Definition batcher_init (max_size : Z) (max_wait : spec_float) (observer : bool) : exn + batcher :=
  if negb ((2 <=? max_size) && (max_size <=? 64)) then inl ValueError else
  if negb (SFltb (S754_zero false) max_wait && SFleb max_wait float_one) then inl ValueError else
  inr (notify_state (Batcher max_size max_wait observer [] ∅ ∅ ∅ ∅ 0 0 false 0 0 [])).2.

(** * The batcher and its environment

    [y_frames]: the submissions suspended on their future, with the local [key] of
    the call; [y_tenants]: the tenant of every member ever submitted;
    [y_gathering]: [shutdown] waits for the tasks it cancelled. *)
Record bsystem := BSystem {
  y_batcher : batcher;
  y_frames : gmap nat pystr;
  y_tenants : gmap nat pystr;
  y_gathering : bool;
}.

(** [BvDone i]: the future of member [i] is done and the suspended [submit] runs
    on.  [BvCancel i]: the submitter is cancelled.  [BvTimer b]: the sleep of the
    timer of batch [b] is over.  [BvTimerEnd b]: the cancellation of that timer is
    delivered.  [BvStart f]: the loop runs flush [f] for the first time; a task
    cancelled before that ends without having run.  [BvAnswer f a]: the backend
    call of flush [f] ends; [BvGathered]: [shutdown] returns. *)
Inductive bevent :=
| BvSubmit (tenant_id : pystr) (r : chat_request)
| BvDone (i : nat)
| BvCancel (i : nat)
| BvTimer (b : nat)
| BvTimerEnd (b : nat)
| BvStart (f : nat)
| BvAnswer (f : nat) (a : exn + batch_answer)
| BvShutdown
| BvGathered
| BvSnapshot.

Inductive boutcome :=
| BOSuspended (i : nat)
| BOResult (response : pydict)
| BORaised (e : exn)
| BOCall (requests : list chat_request)
| BOSnapshot (pending inflight : Z)
| BONone.

Definition bfinish {A} (y : bsystem) (m : bt A) (k : A → batcher → boutcome * bsystem)
    : boutcome * bsystem :=
  match m (y_batcher y) with
  | (inl e, b) => (BORaised e, BSystem b (y_frames y) (y_tenants y) (y_gathering y))
  | (inr a, b) => k a b
  end.

(** A cancelled [submit]: it cancels its item and re-raises. *)
Definition submit_cancelled (i : nat) (key : pystr) (y : bsystem) : boutcome * bsystem :=
  bfinish (BSystem (y_batcher y) (delete i (y_frames y)) (y_tenants y) (y_gathering y))
    (cancel_item i key) (λ _ b,
      (BORaised CancelledError, BSystem b (delete i (y_frames y)) (y_tenants y) (y_gathering y))).

Definition requests_of (s : batcher) (l : list nat) : list chat_request :=
  omap (λ i, it_request <$> b_items s !! i) l.

(** How a backend call can end: with a result, an exception, or by cancellation.
    Another [BaseException] ends the process. *)
Definition can_answer (a : exn + batch_answer) : bool :=
  match a with
  | inl CancelledError | inr _ => true
  | inl e => is_exception e
  end.

Section system.
Context `{FloatRepr, ModelDump}.
Variable clock : nat → Z.

(** The effect of one event, [None] when it cannot happen in this state. *)
Definition bexec (ev : bevent) (y : bsystem) : option (boutcome * bsystem) :=
  let b0 := y_batcher y in
  let with_batcher b := BSystem b (y_frames y) (y_tenants y) (y_gathering y) in
  match ev with
  | BvSubmit tid r =>
      if negb (request_valid r && eligible (batching_eligibility r true)) then None else
      Some (bfinish y (submit_begin clock tid r) (λ i b,
        (BOSuspended i, BSystem b (<[i := compatibility_key tid r]> (y_frames y))
                          (<[i := tid]> (y_tenants y)) (y_gathering y))))
  | BvDone i =>
      match y_frames y !! i, b_items b0 !! i with
      | Some key, Some it =>
          let y' := BSystem b0 (delete i (y_frames y)) (y_tenants y) (y_gathering y) in
          match it_future it with
          | FPending => None
          | FResult response => Some (BOResult response, y')
          | FException e => Some (BORaised e, y')
          | FCancelled => Some (submit_cancelled i key y)
          end
      | _, _ => None
      end
  | BvCancel i =>
      match y_frames y !! i with
      | Some key => Some (submit_cancelled i key y)
      | None => None
      end
  | BvTimer b =>
      match b_timers b0 !! b with
      | Some false => Some (bfinish y (timer_expired clock b) (λ _ b, (BONone, with_batcher b)))
      | _ => None
      end
  | BvTimerEnd b =>
      match b_timers b0 !! b with
      | Some true => Some (bfinish y (timer_cancelled b) (λ _ b, (BONone, with_batcher b)))
      | _ => None
      end
  | BvStart f =>
      match b_flushes b0 !! f with
      | Some (Flush items _ false false) =>
          Some (BOCall (requests_of b0 items),
                with_batcher (up_flushes (alter flush_started f) b0))
      | Some (Flush _ _ false true) => Some (BONone, with_batcher (up_flushes (delete f) b0))
      | _ => None
      end
  | BvAnswer f a =>
      match b_flushes b0 !! f with
      | Some fl =>
          if fl_started fl && can_answer a then
            Some (bfinish y (execute_end f fl a) (λ _ b, (BONone, with_batcher b)))
          else None
      | None => None
      end
  | BvShutdown =>
      if y_gathering y then None    (* [_shutdown_lock] is held *)
      else Some (bfinish y shutdown_begin (λ started b,
        (BONone, BSystem b (y_frames y) (y_tenants y) started)))
  | BvGathered =>
      if y_gathering y && bool_decide (b_timers b0 = ∅) && bool_decide (b_flushes b0 = ∅)
      then Some (BONone, BSystem b0 (y_frames y) (y_tenants y) false)
      else None
  | BvSnapshot =>
      Some (bfinish y batch_snapshot (λ '(p, n) b, (BOSnapshot p n, with_batcher b)))
  end.

(** The states a batcher constructed with [b0] can get into. *)
Inductive breachable (b0 : batcher) : bsystem → Prop :=
| breachable_init : breachable b0 (BSystem b0 ∅ ∅ false)
| breachable_step y ev o y' :
    breachable b0 y → bexec ev y = Some (o, y') → breachable b0 y'.

Fixpoint brun (evs : list bevent) (y : bsystem) : option bsystem :=
  match evs with
  | [] => Some y
  | ev :: evs => match bexec ev y with Some (_, y') => brun evs y' | None => None end
  end.
End system.
