(* ===== verification/BatchingInv.v ===== *)
(** The invariant of the batcher, and what its loops do to the members. *)
From S2P Require Import Prelude.
From S2P Require Import Python.
From S2P Require Import Json.
From S2P Require Import Errors.
From S2P Require Import Chat.
From S2P Require Import Compatibility.
From S2P Require Import Batching.

(** * The objects *)

(** The live groups as a finite map. *)
Definition grp (s : batcher) : gmap pystr nat := dict_map (b_groups s).

Definition batch_len (s : batcher) (b : nat) : Z :=
  match b_batches s !! b with Some ba => Z.of_nat (length (ba_items ba)) | None => 0 end.

(** A flush whose members are still to be resolved: all but those whose task was
    cancelled before it ran. *)
Definition live (fl : flush) : bool := fl_started fl || negb (fl_cancel fl).
Definition live_weight (fl : flush) : Z := if live fl then 1 else 0.

(** Bulk updates of the members. *)
Definition update_at (g : nat → item → item) (m : gmap nat item) : gmap nat item :=
  map_imap (λ i it, Some (g i it)) m.

Lemma lookup_update_at g m i : update_at g m !! i = g i <$> m !! i.
Proof. unfold update_at. rewrite map_lookup_imap. by destruct (m !! i). Qed.

(** What resolving a member does to it: the cancelled ones stay. *)
Definition fail_fun (e : exn) (it : item) : item :=
  match it_state it with ItemCancelled => it | _ => with_future (FException e) (with_state Completed it) end.
Definition complete_fun (response : pydict) (it : item) : item :=
  match it_state it with ItemCancelled => it | _ => with_future (FResult response) (with_state Completed it) end.

(** The state of a member and of its future go together. *)
Definition item_ok (it : item) : Prop :=
  match it_state it with
  | Pending | Dispatched => it_future it = FPending
  | Completed => (∃ r, it_future it = FResult r) ∨ (∃ e, it_future it = FException e)
  | ItemCancelled => it_future it = FCancelled
  end.

(** A member of a flush. *)
Definition flying (fl : flush) (it : item) : Prop :=
  match it_state it with
  | Pending => False
  | Dispatched => live fl = true
  | Completed => live fl = false
  | ItemCancelled => True
  end.

Section inv.
Context `{FloatRepr, ModelDump}.

(** [full]: the batch a member is joining; for the time of the submission it may be
    empty, or have reached the maximum. *)
Record binv (full : option nat) (s : batcher) : Prop := {
  bi_size : 2 ≤ b_max_size s ≤ 64;
  bi_keys : NoDup (b_groups s).*1;
  bi_group k b : grp s !! k = Some b → ∃ ba, b_batches s !! b = Some ba ∧ ba_key ba = k ∧
    ba_timer ba = true ∧ (ba_items ba ≠ [] ∨ full = Some b) ∧ NoDup (ba_items ba) ∧
    b_timers s !! b = Some false ∧
    (Z.of_nat (length (ba_items ba)) < b_max_size s
     ∨ full = Some b ∧ Z.of_nat (length (ba_items ba)) = b_max_size s);
  bi_timer b : b_timers s !! b = Some false → ∃ k, grp s !! k = Some b;
  bi_member k b ba i : grp s !! k = Some b → b_batches s !! b = Some ba → i ∈ ba_items ba →
    ∃ it, b_items s !! i = Some it ∧ it_state it = Pending;
  bi_flush f fl : b_flushes s !! f = Some fl →
    1 ≤ Z.of_nat (length (fl_items fl)) ≤ b_max_size s ∧ NoDup (fl_items fl) ∧
    (fl_reason fl = BySize ↔ Z.of_nat (length (fl_items fl)) = b_max_size s);
  bi_flying f fl i : b_flushes s !! f = Some fl → i ∈ fl_items fl →
    ∃ it, b_items s !! i = Some it ∧ flying fl it;
  bi_disjoint f g fl gl i : b_flushes s !! f = Some fl → b_flushes s !! g = Some gl →
    i ∈ fl_items fl → i ∈ fl_items gl → f = g;
  bi_item i it : b_items s !! i = Some it → item_ok it;
  bi_dispatched i it : b_items s !! i = Some it → it_state it = Dispatched →
    ∃ f fl, b_flushes s !! f = Some fl ∧ i ∈ fl_items fl;
  bi_pending : b_pending s = sum_map (batch_len s) (grp s);
  bi_inflight : b_inflight s = sum_map live_weight (b_flushes s);
  bi_closed : b_closed s = true → b_groups s = [];
  bi_cancel f fl : b_flushes s !! f = Some fl → fl_cancel fl = b_closed s;
  bi_fresh i : (b_next s ≤ i)%nat →
    b_items s !! i = None ∧ b_batches s !! i = None ∧ b_timers s !! i = None ∧ b_flushes s !! i = None;
}.

(** The suspended submissions [F] and the tenants [T] of the members. *)
Definition keyed (T : gmap nat pystr) (s : batcher) (k : pystr) (i : nat) : Prop :=
  ∃ it t, b_items s !! i = Some it ∧ T !! i = Some t ∧
    compatibility_key t (it_request it) = k ∧ request_valid (it_request it) = true ∧
    eligible (batching_eligibility (it_request it) true) = true.

Record bcalls (s : batcher) (F T : gmap nat pystr) : Prop := {
  bc_frame i k : F !! i = Some k → keyed T s k i;
  bc_live i k it : F !! i = Some k → b_items s !! i = Some it → it_state it ≠ ItemCancelled;
  bc_pending i k it : F !! i = Some k → b_items s !! i = Some it → it_state it = Pending →
    ∃ b ba, grp s !! k = Some b ∧ b_batches s !! b = Some ba ∧ i ∈ ba_items ba;
  bc_member k b ba i : grp s !! k = Some b → b_batches s !! b = Some ba → i ∈ ba_items ba →
    F !! i = Some k;
  bc_dispatched i it : b_items s !! i = Some it → it_state it = Dispatched → is_Some (F !! i);
  bc_flush f fl : b_flushes s !! f = Some fl → ∃ k, ∀ i, i ∈ fl_items fl → keyed T s k i;
}.

(** Neither the clock nor the log matters. *)
Definition quiet (r : nat) (lg : list batch_observation) (s : batcher) : batcher :=
  up_reads (λ _, r) (up_log (λ _, lg) s).

Lemma binv_quiet full r lg s : binv full s → binv full (quiet r lg s).
Proof. intros []. by constructor. Qed.
Lemma bcalls_quiet r lg s F T : bcalls s F T → bcalls (quiet r lg s) F T.
Proof. intros []. by constructor. Qed.

Lemma quiet_self s : s = quiet (b_reads s) (b_log s) s.
Proof. by destruct s. Qed.
End inv.

(** * Running the loops

    Every operation leaves an explicitly given state, up to the clock and the log. *)

Lemma wp_eq {S E A} (m : sem S E A) a s s' Q X : m s = (inr a, s') → Q a s' → wp m Q X s.
Proof. unfold wp. by intros ->. Qed.

Lemma bind_inr {S E A B} (m : sem S E A) (k : A → sem S E B) a s s' :
  m s = (inr a, s') → bind m k s = k a s'.
Proof. unfold bind. by intros ->. Qed.

(** The runs that leave [s'], up to the clock and the log. *)
Definition runs {A} (m : bt A) (s : batcher) (a : A) (s' : batcher) : Prop :=
  ∃ r lg, m s = (inr a, quiet r lg s').

Lemma quiet_log s f : up_log f s = quiet (b_reads s) (f (b_log s)) s.
Proof. by destruct s. Qed.

Lemma runs_exact {A} (m : bt A) s a s' : m s = (inr a, s') → runs m s a s'.
Proof. intros Hm. exists (b_reads s'), (b_log s'). by rewrite <- quiet_self. Qed.

Lemma runs_ret {A} (a : A) s : runs (ret a) s a s.
Proof. by apply runs_exact. Qed.

Lemma runs_modify f s : runs (modify f) s () (f s).
Proof. by apply runs_exact. Qed.

(** The final state may be given up to the clock and the log. *)
Lemma runs_to {A} (m : bt A) s a s1 s2 : runs m s a s1 → quiet 0 [] s1 = quiet 0 [] s2 → runs m s a s2.
Proof.
  intros (r & lg & Hm) Heq. exists r, lg. rewrite Hm. f_equal.
  change (quiet r lg (quiet 0 [] s1) = quiet r lg (quiet 0 [] s2)). by rewrite Heq.
Qed.

Lemma core_eq s1 s2 :
  b_max_size s1 = b_max_size s2 → b_max_wait s1 = b_max_wait s2 → b_observer s1 = b_observer s2 →
  b_groups s1 = b_groups s2 → b_items s1 = b_items s2 → b_batches s1 = b_batches s2 →
  b_timers s1 = b_timers s2 → b_flushes s1 = b_flushes s2 → b_pending s1 = b_pending s2 →
  b_inflight s1 = b_inflight s2 → b_closed s1 = b_closed s2 → b_next s1 = b_next s2 →
  quiet 0 [] s1 = quiet 0 [] s2.
Proof. unfold quiet, up_reads, up_log. destruct s1, s2; simpl. intros. by subst. Qed.

Lemma runs_from {A} (m : bt A) s1 s2 a s' : runs m s1 a s' → s1 = s2 → runs m s2 a s'.
Proof. by intros ? <-. Qed.

Lemma state_eq s1 s2 :
  quiet 0 [] s1 = quiet 0 [] s2 → b_reads s1 = b_reads s2 → b_log s1 = b_log s2 → s1 = s2.
Proof. unfold quiet, up_reads, up_log. destruct s1, s2; simpl. intros [=] ??. by subst. Qed.

(** The clock and the log float outwards. *)
Create Rewrite HintDb quiet.
Lemma quiet_quiet r lg r' lg' s : quiet r lg (quiet r' lg' s) = quiet r lg s.
Proof. done. Qed.
Lemma up_groups_quiet f r lg s : up_groups f (quiet r lg s) = quiet r lg (up_groups f s).
Proof. done. Qed.
Lemma up_items_quiet f r lg s : up_items f (quiet r lg s) = quiet r lg (up_items f s).
Proof. done. Qed.
Lemma up_batches_quiet f r lg s : up_batches f (quiet r lg s) = quiet r lg (up_batches f s).
Proof. done. Qed.
Lemma up_timers_quiet f r lg s : up_timers f (quiet r lg s) = quiet r lg (up_timers f s).
Proof. done. Qed.
Lemma up_flushes_quiet f r lg s : up_flushes f (quiet r lg s) = quiet r lg (up_flushes f s).
Proof. done. Qed.
Lemma up_pending_quiet f r lg s : up_pending f (quiet r lg s) = quiet r lg (up_pending f s).
Proof. done. Qed.
Lemma up_inflight_quiet f r lg s : up_inflight f (quiet r lg s) = quiet r lg (up_inflight f s).
Proof. done. Qed.
Lemma up_closed_quiet f r lg s : up_closed f (quiet r lg s) = quiet r lg (up_closed f s).
Proof. done. Qed.
Lemma up_next_quiet f r lg s : up_next f (quiet r lg s) = quiet r lg (up_next f s).
Proof. done. Qed.
#[export] Hint Rewrite quiet_quiet up_groups_quiet up_items_quiet up_batches_quiet up_timers_quiet up_flushes_quiet up_pending_quiet up_inflight_quiet up_closed_quiet up_next_quiet : quiet.

Lemma up_groups_const v g s : v = g (b_groups s) → up_groups (λ _, v) s = up_groups g s.
Proof. by intros ->. Qed.

(** Compares two states, up to the clock and the log; what is left differs by more
    than computation. *)
Ltac same_state :=
  autorewrite with quiet;
  lazymatch goal with
  | |- ?x = ?x => reflexivity
  | |- _ => apply core_eq; try reflexivity
  end.

Ltac same_start := apply state_eq; [same_state|reflexivity..].

Ltac runs_done :=
  eapply runs_to; [first [apply runs_ret|apply runs_modify]|same_state].

Lemma runs_bind {A B} (m : bt A) (k : A → bt B) s a b s1 s2 :
  runs m s a s1 → (∀ r lg, runs (k a) (quiet r lg s1) b s2) → runs (bind m k) s b s2.
Proof.
  intros (r & lg & Hm) Hk. destruct (Hk r lg) as (r' & lg' & Hk').
  exists r', lg'. unfold bind. by rewrite Hm.
Qed.

Lemma runs_get {B} (k : batcher → bt B) s b s' : runs (k s) s b s' → runs (bind get k) s b s'.
Proof. done. Qed.

Lemma runs_item {B} (k : item → bt B) i it s b s' :
  b_items s !! i = Some it → runs (k it) s b s' → runs (bind (get_item i) k) s b s'.
Proof. intros Hi (r & lg & Hk). exists r, lg. unfold bind, get_item, bind, get. by rewrite Hi. Qed.

Lemma runs_batch {B} (k : batch → bt B) i ba s b s' :
  b_batches s !! i = Some ba → runs (k ba) s b s' → runs (bind (get_batch i) k) s b s'.
Proof. intros Hi (r & lg & Hk). exists r, lg. unfold bind, get_batch, bind, get. by rewrite Hi. Qed.

Lemma runs_unwrap {A B} (k : A → bt B) e (o : option A) a s b s' :
  o = Some a → runs (k a) s b s' → runs (bind (unwrap e o) k) s b s'.
Proof. by intros ->. Qed.

Lemma runs_if {A} (c c' : bool) (m1 m2 : bt A) s a s' :
  c' = c → runs (if c then m1 else m2) s a s' → runs (if c' then m1 else m2) s a s'.
Proof. by intros ->. Qed.

Lemma runs_match {A B} (o o' : option A) (f : A → bt B) m s a s' :
  o' = o → runs (match o with Some x => f x | None => m end) s a s' →
  runs (match o' with Some x => f x | None => m end) s a s'.
Proof. by intros ->. Qed.

Lemma runs_wp {A} (m : bt A) s a s' (Q : A → batcher → Prop) X :
  runs m s a s' → (∀ r lg, Q a (quiet r lg s')) → wp m Q X s.
Proof. intros (r & lg & Hm) HQ. eapply wp_eq; [done|]. apply HQ. Qed.

Lemma runs_observe o s : runs (observe_batch o) s () s.
Proof.
  exists (b_reads s), (if b_observer s then b_log s ++ [o] else b_log s).
  unfold observe_batch, modify. destruct (b_observer s); [by rewrite quiet_log|by rewrite <- quiet_self].
Qed.
Lemma runs_notify s : runs notify_state s () s.
Proof. apply runs_get, runs_observe. Qed.
Lemma runs_clock clock s : runs (batch_clock clock) s (clock (b_reads s)) s.
Proof. by exists (S (b_reads s)), (b_log s); destruct s. Qed.

(** * The loops *)

Lemma update_at_ext g h m : (∀ i it, m !! i = Some it → g i it = h i it) → update_at g m = update_at h m.
Proof.
  intros Heq. apply map_eq. intros i. rewrite !lookup_update_at.
  destruct (m !! i) as [it|] eqn:Hi; simpl; [|done]. f_equal. by apply Heq.
Qed.

Lemma update_at_alter (g : item → item) i h m :
  update_at h (alter g i m) = update_at (λ j it, h j (if decide (j = i) then g it else it)) m.
Proof.
  apply map_eq. intros j. rewrite !lookup_update_at.
  destruct (decide (j = i)) as [->|Hne]; [rewrite lookup_alter_eq|rewrite lookup_alter_ne by done];
    by destruct (m !! _).
Qed.

Lemma alter_update (g : item → item) i m :
  alter g i m = update_at (λ j it, if decide (j = i) then g it else it) m.
Proof.
  apply map_eq. intros j. rewrite lookup_update_at.
  destruct (decide (j = i)) as [->|Hne]; [rewrite lookup_alter_eq|rewrite lookup_alter_ne by done];
    by destruct (m !! _).
Qed.

Lemma update_at_id g m : (∀ i it, m !! i = Some it → g i it = it) → update_at g m = m.
Proof.
  intros Heq. apply map_eq. intros i. rewrite lookup_update_at.
  destruct (m !! i) as [it|] eqn:Hi; simpl; [|done]. f_equal. by apply Heq.
Qed.

Definition on_list (g : item → item) (l : list nat) (i : nat) (it : item) : item :=
  if decide (i ∈ l) then g it else it.

Definition set_members (g : nat → item → item) (s : batcher) : batcher := up_items (update_at g) s.

Lemma set_members_cons g i l s : i ∉ l →
  set_members (on_list g l) (up_items (alter g i) s) = set_members (on_list g (i :: l)) s.
Proof.
  intros Hi. unfold set_members, up_items. cbn [b_items]. f_equal. rewrite update_at_alter.
  apply update_at_ext. intros j it _. unfold on_list.
  destruct (decide (j = i)) as [->|Hne].
  - rewrite decide_False, decide_True by (set_solver). done.
  - destruct (decide (j ∈ l)); [rewrite decide_True by set_solver|rewrite decide_False by set_solver]; done.
Qed.

(** A loop that updates each member in turn. *)
Lemma for_each_members (m : nat → bt unit) (g : item → item) (ok : item → Prop) l s :
  (∀ i it s, b_items s !! i = Some it → ok it → runs (m i) s () (up_items (alter g i) s)) →
  NoDup l → (∀ i, i ∈ l → ∃ it, b_items s !! i = Some it ∧ ok it) →
  runs (for_each l m) s () (set_members (on_list g l) s).
Proof.
  intros Hm. revert s. induction l as [|i l IH]; intros s Hnd Hok; simpl.
  - eapply runs_to; [apply runs_ret|]. same_state. symmetry. apply update_at_id. intros i it _. unfold on_list. by rewrite decide_False by set_solver.
  - apply NoDup_cons in Hnd as [Hni Hnd].
    destruct (Hok i) as (it & Hi & Hit); [by left|].
    eapply runs_bind; [by eapply Hm|]. intros r lg.
    eapply runs_to; [apply IH; [done|]|].
    + intros j Hj. destruct (Hok j) as (jt & Hjt & ?); [by right|]. exists jt. split; [|done].
      change (alter g i (b_items s) !! j = Some jt). by rewrite lookup_alter_ne by set_solver.
    + change (quiet 0 [] (set_members (on_list g l) (up_items (alter g i) s))
              = quiet 0 [] (set_members (on_list g (i :: l)) s)).
      by rewrite set_members_cons.
Qed.

Lemma alter_at {A} (f g : A → A) (m : gmap nat A) i x :
  m !! i = Some x → f x = g x → alter f i m = alter g i m.
Proof. intros Hi Hfg. apply alter_ext. intros y Hy. congruence. Qed.

Lemma runs_mark i it s : b_items s !! i = Some it → it_state it = Pending →
  runs (mark_dispatched i) s () (up_items (alter (with_state Dispatched) i) s).
Proof.
  intros Hi Hp. eapply runs_item; [done|]. rewrite bool_decide_false by naive_solver.
  apply runs_modify.
Qed.

Lemma runs_resolve i it f s : b_items s !! i = Some it → it_future it = FPending →
  runs (resolve_unless_done i f) s true (up_items (alter (with_future f) i) s).
Proof.
  intros Hi Hp. eapply runs_item; [done|]. rewrite Hp. simpl.
  eapply runs_bind; [eapply runs_item; [done|]; rewrite Hp; apply runs_modify|]. intros r lg. runs_done.
Qed.

(** A member is marked completed, the count adjusted, and its future resolved. *)
Lemma runs_settle p i it f s :
  b_items s !! i = Some it → it_future it = FPending →
  runs (resolve_unless_done i f) (up_pending p (up_items (alter (with_state Completed) i) s)) true
    (up_pending p (up_items (alter (λ it, with_future f (with_state Completed it)) i) s)).
Proof.
  intros Hi Hp. eapply runs_to.
  { eapply (runs_resolve _ (with_state Completed it)); [|done].
    change (alter (with_state Completed) i (b_items s) !! i = Some (with_state Completed it)).
    by rewrite lookup_alter_eq, Hi. }
  same_state. apply alter_alter_eq.
Qed.

Lemma runs_fail e i it s :
  b_items s !! i = Some it → it_state it = ItemCancelled ∨ it_state it = Dispatched ∧ it_future it = FPending →
  runs (fail_member e i) s () (up_items (alter (fail_fun e) i) s).
Proof.
  intros Hi Hst. unfold fail_member. eapply runs_item; [done|]. destruct Hst as [Hc|[Hd Hp]].
  - rewrite Hc. eapply runs_to; [apply runs_ret|]. same_state.
    symmetry. apply alter_id. intros x Hx. simplify_eq. unfold fail_fun. by rewrite Hc.
  - rewrite Hd. eapply runs_bind; [apply runs_modify|]. intros r lg.
    eapply runs_bind; [by apply (runs_settle id i it _ (quiet r lg s))|]. intros r' lg'.
    eapply runs_to; [apply runs_ret|]. same_state.
    eapply alter_at; [done|]. unfold fail_fun. by rewrite Hd.
Qed.

Lemma runs_shutdown_dispatched i it s :
  b_items s !! i = Some it → it_state it = ItemCancelled ∨ it_state it = Dispatched ∧ it_future it = FPending →
  runs (shutdown_member Dispatched false i) s ()
    (up_items (alter (fail_fun (gw BatchingUnavailableError)) i) s).
Proof.
  intros Hi Hst. unfold shutdown_member. eapply runs_item; [done|]. destruct Hst as [Hc|[Hd Hp]].
  - rewrite bool_decide_false by congruence. eapply runs_to; [apply runs_ret|].
    same_state.
    symmetry. apply alter_id. intros x Hx. simplify_eq. unfold fail_fun. by rewrite Hc.
  - rewrite bool_decide_true by done. eapply runs_bind; [apply runs_modify|]. intros r lg.
    eapply runs_bind; [apply runs_ret|]. intros r' lg'.
    eapply runs_bind; [by apply (runs_settle id i it _ (quiet r' lg' s))|]. intros r2 lg2.
    eapply runs_to; [apply runs_ret|]. same_state.
    eapply alter_at; [done|]. unfold fail_fun. by rewrite Hd.
Qed.

Lemma runs_shutdown_pending i it s :
  b_items s !! i = Some it → it_state it = Pending → it_future it = FPending →
  runs (shutdown_member Pending true i) s ()
    (up_pending (λ p, p - 1) (up_items (alter (fail_fun (gw BatchingUnavailableError)) i) s)).
Proof.
  intros Hi Hst Hp. unfold shutdown_member. eapply runs_item; [done|].
  rewrite bool_decide_true by done. eapply runs_bind; [apply runs_modify|]. intros r lg.
  eapply runs_bind; [apply runs_modify|]. intros r' lg'.
  eapply runs_bind; [by apply (runs_settle (λ p, p - 1) i it _ (quiet r' lg' s))|]. intros r2 lg2.
  eapply runs_to; [apply runs_ret|]. same_state.
  eapply alter_at; [done|]. unfold fail_fun. by rewrite Hst.
Qed.
