(* ===== verification/BatchingOps.v ===== *)
(** The states the batcher's operations leave, up to the clock and the log. *)
From S2P Require Import Prelude.
From S2P Require Import Python.
From S2P Require Import Json.
From S2P Require Import Errors.
From S2P Require Import Chat.
From S2P Require Import Compatibility.
From S2P Require Import Batching.
From S2P Require Import BatchingInv.

Section ops.
Context `{FloatRepr, ModelDump}.
Variable clock : nat → Z.

(** * Dispatching *)

Definition stop_timer (b : nat) (current : option nat) (s : batcher) : batcher :=
  if bool_decide (current ≠ Some b) then up_timers (alter (λ _, true) b) s else s.

Definition detached (b : nat) (ba : batch) (reason : flush_reason) (current : option nat)
    (s : batcher) : batcher :=
  let s := up_groups (λ g, dict_pop g (ba_key ba)) s in
  let s := stop_timer b current s in
  let s := set_members (on_list (with_state Dispatched) (ba_items ba)) s in
  let s := up_pending (λ p, p - Z.of_nat (length (ba_items ba))) s in
  let s := up_inflight (λ n, n + 1) s in
  let s := up_flushes (<[b_next s := Flush (ba_items ba) reason false false]>) s in
  up_next S s.

Lemma runs_mark_all l s :
  NoDup l → (∀ i, i ∈ l → ∃ it, b_items s !! i = Some it ∧ it_state it = Pending) →
  runs (for_each l mark_dispatched) s () (set_members (on_list (with_state Dispatched) l) s).
Proof. apply for_each_members. intros. by eapply runs_mark. Qed.

Lemma runs_detach b ba reason current s :
  b_batches s !! b = Some ba → dict_get (b_groups s) (ba_key ba) = Some b →
  ba_items ba ≠ [] → ba_timer ba = true → NoDup (ba_items ba) →
  (∀ i, i ∈ ba_items ba → ∃ it, b_items s !! i = Some it ∧ it_state it = Pending) →
  runs (detach_locked clock b reason current) s () (detached b ba reason current s).
Proof.
  intros Hb Hg Hne Ht Hnd Hp. eapply runs_batch; [done|]. eapply runs_get.
  rewrite !bool_decide_false by (rewrite ?Hg; naive_solver). simpl.
  eapply runs_unwrap; [by unfold dict_del; rewrite Hg|].
  eapply runs_bind; [apply runs_modify|]. intros r1 lg1.
  eapply (runs_bind _ _ _ _ _ (stop_timer b current (up_groups (λ g, dict_pop g (ba_key ba)) s))).
  { rewrite Ht. simpl. unfold stop_timer, cancel_timer. case_bool_decide; runs_done. }
  intros r2 lg2. eapply runs_bind; [apply runs_clock|]. intros r3 lg3.
  eapply runs_bind; [apply runs_mark_all; [done|]|intros r4 lg4].
  { intros i Hi. unfold stop_timer. by case_bool_decide; apply Hp. }
  eapply runs_bind; [apply runs_modify|]. intros r5 lg5.
  eapply runs_bind; [apply runs_modify|]. intros r6 lg6.
  eapply runs_bind; [apply runs_notify|]. intros r7 lg7.
  eapply runs_bind; [apply runs_observe|]. intros r8 lg8.
  eapply runs_get. eapply runs_bind; [apply runs_modify|]. intros r9 lg9.
  eapply runs_to; [apply runs_modify|]. unfold detached, stop_timer. case_bool_decide; same_state.
Qed.

(** A batch that is no longer in its group, or an empty one, is left alone. *)
Lemma runs_detach_stale b ba reason current s :
  b_batches s !! b = Some ba → dict_get (b_groups s) (ba_key ba) ≠ Some b →
  runs (detach_locked clock b reason current) s () s.
Proof.
  intros Hb Hg. eapply runs_batch; [done|]. eapply runs_get.
  rewrite bool_decide_true by done. apply runs_ret.
Qed.

(** * Submitting *)

(** A new member [i] joins a group, or opens one. *)
Definition with_item (r : chat_request) (t : Z) (s : batcher) : batcher :=
  up_next S (up_items (<[b_next s := Item r FPending t Pending]>) s).
Definition opened (key : pystr) (s : batcher) : batcher :=
  up_timers (<[b_next s := false]>)
    (up_groups (λ g, dict_set g key (b_next s))
      (up_next S (up_batches (<[b_next s := Batch key [] true]>) s))).
Definition joined (i b : nat) (s : batcher) : batcher :=
  up_pending (λ p, p + 1) (up_batches (alter (with_items (λ l, l ++ [i])) b) s).

Lemma runs_join i b ba s s' :
  b_batches s !! b = Some ba →
  (if b_max_size s <=? Z.of_nat (length (ba_items ba) + 1)
   then ∀ r lg, runs (detach_locked clock b BySize None) (quiet r lg (joined i b s)) () s'
   else s' = joined i b s) →
  runs (join_group clock i b) s i s'.
Proof.
  intros Hb Hs'. eapply runs_bind; [apply runs_modify|]. intros r1 lg1.
  eapply runs_bind; [apply runs_modify|]. intros r2 lg2.
  eapply runs_bind; [apply runs_notify|]. intros r3 lg3.
  eapply (runs_batch _ _ (with_items (λ l, l ++ [i]) ba)).
  { trans (alter (with_items (λ l, l ++ [i])) b (b_batches s) !! b); [reflexivity|].
    by rewrite lookup_alter_eq, Hb. }
  eapply runs_get. cbn [ba_items with_items]. rewrite length_app. simpl length.
  change (b_max_size (quiet r3 lg3 _)) with (b_max_size s).
  destruct (b_max_size s <=? Z.of_nat (length (ba_items ba) + 1)).
  - eapply runs_bind; [apply (Hs' r3 lg3)|]. intros r4 lg4. runs_done.
  - subst s'. eapply runs_bind; [apply runs_ret|]. intros r4 lg4. runs_done.
Qed.

Definition refused {A} (m : bt A) (s : batcher) (e : exn) (s' : batcher) : Prop :=
  ∃ r lg, m s = (inl e, quiet r lg s').

Lemma submit_refused tid r s :
  b_closed s = true →
  ∃ t, refused (submit_begin clock tid r) s (gw BatchingUnavailableError) (with_item r t s).
Proof.
  intros Hc. exists (clock (b_reads s)). unfold refused.
  assert (submit_begin clock tid r s =
          (inl (gw BatchingUnavailableError), up_reads S (with_item r (clock (b_reads s)) s))) as ->.
  { unfold submit_begin, bind, batch_clock, bind, get, modify, ret. cbn. by rewrite Hc. }
  by exists (S (b_reads s)), (b_log s); destruct s.
Qed.

Lemma runs_submit_join tid r s b ba s' :
  b_closed s = false →
  dict_get (b_groups s) (compatibility_key tid r) = Some b → b_batches s !! b = Some ba →
  (∀ r1 lg1, runs (join_group clock (b_next s) b)
               (quiet r1 lg1 (with_item r (clock (b_reads s)) s)) (b_next s) s') →
  runs (submit_begin clock tid r) s (b_next s) s'.
Proof.
  intros Hc Hg Hb Hj. unfold submit_begin.
  eapply runs_bind; [apply runs_clock|]. intros r1 lg1. eapply runs_get.
  eapply runs_bind; [apply runs_modify|]. intros r2 lg2.
  eapply runs_bind; [apply runs_modify|]. intros r3 lg3. eapply runs_get.
  apply (runs_if false); [exact Hc|].
  eapply runs_bind; [apply (runs_match (Some b)); [exact Hg|apply runs_ret]|]. intros r4 lg4. eapply runs_from; [exact (Hj r4 lg4)|same_start].
Qed.

Lemma runs_submit_open tid r s s' :
  b_closed s = false → dict_get (b_groups s) (compatibility_key tid r) = None →
  (∀ r1 lg1, runs (join_group clock (b_next s) (S (b_next s)))
               (quiet r1 lg1 (opened (compatibility_key tid r) (with_item r (clock (b_reads s)) s)))
               (b_next s) s') →
  runs (submit_begin clock tid r) s (b_next s) s'.
Proof.
  intros Hc Hg Hj. unfold submit_begin.
  eapply runs_bind; [apply runs_clock|]. intros r1 lg1. eapply runs_get.
  eapply runs_bind; [apply runs_modify|]. intros r2 lg2.
  eapply runs_bind; [apply runs_modify|]. intros r3 lg3. eapply runs_get.
  apply (runs_if false); [exact Hc|].
  eapply (runs_bind _ _ _ (S (b_next s)) _ (opened (compatibility_key tid r) (with_item r (clock (b_reads s)) s))).
  { apply (runs_match None); [exact Hg|]. do 4 (eapply runs_bind; [apply runs_modify|]; intros ? ?). runs_done. }
  intros r4 lg4. eapply runs_from; [exact (Hj r4 lg4)|same_start].
Qed.

(** * The timer *)

Lemma runs_timer b ba s :
  b_batches s !! b = Some ba → dict_get (b_groups s) (ba_key ba) = Some b →
  ba_items ba ≠ [] → ba_timer ba = true → NoDup (ba_items ba) →
  (∀ i, i ∈ ba_items ba → ∃ it, b_items s !! i = Some it ∧ it_state it = Pending) →
  runs (timer_expired clock b) s () (up_timers (delete b) (detached b ba ByTimeout (Some b) s)).
Proof.
  intros. eapply runs_bind; [by apply runs_detach|]. generalize (detached b ba ByTimeout (Some b) s).
  intros t r lg. runs_done.
Qed.
End ops.

(** * Settling the members of a flush *)

(** Raising leaves the state explicit, too. *)
Lemma runs_reify {A} (m : bt A) s a s' : runs m s a s' → runs (reify m) s (inr a) s'.
Proof. intros (r & lg & Hm). exists r, lg. unfold reify. by rewrite Hm. Qed.
Lemma refused_reify {A} (m : bt A) s e s' : refused m s e s' → runs (reify m) s (inl e) s'.
Proof. intros (r & lg & Hm). exists r, lg. unfold reify. by rewrite Hm. Qed.
Lemma refused_raise {A} e s : refused (raise e : bt A) s e s.
Proof. exists (b_reads s), (b_log s). unfold raise. by rewrite <- quiet_self. Qed.
Lemma refused_bind {A B} (m : bt A) (k : A → bt B) s a e s1 s2 :
  runs m s a s1 → (∀ r lg, refused (k a) (quiet r lg s1) e s2) → refused (bind m k) s e s2.
Proof.
  intros (r & lg & Hm) Hk. destruct (Hk r lg) as (r' & lg' & Hk'). exists r', lg'. unfold bind. by rewrite Hm.
Qed.
Lemma refused_to {A} (m : bt A) s e s1 s2 :
  refused m s e s1 → quiet 0 [] s1 = quiet 0 [] s2 → refused m s e s2.
Proof.
  intros (r & lg & Hm) Heq. exists r, lg. rewrite Hm. f_equal.
  change (quiet r lg (quiet 0 [] s1) = quiet r lg (quiet 0 [] s2)). by rewrite Heq.
Qed.
Lemma runs_finally {A} (m : bt A) f s a s1 s2 :
  runs m s a s1 → (∀ r lg, runs f (quiet r lg s1) () s2) → runs (finally m f) s a s2.
Proof.
  intros (r & lg & Hm) Hf. destruct (Hf r lg) as (r' & lg' & Hf'). exists r', lg'. unfold finally.
  by rewrite Hm, Hf'.
Qed.
Lemma refused_finally {A} (m : bt A) f s e s1 s2 :
  refused m s e s1 → (∀ r lg, runs f (quiet r lg s1) () s2) → refused (finally m f) s e s2.
Proof.
  intros (r & lg & Hm) Hf. destruct (Hf r lg) as (r' & lg' & Hf'). exists r', lg'. unfold finally.
  by rewrite Hm, Hf'.
Qed.

(** A member that a flush may settle. *)
Definition settleable (it : item) : Prop :=
  it_state it = ItemCancelled ∨ it_state it = Dispatched ∧ it_future it = FPending.
Definition settleable_in (s : batcher) (l : list nat) : Prop :=
  ∀ i, i ∈ l → ∃ it, b_items s !! i = Some it ∧ settleable it.

Lemma runs_fail_all e l s :
  NoDup l → settleable_in s l →
  runs (fail_items l e) s () (set_members (on_list (fail_fun e) l) s).
Proof. apply for_each_members. intros i it s' Hi Hs. by eapply runs_fail. Qed.

Definition complete_at (l : list (nat * pydict)) (i : nat) (it : item) : item :=
  match (list_to_map l : gmap nat pydict) !! i with
  | Some response => complete_fun response it
  | None => it
  end.

(** The number of members that get their response. *)
Definition dispatched_in (m : gmap nat item) (i : nat) : bool :=
  match m !! i with Some it => bool_decide (it_state it = Dispatched) | None => false end.
Fixpoint delivered (m : gmap nat item) (l : list nat) : Z :=
  match l with
  | [] => 0
  | i :: l => (if dispatched_in m i then 1 else 0) + delivered m l
  end.

Lemma delivered_alter g i m l : i ∉ l → delivered (alter g i m) l = delivered m l.
Proof.
  induction l as [|j l IH]; [done|]. intros [Hne Hni]%not_elem_of_cons. simpl.
  rewrite IH by done. unfold dispatched_in. by rewrite lookup_alter_ne by done.
Qed.

Lemma complete_at_cons i response l m :
  i ∉ l.*1 →
  update_at (complete_at l) (alter (complete_fun response) i m) = update_at (complete_at ((i, response) :: l)) m.
Proof.
  intros Hi. rewrite update_at_alter. apply update_at_ext. intros j it _. unfold complete_at. simpl.
  destruct (decide (j = i)) as [->|Hne].
  - rewrite lookup_insert_eq. by rewrite (not_elem_of_list_to_map_1 l i Hi).
  - by rewrite lookup_insert_ne by done.
Qed.

Lemma runs_complete_members l s :
  NoDup l.*1 → settleable_in s l.*1 →
  runs (complete_members l) s (delivered (b_items s) l.*1) (set_members (complete_at l) s).
Proof.
  revert s. induction l as [|[i response] l IH]; intros s Hnd Hs.
  { eapply runs_to; [apply runs_ret|]. same_state. symmetry. by apply update_at_id. }
  cbn [fmap list_fmap fst] in *. apply NoDup_cons in Hnd as [Hni Hnd].
  assert (Hs' : ∀ g t, b_items t = alter g i (b_items s) → settleable_in t l.*1).
  { intros g t Ht j Hj. destruct (Hs j) as (jt & Hjt & ?); [by right|]. exists jt. split; [|done].
    rewrite Ht, lookup_alter_ne by set_solver. done. }
  destruct (Hs i) as (it & Hi & Hit); [by left|]. cbn [delivered]. unfold dispatched_in at 1. rewrite Hi.
  cbn [complete_members]. eapply runs_item; [done|]. destruct Hit as [Hc|[Hd Hp]].
  - rewrite Hc, bool_decide_false by done. eapply runs_to; [apply IH; [done|]|].
    { apply (Hs' id). symmetry. by apply alter_id. }
    same_state. trans (update_at (complete_at l) (alter (complete_fun response) i (b_items s)));
      [|by apply complete_at_cons].
    change (update_at (complete_at l) (b_items s)
            = update_at (complete_at l) (alter (complete_fun response) i (b_items s))).
    f_equal. symmetry. apply alter_id. intros x Hx. simplify_eq. unfold complete_fun. by rewrite Hc.
  - rewrite Hd, bool_decide_true by done. eapply runs_bind; [apply runs_modify|]. intros r lg.
    eapply runs_bind; [by apply (runs_settle id i it _ (quiet r lg s))|]. intros r' lg'.
    assert (Ha : alter (λ it, with_future (FResult response) (with_state Completed it)) i (b_items s)
                 = alter (complete_fun response) i (b_items s)).
    { eapply alter_at; [done|]. unfold complete_fun. by rewrite Hd. }
    eapply runs_bind; [apply IH; [done|]|].
    { eapply Hs'. reflexivity. }
    intros r2 lg2. eapply runs_to.
    { assert (delivered (b_items s) l.*1 = delivered (b_items (quiet r' lg' (up_pending id (up_items
        (alter (λ it, with_future (FResult response) (with_state Completed it)) i) (quiet r lg s))))) l.*1) as ->.
      { symmetry. by apply delivered_alter. }
      apply runs_ret. }
    same_state. trans (update_at (complete_at l) (alter (complete_fun response) i (b_items s)));
      [by rewrite <- Ha|by apply complete_at_cons].
Qed.

(** * The end of a flush *)

(** The exception the members of a failed batch get. *)
Definition failure (a : exn + batch_answer) : exn :=
  match a with
  | inl CancelledError => gw BatchingUnavailableError
  | inl e => e
  | inr _ => gw BackendProtocolError
  end.
Definition settle_at (items : list nat) (a : exn + batch_answer) (i : nat) (it : item) : item :=
  match a with
  | inr (ABatch r) =>
      if decide (length (br_responses r) = length items)
      then complete_at (zip items (br_responses r)) i it
      else on_list (fail_fun (failure a)) items i it
  | _ => on_list (fail_fun (failure a)) items i it
  end.
Definition ended (f : nat) (g : nat → item → item) (s : batcher) : batcher :=
  up_flushes (delete f) (up_inflight (λ n, n - 1) (set_members g s)).

Lemma runs_leave reason outcome s : 0 < b_inflight s →
  runs (do! leave_inflight in do! notify_state in observe_completed reason outcome) s ()
    (up_inflight (λ n, n - 1) s).
Proof.
  intros Hn. eapply runs_bind.
  { eapply runs_get. apply (runs_if false); [lia|]. apply runs_modify. }
  intros r1 lg1. eapply runs_bind; [apply runs_notify|]. intros r2 lg2.
  eapply runs_to; [apply runs_observe|same_state].
Qed.

(** The [finally] clause and the end of the task. *)
Lemma runs_ending f fl outcome handler s s1 :
  runs handler s () s1 ∨ refused handler s CancelledError s1 → 0 < b_inflight s1 →
  runs (let! ended := reify (finally handler
          (do! leave_inflight in do! notify_state in observe_completed (fl_reason fl) outcome)) in
        do! modify (up_flushes (delete f)) in
        match ended with inr _ | inl CancelledError => ret () | inl e => raise e end) s ()
    (up_flushes (delete f) (up_inflight (λ n, n - 1) s1)).
Proof.
  intros Hh Hn. assert (Hf : ∀ r lg, runs (do! leave_inflight in do! notify_state in
    observe_completed (fl_reason fl) outcome) (quiet r lg s1) () (up_inflight (λ n, n - 1) s1)).
  { intros r lg. eapply runs_to; [by apply runs_leave|same_state]. }
  destruct Hh as [Hh|Hh].
  - eapply runs_bind; [eapply runs_reify, runs_finally; [exact Hh|exact Hf]|]. intros r1 lg1.
    eapply runs_bind; [apply runs_modify|]. intros r2 lg2. runs_done.
  - eapply runs_bind; [eapply refused_reify, refused_finally; [exact Hh|exact Hf]|]. intros r1 lg1.
    eapply runs_bind; [apply runs_modify|]. intros r2 lg2. runs_done.
Qed.

Lemma runs_body items r s :
  length (br_responses r) = length items → NoDup items → settleable_in s items →
  runs (execute_body items (inr (ABatch r))) s () (set_members (complete_at (zip items (br_responses r))) s).
Proof.
  intros Hl Hnd Hs. simpl. rewrite bool_decide_true by done. simpl.
  assert (Hz : (zip items (br_responses r)).*1 = items) by (apply fst_zip; lia).
  eapply runs_bind; [apply runs_complete_members; by rewrite Hz|]. intros r1 lg1.
  eapply runs_to; [apply runs_observe|same_state].
Qed.

(** The other answers raise an exception, or end the task. *)
Lemma refused_body items a s :
  can_answer a = true → (∀ r, a = inr (ABatch r) → length (br_responses r) ≠ length items) →
  ∃ e, refused (execute_body items a) s e s ∧
    (e = CancelledError ∧ failure a = gw BatchingUnavailableError ∨ is_exception e = true ∧ failure a = e) ∧
    ∀ i it, settle_at items a i it = on_list (fail_fun (failure a)) items i it.
Proof.
  intros Hc Ha. exists (match a with inl e => e | inr _ => gw BackendProtocolError end).
  destruct a as [e|[r|]]; simpl.
  - split_and!; [apply refused_raise| |done]. destruct e; try done; auto.
  - rewrite bool_decide_false by auto. split_and!; [apply refused_raise|by right|].
    intros. by rewrite decide_False by auto.
  - split_and!; [apply refused_raise|by right|done].
Qed.

Lemma runs_execute f fl a s :
  can_answer a = true → NoDup (fl_items fl) → settleable_in s (fl_items fl) → 0 < b_inflight s →
  runs (execute_end f fl a) s () (ended f (settle_at (fl_items fl) a) s).
Proof.
  intros Ha Hnd Hs Hn. unfold execute_end.
  assert (Hfail : ∀ e r lg,
    runs (fail_items (fl_items fl) e) (quiet r lg s) () (set_members (on_list (fail_fun e) (fl_items fl)) s)).
  { intros e r lg. eapply runs_to; [apply runs_fail_all; [done|exact Hs]|same_state]. }
  assert ((∃ r, a = inr (ABatch r) ∧ length (br_responses r) = length (fl_items fl)) ∨
          (∀ r, a = inr (ABatch r) → length (br_responses r) ≠ length (fl_items fl))) as [(r & -> & Hl)|Hbad].
  { destruct a as [|[r|]]; [by right| |by right].
    destruct (decide (length (br_responses r) = length (fl_items fl))); [left; eauto|right; naive_solver]. }
  - eapply runs_bind; [by eapply runs_reify, runs_body|]. intros r1 lg1.
    assert (Hend : quiet 0 [] (ended f (complete_at (zip (fl_items fl) (br_responses r))) s)
                   = quiet 0 [] (ended f (settle_at (fl_items fl) (inr (ABatch r))) s)).
    { same_state. apply update_at_ext. intros i it _. unfold settle_at. by rewrite decide_True. }
    eapply runs_to; [|exact Hend]. unfold ended.
    assert (Ht : 0 < b_inflight (set_members (complete_at (zip (fl_items fl) (br_responses r))) s)) by exact Hn.
    revert Ht. generalize (set_members (complete_at (zip (fl_items fl) (br_responses r))) s).
    intros t Ht. eapply runs_to; [eapply runs_ending; [left; apply runs_ret|exact Ht]|same_state].
  - destruct (refused_body (fl_items fl) a s Ha Hbad) as (e & Hb & He & Hset).
    eapply runs_bind; [by eapply refused_reify|]. intros r1 lg1.
    assert (Hend : quiet 0 [] (ended f (on_list (fail_fun (failure a)) (fl_items fl)) s)
                   = quiet 0 [] (ended f (settle_at (fl_items fl) a) s)).
    { same_state. apply update_at_ext. intros i it _. by rewrite Hset. }
    eapply runs_to; [|exact Hend]. destruct He as [[-> ->]|[Hex ->]].
    + eapply runs_ending; [right|exact Hn].
      eapply refused_bind; [apply Hfail|]. intros r2 lg2.
      eapply refused_to; [apply refused_raise|same_state].
    + destruct e; try done; (eapply runs_ending; [left; apply Hfail|exact Hn]).
Qed.

(** * Cancelling *)

Definition cancel_fun (it : item) : item :=
  match it_state it with
  | Completed | ItemCancelled => it
  | _ => with_future FCancelled (with_state ItemCancelled it)
  end.

Definition left_group (i b : nat) (key : pystr) (ba : batch) (s : batcher) : batcher :=
  let items := remove_first i (ba_items ba) in
  let s := up_pending (λ p, p - 1) (up_batches (alter (with_items (λ _, items)) b) s) in
  if bool_decide (items = [])
  then up_timers (alter (λ _, true) b) (up_groups (λ g, dict_pop g key) s) else s.

Lemma runs_close_group key b (timer : bool) groups s t :
  dict_get groups key = Some b → timer = true → groups = b_groups t →
  quiet 0 [] t = quiet 0 [] s →
  runs (let! groups := unwrap KeyError (dict_del groups key) in
        do! modify (up_groups (λ _, groups)) in
        if timer then cancel_timer b else ret ()) t ()
    (up_timers (alter (λ _, true) b) (up_groups (λ g, dict_pop g key) s)).
Proof.
  intros Hg -> -> Hts. eapply (runs_unwrap _ _ _ (dict_pop (b_groups t) key)).
  { unfold dict_del. by rewrite Hg. }
  eapply runs_bind; [apply runs_modify|]. intros r lg. eapply runs_to; [apply runs_modify|].
  trans (quiet 0 [] (up_timers (alter (λ _, true) b) (up_groups (λ g, dict_pop g key) (quiet 0 [] t))));
    [reflexivity|by rewrite Hts].
Qed.

Lemma runs_cancel_pending i key b ba s :
  dict_get (b_groups s) key = Some b → b_batches s !! b = Some ba → ba_timer ba = true →
  i ∈ ba_items ba → runs (cancel_pending i key) s () (left_group i b key ba s).
Proof.
  intros Hg Hb Ht Hi. eapply runs_get. apply (runs_match (Some b)); [done|].
  eapply runs_batch; [done|]. apply (runs_if true); [by apply bool_decide_true|].
  eapply runs_bind; [apply runs_modify|]. intros r1 lg1.
  eapply runs_bind; [apply runs_modify|]. intros r2 lg2.
  eapply (runs_bind _ _ _ () _ (left_group i b key ba s)).
  { unfold left_group. cbv zeta. destruct (bool_decide (remove_first i (ba_items ba) = [])); [|runs_done].
    by apply runs_close_group. }
  intros r3 lg3. eapply runs_to; [apply runs_notify|same_state].
Qed.

Lemma cancel_item_future i s it s1 :
  b_items s1 !! i = Some (with_state ItemCancelled it) → it_future it = FPending →
  b_items s1 = alter (with_state ItemCancelled) i (b_items s) → b_items s !! i = Some it →
  (it_state it = Pending ∨ it_state it = Dispatched) →
  alter (λ it, with_future (fut_cancel (it_future it)) it) i (b_items s1) = alter cancel_fun i (b_items s).
Proof.
  intros _ Hf -> Hi Hst. rewrite alter_alter_eq. eapply alter_at; [done|].
  unfold cancel_fun. simpl. rewrite Hf. by destruct Hst as [-> | ->].
Qed.

(** Cancelling a member that waits in its group takes it out of the group. *)
Lemma runs_cancel_waiting i it key b ba s :
  b_items s !! i = Some it → it_state it = Pending → it_future it = FPending →
  dict_get (b_groups s) key = Some b → b_batches s !! b = Some ba → ba_timer ba = true →
  i ∈ ba_items ba →
  runs (cancel_item i key) s () (up_items (alter cancel_fun i) (left_group i b key ba s)).
Proof.
  intros Hi Hst Hf Hg Hb Ht Hin. eapply runs_item; [done|]. rewrite Hst.
  eapply (runs_bind _ _ _ () _ (up_items (alter (with_state ItemCancelled) i) (left_group i b key ba s))).
  { eapply runs_bind; [by apply runs_cancel_pending|]. intros r1 lg1. runs_done. }
  intros r2 lg2. eapply runs_to; [apply runs_modify|]. unfold left_group. cbv zeta.
  destruct (bool_decide _); same_state;
    (eapply (cancel_item_future i s it (up_items (alter (with_state ItemCancelled) i) s)); auto;
     trans (alter (with_state ItemCancelled) i (b_items s) !! i); [done|by rewrite lookup_alter_eq, Hi]).
Qed.

(** A dispatched member is marked; a settled one is left alone. *)
Lemma runs_cancel_other i it key s :
  b_items s !! i = Some it → item_ok it → it_state it ≠ Pending →
  runs (cancel_item i key) s () (up_items (alter cancel_fun i) s).
Proof.
  intros Hi Hok Hst. eapply runs_item; [done|].
  destruct (it_state it) eqn:Hs; [done| | |]; unfold item_ok in Hok; rewrite Hs in Hok.
  - eapply runs_bind; [apply runs_modify|]. intros r lg. eapply runs_to; [apply runs_modify|same_state].
    eapply (cancel_item_future i s it (up_items (alter (with_state ItemCancelled) i) s)); auto.
    trans (alter (with_state ItemCancelled) i (b_items s) !! i); [done|by rewrite lookup_alter_eq, Hi].
  - eapply runs_bind; [apply runs_ret|]. intros r lg. eapply runs_to; [apply runs_modify|same_state].
    eapply alter_at; [done|]. unfold cancel_fun. rewrite Hs.
    destruct it, Hok as [[? Hok]|[? Hok]]; simpl in *; by rewrite Hok.
  - eapply runs_bind; [apply runs_ret|]. intros r lg. eapply runs_to; [apply runs_modify|same_state].
    eapply alter_at; [done|]. unfold cancel_fun. rewrite Hs. destruct it; simpl in *; by rewrite Hok.
Qed.

(** * Shutting down *)

Definition drop_fun : item → item := fail_fun (gw BatchingUnavailableError).

Lemma runs_shutdown_members l s :
  NoDup l → (∀ i, i ∈ l → ∃ it, b_items s !! i = Some it ∧ it_state it = Pending ∧ it_future it = FPending) →
  runs (for_each l (shutdown_member Pending true)) s ()
    (up_pending (λ p, p - Z.of_nat (length l)) (set_members (on_list drop_fun l) s)).
Proof.
  revert s. induction l as [|i l IH]; intros s Hnd Hp.
  { eapply runs_to; [apply runs_ret|]. same_state; [|simpl; lia]. symmetry. apply update_at_id.
    intros. unfold on_list. by rewrite decide_False by set_solver. }
  apply NoDup_cons in Hnd as [Hni Hnd]. destruct (Hp i) as (it & Hi & Hst & Hf); [by left|].
  eapply runs_bind; [by eapply runs_shutdown_pending|]. intros r lg.
  eapply runs_to; [apply IH; [done|]|].
  - intros j Hj. destruct (Hp j) as (jt & Hjt & ?); [by right|]. exists jt. split; [|done].
    trans (alter drop_fun i (b_items s) !! j); [done|]. by rewrite lookup_alter_ne by set_solver.
  - pose proof (f_equal b_items (set_members_cons drop_fun i l s Hni)) as Hm.
    same_state; [exact Hm|]. change (b_pending s - 1 - Z.of_nat (length l) = b_pending s - Z.of_nat (S (length l))). lia.
Qed.

Lemma runs_shutdown_batch b ba s :
  b_batches s !! b = Some ba → ba_timer ba = true → NoDup (ba_items ba) →
  (∀ i, i ∈ ba_items ba → ∃ it, b_items s !! i = Some it ∧ it_state it = Pending ∧ it_future it = FPending) →
  runs (shutdown_batch b) s ()
    (up_pending (λ p, p - Z.of_nat (length (ba_items ba)))
      (set_members (on_list drop_fun (ba_items ba)) (up_timers (alter (λ _, true) b) s))).
Proof.
  intros Hb Ht Hnd Hp. eapply runs_batch; [done|]. rewrite Ht.
  eapply runs_bind; [apply runs_modify|]. intros r lg.
  eapply runs_to; [by apply runs_shutdown_members|same_state].
Qed.

Lemma drop_on_twice l k s :
  set_members (on_list drop_fun k) (set_members (on_list drop_fun l) s)
  = set_members (on_list drop_fun (l ++ k)) s.
Proof.
  unfold set_members, up_items. cbn [b_items]. f_equal. apply map_eq. intros i.
  rewrite !lookup_update_at. destruct (b_items s !! i) as [it|]; [|done]. simpl. f_equal.
  unfold on_list. destruct (decide (i ∈ l)) as [Hl|Hl], (decide (i ∈ k)) as [Hk|Hk];
    rewrite ?(decide_True (P := i ∈ l ++ k)), ?(decide_False (P := i ∈ l ++ k)) by (set_solver); try done.
  unfold drop_fun, fail_fun. by destruct it as [? ? ? []].
Qed.

Lemma on_list_nil g s : set_members (on_list g []) s = s.
Proof.
  apply state_eq; [|done..]. same_state. apply update_at_id.
  intros. unfold on_list. by rewrite decide_False by set_solver.
Qed.

(** Members outside a dropped list are as before. *)
Lemma lookup_set_members_ne g l s i :
  i ∉ l → b_items (set_members (on_list g l) s) !! i = b_items s !! i.
Proof.
  intros Hi. change (update_at (on_list g l) (b_items s) !! i = b_items s !! i).
  rewrite lookup_update_at. destruct (b_items s !! i); [|done]. simpl. unfold on_list. by rewrite decide_False.
Qed.

Definition members_of (m : gmap nat batch) (bs : list nat) : list nat :=
  bs ≫= λ b, match m !! b with Some ba => ba_items ba | None => [] end.
Definition stop_all (bs : list nat) (m : gmap nat bool) : gmap nat bool :=
  foldl (λ m b, alter (λ _, true) b m) m bs.

Definition waiting_in (s : batcher) (l : list nat) : Prop :=
  ∀ i, i ∈ l → ∃ it, b_items s !! i = Some it ∧ it_state it = Pending ∧ it_future it = FPending.

Lemma runs_shutdown_batches bs s :
  (∀ b, b ∈ bs → ∃ ba, b_batches s !! b = Some ba ∧ ba_timer ba = true) →
  NoDup (members_of (b_batches s) bs) → waiting_in s (members_of (b_batches s) bs) →
  runs (for_each bs shutdown_batch) s ()
    (up_pending (λ p, p - Z.of_nat (length (members_of (b_batches s) bs)))
      (set_members (on_list drop_fun (members_of (b_batches s) bs)) (up_timers (stop_all bs) s))).
Proof.
  revert s. induction bs as [|b bs IH]; intros s Hb Hnd Hw; cbn [for_each].
  { eapply runs_to; [apply runs_ret|]. change (members_of (b_batches s) []) with (@nil nat).
    rewrite on_list_nil. same_state. simpl. lia. }
  destruct (Hb b) as (ba & Hba & Ht); [by left|].
  assert (Hms : members_of (b_batches s) (b :: bs) = ba_items ba ++ members_of (b_batches s) bs).
  { unfold members_of. by rewrite bind_cons, Hba. }
  rewrite Hms in *. apply NoDup_app in Hnd as (Hnd1 & Hdis & Hnd2).
  eapply runs_bind; [eapply runs_shutdown_batch; [done..|]|].
  { intros i Hi. apply Hw. apply elem_of_app. by left. }
  set (s1 := up_pending (λ p, p - Z.of_nat (length (ba_items ba)))
               (set_members (on_list drop_fun (ba_items ba)) (up_timers (alter (λ _, true) b) s))).
  intros r lg. eapply runs_to; [apply (IH (quiet r lg s1))|].
  - intros b' Hb'. apply Hb. by right.
  - exact Hnd2.
  - intros i Hi. destruct (Hw i) as (it & ? & ?); [apply elem_of_app; by right|]. exists it.
    split; [|done]. trans (b_items (set_members (on_list drop_fun (ba_items ba)) s) !! i); [done|].
    rewrite lookup_set_members_ne; [done|]. intros ?. by eapply Hdis.
  - pose proof (f_equal b_items (drop_on_twice (ba_items ba) (members_of (b_batches s) bs) s)) as Hm.
    change (members_of (b_batches (quiet r lg s1)) bs) with (members_of (b_batches s) bs).
    same_state; [exact Hm|].
    change (b_pending s - Z.of_nat (length (ba_items ba)) - Z.of_nat (length (members_of (b_batches s) bs))
            = b_pending s - Z.of_nat (length (ba_items ba ++ members_of (b_batches s) bs))).
    rewrite length_app. lia.
Qed.

(** ** The flush tasks *)

Definition unstarted (m : gmap nat flush) (fs : list nat) : list flush :=
  omap (λ f, fl ← m !! f; if fl_started fl then None else Some fl) fs.
Definition cancel_all (fs : list nat) (m : gmap nat flush) : gmap nat flush :=
  foldl (λ m f, alter flush_cancelled f m) m fs.

Lemma unstarted_cons m f fs :
  unstarted m (f :: fs) =
  match m !! f with
  | Some fl => if fl_started fl then unstarted m fs else fl :: unstarted m fs
  | None => unstarted m fs
  end.
Proof. unfold unstarted. simpl. destruct (m !! f) as [fl|]; [|done]. simpl. by destruct (fl_started fl). Qed.

Lemma unstarted_alter m f fs : f ∉ fs → unstarted (alter flush_cancelled f m) fs = unstarted m fs.
Proof.
  induction fs as [|g fs IH]; [done|]. intros [Hne Hni]%not_elem_of_cons.
  by rewrite !unstarted_cons, lookup_alter_ne, IH by done.
Qed.

Lemma runs_shutdown_flushes fs s :
  NoDup fs → (∀ f, f ∈ fs → is_Some (b_flushes s !! f)) →
  NoDup (unstarted (b_flushes s) fs ≫= fl_items) →
  settleable_in s (unstarted (b_flushes s) fs ≫= fl_items) →
  Z.of_nat (length (unstarted (b_flushes s) fs)) ≤ b_inflight s →
  runs (shutdown_flushes fs) s (fl_reason <$> unstarted (b_flushes s) fs)
    (up_inflight (λ n, n - Z.of_nat (length (unstarted (b_flushes s) fs)))
      (set_members (on_list drop_fun (unstarted (b_flushes s) fs ≫= fl_items))
        (up_flushes (cancel_all fs) s))).
Proof.
  revert s. induction fs as [|f fs IH]; intros s Hnf Hf Hnd Hs Hn; cbn [shutdown_flushes].
  { eapply runs_to; [apply runs_ret|]. cbn [unstarted omap list_omap mbind list_bind]. rewrite on_list_nil.
    same_state. simpl. lia. }
  apply NoDup_cons in Hnf as [Hni Hnf]. destruct (Hf f) as [fl Hfl]; [by left|].
  assert (Hf' : ∀ g, g ∈ fs → is_Some (alter flush_cancelled f (b_flushes s) !! g)).
  { intros g Hg. rewrite lookup_alter_ne by set_solver. apply Hf. by right. }
  eapply runs_bind; [apply runs_modify|]. intros r1 lg1. eapply runs_get.
  apply (runs_match (Some (flush_cancelled fl))).
  { trans (alter flush_cancelled f (b_flushes s) !! f); [done|]. by rewrite lookup_alter_eq, Hfl. }
  assert (Hu : unstarted (b_flushes s) (f :: fs) =
    if fl_started fl then unstarted (b_flushes s) fs else fl :: unstarted (b_flushes s) fs).
  { by rewrite unstarted_cons, Hfl. }
  rewrite Hu in *. change (fl_started (flush_cancelled fl)) with (fl_started fl).
  set (s1 := quiet r1 lg1 (up_flushes (alter flush_cancelled f) s)).
  assert (Hua : unstarted (b_flushes s1) fs = unstarted (b_flushes s) fs) by (by apply unstarted_alter).
  destruct (fl_started fl).
  - eapply runs_to; [rewrite <- Hua; apply (IH s1); rewrite ?Hua; done|]. rewrite Hua. same_state.
  - rewrite bind_cons in *. apply NoDup_app in Hnd as (Hnd1 & Hdis & Hnd2).
    cbn [length] in Hn. eapply runs_bind.
    { eapply for_each_members with (ok := settleable); [|exact Hnd1|].
      - intros i it t Hi Ht. by eapply runs_shutdown_dispatched.
      - intros i Hi. apply Hs. apply elem_of_app. by left. }
    intros r2 lg2. eapply runs_bind.
    { eapply runs_get. apply (runs_if false); [|apply runs_modify].
      apply Z.leb_gt. change (0 < b_inflight s). lia. }
    intros r3 lg3. set (s2 := quiet r3 lg3 _).
    assert (Hub : unstarted (b_flushes s2) fs = unstarted (b_flushes s) fs) by done.
    eapply runs_bind; [apply (IH s2); rewrite ?Hub; [done|exact Hf'|done| |]|].
    + intros i Hi. destruct (Hs i) as (it & ? & ?); [apply elem_of_app; by right|]. exists it. split; [|done].
      trans (b_items (set_members (on_list drop_fun (fl_items fl)) s) !! i); [done|].
      rewrite lookup_set_members_ne; [done|]. intros ?. by eapply Hdis.
    + change (Z.of_nat (length (unstarted (b_flushes s) fs)) ≤ b_inflight s - 1). lia.
    + rewrite Hub. intros r4 lg4. eapply runs_to; [apply runs_ret|].
      pose proof (f_equal b_items (drop_on_twice (fl_items fl) (unstarted (b_flushes s) fs ≫= fl_items) s)) as Hm.
      same_state; [exact Hm|].
      change (b_inflight s - 1 - Z.of_nat (length (unstarted (b_flushes s) fs))
              = b_inflight s - Z.of_nat (S (length (unstarted (b_flushes s) fs)))). lia.
Qed.

(** ** The whole of [shutdown]'s locked section *)

Definition shut_groups (s : batcher) : batcher :=
  let members := members_of (b_batches s) (b_groups s).*2 in
  up_pending (λ p, p - Z.of_nat (length members))
    (set_members (on_list drop_fun members)
      (up_timers (stop_all (b_groups s).*2) (up_groups (λ _, []) (up_closed (λ _, true) s)))).
Definition shut_flushes (s : batcher) : batcher :=
  let fs := (map_to_list (b_flushes s)).*1 in
  let never := unstarted (b_flushes s) fs in
  up_inflight (λ n, n - Z.of_nat (length never))
    (set_members (on_list drop_fun (never ≫= fl_items)) (up_flushes (cancel_all fs) s)).

Lemma runs_observe_all l s :
  runs (for_each l (λ reason, observe_completed reason BCancelled)) s () s.
Proof.
  revert s. induction l as [|reason l IH]; intros s; cbn [for_each]; [apply runs_ret|].
  eapply runs_bind; [apply runs_observe|]. intros r lg. eapply runs_to; [apply IH|same_state].
Qed.

Lemma runs_shutdown s :
  b_closed s = false →
  (∀ b, b ∈ (b_groups s).*2 → ∃ ba, b_batches s !! b = Some ba ∧ ba_timer ba = true) →
  NoDup (members_of (b_batches s) (b_groups s).*2) → waiting_in s (members_of (b_batches s) (b_groups s).*2) →
  (let t := shut_groups s in
   let never := unstarted (b_flushes t) ((map_to_list (b_flushes t)).*1) in
   NoDup (never ≫= fl_items) ∧ settleable_in t (never ≫= fl_items) ∧
   Z.of_nat (length never) ≤ b_inflight t) →
  runs shutdown_begin s true (shut_flushes (shut_groups s)).
Proof.
  intros Hc Hb Hnd Hw Hfl. eapply runs_get. apply (runs_if false); [done|].
  eapply runs_bind; [apply runs_modify|]. intros r1 lg1.
  eapply runs_bind; [apply runs_modify|]. intros r2 lg2.
  eapply (runs_bind _ _ _ () _ (shut_groups s)).
  { eapply runs_to; [apply runs_shutdown_batches; [exact Hb|exact Hnd|exact Hw]|].
    unfold shut_groups. change (members_of (b_batches _) _) with (members_of (b_batches s) (b_groups s).*2).
    same_state. }
  revert Hfl. generalize (shut_groups s). intros t (Hnd' & Hs' & Hn) r3 lg3. eapply runs_get.
  eapply runs_bind; [apply (runs_shutdown_flushes _ (quiet r3 lg3 t))|].
  - apply NoDup_fst_map_to_list.
  - intros f ([? fl] & -> & Hf%elem_of_map_to_list)%list_elem_of_fmap. by exists fl.
  - exact Hnd'.
  - exact Hs'.
  - exact Hn.
  - change (b_flushes (quiet r3 lg3 t)) with (b_flushes t). intros r4 lg4.
    eapply runs_bind; [apply runs_notify|]. intros r5 lg5.
    eapply runs_bind; [apply runs_observe_all|]. intros r6 lg6.
    eapply runs_to; [apply runs_ret|]. unfold shut_flushes. cbv zeta. same_state.
Qed.
