(* ===== verification/BatchingSteps.v ===== *)
(** Every operation of the batcher preserves its invariant. *)
From S2P Require Import Prelude.
From S2P Require Import Python.
From S2P Require Import Json.
From S2P Require Import Errors.
From S2P Require Import Chat.
From S2P Require Import Compatibility.
From S2P Require Import Batching.
From S2P Require Import BatchingInv.
From S2P Require Import BatchingOps.

(** Updating members one by one. *)
Lemma lookup_on_list g l m i : update_at (on_list g l) m !! i = on_list g l i <$> m !! i.
Proof. apply lookup_update_at. Qed.

Lemma on_list_in g l i it : i ∈ l → on_list g l i it = g it.
Proof. intros. unfold on_list. by rewrite decide_True. Qed.
Lemma on_list_out g l i it : i ∉ l → on_list g l i it = it.
Proof. intros. unfold on_list. by rewrite decide_False. Qed.

Lemma alter_as_insert {A} (g : A → A) (m : gmap nat A) i x : m !! i = Some x → alter g i m = <[i := g x]> m.
Proof.
  intros Hi. apply map_eq. intros j. destruct (decide (i = j)) as [<-|Hne].
  - by rewrite lookup_alter_eq, lookup_insert_eq, Hi.
  - by rewrite lookup_alter_ne, lookup_insert_ne.
Qed.

Section steps.
Context `{FloatRepr, ModelDump}.

(** Members keep their requests. *)
Definition same_requests (s s' : batcher) : Prop :=
  ∀ i it, b_items s !! i = Some it → ∃ it', b_items s' !! i = Some it' ∧ it_request it' = it_request it.

Lemma keyed_mono T T' s s' k i :
  same_requests s s' → (∀ t, T !! i = Some t → T' !! i = Some t) → keyed T s k i → keyed T' s' k i.
Proof.
  intros Hs HT (it & t & Hi & Ht & Hk & Hv). destruct (Hs i it Hi) as (it' & Hi' & Hr).
  exists it', t. rewrite Hr. auto.
Qed.

Lemma same_requests_update g s s' :
  b_items s' = update_at g (b_items s) → (∀ i it, it_request (g i it) = it_request it) → same_requests s s'.
Proof. intros Hs' Hg i it Hi. exists (g i it). by rewrite Hs', lookup_update_at, Hi. Qed.

(** * Dispatching *)

Section detach.
Context (full : option nat) (s : batcher) (F T : gmap nat pystr).
Context (k : pystr) (b : nat) (ba : batch) (reason : flush_reason) (current : option nat).
Hypothesis Hi : binv full s.
Hypothesis Hc : bcalls s F T.
Hypothesis Hg : grp s !! k = Some b.
Hypothesis Hb : b_batches s !! b = Some ba.
Hypothesis Hfull : full = None ∨ full = Some b.
Hypothesis Hnonempty : ba_items ba ≠ [].
Hypothesis Hreason : reason = BySize ↔ Z.of_nat (length (ba_items ba)) = b_max_size s.
Context (timers : gmap nat bool).
Hypothesis Ht : timers !! b ≠ Some false.
Hypothesis Hts : ∀ b', b' ≠ b → timers !! b' = b_timers s !! b'.

Let D := up_timers (λ _, timers) (detached b ba reason current s).

Lemma detached_timers_irrelevant t :
  up_timers (λ _, timers) (detached b ba reason t s) = D.
Proof. unfold D, detached, stop_timer. by do 2 case_bool_decide. Qed.

Lemma detached_items : b_items D = update_at (on_list (with_state Dispatched) (ba_items ba)) (b_items s).
Proof. unfold D, detached, stop_timer. by case_bool_decide. Qed.
Lemma detached_groups : grp D = delete k (grp s).
Proof.
  destruct (bi_group _ _ Hi _ _ Hg) as (ba' & Hb' & <- & _). simplify_eq.
  unfold grp at 2. rewrite <- dict_map_pop. unfold D, detached, stop_timer. by case_bool_decide.
Qed.
Lemma detached_batches : b_batches D = b_batches s.
Proof. unfold D, detached, stop_timer. by case_bool_decide. Qed.
Lemma detached_flushes : b_flushes D = <[b_next s := Flush (ba_items ba) reason false false]> (b_flushes s).
Proof. unfold D, detached, stop_timer. by case_bool_decide. Qed.
Lemma detached_max : b_max_size D = b_max_size s.
Proof. unfold D, detached, stop_timer. by case_bool_decide. Qed.
Lemma detached_closed : b_closed D = b_closed s.
Proof. unfold D, detached, stop_timer. by case_bool_decide. Qed.
Lemma detached_next : b_next D = S (b_next s).
Proof. unfold D, detached, stop_timer. by case_bool_decide. Qed.
Lemma detached_pending : b_pending D = b_pending s - Z.of_nat (length (ba_items ba)).
Proof. unfold D, detached, stop_timer. by case_bool_decide. Qed.
Lemma detached_inflight : b_inflight D = b_inflight s + 1.
Proof. unfold D, detached, stop_timer. by case_bool_decide. Qed.
Lemma detached_keys : NoDup (b_groups D).*1.
Proof.
  assert (b_groups D = dict_pop (b_groups s) (ba_key ba)) as ->
    by (unfold D, detached, stop_timer; by case_bool_decide).
  apply dict_pop_keys, Hi.
Qed.

Lemma detached_fresh_flush : b_flushes s !! b_next s = None.
Proof. by apply (bi_fresh _ _ Hi). Qed.

Lemma detached_member i : i ∈ ba_items ba → ∃ it, b_items s !! i = Some it ∧ it_state it = Pending.
Proof. by apply (bi_member _ _ Hi k b). Qed.

(** A batch other than the detached one is not touched. *)
Lemma detached_group k' b' : grp D !! k' = Some b' → grp s !! k' = Some b' ∧ b' ≠ b.
Proof.
  rewrite detached_groups. intros [Hne Hk']%lookup_delete_Some. split; [done|]. intros ->.
  destruct (bi_group _ _ Hi _ _ Hk') as (ba1 & ? & Hk1 & _), (bi_group _ _ Hi _ _ Hg) as (ba2 & ? & Hk2 & _).
  simplify_eq.
Qed.

Lemma detached_item i it : b_items D !! i = Some it →
  ∃ it0, b_items s !! i = Some it0 ∧
    (i ∈ ba_items ba ∧ it_state it0 = Pending ∧ it = with_state Dispatched it0 ∨ (i ∉ ba_items ba) ∧ it = it0).
Proof.
  rewrite detached_items, lookup_on_list. destruct (b_items s !! i) as [it0|] eqn:Hi0; simpl; [|done].
  intros [= <-]. exists it0. split; [done|]. destruct (decide (i ∈ ba_items ba)) as [Hin|Hin].
  - left. rewrite on_list_in by done. destruct (detached_member i Hin) as (it1 & ? & ?). naive_solver.
  - right. by rewrite on_list_out.
Qed.

Lemma detached_old i it0 : b_items s !! i = Some it0 → it_state it0 ≠ Pending → b_items D !! i = Some it0.
Proof.
  intros Hi0 Hst. rewrite detached_items, lookup_on_list, Hi0. simpl. rewrite on_list_out; [done|].
  intros Hin. destruct (detached_member i Hin) as (? & ? & ?). congruence.
Qed.
Lemma detached_flush f fl : b_flushes D !! f = Some fl →
  f = b_next s ∧ fl = Flush (ba_items ba) reason false false ∨
  f ≠ b_next s ∧ b_flushes s !! f = Some fl.
Proof. rewrite detached_flushes. intros [[<- <-]|[? ?]]%lookup_insert_Some; auto. Qed.

(** The members of older flushes were dispatched before. *)
Lemma detached_flown f fl i : b_flushes s !! f = Some fl → i ∈ fl_items fl → i ∉ ba_items ba.
Proof.
  intros Hf Hin Hba. destruct (bi_flying _ _ Hi _ _ _ Hf Hin) as (it & Hit & Hfl).
  destruct (detached_member i Hba) as (it' & ? & Hst). simplify_eq. unfold flying in Hfl. by rewrite Hst in Hfl.
Qed.

Lemma detached_sum : sum_map (batch_len D) (grp D) = sum_map (batch_len s) (grp s) - Z.of_nat (length (ba_items ba)).
Proof.
  rewrite (sum_map_delete _ (grp s) k b) by done. rewrite detached_groups.
  assert (Hl : batch_len s b = Z.of_nat (length (ba_items ba))) by (unfold batch_len; by rewrite Hb).
  rewrite Hl, (sum_map_ext (batch_len D) (batch_len s)); [lia|].
  intros k' b' _. unfold batch_len. by rewrite detached_batches.
Qed.

Lemma detached_ok_timers b' : timers !! b' = Some false → b_timers s !! b' = Some false ∧ b' ≠ b.
Proof.
  intros Hb'. assert (b' ≠ b) by (intros ->; congruence). by rewrite <- Hts.
Qed.

Lemma detached_binv : binv None D.
Proof.
  destruct (bi_group _ _ Hi _ _ Hg) as (ba' & Hba' & _ & _ & _ & Hnd & Htt & Hlen).
  assert (ba' = ba) as -> by congruence. clear Hba'.
  assert (Hsz : 1 ≤ Z.of_nat (length (ba_items ba)) ≤ b_max_size s).
  { destruct (ba_items ba) eqn:E; [done|]. simpl length in *. destruct Hlen as [?|[_ ?]]; lia. }
  constructor.
  - rewrite detached_max. apply Hi.
  - apply detached_keys.
  - intros k' b' [Hk' Hb']%detached_group.
    destruct (bi_group _ _ Hi _ _ Hk') as (ba' & ? & ? & ? & ? & ? & ? & Hl). exists ba'.
    rewrite detached_batches, detached_max. split_and!; try done.
    + destruct Hfull; naive_solver.
    + change (timers !! b' = Some false). by rewrite Hts.
    + left. destruct Hl as [?|[Hf ?]]; [done|]. destruct Hfull; congruence.
  - intros b' [Hb' Hne']%detached_ok_timers. destruct (bi_timer _ _ Hi _ Hb') as [k' Hk'].
    exists k'. rewrite detached_groups, lookup_delete_ne; [done|]. intros <-. congruence.
  - intros k' b' ba' i [Hk' Hb']%detached_group Hba' Hin. rewrite detached_batches in Hba'.
    destruct (bi_member _ _ Hi _ _ _ _ Hk' Hba' Hin) as (it & Hit & Hst).
    destruct (decide (i ∈ ba_items ba)) as [Hin'|Hin'].
    + pose proof (bc_member _ _ _ Hc _ _ _ _ Hk' Hba' Hin). pose proof (bc_member _ _ _ Hc _ _ _ _ Hg Hb Hin').
      congruence.
    + exists it. split; [|done]. rewrite detached_items, lookup_on_list, Hit. simpl. by rewrite on_list_out.
  - intros f fl [[-> ->]|[_ Hf]]%detached_flush; rewrite detached_max; [|by apply (bi_flush _ _ Hi f)].
    split; [exact Hsz|]. split; [exact Hnd|exact Hreason].
  - intros f fl i [[-> ->]|[_ Hf]]%detached_flush Hin.
    + destruct (detached_member i Hin) as (it & Hit & Hst). exists (with_state Dispatched it).
      rewrite detached_items, lookup_on_list, Hit. simpl. by rewrite on_list_in.
    + destruct (bi_flying _ _ Hi _ _ _ Hf Hin) as (it & Hit & Hfl). exists it. split; [|done].
      apply detached_old; [done|]. unfold flying in Hfl. by destruct (it_state it).
  - intros f g fl gl i [[-> ->]|[Hfn Hf]]%detached_flush [[-> ->]|[Hgn Hgf]]%detached_flush Hif Hig; try done.
    + by destruct (detached_flown _ _ _ Hgf Hig).
    + by destruct (detached_flown _ _ _ Hf Hif).
    + by eapply (bi_disjoint _ _ Hi).
  - intros i it (it0 & Hit0 & [(_ & Hst & ->)|[_ ->]])%detached_item; [|by apply (bi_item _ _ Hi i)].
    pose proof (bi_item _ _ Hi _ _ Hit0) as Hok. unfold item_ok in *. by rewrite Hst in Hok.
  - intros i it (it0 & Hit0 & [(Hin & Hst & ->)|[Hin ->]])%detached_item Hd.
    + exists (b_next s), (Flush (ba_items ba) reason false false).
      by rewrite detached_flushes, lookup_insert_eq.
    + destruct (bi_dispatched _ _ Hi _ _ Hit0 Hd) as (f & fl & Hf & Hfin). exists f, fl.
      rewrite detached_flushes, lookup_insert_ne; [done|]. intros <-. by rewrite detached_fresh_flush in Hf.
  - by rewrite detached_pending, detached_sum, (bi_pending _ _ Hi).
  - rewrite detached_inflight, detached_flushes, sum_map_insert_None by apply detached_fresh_flush.
    rewrite (bi_inflight _ _ Hi). change (live_weight (Flush (ba_items ba) reason false false)) with 1. lia.
  - rewrite detached_closed. intros Hcl. unfold grp in Hg. by rewrite (bi_closed _ _ Hi Hcl) in Hg.
  - intros f fl [[-> ->]|[_ Hf]]%detached_flush; rewrite detached_closed; [|by apply (bi_cancel _ _ Hi f)].
    simpl. destruct (b_closed s) eqn:Hcl; [|done]. unfold grp in Hg. by rewrite (bi_closed _ _ Hi Hcl) in Hg.
  - rewrite detached_next. intros i Hle. destruct (bi_fresh _ _ Hi i) as (Hn1 & Hn2 & Hn3 & Hn4); [lia|].
    rewrite detached_items, lookup_on_list, Hn1, detached_batches, detached_flushes.
    rewrite lookup_insert_ne by lia. split_and!; try done. change (timers !! i = None).
    rewrite Hts; [done|]. intros ->. congruence.
Qed.

Lemma detached_requests : same_requests s D.
Proof.
  eapply same_requests_update; [apply detached_items|]. intros i it. unfold on_list. by case_decide.
Qed.

Lemma detached_bcalls : bcalls D F T.
Proof.
  constructor.
  - intros i k' Hf. eapply keyed_mono; [apply detached_requests|done|by apply (bc_frame _ _ _ Hc)].
  - intros i k' it Hf (it0 & Hit0 & [(_ & Hst & ->)|[_ ->]])%detached_item; [done|].
    by eapply (bc_live _ _ _ Hc).
  - intros i k' it Hf (it0 & Hit0 & [(_ & Hst & ->)|[Hni ->]])%detached_item Hp; [done|].
    destruct (bc_pending _ _ _ Hc _ _ _ Hf Hit0 Hp) as (b' & ba' & Hk' & Hb' & Hin). exists b', ba'.
    rewrite detached_batches, detached_groups, lookup_delete_ne; [done|].
    intros <-. simplify_eq.
  - intros k' b' ba' i [Hk' _]%detached_group. rewrite detached_batches. by apply (bc_member _ _ _ Hc).
  - intros i it (it0 & Hit0 & [(Hin & Hst & ->)|[_ ->]])%detached_item Hd.
    + rewrite (bc_member _ _ _ Hc _ _ _ _ Hg Hb Hin). by eexists.
    + by eapply (bc_dispatched _ _ _ Hc).
  - intros f fl [[-> ->]|[_ Hf]]%detached_flush.
    + exists k. intros i Hin. eapply keyed_mono; [apply detached_requests|done|].
      by eapply (bc_frame _ _ _ Hc), (bc_member _ _ _ Hc).
    + destruct (bc_flush _ _ _ Hc _ _ Hf) as [k' Hk']. exists k'. intros i Hin.
      eapply keyed_mono; [apply detached_requests|done|by apply Hk'].
Qed.
End detach.

(** * Submitting *)

Lemma grp_lookup s k : grp s !! k = dict_get (b_groups s) k.
Proof. symmetry. apply dict_map_get. Qed.

(** The new member, not yet in a group. *)
Lemma with_item_items r t s :
  b_items (with_item r t s) = <[b_next s := Item r FPending t Pending]> (b_items s).
Proof. done. Qed.

Lemma with_item_lookup r t s i it : b_items (with_item r t s) !! i = Some it →
  i = b_next s ∧ it = Item r FPending t Pending ∨ i ≠ b_next s ∧ b_items s !! i = Some it.
Proof. rewrite with_item_items. intros [[<- <-]|[? ?]]%lookup_insert_Some; auto. Qed.

Lemma with_item_old full r t s i it :
  binv full s → b_items s !! i = Some it → b_items (with_item r t s) !! i = Some it.
Proof.
  intros Hi Hit. change (<[b_next s := Item r FPending t Pending]> (b_items s) !! i = Some it).
  rewrite lookup_insert_ne; [done|]. intros <-. destruct (bi_fresh _ _ Hi (b_next s)); [done|congruence].
Qed.

Lemma with_item_binv full r t s : binv full s → binv full (with_item r t s).
Proof.
  intros Hi. constructor; try (by apply Hi).
  - intros k b ba i Hk Hb Hin. destruct (bi_member _ _ Hi _ _ _ _ Hk Hb Hin) as (it & Hit & ?).
    exists it. split; [by eapply with_item_old|done].
  - intros f fl i Hf Hin. destruct (bi_flying _ _ Hi _ _ _ Hf Hin) as (it & Hit & ?).
    exists it. split; [by eapply with_item_old|done].
  - intros i it [[-> ->]|[_ Hit]]%with_item_lookup; [done|by apply (bi_item _ _ Hi i)].
  - intros i it [[-> ->]|[_ Hit]]%with_item_lookup; [done|by apply (bi_dispatched _ _ Hi i)].
  - intros i Hle. change (S (b_next s) ≤ i)%nat in Hle. destruct (bi_fresh _ _ Hi i) as (? & ? & ? & ?); [lia|].
    split_and!; try done. change (<[b_next s := Item r FPending t Pending]> (b_items s) !! i = None).
    by rewrite lookup_insert_ne by lia.
Qed.

Lemma with_item_bcalls full r t s F T : binv full s → bcalls s F T → bcalls (with_item r t s) F T.
Proof.
  intros Hi Hc.
  assert (Hr : same_requests s (with_item r t s)) by (intros i it Hit; exists it; eauto using with_item_old).
  assert (Hf : ∀ k, F !! b_next s = Some k → False).
  { intros k Hk. destruct (bc_frame _ _ _ Hc _ _ Hk) as (it & _ & Hit & _).
    destruct (bi_fresh _ _ Hi (b_next s)); [done|congruence]. }
  constructor; try (by apply Hc).
  - intros i k Hk. eapply keyed_mono; [done..|]. by apply (bc_frame _ _ _ Hc).
  - intros i k it Hk [[-> ->]|[_ Hit]]%with_item_lookup; [done|by eapply (bc_live _ _ _ Hc)].
  - intros i k it Hk [[-> ->]|[_ Hit]]%with_item_lookup; [by destruct (Hf k)|by apply (bc_pending _ _ _ Hc _ _ it)].
  - intros i it [[-> ->]|[_ Hit]]%with_item_lookup; [done|by apply (bc_dispatched _ _ _ Hc)].
  - intros f fl Hfl. destruct (bc_flush _ _ _ Hc _ _ Hfl) as [k Hk]. exists k. intros i Hin.
    eapply keyed_mono; [done..|by apply Hk].
Qed.

(** A group is opened. *)
Lemma opened_groups key s : grp (opened key s) = <[key := b_next s]> (grp s).
Proof. apply dict_map_set. Qed.

Lemma opened_batches key s : b_batches (opened key s) = <[b_next s := Batch key [] true]> (b_batches s).
Proof. done. Qed.
Lemma opened_timers key s : b_timers (opened key s) = <[b_next s := false]> (b_timers s).
Proof. done. Qed.
Lemma opened_batch key s : b_batches (opened key s) !! b_next s = Some (Batch key [] true).
Proof. apply lookup_insert_eq. Qed.

Lemma opened_binv key s :
  binv None s → b_closed s = false → grp s !! key = None → binv (Some (b_next s)) (opened key s).
Proof.
  intros Hi Hcl Hk. destruct (bi_fresh _ _ Hi (b_next s)) as (_ & Hnb & Hnt & _); [done|].
  assert (Hold : ∀ k b, grp s !! k = Some b → b ≠ b_next s).
  { intros k b Hkb ->. destruct (bi_group _ _ Hi _ _ Hkb) as (? & ? & _). congruence. }
  assert (Hb : ∀ b, b ≠ b_next s → b_batches (opened key s) !! b = b_batches s !! b)
    by (intros; by apply lookup_insert_ne).
  constructor; try (by apply Hi).
  - apply dict_set_new_keys; [by rewrite <- grp_lookup|apply Hi].
  - intros k b. rewrite opened_groups. intros [[<- <-]|[Hne Hkb]]%lookup_insert_Some.
    + exists (Batch key [] true). split; [apply opened_batch|]. split_and!; try done; [by right|apply NoDup_nil_2| |].
      * apply lookup_insert_eq.
      * left. pose proof (bi_size _ _ Hi). simpl. lia.
    + destruct (bi_group _ _ Hi _ _ Hkb) as (ba & ? & ? & ? & ? & ? & Ht & Hl).
      exists ba. rewrite Hb by eauto. split_and!; try done; [naive_solver| |].
      * trans (b_timers s !! b); [|done]. apply lookup_insert_ne. intros ?. by eapply Hold.
      * destruct Hl as [?|[? _]]; [by left|done].
  - intros b. rewrite opened_timers. intros [[<- _]|[Hne Hbt]]%lookup_insert_Some; rewrite opened_groups.
    + exists key. apply lookup_insert_eq.
    + destruct (bi_timer _ _ Hi _ Hbt) as [k Hkb]. exists k. rewrite lookup_insert_ne; [done|]. congruence.
  - intros k b ba i. rewrite opened_groups. intros [[<- <-]|[Hne Hkb]]%lookup_insert_Some.
    + rewrite opened_batch. intros [= <-]. by intros ?%elem_of_nil.
    + rewrite Hb by eauto. by apply (bi_member _ _ Hi k).
  - rewrite opened_groups, sum_map_insert_None by done.
    assert (batch_len (opened key s) (b_next s) = 0) as -> by (unfold batch_len; by rewrite opened_batch).
    rewrite (sum_map_ext _ (batch_len s)); [by apply Hi|]. intros k b Hkb. unfold batch_len. by rewrite Hb by eauto.
  - intros Hc. change (b_closed s = true) in Hc. congruence.
  - intros i Hle. change (S (b_next s) ≤ i)%nat in Hle. destruct (bi_fresh _ _ Hi i) as (? & ? & ? & ?); [lia|].
    rewrite Hb by lia. split_and!; try done. trans (b_timers s !! i); [apply lookup_insert_ne; lia|done].
Qed.

Lemma opened_bcalls key s F T :
  binv None s → grp s !! key = None → bcalls s F T → bcalls (opened key s) F T.
Proof.
  intros Hi Hk Hc. destruct (bi_fresh _ _ Hi (b_next s)) as (_ & Hnb & _); [done|].
  constructor; try (by apply Hc).
  - intros i k it Hf Hit Hst. destruct (bc_pending _ _ _ Hc _ _ _ Hf Hit Hst) as (b & ba & Hkb & Hb & Hin).
    exists b, ba. rewrite opened_groups, lookup_insert_ne by congruence. split_and!; [done| |done].
    trans (b_batches s !! b); [|done]. apply lookup_insert_ne. congruence.
  - intros k b ba i. rewrite opened_groups. intros [[<- <-]|[Hne Hkb]]%lookup_insert_Some.
    + rewrite opened_batch. intros [= <-]. by intros ?%elem_of_nil.
    + rewrite opened_batches. intros [[<- <-]|[_ Hb]]%lookup_insert_Some; [by intros ?%elem_of_nil|]. by apply (bc_member _ _ _ Hc _ b).
Qed.

(** The new member [i] joins the batch [b] of its key. *)
Section join.
Context (full : option nat) (s : batcher) (F T : gmap nat pystr).
Context (k tid : pystr) (b i : nat) (ba : batch) (it : item).
Hypothesis Hi : binv full s.
Hypothesis Hc : bcalls s F T.
Hypothesis Hg : grp s !! k = Some b.
Hypothesis Hb : b_batches s !! b = Some ba.
Hypothesis Hfull : full = None ∨ full = Some b.
Hypothesis Hlen : Z.of_nat (length (ba_items ba)) < b_max_size s.
Hypothesis Hit : b_items s !! i = Some it.
Hypothesis Hst : it_state it = Pending.
Hypothesis Hnew : F !! i = None.
Hypothesis Hkey : compatibility_key tid (it_request it) = k.
Hypothesis Hvalid : request_valid (it_request it) = true ∧
  eligible (batching_eligibility (it_request it) true) = true.

Let J := joined i b s.
Let ba' := with_items (λ l, l ++ [i]) ba.

Lemma joined_batches b' : b_batches J !! b' = if decide (b' = b) then Some ba' else b_batches s !! b'.
Proof.
  trans (alter (with_items (λ l, l ++ [i])) b (b_batches s) !! b'); [done|].
  case_decide as Heq; [subst b'; by rewrite lookup_alter_eq, Hb|by rewrite lookup_alter_ne].
Qed.

(** Each batch belongs to one group. *)
Lemma joined_group_inj k' : grp s !! k' = Some b → k' = k.
Proof.
  intros Hk'. destruct (bi_group _ _ Hi _ _ Hk') as (? & ? & <- & _), (bi_group _ _ Hi _ _ Hg) as (? & ? & <- & _).
  congruence.
Qed.

Lemma joined_new k' b' ba1 : grp s !! k' = Some b' → b_batches s !! b' = Some ba1 → i ∉ ba_items ba1.
Proof. intros Hk' Hb' Hin. pose proof (bc_member _ _ _ Hc _ _ _ _ Hk' Hb' Hin). congruence. Qed.

Lemma joined_binv : binv (Some b) J.
Proof.
  destruct (bi_group _ _ Hi _ _ Hg) as (ba1 & Hba1 & Hk1 & Htm1 & _ & Hnd1 & Ht1 & _).
  assert (ba1 = ba) as -> by congruence. clear Hba1.
  constructor; try (by apply Hi).
  - intros k' b' Hk'. rewrite joined_batches. case_decide as Heq.
    + subst b'. rewrite (joined_group_inj k' Hk'). exists ba'. split_and!; try done; [by right| |].
      * apply NoDup_app. split_and!; [done| |apply NoDup_singleton].
        intros j Hj ->%list_elem_of_singleton. by apply (joined_new k b ba).
      * unfold ba'. simpl. rewrite length_app. simpl. change (b_max_size J) with (b_max_size s).
        destruct (decide (Z.of_nat (length (ba_items ba) + 1) = b_max_size s)); [by right|left; lia].
    + destruct (bi_group _ _ Hi _ _ Hk') as (ba2 & ? & ? & ? & Hne2 & ? & ? & Hl). exists ba2.
      split_and!; try done; [destruct Hfull, Hne2; naive_solver|].
      destruct Hl as [?|[Hf ?]]; [by left|]. destruct Hfull; congruence.
  - intros k' b' ba2 j Hk'. rewrite joined_batches. case_decide as Heq; [|by apply (bi_member _ _ Hi k')].
    subst b'. intros [= <-] [Hj|Hj%list_elem_of_singleton]%elem_of_app; [|subst j; by exists it].
    by apply (bi_member _ _ Hi k b ba).
  - change (b_pending s + 1 = sum_map (batch_len J) (grp s)). rewrite (bi_pending _ _ Hi).
    rewrite !(sum_map_delete _ (grp s) k b) by done.
    rewrite (sum_map_ext (batch_len J) (batch_len s)).
    + assert (batch_len s b = Z.of_nat (length (ba_items ba))) as -> by (unfold batch_len; by rewrite Hb).
      assert (batch_len J b = Z.of_nat (length (ba_items ba)) + 1) as ->; [|lia].
      unfold batch_len. rewrite joined_batches, decide_True by done. unfold ba'. simpl.
      rewrite length_app. simpl. lia.
    + intros k' b' [Hne Hk']%lookup_delete_Some. unfold batch_len. rewrite joined_batches.
      rewrite decide_False; [done|]. intros ->. by apply Hne, eq_sym, joined_group_inj.
  - intros j Hle. destruct (bi_fresh _ _ Hi j Hle) as (? & ? & ? & ?). rewrite joined_batches.
    rewrite decide_False by congruence. done.
Qed.

Lemma joined_bcalls : bcalls J (<[i := k]> F) (<[i := tid]> T).
Proof.
  assert (HT : ∀ k' j, j ≠ i → keyed T s k' j → keyed (<[i := tid]> T) J k' j).
  { intros k' j Hne (jt & t & Hj & Ht & Hk'). exists jt, t. by rewrite lookup_insert_ne by done. }
  assert (Hi' : keyed (<[i := tid]> T) J k i).
  { exists it, tid. rewrite lookup_insert_eq. by destruct Hvalid. }
  constructor.
  - intros j k' [[<- <-]|[Hne Hk']]%lookup_insert_Some; [done|]. by apply HT, (bc_frame _ _ _ Hc).
  - intros j k' jt [[<- <-]|[Hne Hk']]%lookup_insert_Some Hj; [|by eapply (bc_live _ _ _ Hc)].
    change (b_items s !! i = Some jt) in Hj. congruence.
  - intros j k' jt [[<- <-]|[Hne Hk']]%lookup_insert_Some Hj Hp.
    + exists b, ba'. rewrite joined_batches, decide_True by done. split_and!; [done..|].
      apply elem_of_app. right. by apply list_elem_of_singleton.
    + destruct (bc_pending _ _ _ Hc _ _ _ Hk' Hj Hp) as (b' & ba2 & Hk2 & Hb2 & Hin).
      destruct (decide (b' = b)) as [->|Heq].
      2:{ exists b', ba2. by rewrite joined_batches, decide_False. }
      exists b, ba'. rewrite joined_batches, decide_True by done. split_and!; [done..|]. apply elem_of_app. left. congruence.
  - intros k' b' ba2 j Hk'. rewrite joined_batches. case_decide as Heq.
    + subst b'. intros [= <-] [Hj|Hj%list_elem_of_singleton]%elem_of_app.
      * rewrite lookup_insert_ne; [by apply (bc_member _ _ _ Hc _ b ba)|]. intros <-. by apply (joined_new k b ba).
      * subst j. by rewrite lookup_insert_eq, (joined_group_inj k').
    + intros Hb2 Hin. rewrite lookup_insert_ne; [by apply (bc_member _ _ _ Hc _ b' ba2)|].
      intros <-. by apply (joined_new k' b' ba2).
  - intros j jt Hj Hd. apply lookup_insert_is_Some'. right. by apply (bc_dispatched _ _ _ Hc j jt).
  - intros f fl Hf. destruct (bc_flush _ _ _ Hc _ _ Hf) as [k' Hk']. exists k'. intros j Hj.
    apply HT; [|by apply Hk']. intros ->. destruct (bi_flying _ _ Hi _ _ _ Hf Hj) as (jt & ? & Hfl).
    assert (jt = it) as -> by congruence. unfold flying in Hfl. by rewrite Hst in Hfl.
Qed.
End join.

(** A batch below the maximum needs no exception. *)
Lemma binv_settled b ba s :
  binv (Some b) s → b_batches s !! b = Some ba → ba_items ba ≠ [] →
  Z.of_nat (length (ba_items ba)) < b_max_size s → binv None s.
Proof.
  intros Hi Hb Hne Hlen. constructor; try (by apply Hi).
  intros k b' Hk. destruct (bi_group _ _ Hi _ _ Hk) as (ba' & ? & ? & ? & Hn & ? & ? & Hl).
  exists ba'. split_and!; try done.
  - left. destruct Hn as [?|[= ->]]; [done|congruence].
  - left. destruct Hl as [?|[[= ->] ?]]; [done|]. assert (ba' = ba) as -> by congruence. lia.
Qed.

(** * Settling members

    [g] settles the members in [l]: it leaves the cancelled ones and the others
    alone, and completes those that were waiting. *)
Record settles (g : nat → item → item) (l : list nat) (x : item_state) : Prop := {
  se_out i it : i ∉ l → g i it = it;
  se_cancelled i it : it_state it = ItemCancelled → g i it = it;
  se_in i it : i ∈ l → it_state it = x → it_state (g i it) = Completed ∧ item_ok (g i it);
  se_request i it : it_request (g i it) = it_request it;
}.

Lemma settles_fail e l x : x ≠ ItemCancelled → settles (on_list (fail_fun e) l) l x.
Proof.
  intros Hx. split; intros i it; unfold on_list.
  - intros. by rewrite decide_False.
  - intros Hc. case_decide; [|done]. unfold fail_fun. by rewrite Hc.
  - intros ? <-. rewrite decide_True by done. unfold fail_fun, item_ok.
    destruct (it_state it); try done; simpl; eauto.
  - case_decide; [|done]. unfold fail_fun. by destruct (it_state it).
Qed.

Lemma settles_complete items responses x :
  length responses = length items → x ≠ ItemCancelled → settles (complete_at (zip items responses)) items x.
Proof.
  intros Hl Hx.
  assert (Hz : (zip items responses).*1 = items) by (apply fst_zip; lia).
  split; intros i it; unfold complete_at.
  - intros Hi. by rewrite not_elem_of_list_to_map_1 by (by rewrite Hz).
  - intros Hc. case_match; [|done]. unfold complete_fun. by rewrite Hc.
  - intros Hi <-. destruct (list_to_map _ !! i) as [r|] eqn:E.
    + unfold complete_fun, item_ok. destruct (it_state it); try done; simpl; eauto.
    + apply not_elem_of_list_to_map_2 in E. by rewrite Hz in E.
  - case_match; [|done]. unfold complete_fun. by destruct (it_state it).
Qed.

Lemma settles_at items a x : x ≠ ItemCancelled → settles (settle_at items a) items x.
Proof.
  intros Hx. destruct a as [e|[r|]]; [by apply settles_fail| |by apply settles_fail].
  unfold settle_at. destruct (decide _); [by apply settles_complete|by apply settles_fail].
Qed.

(** The future of a settled member. *)
Lemma fail_future e l i it : i ∈ l → it_state it ≠ ItemCancelled →
  it_future (on_list (fail_fun e) l i it) = FException e.
Proof. intros Hin Hst. rewrite on_list_in by done. unfold fail_fun. by destruct (it_state it). Qed.

Lemma complete_future items responses n i it :
  NoDup items → length responses = length items → items !! n = Some i → it_state it ≠ ItemCancelled →
  ∃ response, responses !! n = Some response ∧
    it_future (complete_at (zip items responses) i it) = FResult response.
Proof.
  intros Hnd Hl Hn Hst. destruct (lookup_lt_is_Some_2 responses n) as [response Hresp].
  { rewrite Hl. by eapply lookup_lt_Some. }
  exists response. split; [done|]. unfold complete_at.
  rewrite (elem_of_list_to_map_1 (zip items responses) i response).
  - unfold complete_fun. by destruct (it_state it).
  - by rewrite fst_zip by lia.
  - eapply list_elem_of_lookup_2. apply lookup_zip_with_Some. eauto.
Qed.

Lemma settle_at_outcome items a n i it :
  NoDup items → items !! n = Some i → it_state it ≠ ItemCancelled →
  match a with
  | inr (ABatch r) =>
      if decide (length (br_responses r) = length items)
      then ∃ response, br_responses r !! n = Some response ∧
             it_future (settle_at items a i it) = FResult response
      else it_future (settle_at items a i it) = FException (gw BackendProtocolError)
  | _ => it_future (settle_at items a i it) = FException (failure a)
  end.
Proof.
  intros Hnd Hn Hst. assert (Hin : i ∈ items) by by eapply list_elem_of_lookup_2.
  destruct a as [e|[r|]]; [by apply fail_future| |by apply fail_future].
  unfold settle_at. case_decide; [by apply complete_future|by apply fail_future].
Qed.

(** A running flush ends. *)
Section ending.
Context (s : batcher) (F T : gmap nat pystr) (f : nat) (fl : flush) (g : nat → item → item).
Hypothesis Hi : binv None s.
Hypothesis Hc : bcalls s F T.
Hypothesis Hf : b_flushes s !! f = Some fl.
Hypothesis Hlive : live fl = true.
Hypothesis Hset : settles g (fl_items fl) Dispatched.

Let E := ended f g s.

Lemma ended_items : b_items E = update_at g (b_items s).
Proof. done. Qed.
Lemma ended_flushes : b_flushes E = delete f (b_flushes s).
Proof. done. Qed.

(** Members in a group, or of another flush, are as before. *)
Lemma ended_other i it : b_items s !! i = Some it → i ∉ fl_items fl → b_items E !! i = Some it.
Proof. intros Hit Hni. rewrite ended_items, lookup_update_at, Hit. simpl. by rewrite (se_out _ _ _ Hset). Qed.

Lemma ended_pending i it : b_items s !! i = Some it → it_state it = Pending → i ∉ fl_items fl.
Proof.
  intros Hit Hst Hin. destruct (bi_flying _ _ Hi _ _ _ Hf Hin) as (it' & ? & Hfl).
  assert (it' = it) as -> by congruence. unfold flying in Hfl. by rewrite Hst in Hfl.
Qed.

Lemma ended_item i it : b_items E !! i = Some it → ∃ it0, b_items s !! i = Some it0 ∧
  (it = it0 ∧ (it_state it = Dispatched → i ∉ fl_items fl) ∨ it_state it = Completed ∧ item_ok it).
Proof.
  rewrite ended_items, lookup_update_at. destruct (b_items s !! i) as [it0|] eqn:Hit; simpl; [|done].
  intros [= <-]. exists it0. split; [done|]. destruct (decide (i ∈ fl_items fl)) as [Hin|Hni].
  - destruct (bi_flying _ _ Hi _ _ _ Hf Hin) as (it1 & ? & Hfl). assert (it1 = it0) as -> by congruence.
    unfold flying in Hfl. destruct (it_state it0) eqn:Hst; try done.
    + right. by apply (se_in _ _ _ Hset).
    + congruence.
    + left. rewrite (se_cancelled _ _ _ Hset) by done. split; [done|congruence].
  - left. by rewrite (se_out _ _ _ Hset).
Qed.

Lemma ended_flush h hl : b_flushes E !! h = Some hl → h ≠ f ∧ b_flushes s !! h = Some hl.
Proof. rewrite ended_flushes. intros [? ?]%lookup_delete_Some. auto. Qed.

Lemma ended_binv : binv None E.
Proof.
  constructor; try (by apply Hi).
  - intros k b ba i Hk Hb Hin. destruct (bi_member _ _ Hi _ _ _ _ Hk Hb Hin) as (it & Hit & Hst).
    exists it. split; [|done]. apply ended_other; [done|]. by eapply ended_pending.
  - intros h hl [_ Hh]%ended_flush. by apply (bi_flush _ _ Hi h).
  - intros h hl i [Hne Hh]%ended_flush Hin. destruct (bi_flying _ _ Hi _ _ _ Hh Hin) as (it & Hit & Hfl).
    exists it. split; [|done]. apply ended_other; [done|]. intros Hin'.
    by apply Hne, (bi_disjoint _ _ Hi h f hl fl i).
  - intros h1 h2 hl1 hl2 i [_ H1]%ended_flush [_ H2]%ended_flush. by eapply (bi_disjoint _ _ Hi).
  - intros i it (it0 & Hit & [[-> _]|[_ ?]])%ended_item; [by apply (bi_item _ _ Hi i)|done].
  - intros i it (it0 & Hit & [[-> Hn]|[Hs _]])%ended_item Hd; [|congruence].
    destruct (bi_dispatched _ _ Hi _ _ Hit Hd) as (h & hl & Hh & Hin). exists h, hl. split; [|done].
    rewrite ended_flushes. apply lookup_delete_Some. split; [|done]. intros <-. assert (hl = fl) as -> by congruence. by apply Hn.
  - change (b_inflight s - 1 = sum_map live_weight (delete f (b_flushes s))).
    rewrite (bi_inflight _ _ Hi), (sum_map_delete _ _ f fl) by done. unfold live_weight at 1. rewrite Hlive. lia.
  - intros h hl [_ Hh]%ended_flush. by apply (bi_cancel _ _ Hi h).
  - intros i Hle. destruct (bi_fresh _ _ Hi i Hle) as (H1 & H2 & H3 & H4).
    rewrite ended_items, lookup_update_at, H1. split_and!; try done.
    rewrite ended_flushes. apply lookup_delete_None. by right.
Qed.

Lemma ended_requests : same_requests s E.
Proof. eapply same_requests_update; [apply ended_items|]. apply Hset. Qed.

Lemma ended_bcalls : bcalls E F T.
Proof.
  constructor; try (by apply Hc).
  - intros i k Hk. eapply keyed_mono; [apply ended_requests|done|]. by apply (bc_frame _ _ _ Hc).
  - intros i k it Hk (it0 & Hit & [[-> _]|[Hs _]])%ended_item; [by eapply (bc_live _ _ _ Hc)|congruence].
  - intros i k it Hk (it0 & Hit & [[-> _]|[Hs _]])%ended_item Hp; [|congruence].
    by apply (bc_pending _ _ _ Hc _ _ it0).
  - intros i it (it0 & Hit & [[-> _]|[Hs _]])%ended_item Hd; [|congruence]. by apply (bc_dispatched _ _ _ Hc i it0).
  - intros h hl [_ Hh]%ended_flush. destruct (bc_flush _ _ _ Hc _ _ Hh) as [k Hk]. exists k. intros i Hin.
    eapply keyed_mono; [apply ended_requests|done|by apply Hk].
Qed.
End ending.

(** * Tasks that start or end without touching a member *)

Lemma start_binv s f fl :
  binv None s → b_flushes s !! f = Some fl → fl_cancel fl = false →
  binv None (up_flushes (alter flush_started f) s).
Proof.
  intros Hi Hf Hcl.
  assert (Hl : ∀ h hl, alter flush_started f (b_flushes s) !! h = Some hl →
    ∃ hl0, b_flushes s !! h = Some hl0 ∧ fl_items hl = fl_items hl0 ∧ fl_reason hl = fl_reason hl0 ∧
      fl_cancel hl = fl_cancel hl0 ∧ live hl = live hl0).
  { intros h hl [(<- & hl0 & Hh & ->)|[_ Hh]]%lookup_alter_Some; [|by exists hl].
    exists hl0. split_and!; try done. assert (hl0 = fl) as -> by congruence. unfold live. rewrite Hcl. by destruct (fl_started fl). }
  constructor; try (by apply Hi).
  - intros h hl (hl0 & Hh & -> & -> & _)%Hl. by apply (bi_flush _ _ Hi h).
  - intros h hl i (hl0 & Hh & -> & _ & _ & Hlv)%Hl Hin.
    destruct (bi_flying _ _ Hi _ _ _ Hh Hin) as (it & Hit & Hfl). exists it. split; [done|].
    unfold flying in *. by rewrite Hlv.
  - intros h1 h2 hl1 hl2 i (? & H1 & -> & _)%Hl (? & H2 & -> & _)%Hl. by eapply (bi_disjoint _ _ Hi).
  - intros i it Hit Hd. destruct (bi_dispatched _ _ Hi _ _ Hit Hd) as (h & hl & Hh & Hin).
    destruct (decide (f = h)) as [<-|Hne].
    + exists f, (flush_started hl). split; [|done]. trans (alter flush_started f (b_flushes s) !! f); [done|].
      by rewrite lookup_alter_eq, Hh.
    + exists h, hl. split; [|done]. trans (alter flush_started f (b_flushes s) !! h); [done|]. by rewrite lookup_alter_ne.
  - change (b_inflight s = sum_map live_weight (alter flush_started f (b_flushes s))).
    rewrite (bi_inflight _ _ Hi), (alter_as_insert _ _ _ fl Hf).
    rewrite (sum_map_insert _ _ _ fl) by done. unfold live_weight, live. rewrite Hcl. simpl.
    destruct (fl_started fl); simpl; lia.
  - intros h hl (hl0 & Hh & _ & _ & -> & _)%Hl. by apply (bi_cancel _ _ Hi h).
  - intros i Hle. destruct (bi_fresh _ _ Hi i Hle) as (? & ? & ? & Hn). split_and!; try done.
    trans (alter flush_started f (b_flushes s) !! i); [done|]. apply eq_None_not_Some.
    intros [? (? & ? & _)%Hl]. congruence.
Qed.

Lemma start_bcalls s F T f : bcalls s F T → bcalls (up_flushes (alter flush_started f) s) F T.
Proof.
  intros Hc. constructor; try (by apply Hc).
  intros h hl Hh. change (alter flush_started f (b_flushes s) !! h = Some hl) in Hh.
  apply lookup_alter_Some in Hh as [(<- & hl0 & Hh & ->)|[_ Hh]]; by apply (bc_flush _ _ _ Hc _ _ Hh).
Qed.
End steps.
