(* ===== verification/BatchingStops.v ===== *)
(** Cancelling a member and shutting the batcher down preserve the invariant. *)
From S2P Require Import Prelude.
From S2P Require Import Python.
From S2P Require Import Json.
From S2P Require Import Errors.
From S2P Require Import Chat.
From S2P Require Import Compatibility.
From S2P Require Import Batching.
From S2P Require Import BatchingInv.
From S2P Require Import BatchingOps.
From S2P Require Import BatchingSteps.

(** * Removing a member from a list *)

Lemma elem_of_remove_first i j l : NoDup l → j ∈ remove_first i l ↔ j ∈ l ∧ j ≠ i.
Proof.
  induction l as [|x l IH]; simpl; intros Hnd; [set_solver|]. apply NoDup_cons in Hnd as [Hni Hnd].
  destruct (decide (x = i)) as [->|Hne]; [set_solver|]. rewrite !elem_of_cons, (IH Hnd). naive_solver.
Qed.

Lemma NoDup_remove_first i l : NoDup l → NoDup (remove_first i l).
Proof.
  induction l as [|x l IH]; simpl; intros Hnd; [done|]. apply NoDup_cons in Hnd as [Hni Hnd].
  destruct (decide (x = i)) as [->|Hne]; [done|]. constructor; [|by apply IH].
  rewrite elem_of_remove_first by done. naive_solver.
Qed.

Lemma length_remove_first i l : i ∈ l → S (length (remove_first i l)) = length l.
Proof.
  induction l as [|x l IH]; simpl; [by intros ?%elem_of_nil|]. intros Hin.
  destruct (decide (x = i)) as [->|Hne]; [done|]. simpl. rewrite IH; [done|].
  apply elem_of_cons in Hin as [->|?]; done.
Qed.

Section stops.
Context `{FloatRepr, ModelDump}.

(** * Leaving a group *)

Section leave.
Context (s : batcher) (F T : gmap nat pystr) (k : pystr) (b i : nat) (ba : batch) (it : item).
Hypothesis Hi : binv None s.
Hypothesis Hc : bcalls s F T.
Hypothesis Hg : grp s !! k = Some b.
Hypothesis Hb : b_batches s !! b = Some ba.
Hypothesis Hin : i ∈ ba_items ba.
Hypothesis Hit : b_items s !! i = Some it.
Hypothesis Hst : it_state it = Pending.

Let rest := remove_first i (ba_items ba).
Let L := up_items (alter cancel_fun i) (left_group i b k ba s).

Lemma leave_nodup : NoDup (ba_items ba).
Proof. destruct (bi_group _ _ Hi _ _ Hg) as (ba1 & ? & _ & _ & _ & ? & _). congruence. Qed.

Lemma leave_key k' : grp s !! k' = Some b → k' = k.
Proof.
  intros Hk'. destruct (bi_group _ _ Hi _ _ Hk') as (? & ? & <- & _), (bi_group _ _ Hi _ _ Hg) as (? & ? & <- & _).
  congruence.
Qed.

Lemma leave_items : b_items L = alter cancel_fun i (b_items s).
Proof. unfold L, left_group. by case_bool_decide. Qed.
Lemma leave_max : b_max_size L = b_max_size s.
Proof. unfold L, left_group. by case_bool_decide. Qed.
Lemma leave_flushes : b_flushes L = b_flushes s.
Proof. unfold L, left_group. by case_bool_decide. Qed.
Lemma leave_inflight : b_inflight L = b_inflight s.
Proof. unfold L, left_group. by case_bool_decide. Qed.
Lemma leave_closed : b_closed L = b_closed s.
Proof. unfold L, left_group. by case_bool_decide. Qed.
Lemma leave_next : b_next L = b_next s.
Proof. unfold L, left_group. by case_bool_decide. Qed.
Lemma leave_pending : b_pending L = b_pending s - 1.
Proof. unfold L, left_group. by case_bool_decide. Qed.

Lemma leave_batches b' :
  b_batches L !! b' = if decide (b' = b) then Some (with_items (λ _, rest) ba) else b_batches s !! b'.
Proof.
  trans (alter (with_items (λ _, rest)) b (b_batches s) !! b').
  { unfold L, left_group. by case_bool_decide. }
  case_decide as Heq; [subst b'; by rewrite lookup_alter_eq, Hb|by rewrite lookup_alter_ne].
Qed.

Lemma leave_groups : grp L = if decide (rest = []) then delete k (grp s) else grp s.
Proof.
  unfold L, left_group. fold rest. unfold grp at 2. rewrite <- dict_map_pop.
  destruct (decide (rest = [])) as [Hr|Hr]; [rewrite bool_decide_true by done|rewrite bool_decide_false by done]; done.
Qed.

Lemma leave_timers b' :
  b_timers L !! b' = if decide (b' = b ∧ rest = []) then (λ _, true) <$> b_timers s !! b' else b_timers s !! b'.
Proof.
  unfold L, left_group. fold rest. destruct (decide (rest = [])) as [Hr|Hr];
    [rewrite bool_decide_true by done|rewrite bool_decide_false, decide_False by naive_solver; done].
  trans (alter (λ _, true) b (b_timers s) !! b'); [done|].
  destruct (decide (b' = b)) as [->|Hne].
  - by rewrite lookup_alter_eq, decide_True.
  - rewrite lookup_alter_ne, decide_False by naive_solver. done.
Qed.

Lemma leave_group k' b' : grp L !! k' = Some b' → grp s !! k' = Some b' ∧ (b' = b → rest ≠ []).
Proof.
  rewrite leave_groups. case_decide as Hr; [|done].
  intros [Hne Hk']%lookup_delete_Some. split; [done|]. intros ->. by destruct Hne; rewrite leave_key.
Qed.

Lemma leave_item j jt : b_items L !! j = Some jt →
  j = i ∧ jt = cancel_fun it ∨ j ≠ i ∧ b_items s !! j = Some jt.
Proof.
  rewrite leave_items. intros [(<- & jt0 & Hj & ->)|[? ?]]%lookup_alter_Some; [left|by right].
  split; [done|]. congruence.
Qed.
Lemma leave_item_ne j : j ≠ i → b_items L !! j = b_items s !! j.
Proof. intros. rewrite leave_items. by rewrite lookup_alter_ne. Qed.

Lemma cancel_fun_state : it_state (cancel_fun it) = ItemCancelled.
Proof. unfold cancel_fun. by rewrite Hst. Qed.

Lemma leave_sum : sum_map (batch_len L) (grp L) = sum_map (batch_len s) (grp s) - 1.
Proof.
  assert (Hext : ∀ m : gmap pystr nat, (∀ k', m !! k' = Some b → False) → sum_map (batch_len L) m = sum_map (batch_len s) m).
  { intros m Hm. apply sum_map_ext. intros k' b' Hk'. unfold batch_len. rewrite leave_batches.
    rewrite decide_False; [done|]. intros ->. by eapply Hm. }
  assert (Hd : ∀ k', delete k (grp s) !! k' = Some b → False).
  { intros k' [Hne Hk']%lookup_delete_Some. by apply Hne, eq_sym, leave_key. }
  pose proof (length_remove_first i (ba_items ba) Hin) as Hlen. fold rest in Hlen.
  assert (Hbs : batch_len s b = Z.of_nat (length (ba_items ba))) by (unfold batch_len; by rewrite Hb).
  assert (HbL : batch_len L b = Z.of_nat (length rest)).
  { unfold batch_len. by rewrite leave_batches, decide_True. }
  rewrite (sum_map_delete (batch_len s) (grp s) k b) by done. rewrite Hbs, leave_groups.
  case_decide as Hr.
  - rewrite Hext by done. rewrite Hr in Hlen. simpl in Hlen. lia.
  - rewrite (sum_map_delete (batch_len L) (grp s) k b) by done. rewrite HbL, Hext by done. lia.
Qed.

(** The member was in no flush and in no other group. *)
Lemma leave_not_flying f fl : b_flushes s !! f = Some fl → i ∉ fl_items fl.
Proof.
  intros Hf Hif. destruct (bi_flying _ _ Hi _ _ _ Hf Hif) as (it1 & ? & Hfl).
  assert (it1 = it) as -> by congruence. unfold flying in Hfl. by rewrite Hst in Hfl.
Qed.
Lemma leave_other_group k' b' ba' : grp s !! k' = Some b' → b_batches s !! b' = Some ba' → i ∈ ba_items ba' → b' = b.
Proof.
  intros Hk' Hb' Hin'. pose proof (bc_member _ _ _ Hc _ _ _ _ Hk' Hb' Hin').
  pose proof (bc_member _ _ _ Hc _ _ _ _ Hg Hb Hin). congruence.
Qed.

Lemma leave_member k' b' ba' j : grp L !! k' = Some b' → b_batches L !! b' = Some ba' → j ∈ ba_items ba' →
  j ≠ i ∧ grp s !! k' = Some b' ∧ ∃ ba0, b_batches s !! b' = Some ba0 ∧ j ∈ ba_items ba0.
Proof.
  intros [Hk' _]%leave_group. rewrite leave_batches. case_decide as Heq.
  - intros [= <-] [Hj Hne]%elem_of_remove_first; [|apply leave_nodup]. subst b'. eauto.
  - intros Hb' Hj. split; [|eauto]. intros ->. by apply Heq, (leave_other_group k' b' ba').
Qed.

Lemma leave_binv : binv None L.
Proof.
  pose proof leave_nodup as Hnd. constructor.
  - rewrite leave_max. apply Hi.
  - unfold L, left_group. case_bool_decide; [apply dict_pop_keys, Hi|apply Hi].
  - intros k' b' Hk'. destruct (leave_group _ _ Hk') as [Hk Hr].
    destruct (bi_group _ _ Hi _ _ Hk) as (ba' & Hba' & ? & ? & Hne & ? & Ht & Hl).
    rewrite leave_batches, leave_timers, leave_max. case_decide as Heq.
    + subst b'. assert (ba' = ba) as -> by congruence. exists (with_items (λ _, rest) ba).
      rewrite decide_False by naive_solver. split_and!; try done; [left; by apply Hr|by apply NoDup_remove_first|].
      left. pose proof (length_remove_first i (ba_items ba) Hin) as Hlr. simpl. fold rest in Hlr |- *. destruct Hl as [?|[? _]]; [lia|done].
    + exists ba'. rewrite decide_False by naive_solver. done.
  - intros b'. rewrite leave_timers. destruct (decide (b' = b ∧ rest = [])) as [|Hn]; [by destruct (b_timers s !! b')|].
    intros [k' Hk']%(bi_timer _ _ Hi). exists k'. rewrite leave_groups. case_decide as Hr; [|done].
    rewrite lookup_delete_ne; [done|]. intros <-. naive_solver.
  - intros k' b' ba' j Hk' Hb' Hj. destruct (leave_member _ _ _ _ Hk' Hb' Hj) as (Hne & Hk & ba0 & Hb0 & Hj0).
    rewrite leave_item_ne by done. by apply (bi_member _ _ Hi k' b' ba0).
  - rewrite leave_flushes, leave_max. apply Hi.
  - rewrite leave_flushes. intros f fl j Hf Hj. rewrite leave_item_ne; [by apply (bi_flying _ _ Hi f)|].
    intros ->. by apply (leave_not_flying f fl).
  - rewrite leave_flushes. apply Hi.
  - intros j jt [[-> ->]|[_ Hj]]%leave_item; [|by apply (bi_item _ _ Hi j)].
    unfold item_ok. rewrite cancel_fun_state. unfold cancel_fun. by rewrite Hst.
  - rewrite leave_flushes. intros j jt [[-> ->]|[_ Hj]]%leave_item Hd; [by rewrite cancel_fun_state in Hd|].
    by apply (bi_dispatched _ _ Hi j jt).
  - rewrite leave_pending, leave_sum. by rewrite (bi_pending _ _ Hi).
  - rewrite leave_inflight, leave_flushes. apply Hi.
  - rewrite leave_closed. intros Hcl. unfold grp in Hg. by rewrite (bi_closed _ _ Hi Hcl) in Hg.
  - rewrite leave_flushes, leave_closed. apply Hi.
  - rewrite leave_next. intros j Hle. destruct (bi_fresh _ _ Hi j Hle) as (? & ? & Hnt & ?).
    rewrite leave_item_ne, leave_batches, leave_timers, leave_flushes, Hnt by congruence.
    rewrite (decide_False (P := j = b)) by congruence. split_and!; try done. by case_decide.
Qed.

Lemma leave_keyed k' j : keyed T s k' j → keyed T L k' j.
Proof.
  apply keyed_mono; [|done]. intros j' jt Hj. exists (if decide (j' = i) then cancel_fun jt else jt).
  rewrite leave_items. case_decide as Heq.
  - subst j'. rewrite lookup_alter_eq, Hj. split; [done|]. unfold cancel_fun. by destruct (it_state jt).
  - by rewrite lookup_alter_ne.
Qed.

Lemma leave_bcalls : bcalls L (delete i F) T.
Proof.
  constructor.
  - intros j k' [_ Hj]%lookup_delete_Some. by apply leave_keyed, (bc_frame _ _ _ Hc).
  - intros j k' jt [Hne Hj]%lookup_delete_Some. rewrite leave_item_ne by done. by eapply (bc_live _ _ _ Hc).
  - intros j k' jt [Hne Hj]%lookup_delete_Some. rewrite leave_item_ne by done. intros Hjt Hp.
    destruct (bc_pending _ _ _ Hc _ _ _ Hj Hjt Hp) as (b' & ba' & Hk' & Hb' & Hj'). exists b'.
    rewrite leave_batches, leave_groups. destruct (decide (b' = b)) as [->|Hnb].
    + assert (ba' = ba) as -> by congruence. exists (with_items (λ _, rest) ba).
      assert (Hjr : j ∈ rest) by (apply elem_of_remove_first; [apply leave_nodup|done]).
      rewrite decide_False by (intros Hr; rewrite Hr in Hjr; by apply elem_of_nil in Hjr). done.
    + exists ba'. split_and!; [|done..]. case_decide; [|done]. rewrite lookup_delete_ne; [done|]. congruence.
  - intros k' b' ba' j Hk' Hb' Hj. destruct (leave_member _ _ _ _ Hk' Hb' Hj) as (Hne & Hk & ba0 & Hb0 & Hj0).
    rewrite lookup_delete_ne by done. by eapply (bc_member _ _ _ Hc _ _ _ _ Hk Hb0).
  - intros j jt [[-> ->]|[Hne Hj]]%leave_item Hd; [by rewrite cancel_fun_state in Hd|].
    rewrite lookup_delete_ne by done. by apply (bc_dispatched _ _ _ Hc j jt).
  - rewrite leave_flushes. intros f fl Hf. destruct (bc_flush _ _ _ Hc _ _ Hf) as [k' Hk']. exists k'.
    intros j Hj. by apply leave_keyed, Hk'.
Qed.
End leave.

(** * A dispatched or settled member is cancelled *)

Section cancel.
Context (s : batcher) (F T : gmap nat pystr) (i : nat) (it : item).
Hypothesis Hi : binv None s.
Hypothesis Hc : bcalls s F T.
Hypothesis Hit : b_items s !! i = Some it.
Hypothesis Hst : it_state it ≠ Pending.

Let C := up_items (alter cancel_fun i) s.

Lemma cancelled_item j jt : b_items C !! j = Some jt →
  j = i ∧ jt = cancel_fun it ∨ j ≠ i ∧ b_items s !! j = Some jt.
Proof.
  intros Hj. change (alter cancel_fun i (b_items s) !! j = Some jt) in Hj.
  apply lookup_alter_Some in Hj as [(<- & jt0 & Hj & ->)|[? ?]]; [left|by right]. split; [done|]. congruence.
Qed.
Lemma cancelled_back j jt : b_items s !! j = Some jt →
  b_items C !! j = Some (if decide (j = i) then cancel_fun jt else jt).
Proof.
  intros Hj. trans (alter cancel_fun i (b_items s) !! j); [done|].
  case_decide as Heq; [subst j; by rewrite lookup_alter_eq, Hj|by rewrite lookup_alter_ne].
Qed.

Lemma cancelled_not_waiting : it_state (cancel_fun it) = Completed ∨ it_state (cancel_fun it) = ItemCancelled.
Proof. unfold cancel_fun. destruct (it_state it) eqn:E; simpl; auto. Qed.

Lemma cancel_binv : binv None C.
Proof.
  constructor; try (by apply Hi).
  - intros k b ba j Hk Hb Hj. destruct (bi_member _ _ Hi _ _ _ _ Hk Hb Hj) as (jt & Hjt & Hp).
    exists jt. rewrite (cancelled_back _ _ Hjt). rewrite decide_False; [done|]. congruence.
  - intros f fl j Hf Hj. destruct (bi_flying _ _ Hi _ _ _ Hf Hj) as (jt & Hjt & Hfl).
    eexists. split; [by apply cancelled_back|]. case_decide; [|done].
    unfold flying, cancel_fun in *. by destruct (it_state jt) eqn:E; simpl; rewrite ?E.
  - intros j jt [[-> ->]|[_ Hj]]%cancelled_item; [|by apply (bi_item _ _ Hi j)].
    pose proof (bi_item _ _ Hi _ _ Hit) as Hok. unfold item_ok, cancel_fun in *.
    destruct (it_state it) eqn:E; simpl; rewrite ?E; done.
  - intros j jt [[-> ->]|[_ Hj]]%cancelled_item Hd; [|by apply (bi_dispatched _ _ Hi j jt)].
    destruct cancelled_not_waiting; congruence.
  - intros j Hle. destruct (bi_fresh _ _ Hi j Hle) as (Hn & ? & ? & ?). split_and!; try done.
    trans (alter cancel_fun i (b_items s) !! j); [done|]. rewrite lookup_alter_ne; [done|congruence].
Qed.

Lemma cancel_keyed k j : keyed T s k j → keyed T C k j.
Proof.
  apply keyed_mono; [|done]. intros j' jt Hj. eexists. split; [by apply cancelled_back|].
  case_decide; [|done]. unfold cancel_fun. by destruct (it_state jt).
Qed.

Lemma cancel_bcalls : bcalls C (delete i F) T.
Proof.
  constructor.
  - intros j k [_ Hj]%lookup_delete_Some. by apply cancel_keyed, (bc_frame _ _ _ Hc).
  - intros j k jt [Hne Hj]%lookup_delete_Some [[-> ->]|[_ Hjt]]%cancelled_item; [done|].
    by eapply (bc_live _ _ _ Hc).
  - intros j k jt [Hne Hj]%lookup_delete_Some [[-> ->]|[_ Hjt]]%cancelled_item; [done|].
    by apply (bc_pending _ _ _ Hc _ _ jt).
  - intros k b ba j Hk Hb Hj. rewrite lookup_delete_ne; [by apply (bc_member _ _ _ Hc k b ba)|].
    intros <-. destruct (bi_member _ _ Hi _ _ _ _ Hk Hb Hj) as (jt & Hjt & Hp). congruence.
  - intros j jt [[-> ->]|[Hne Hj]]%cancelled_item Hd; [destruct cancelled_not_waiting; congruence|].
    rewrite lookup_delete_ne by done. by apply (bc_dispatched _ _ _ Hc j jt).
  - intros f fl Hf. destruct (bc_flush _ _ _ Hc _ _ Hf) as [k Hk]. exists k. intros j Hj.
    by apply cancel_keyed, Hk.
Qed.
End cancel.

(** A submission whose member is settled returns. *)
Lemma returned_bcalls s F T i it :
  binv None s → bcalls s F T → b_items s !! i = Some it → it_state it ≠ Pending → it_state it ≠ Dispatched →
  bcalls s (delete i F) T.
Proof.
  intros Hi Hc Hit Hp Hd. constructor.
  - intros j k [_ Hj]%lookup_delete_Some. by apply (bc_frame _ _ _ Hc).
  - intros j k jt [_ Hj]%lookup_delete_Some. by apply (bc_live _ _ _ Hc _ k).
  - intros j k jt [_ Hj]%lookup_delete_Some. by apply (bc_pending _ _ _ Hc).
  - intros k b ba j Hk Hb Hj. rewrite lookup_delete_ne; [by apply (bc_member _ _ _ Hc k b ba)|].
    intros <-. destruct (bi_member _ _ Hi _ _ _ _ Hk Hb Hj) as (jt & Hjt & Hpj). congruence.
  - intros j jt Hj Hdj. rewrite lookup_delete_ne by congruence. by apply (bc_dispatched _ _ _ Hc j jt).
  - apply (bc_flush _ _ _ Hc).
Qed.

(** * Tasks that end *)

Lemma timer_gone_binv s b : binv None s → b_timers s !! b = Some true →
  binv None (up_timers (delete b) s).
Proof.
  intros Hi Hb.
  assert (Ht : ∀ b', b' ≠ b → b_timers (up_timers (delete b) s) !! b' = b_timers s !! b')
    by (intros; by apply lookup_delete_ne).
  constructor; try (by apply Hi).
  - intros k b' Hk. destruct (bi_group _ _ Hi _ _ Hk) as (ba & ? & ? & ? & ? & ? & ? & ?). exists ba.
    rewrite Ht by congruence. done.
  - intros b' Hb'. apply (bi_timer _ _ Hi). rewrite <- Ht; [done|]. intros ->.
    change (delete b (b_timers s) !! b = Some false) in Hb'. by rewrite lookup_delete_eq in Hb'.
  - intros j Hle. destruct (bi_fresh _ _ Hi j Hle) as (? & ? & ? & ?). by rewrite Ht by congruence.
Qed.

Lemma timer_gone_bcalls s F T b : bcalls s F T → bcalls (up_timers (delete b) s) F T.
Proof. intros []. by constructor. Qed.

Section gone.
Context (s : batcher) (F T : gmap nat pystr) (f : nat) (fl : flush).
Hypothesis Hi : binv None s.
Hypothesis Hc : bcalls s F T.
Hypothesis Hf : b_flushes s !! f = Some fl.
Hypothesis Hdead : live fl = false.

Let G := up_flushes (delete f) s.

Lemma gone_flushes : b_flushes G = delete f (b_flushes s).
Proof. done. Qed.

Lemma gone_binv : binv None G.
Proof.
  constructor; try (by apply Hi).
  - rewrite gone_flushes. intros h hl [_ Hh]%lookup_delete_Some. by apply (bi_flush _ _ Hi h).
  - rewrite gone_flushes. intros h hl i [_ Hh]%lookup_delete_Some. by apply (bi_flying _ _ Hi h).
  - rewrite gone_flushes. intros h1 h2 hl1 hl2 i [_ H1]%lookup_delete_Some [_ H2]%lookup_delete_Some.
    by eapply (bi_disjoint _ _ Hi).
  - rewrite gone_flushes. intros i it Hit Hd. change (b_items s !! i = Some it) in Hit.
    destruct (bi_dispatched _ _ Hi _ _ Hit Hd) as (h & hl & Hh & Hin).
    exists h, hl. split; [|done]. apply lookup_delete_Some. split; [|done]. intros <-.
    destruct (bi_flying _ _ Hi _ _ _ Hh Hin) as (it1 & ? & Hfl). assert (it1 = it) as -> by congruence.
    unfold flying in Hfl. rewrite Hd in Hfl. assert (hl = fl) as -> by congruence. congruence.
  - change (b_inflight s = sum_map live_weight (delete f (b_flushes s))).
    rewrite (bi_inflight _ _ Hi), (sum_map_delete _ _ f fl) by done. unfold live_weight at 1. by rewrite Hdead.
  - rewrite gone_flushes. intros h hl [_ Hh]%lookup_delete_Some. by apply (bi_cancel _ _ Hi h).
  - intros i Hle. destruct (bi_fresh _ _ Hi i Hle) as (? & ? & ? & ?). rewrite gone_flushes. split_and!; try done.
    apply lookup_delete_None. by right.
Qed.

Lemma gone_bcalls : bcalls G F T.
Proof.
  constructor; try (by apply Hc). rewrite gone_flushes.
  intros h hl [_ Hh]%lookup_delete_Some. by apply (bc_flush _ _ _ Hc h).
Qed.
End gone.
End stops.
