(* ===== verification/BatchingShutdown.v ===== *)
(** Shutting the batcher down preserves its invariant and settles every member that
    is not in a running flush. *)
From S2P Require Import Prelude.
From S2P Require Import Python.
From S2P Require Import Json.
From S2P Require Import Errors.
From S2P Require Import Chat.
From S2P Require Import Compatibility.
From S2P Require Import Batching.
From S2P Require Import BatchingInv.
From S2P Require Import BatchingOps.
From S2P Require Import BatchingSteps.
From S2P Require Import BatchingStops.

(** * Loops over dictionaries and sets *)

Lemma sum_map_dict (f : nat → Z) (d : list (pystr * nat)) :
  NoDup d.*1 → sum_map f (dict_map d) = foldr (λ b acc, f b + acc) 0 d.*2.
Proof.
  induction d as [|[k b] d IH]; intros Hnd; [apply sum_map_empty|].
  apply NoDup_cons in Hnd as [Hni Hnd]. change (dict_map ((k, b) :: d)) with (<[k := b]> (dict_map d)).
  rewrite sum_map_insert_None, IH; [done|done|].
  rewrite <- dict_map_get. by apply dict_get_None.
Qed.

Lemma elem_of_dict_values (d : list (pystr * nat)) b :
  NoDup d.*1 → b ∈ d.*2 ↔ ∃ k, dict_map d !! k = Some b.
Proof.
  intros Hnd. rewrite list_elem_of_fmap. split.
  - intros ([k b'] & -> & Hin). exists k. rewrite <- dict_map_get. by apply dict_get_in.
  - intros (k & Hk). exists (k, b). rewrite <- dict_map_get in Hk. by apply dict_get_in in Hk.
Qed.

Lemma lookup_stop_all bs m b :
  stop_all bs m !! b = if decide (b ∈ bs) then (λ _, true) <$> m !! b else m !! b.
Proof.
  revert m. induction bs as [|b' bs IH]; intros m.
  { case_decide as Hx; [by apply elem_of_nil in Hx|done]. }
  change (stop_all (b' :: bs) m) with (stop_all bs (alter (λ _, true) b' m)). rewrite IH.
  destruct (decide (b = b')) as [->|Hne].
  - rewrite lookup_alter_eq. by repeat case_decide; try set_solver; destruct (m !! b').
  - rewrite lookup_alter_ne by done. repeat case_decide; try done; set_solver.
Qed.

Lemma lookup_cancel_all fs m f :
  cancel_all fs m !! f = if decide (f ∈ fs) then flush_cancelled <$> m !! f else m !! f.
Proof.
  revert m. induction fs as [|f' fs IH]; intros m.
  { case_decide as Hx; [by apply elem_of_nil in Hx|done]. }
  change (cancel_all (f' :: fs) m) with (cancel_all fs (alter flush_cancelled f' m)). rewrite IH.
  destruct (decide (f = f')) as [->|Hne].
  - rewrite lookup_alter_eq. by repeat case_decide; try set_solver; destruct (m !! f').
  - rewrite lookup_alter_ne by done. repeat case_decide; try done; set_solver.
Qed.

(** The whole set of tasks is cancelled. *)
Lemma cancel_all_keys m : cancel_all (map_to_list m).*1 m = flush_cancelled <$> m.
Proof.
  apply map_eq. intros f. rewrite lookup_cancel_all, lookup_fmap. case_decide as Hf; [done|].
  destruct (m !! f) as [fl|] eqn:E; [|done]. destruct Hf. apply list_elem_of_fmap.
  exists (f, fl). split; [done|]. by apply elem_of_map_to_list.
Qed.

Definition unstarted_items (m : gmap nat flush) (f : nat) : list nat :=
  match m !! f with Some fl => if fl_started fl then [] else fl_items fl | None => [] end.

Lemma unstarted_bind m fs : unstarted m fs ≫= fl_items = fs ≫= unstarted_items m.
Proof.
  induction fs as [|f fs IH]; [done|]. rewrite unstarted_cons, bind_cons. unfold unstarted_items at 1.
  destruct (m !! f) as [fl|]; [|done]. destruct (fl_started fl); [done|]. by rewrite bind_cons, IH.
Qed.

Definition unstarted_weight (fl : flush) : Z := if fl_started fl then 0 else 1.

Lemma unstarted_length_list m l :
  (∀ f fl, (f, fl) ∈ l → m !! f = Some fl) →
  Z.of_nat (length (unstarted m l.*1)) = foldr (λ p acc, unstarted_weight p.2 + acc) 0 l.
Proof.
  induction l as [|[f fl] l IH]; intros Hl; [done|]. cbn [fmap list_fmap fst]. rewrite unstarted_cons.
  rewrite (Hl f fl) by by left. specialize (IH (λ g gl Hg, Hl g gl (list_elem_of_further _ _ _ Hg))).
  cbn [fmap list_fmap foldr snd] in *. unfold unstarted_weight at 1. destruct (fl_started fl); simpl length; lia.
Qed.

Lemma unstarted_length m :
  Z.of_nat (length (unstarted m (map_to_list m).*1)) = sum_map unstarted_weight m.
Proof.
  rewrite (unstarted_length_list m (map_to_list m)).
  - unfold sum_map. rewrite map_fold_foldr. generalize (map_to_list m). intros l.
    induction l as [|[f fl] l IH]; simpl; [done|]. by rewrite IH.
  - intros f fl Hf. by apply elem_of_map_to_list.
Qed.

Lemma sum_map_fmap {K A B} `{Countable K} (g : A → B) (f : B → Z) (m : gmap K A) :
  sum_map f (g <$> m) = sum_map (λ x, f (g x)) m.
Proof.
  induction m as [|k x m Hk IH] using map_ind; [by rewrite fmap_empty, !sum_map_empty|].
  rewrite fmap_insert, !sum_map_insert_None, IH; [done|done|by rewrite lookup_fmap, Hk].
Qed.

Lemma sum_map_sub {K A} `{Countable K} (f g : A → Z) (m : gmap K A) :
  sum_map f m - sum_map g m = sum_map (λ x, f x - g x) m.
Proof.
  induction m as [|k x m Hk IH] using map_ind; [by rewrite !sum_map_empty|].
  rewrite !sum_map_insert_None by done. lia.
Qed.

Lemma length_members m bs :
  Z.of_nat (length (members_of m bs))
  = foldr (λ b acc, match m !! b with Some ba => Z.of_nat (length (ba_items ba)) | None => 0 end + acc) 0 bs.
Proof.
  unfold members_of. induction bs as [|b bs IH]; [done|]. rewrite bind_cons, length_app. simpl.
  destruct (m !! b); simpl; lia.
Qed.

Section shutdown.
Context `{FloatRepr, ModelDump}.
Context (s : batcher) (F T : gmap nat pystr).
Hypothesis Hi : binv None s.
Hypothesis Hc : bcalls s F T.
Hypothesis Hopen : b_closed s = false.

Let bs := (b_groups s).*2.
Let M := members_of (b_batches s) bs.
Let fs := (map_to_list (b_flushes s)).*1.
Let U := unstarted (b_flushes s) fs ≫= fl_items.
Let Z' := shut_flushes (shut_groups s).

Lemma shut_batches b : b ∈ bs → ∃ ba, b_batches s !! b = Some ba ∧ ba_timer ba = true.
Proof.
  intros (k & Hk)%elem_of_dict_values; [|apply Hi].
  destruct (bi_group _ _ Hi k b Hk) as (ba & ? & _ & ? & _). eauto.
Qed.

Lemma elem_of_M i : i ∈ M ↔ ∃ k b ba, grp s !! k = Some b ∧ b_batches s !! b = Some ba ∧ i ∈ ba_items ba.
Proof.
  unfold M, members_of. rewrite list_elem_of_bind. split.
  - intros (b & Hin & (k & Hk)%elem_of_dict_values); [|apply Hi].
    destruct (b_batches s !! b) as [ba|] eqn:Hb; [|by apply elem_of_nil in Hin]. eauto 10.
  - intros (k & b & ba & Hk & Hb & Hin). exists b. rewrite Hb. split; [done|].
    apply elem_of_dict_values; [apply Hi|eauto].
Qed.

Lemma M_item i : i ∈ M → ∃ it, b_items s !! i = Some it ∧ it_state it = Pending ∧ it_future it = FPending.
Proof.
  intros (k & b & ba & Hk & Hb & Hin)%elem_of_M.
  destruct (bi_member _ _ Hi _ _ _ _ Hk Hb Hin) as (it & Hit & Hst). exists it. split_and!; [done..|].
  pose proof (bi_item _ _ Hi _ _ Hit) as Hok. unfold item_ok in Hok. by rewrite Hst in Hok.
Qed.

Lemma M_nodup : NoDup M.
Proof.
  apply NoDup_bind.
  - intros b1 b2 i (k1 & Hk1)%elem_of_dict_values (k2 & Hk2)%elem_of_dict_values; [|apply Hi..].
    destruct (b_batches s !! b1) as [ba1|] eqn:Hb1; [|by intros ?%elem_of_nil].
    destruct (b_batches s !! b2) as [ba2|] eqn:Hb2; [|by intros _ ?%elem_of_nil].
    intros H1 H2. pose proof (bc_member _ _ _ Hc _ _ _ _ Hk1 Hb1 H1).
    pose proof (bc_member _ _ _ Hc _ _ _ _ Hk2 Hb2 H2).
    assert (k1 = k2) as -> by congruence. unfold grp in *. congruence.
  - intros b (k & Hk)%elem_of_dict_values; [|apply Hi].
    destruct (bi_group _ _ Hi k b Hk) as (ba & -> & _ & _ & _ & ? & _). done.
  - apply NoDup_fmap_2_strong; [|eapply NoDup_fmap_1, Hi].
    intros [k1 b1] [k2 b2] H1 H2 Heq. simpl in Heq. subst b2.
    apply dict_get_in in H1, H2; [|apply Hi..]. rewrite dict_map_get in H1, H2.
    destruct (bi_group _ _ Hi _ _ H1) as (? & ? & <- & _), (bi_group _ _ Hi _ _ H2) as (? & ? & <- & _).
    congruence.
Qed.

Lemma elem_of_U i : i ∈ U ↔ ∃ f fl, b_flushes s !! f = Some fl ∧ fl_started fl = false ∧ i ∈ fl_items fl.
Proof.
  unfold U. rewrite unstarted_bind, list_elem_of_bind. unfold unstarted_items, fs. split.
  - intros (f & Hin & _). destruct (b_flushes s !! f) as [fl|] eqn:Hf; [|by apply elem_of_nil in Hin].
    destruct (fl_started fl) eqn:Hs; [by apply elem_of_nil in Hin|]. eauto.
  - intros (f & fl & Hf & Hs & Hin). exists f. rewrite Hf, Hs. split; [done|].
    apply list_elem_of_fmap. exists (f, fl). split; [done|]. by apply elem_of_map_to_list.
Qed.

Lemma U_item i : i ∈ U → ∃ it, b_items s !! i = Some it ∧
  (it_state it = ItemCancelled ∨ it_state it = Dispatched ∧ it_future it = FPending).
Proof.
  intros (f & fl & Hf & Hs & Hin)%elem_of_U. destruct (bi_flying _ _ Hi _ _ _ Hf Hin) as (it & Hit & Hfl).
  exists it. split; [done|]. pose proof (bi_item _ _ Hi _ _ Hit) as Hok.
  pose proof (bi_cancel _ _ Hi _ _ Hf) as Hcl. unfold flying, live, item_ok in *. rewrite Hs, Hcl, Hopen in Hfl.
  destruct (it_state it); try done; auto.
Qed.

Lemma U_nodup : NoDup U.
Proof.
  unfold U. rewrite unstarted_bind. apply NoDup_bind; [| |apply NoDup_fst_map_to_list].
  - intros f1 f2 i _ _. unfold unstarted_items. destruct (b_flushes s !! f1) as [fl1|] eqn:H1; [|by intros ?%elem_of_nil].
    destruct (b_flushes s !! f2) as [fl2|] eqn:H2; [|by intros _ ?%elem_of_nil].
    destruct (fl_started fl1), (fl_started fl2); try (by intros ?%elem_of_nil); try (by intros _ ?%elem_of_nil).
    by apply (bi_disjoint _ _ Hi).
  - intros f _. unfold unstarted_items. destruct (b_flushes s !! f) as [fl|] eqn:Hf; [|apply NoDup_nil_2].
    destruct (fl_started fl); [apply NoDup_nil_2|]. by apply (bi_flush _ _ Hi f).
Qed.

Lemma M_not_flying i f fl : i ∈ M → b_flushes s !! f = Some fl → i ∉ fl_items fl.
Proof.
  intros Him Hf Hin. destruct (M_item i Him) as (it & Hit & Hst & _).
  destruct (bi_flying _ _ Hi _ _ _ Hf Hin) as (it1 & ? & Hfl). assert (it1 = it) as -> by congruence.
  unfold flying in Hfl. by rewrite Hst in Hfl.
Qed.

Lemma M_not_U i : i ∈ M → i ∉ U.
Proof. intros Him (f & fl & Hf & _ & Hin)%elem_of_U. by apply (M_not_flying i f fl). Qed.

Lemma shut_never : Z.of_nat (length (unstarted (b_flushes s) fs)) ≤ b_inflight s.
Proof.
  unfold fs. rewrite unstarted_length, (bi_inflight _ _ Hi).
  assert (0 ≤ sum_map live_weight (b_flushes s) - sum_map unstarted_weight (b_flushes s)); [|lia].
  rewrite sum_map_sub. apply sum_map_nonneg. intros f fl Hf. pose proof (bi_cancel _ _ Hi _ _ Hf) as Hcl.
  unfold live_weight, unstarted_weight, live. rewrite Hcl, Hopen. destruct (fl_started fl); simpl; lia.
Qed.

Lemma runs_shutdown_ok : runs shutdown_begin s true Z'.
Proof.
  apply runs_shutdown; [done|apply shut_batches|apply M_nodup| |].
  - intros i Hin. by apply M_item.
  - split; [apply U_nodup|]. split; [|apply shut_never].
    intros i Hin. destruct (U_item i Hin) as (it & Hit & Hst). exists it. split; [|done].
    trans (b_items (set_members (on_list drop_fun M) s) !! i); [done|].
    rewrite lookup_set_members_ne; [done|]. intros ?. by apply (M_not_U i).
Qed.

(** The waiting submissions are the members of the groups. *)
Definition waits (s : batcher) (i : nat) : bool :=
  match b_items s !! i with Some it => bool_decide (it_state it = Pending) | None => false end.

Lemma M_length : Z.of_nat (length M) = b_pending s.
Proof.
  rewrite (bi_pending _ _ Hi). unfold M, grp. rewrite length_members, sum_map_dict by apply Hi. done.
Qed.

Lemma M_waits : list_to_set M = filter (λ i, waits s i = true) (dom F) :> gset nat.
Proof.
  apply set_eq. intros i. rewrite elem_of_list_to_set, elem_of_filter, elem_of_dom, elem_of_M. split.
  - intros (k & b & ba & Hk & Hb & Hin). rewrite (bc_member _ _ _ Hc _ _ _ _ Hk Hb Hin).
    destruct (bi_member _ _ Hi _ _ _ _ Hk Hb Hin) as (it & Hit & Hst). unfold waits. rewrite Hit.
    by rewrite bool_decide_true.
  - unfold waits. intros [Hw [k Hk]]. destruct (b_items s !! i) as [it|] eqn:Hit; [|done].
    apply bool_decide_eq_true in Hw. destruct (bc_pending _ _ _ Hc _ _ _ Hk Hit Hw) as (b & ba & ? & ? & ?).
    by exists k, b, ba.
Qed.

Lemma pending_count : b_pending s = Z.of_nat (size (filter (λ i, waits s i = true) (dom F))).
Proof. by rewrite <- M_waits, size_list_to_set, M_length by apply M_nodup. Qed.

(** ** The state afterwards *)

Lemma shut_items : b_items Z' = update_at (on_list drop_fun (M ++ U)) (b_items s).
Proof. exact (f_equal b_items (drop_on_twice M U s)). Qed.
Lemma shut_groups_nil : b_groups Z' = [].
Proof. done. Qed.
Lemma shut_timers : b_timers Z' = stop_all bs (b_timers s).
Proof. done. Qed.
Lemma shut_flushes_eq : b_flushes Z' = flush_cancelled <$> b_flushes s.
Proof. exact (cancel_all_keys (b_flushes s)). Qed.

Lemma shut_flush f fl : b_flushes Z' !! f = Some fl →
  ∃ fl0, b_flushes s !! f = Some fl0 ∧ fl = flush_cancelled fl0.
Proof. rewrite shut_flushes_eq, lookup_fmap_Some. intros (fl0 & <- & ?). eauto. Qed.

Lemma shut_item i it : b_items Z' !! i = Some it → ∃ it0, b_items s !! i = Some it0 ∧
  (i ∈ M ++ U ∧ it = drop_fun it0 ∨ (i ∉ M ++ U) ∧ it = it0).
Proof.
  rewrite shut_items, lookup_on_list. destruct (b_items s !! i) as [it0|]; simpl; [|done].
  intros [= <-]. exists it0. split; [done|]. unfold on_list. case_decide; auto.
Qed.

Lemma shut_old i it : b_items s !! i = Some it → i ∉ M ++ U → b_items Z' !! i = Some it.
Proof. intros Hit Hni. rewrite shut_items, lookup_on_list, Hit. simpl. by rewrite on_list_out. Qed.

(** A member that was settled by shutting down is not waiting. *)
Lemma dropped_state i it : b_items s !! i = Some it → i ∈ M ++ U →
  it_state (drop_fun it) = Completed ∨ it_state it = ItemCancelled ∧ drop_fun it = it.
Proof. unfold drop_fun, fail_fun. destruct (it_state it) eqn:E; simpl; auto. Qed.

Lemma shut_pending : b_pending Z' = 0.
Proof.
  change (b_pending s - Z.of_nat (length M) = 0). rewrite M_length. lia.
Qed.

Lemma shut_inflight : b_inflight Z' = sum_map live_weight (b_flushes Z').
Proof.
  rewrite shut_flushes_eq, sum_map_fmap.
  change (b_inflight s - Z.of_nat (length (unstarted (b_flushes s) fs))
          = sum_map (λ fl, live_weight (flush_cancelled fl)) (b_flushes s)).
  unfold fs. rewrite unstarted_length, (bi_inflight _ _ Hi), sum_map_sub. apply sum_map_ext.
  intros f fl Hf. pose proof (bi_cancel _ _ Hi _ _ Hf) as Hcl.
  unfold live_weight, unstarted_weight, live. simpl. rewrite Hcl, Hopen. by destruct (fl_started fl).
Qed.

Lemma shut_binv : binv None Z'.
Proof.
  assert (Hng : ∀ k b, grp Z' !! k = Some b → False) by (intros k b; apply lookup_empty_Some).
  constructor; try (by apply Hi).
  - apply NoDup_nil_2.
  - intros k b Hk. by apply Hng in Hk.
  - intros b. rewrite shut_timers, lookup_stop_all. case_decide as Hb; [by destruct (b_timers s !! b)|].
    intros Hbt. destruct Hb. apply elem_of_dict_values; [apply Hi|]. by apply (bi_timer _ _ Hi).
  - intros k b ba i Hk. by apply Hng in Hk.
  - intros f fl (fl0 & Hf & ->)%shut_flush. exact (bi_flush _ _ Hi f fl0 Hf).
  - intros f fl i (fl0 & Hf & ->)%shut_flush Hin.
    destruct (bi_flying _ _ Hi _ _ _ Hf Hin) as (it & Hit & Hfl).
    pose proof (bi_cancel _ _ Hi _ _ Hf) as Hcl. unfold flying, live in *. rewrite Hcl, Hopen, orb_true_r in Hfl.
    destruct (fl_started fl0) eqn:Hst.
    + exists it. split; [|simpl; rewrite Hst; by destruct (it_state it)].
      apply shut_old; [done|]. rewrite elem_of_app. intros [Hm|(g & gl & Hg & Hgs & Hgi)%elem_of_U].
      * by apply (M_not_flying i f fl0).
      * assert (f = g) as <- by (by apply (bi_disjoint _ _ Hi f g fl0 gl i)). congruence.
    + exists (drop_fun it). rewrite shut_items, lookup_on_list, Hit. simpl. rewrite on_list_in.
      2:{ apply elem_of_app. right. apply elem_of_U. eauto. }
      split; [done|]. rewrite Hst. unfold drop_fun, fail_fun. by destruct (it_state it) eqn:E; simpl; rewrite ?E.
  - intros f g fl gl i (fl0 & Hf & ->)%shut_flush (gl0 & Hg & ->)%shut_flush.
    exact (bi_disjoint _ _ Hi f g fl0 gl0 i Hf Hg).
  - intros i it (it0 & Hit & [[Hin ->]|[_ ->]])%shut_item; [|by apply (bi_item _ _ Hi i)].
    pose proof (bi_item _ _ Hi _ _ Hit) as Hok. unfold item_ok, drop_fun, fail_fun in *.
    destruct (it_state it0) eqn:E; simpl; rewrite ?E; eauto.
  - intros i it (it0 & Hit & [[Hin ->]|[_ ->]])%shut_item Hd.
    + destruct (dropped_state _ _ Hit Hin) as [?|[? Heq]]; [congruence|]. rewrite Heq in Hd. congruence.
    + destruct (bi_dispatched _ _ Hi _ _ Hit Hd) as (f & fl & Hf & Hin). exists f, (flush_cancelled fl).
      by rewrite shut_flushes_eq, lookup_fmap, Hf.
  - rewrite shut_pending. unfold grp. rewrite shut_groups_nil. symmetry. apply sum_map_empty.
  - apply shut_inflight.
  - done.
  - intros f fl (fl0 & Hf & ->)%shut_flush. done.
  - intros i Hle. destruct (bi_fresh _ _ Hi i Hle) as (H1 & ? & H3 & H4).
    rewrite shut_items, lookup_on_list, shut_timers, lookup_stop_all, shut_flushes_eq, lookup_fmap, H1, H3, H4.
    split_and!; try done. by case_decide.
Qed.

Lemma shut_keyed k i : keyed T s k i → keyed T Z' k i.
Proof.
  apply keyed_mono; [|done]. eapply same_requests_update; [apply shut_items|].
  intros j it. unfold on_list, drop_fun, fail_fun. case_decide; [|done]. by destruct (it_state it).
Qed.

Lemma shut_bcalls : bcalls Z' F T.
Proof.
  constructor.
  - intros i k Hk. by apply shut_keyed, (bc_frame _ _ _ Hc).
  - intros i k it Hk (it0 & Hit & [[Hin ->]|[_ ->]])%shut_item; [|by apply (bc_live _ _ _ Hc i k it0)].
    pose proof (bc_live _ _ _ Hc _ _ _ Hk Hit). by destruct (dropped_state _ _ Hit Hin) as [->|[? _]].
  - intros i k it Hk (it0 & Hit & [[Hin ->]|[Hni ->]])%shut_item Hp.
    + destruct (dropped_state _ _ Hit Hin) as [?|[? Heq]]; [congruence|]. rewrite Heq in Hp. congruence.
    + destruct Hni. apply elem_of_app. left. apply elem_of_M.
      destruct (bc_pending _ _ _ Hc _ _ _ Hk Hit Hp) as (b & ba & ? & ? & ?). by exists k, b, ba.
  - intros k b ba i Hk. change ((∅ : gmap pystr nat) !! k = Some b) in Hk. by rewrite lookup_empty in Hk.
  - intros i it (it0 & Hit & [[Hin ->]|[_ ->]])%shut_item Hd; [|by apply (bc_dispatched _ _ _ Hc i it0)].
    destruct (dropped_state _ _ Hit Hin) as [?|[? Heq]]; [congruence|]. rewrite Heq in Hd. congruence.
  - intros f fl (fl0 & Hf & ->)%shut_flush. destruct (bc_flush _ _ _ Hc _ _ Hf) as [k Hk]. exists k.
    intros i Hin. by apply shut_keyed, Hk.
Qed.
End shutdown.
