(* ===== verification/BatchingSystem.v ===== *)
(** The batcher under every interleaving of submissions, timers, flushes,
    cancellations and shutting down. *)
From S2P Require Import Prelude.
From S2P Require Import Python.
From S2P Require Import Json.
From S2P Require Import Errors.
From S2P Require Import Chat.
From S2P Require Import Compatibility.
From S2P Require Import Batching.
From S2P Require Import BatchingInv.
From S2P Require Import BatchingOps.
From S2P Require Import BatchingSteps.
From S2P Require Import BatchingStops.
From S2P Require Import BatchingShutdown.

Section system.
Context `{FloatRepr, ModelDump}.
Variable clock : nat → Z.

Record bsys_ok (y : bsystem) : Prop := {
  by_inv : binv None (y_batcher y);
  by_calls : bcalls (y_batcher y) (y_frames y) (y_tenants y);
  by_gathering : y_gathering y = true → b_closed (y_batcher y) = true;
}.

(** A group's batch can be dispatched. *)
Lemma detach_runs full s F T k b ba reason current :
  binv full s → bcalls s F T → grp s !! k = Some b → b_batches s !! b = Some ba → ba_items ba ≠ [] →
  runs (detach_locked clock b reason current) s () (detached b ba reason current s).
Proof.
  intros Hi Hc Hg Hb Hne. destruct (bi_group _ _ Hi _ _ Hg) as (ba' & ? & Hk & Ht & _ & Hnd & _).
  assert (ba' = ba) as -> by congruence. apply runs_detach; try done.
  - by rewrite Hk, <- grp_lookup.
  - intros i Hin. by apply (bi_member _ _ Hi k b ba).
Qed.

(** The timers of a detached batch. *)
Lemma detached_self b ba reason current s :
  detached b ba reason current s
  = up_timers (λ _, b_timers (detached b ba reason current s)) (detached b ba reason current s).
Proof. generalize (detached b ba reason current s). by intros []. Qed.

Lemma detached_timers_eq b ba reason current s :
  b_timers (detached b ba reason current s)
  = if bool_decide (current ≠ Some b) then alter (λ _, true) b (b_timers s) else b_timers s.
Proof. unfold detached, stop_timer. by case_bool_decide. Qed.

(** The batch a member was added to. *)
Definition submit_ok (s : batcher) (F T : gmap nat pystr) (tid : pystr) (r : chat_request) (s' : batcher) : Prop :=
  binv None s' ∧
  bcalls s' (<[b_next s := compatibility_key tid r]> F) (<[b_next s := tid]> T) ∧
  b_closed s' = b_closed s ∧ b_max_size s' = b_max_size s ∧
  (∃ it, b_items s' !! b_next s = Some it ∧ it_request it = r) ∧
  (∀ i it, b_items s !! i = Some it → ∃ it', b_items s' !! i = Some it' ∧
     it_request it' = it_request it ∧ (it' = it ∨ it_state it = Pending ∧ it' = with_state Dispatched it)).

(** Joining, and dispatching the batch when it is full. *)
Lemma join_runs full s1 F T k tid i b ba it :
  binv full s1 → bcalls s1 F T → grp s1 !! k = Some b → b_batches s1 !! b = Some ba →
  full = None ∨ full = Some b → Z.of_nat (length (ba_items ba)) < b_max_size s1 →
  b_items s1 !! i = Some it → it_state it = Pending → F !! i = None →
  compatibility_key tid (it_request it) = k →
  request_valid (it_request it) = true ∧ eligible (batching_eligibility (it_request it) true) = true →
  ∃ s', (∀ r lg, runs (join_group clock i b) (quiet r lg s1) i s') ∧ binv None s' ∧ bcalls s' (<[i := k]> F) (<[i := tid]> T) ∧
    b_closed s' = b_closed s1 ∧ b_max_size s' = b_max_size s1 ∧
    (∀ j jt, b_items s1 !! j = Some jt → b_items s' !! j = Some jt ∨
       it_state jt = Pending ∧ b_items s' !! j = Some (with_state Dispatched jt)).
Proof.
  intros Hi Hc Hg Hb Hfull Hlen Hit Hst Hn Hkey Hv.
  assert (HJ : binv (Some b) (joined i b s1)) by by eapply (joined_binv full).
  assert (HJc : bcalls (joined i b s1) (<[i := k]> F) (<[i := tid]> T)) by by eapply (joined_bcalls full).
  set (ba' := with_items (λ l, l ++ [i]) ba).
  assert (Hb' : b_batches (joined i b s1) !! b = Some ba').
  { erewrite joined_batches by done. by rewrite decide_True. }
  assert (Hlen' : length (ba_items ba') = (length (ba_items ba) + 1)%nat) by (unfold ba'; simpl; by rewrite length_app).
  destruct (b_max_size s1 <=? Z.of_nat (length (ba_items ba) + 1)) eqn:Hfulln.
  - apply Z.leb_le in Hfulln. assert (Hne : ba_items ba' ≠ []) by (unfold ba'; simpl; by destruct (ba_items ba); simpl).
    exists (detached b ba' BySize None (joined i b s1)).
    assert (Hm : ∀ b', b' ≠ b → b_timers (detached b ba' BySize None (joined i b s1)) !! b' = b_timers (joined i b s1) !! b').
    { intros b' Hb2. rewrite detached_timers_eq, bool_decide_true by done. by apply lookup_alter_ne. }
    assert (Hm' : b_timers (detached b ba' BySize None (joined i b s1)) !! b ≠ Some false).
    { rewrite detached_timers_eq, bool_decide_true by done. rewrite lookup_alter_eq. by destruct (b_timers (joined i b s1) !! b). }
    assert (Hreason : BySize = BySize ↔ Z.of_nat (length (ba_items ba')) = b_max_size (joined i b s1)).
    { split; [|done]. intros _. rewrite Hlen'. change (b_max_size (joined i b s1)) with (b_max_size s1). lia. }
    split_and!.
    + intros r0 lg0. eapply (runs_join _ _ _ ba); [done|].
      change (b_max_size (quiet r0 lg0 s1)) with (b_max_size s1).
      rewrite (proj2 (Z.leb_le _ _)) by done. intros r lg.
      eapply runs_to; [eapply (detach_runs (Some b) (quiet r lg (joined i b s1))); try done|].
      * by apply binv_quiet.
      * by apply bcalls_quiet.
      * unfold detached, stop_timer. rewrite bool_decide_true by done. same_state.
    + rewrite detached_self. eapply (detached_binv (Some b)); try done. by right.
    + rewrite detached_self. by eapply (detached_bcalls (Some b) _ _ _ k b ba').
    + unfold detached, stop_timer. by rewrite bool_decide_true.
    + unfold detached, stop_timer. by rewrite bool_decide_true.
    + intros j jt Hj. rewrite detached_self, detached_items, lookup_on_list.
      change (b_items (joined i b s1)) with (b_items s1). rewrite Hj. simpl. unfold on_list. case_decide; [|by left].
      destruct (bi_member _ _ HJ k b ba' j) as (jt' & Hj' & ?); [done..|].
      change (b_items s1 !! j = Some jt') in Hj'. right. split; [congruence|done].
  - apply Z.leb_gt in Hfulln as Hlt. exists (joined i b s1). split_and!; try done.
    + intros r0 lg0. eapply runs_to; [eapply (runs_join _ _ _ ba (quiet r0 lg0 s1)); [done|]|].
      * change (b_max_size (quiet r0 lg0 s1)) with (b_max_size s1). by rewrite Hfulln.
      * unfold joined. same_state.
    + eapply (binv_settled b ba'); [done|done|unfold ba'; simpl; by destruct (ba_items ba); simpl|].
      rewrite Hlen'. change (b_max_size (joined i b s1)) with (b_max_size s1). lia.
    + intros. by left.
Qed.

Lemma submit_runs s F T tid r :
  binv None s → bcalls s F T → b_closed s = false →
  request_valid r = true → eligible (batching_eligibility r true) = true →
  ∃ s', runs (submit_begin clock tid r) s (b_next s) s' ∧ submit_ok s F T tid r s'.
Proof.
  intros Hi Hc Hcl Hv He. set (t := clock (b_reads s)). set (s1 := with_item r t s).
  assert (Hi1 : binv None s1) by by apply with_item_binv.
  assert (Hc1 : bcalls s1 F T) by by eapply with_item_bcalls.
  assert (Hn : F !! b_next s = None).
  { destruct (F !! b_next s) as [k|] eqn:Hk; [|done]. destruct (bc_frame _ _ _ Hc _ _ Hk) as (it & _ & Hit & _).
    destruct (bi_fresh _ _ Hi (b_next s)); [done|congruence]. }
  set (it := Item r FPending t Pending).
  assert (Hit : b_items s1 !! b_next s = Some it) by apply lookup_insert_eq.
  set (k := compatibility_key tid r).
  assert (Hfin : ∀ s', binv None s' → bcalls s' (<[b_next s := k]> F) (<[b_next s := tid]> T) →
    b_closed s' = b_closed s → b_max_size s' = b_max_size s →
    (∀ j jt, b_items s1 !! j = Some jt → b_items s' !! j = Some jt ∨
       it_state jt = Pending ∧ b_items s' !! j = Some (with_state Dispatched jt)) →
    submit_ok s F T tid r s').
  { intros s' ? ? ? ? Hm. split_and!; try done.
    - destruct (Hm _ _ Hit) as [?|[_ ?]]; eexists; eauto.
    - intros j jt Hj. destruct (Hm j jt) as [?|[? ?]]; [by eapply with_item_old|exists jt; auto|].
      exists (with_state Dispatched jt). auto. }
  destruct (grp s !! k) as [b|] eqn:Hg.
  - destruct (bi_group _ _ Hi1 k b Hg) as (ba & Hb & _ & _ & _ & _ & _ & [Hlen|[? _]]); [|done].
    destruct (join_runs None s1 F T k tid (b_next s) b ba it) as (s' & Hr & ? & ? & ? & ? & ?); try done; [by left|].
    exists s'. split; [|by apply Hfin].
    eapply (runs_submit_join clock tid r s b ba); try done. by rewrite <- grp_lookup.
  - set (s2 := opened k s1).
    assert (Hi2 : binv (Some (b_next s1)) s2) by by apply opened_binv.
    assert (Hc2 : bcalls s2 F T) by by apply opened_bcalls.
    assert (Hb : b_batches s2 !! b_next s1 = Some (Batch k [] true)) by apply lookup_insert_eq.
    destruct (join_runs (Some (b_next s1)) s2 F T k tid (b_next s) (b_next s1) (Batch k [] true) it)
      as (s' & Hr & ? & ? & ? & ? & ?); try done.
    + unfold s2. rewrite opened_groups. apply lookup_insert_eq.
    + by right.
    + pose proof (bi_size _ _ Hi). simpl. change (0 < b_max_size s). lia.
    + exists s'. split; [|by apply Hfin].
      apply (runs_submit_open clock tid r s); try done. by rewrite <- grp_lookup.
Qed.

Lemma up_timers_eq f g s : f (b_timers s) = g (b_timers s) → up_timers f s = up_timers g s.
Proof. unfold up_timers. by intros ->. Qed.

(** * What a step does *)

(** A member keeps its request, and its outcome once it has one. *)
Definition kept (s s' : batcher) : Prop :=
  ∀ i it, b_items s !! i = Some it → ∃ it', b_items s' !! i = Some it' ∧
    it_request it' = it_request it ∧ (fut_done (it_future it) = true → it' = it).

Lemma kept_same s s' : b_items s' = b_items s → kept s s'.
Proof. intros Hs' i it Hit. exists it. by rewrite Hs'. Qed.

Lemma kept_update g s s' :
  b_items s' = update_at g (b_items s) →
  (∀ i it, b_items s !! i = Some it → it_request (g i it) = it_request it ∧
     (fut_done (it_future it) = true → g i it = it)) → kept s s'.
Proof.
  intros Hs' Hg i it Hit. exists (g i it). rewrite Hs', lookup_update_at, Hit. split; [done|]. by apply Hg.
Qed.

(** What each event may answer. *)
Definition banswer_ok (y : bsystem) (ev : bevent) (o : boutcome) (y' : bsystem) : Prop :=
  let s := y_batcher y in
  match ev with
  | BvSubmit _ r =>
      if b_closed s then o = BORaised (gw BatchingUnavailableError)
      else ∃ i it, o = BOSuspended i ∧ b_items s !! i = None ∧
        b_items (y_batcher y') !! i = Some it ∧ it_request it = r
  | BvDone i => ∃ it, b_items s !! i = Some it ∧
      (∃ r, it_future it = FResult r ∧ o = BOResult r ∨ ∃ e, it_future it = FException e ∧ o = BORaised e)
  | BvCancel _ => o = BORaised CancelledError
  | BvStart f => ∀ fl, b_flushes s !! f = Some fl →
      o = if fl_cancel fl then BONone else BOCall (requests_of s (fl_items fl))
  | BvSnapshot => o = BOSnapshot (b_pending s) (b_inflight s)
  | _ => o = BONone
  end.

(** What the events that touch members do to them. *)
Definition beffect (y : bsystem) (ev : bevent) (y' : bsystem) : Prop :=
  let s := y_batcher y in
  let s' := y_batcher y' in
  match ev with
  | BvAnswer f a => ∀ fl, b_flushes s !! f = Some fl →
      b_flushes s' = delete f (b_flushes s) ∧ b_items s' = update_at (settle_at (fl_items fl) a) (b_items s)
  | BvTimer b => ∀ k ba, grp s !! k = Some b → b_batches s !! b = Some ba →
      grp s' = delete k (grp s) ∧
      b_flushes s' = <[b_next s := Flush (ba_items ba) ByTimeout false false]> (b_flushes s)
  | BvCancel i => b_items s' = alter cancel_fun i (b_items s)
  | BvShutdown => b_closed s' = true ∧ grp s' = ∅
  | _ => True
  end.

Record bstep_ok (y : bsystem) (ev : bevent) (o : boutcome) (y' : bsystem) : Prop := {
  bs_ok : bsys_ok y';
  bs_answer : banswer_ok y ev o y';
  bs_kept : kept (y_batcher y) (y_batcher y');
  bs_closed : b_closed (y_batcher y) = true → b_closed (y_batcher y') = true;
  bs_max : b_max_size (y_batcher y') = b_max_size (y_batcher y);
  bs_effect : beffect y ev y';
}.

(** Reading off a run. *)
Lemma bfinish_runs {A} y (m : bt A) (k : A → batcher → boutcome * bsystem) a s' :
  runs m (y_batcher y) a s' → ∃ r lg, bfinish y m k = k a (quiet r lg s').
Proof. intros (r & lg & Hm). exists r, lg. unfold bfinish. by rewrite Hm. Qed.

Lemma settle_kept items a s s' :
  NoDup items → (∀ i, i ∈ items → ∃ it, b_items s !! i = Some it ∧
    (it_state it = ItemCancelled ∨ it_state it = Dispatched ∧ it_future it = FPending)) →
  b_items s' = update_at (settle_at items a) (b_items s) → kept s s'.
Proof.
  intros Hnd Hst Hs'. assert (Hset : settles (settle_at items a) items Dispatched) by by apply settles_at. eapply kept_update; [done|].
  intros i it Hit. split; [by apply Hset|]. intros Hd. destruct (decide (i ∈ items)) as [Hin|Hni].
  - destruct (Hst i Hin) as (it' & ? & Hs). assert (it' = it) as -> by congruence.
    destruct Hs as [Hs|[_ Hf]]; [by apply (se_cancelled _ _ _ Hset)|by rewrite Hf in Hd].
  - by apply (se_out _ _ _ Hset).
Qed.

Lemma live_settleable s f fl :
  binv None s → b_flushes s !! f = Some fl → live fl = true → settleable_in s (fl_items fl).
Proof.
  intros Hi Hf Hl i Hin. destruct (bi_flying _ _ Hi _ _ _ Hf Hin) as (it & Hit & Hfl). exists it.
  split; [done|]. pose proof (bi_item _ _ Hi _ _ Hit) as Hok. unfold flying, item_ok, settleable in *.
  destruct (it_state it); try done; [by right|congruence|by left].
Qed.

Lemma live_inflight s f fl : binv None s → b_flushes s !! f = Some fl → live fl = true → 0 < b_inflight s.
Proof.
  intros Hi Hf Hl. rewrite (bi_inflight _ _ Hi).
  assert (live_weight fl ≤ sum_map live_weight (b_flushes s)) as Hle.
  { eapply sum_map_lookup_le; [|done]. intros g gl _. unfold live_weight. by destruct (live gl). }
  unfold live_weight at 1 in Hle. rewrite Hl in Hle. lia.
Qed.

Section step.
Context (y : bsystem).
Hypothesis Hy : bsys_ok y.
Let s := y_batcher y.
Let F := y_frames y.
Let T := y_tenants y.

Lemma step_submit tid r o y' : bexec clock (BvSubmit tid r) y = Some (o, y') → bstep_ok y (BvSubmit tid r) o y'.
Proof.
  cbn [bexec]. destruct (request_valid r && _) eqn:Hv; [|done]. simpl.
  apply andb_true_iff in Hv as [Hv He]. intros Hex. apply (inj Some) in Hex.
  destruct Hy as [Hi Hc Hgt]. fold s in Hi, Hc, Hgt. destruct (b_closed s) eqn:Hcl.
  - destruct (submit_refused clock tid r s Hcl) as (t & r1 & lg1 & Hm).
    unfold bfinish in Hex. fold s in Hex. rewrite Hm in Hex. injection Hex as <- <-. split; simpl.
    + split; simpl; [by apply binv_quiet, with_item_binv|by eapply bcalls_quiet, with_item_bcalls|done].
    + fold s. by rewrite Hcl.
    + fold s. intros i it Hit. exists it. split; [|done]. by eapply (with_item_old None r t s).
    + done.
    + done.
    + done.
  - destruct (submit_runs s F T tid r Hi Hc Hcl Hv He) as (s' & Hr & Hb & Hbc & Hcl' & Hmx & (it & Hit & Hr') & Hk).
    destruct (bfinish_runs y _ (λ i b, (BOSuspended i, BSystem b (<[i := compatibility_key tid r]> (y_frames y))
                          (<[i := tid]> (y_tenants y)) (y_gathering y))) _ _ Hr) as (r1 & lg1 & Hf).
    rewrite Hf in Hex. injection Hex as <- <-. split; simpl.
    + split; simpl; [by apply binv_quiet|by apply bcalls_quiet|]. intros Hg. by apply Hgt in Hg.
    + fold s. rewrite Hcl. exists (b_next s), it. split_and!; try done. by apply (bi_fresh _ _ Hi).
    + intros i jt Hj. destruct (Hk i jt Hj) as (jt' & Hj' & Hreq & Hor). exists jt'. split_and!; try done.
      intros Hd. destruct Hor as [->|[Hp _]]; [done|]. pose proof (bi_item _ _ Hi _ _ Hj) as Hok.
      unfold item_ok in Hok. rewrite Hp in Hok. by rewrite Hok in Hd.
    + fold s. congruence.
    + done.
    + done.
Qed.

(** Cancelling the member of a suspended submission. *)
Lemma cancel_step i key :
  F !! i = Some key →
  ∃ r lg s', submit_cancelled i key y =
      (BORaised CancelledError, BSystem (quiet r lg s') (delete i F) T (y_gathering y)) ∧
    binv None s' ∧ bcalls s' (delete i F) T ∧ b_closed s' = b_closed s ∧
    b_max_size s' = b_max_size s ∧ b_items s' = alter cancel_fun i (b_items s).
Proof.
  intros Hf. destruct Hy as [Hi Hc Hg]. fold s in Hi, Hc. fold F T in Hc.
  destruct (bc_frame _ _ _ Hc _ _ Hf) as (it & t & Hit & _).
  assert (Hr : ∃ s', runs (cancel_item i key) s () s' ∧ binv None s' ∧ bcalls s' (delete i F) T ∧
    b_closed s' = b_closed s ∧ b_max_size s' = b_max_size s ∧ b_items s' = alter cancel_fun i (b_items s)).
  { destruct (decide (it_state it = Pending)) as [Hp|Hp].
    - destruct (bc_pending _ _ _ Hc _ _ _ Hf Hit Hp) as (b & ba & Hk & Hb & Hin).
      destruct (bi_group _ _ Hi _ _ Hk) as (ba' & ? & _ & Ht & _). assert (ba' = ba) as -> by congruence.
      pose proof (bi_item _ _ Hi _ _ Hit) as Hok. unfold item_ok in Hok. rewrite Hp in Hok.
      eexists. split; [eapply (runs_cancel_waiting i it key b ba); try done; by rewrite <- grp_lookup|].
      split_and!; [by eapply leave_binv|by eapply leave_bcalls|by apply leave_closed|by apply leave_max|by apply leave_items].
    - eexists. split; [eapply (runs_cancel_other i it); try done; by apply (bi_item _ _ Hi i)|].
      split_and!; [by eapply cancel_binv|by eapply cancel_bcalls|done..]. }
  destruct Hr as (s' & Hr & ? & ? & ? & ? & ?).
  destruct (bfinish_runs (BSystem s (delete i F) T (y_gathering y)) _ (λ _ b,
      (BORaised CancelledError, BSystem b (delete i F) T (y_gathering y))) _ _ Hr) as (r & lg & Heq).
  exists r, lg, s'. unfold submit_cancelled. fold s F T. by rewrite Heq.
Qed.

Lemma cancelled_kept i s' : b_items s' = alter cancel_fun i (b_items s) → kept s s'.
Proof.
  intros Hs'. destruct Hy as [Hi _ _]. fold s in Hi. rewrite alter_update in Hs'.
  eapply kept_update; [exact Hs'|]. intros j jt Hj. cbv beta. case_decide; [|done].
  pose proof (bi_item _ _ Hi _ _ Hj) as Hok. unfold item_ok, cancel_fun in *.
  destruct (it_state jt); try done; by rewrite Hok.
Qed.

Lemma step_cancel i o y' : bexec clock (BvCancel i) y = Some (o, y') → bstep_ok y (BvCancel i) o y'.
Proof.
  cbn [bexec]. destruct (y_frames y !! i) as [key|] eqn:Hf; [|done]. intros Hex.
  destruct (cancel_step i key Hf) as (r & lg & s' & Heq & Hb & Hc & Hcl & Hmx & Hit).
  rewrite Heq in Hex. injection Hex as <- <-. split; simpl.
  - split; simpl; [by apply binv_quiet|by apply bcalls_quiet|]. rewrite Hcl. apply Hy.
  - done.
  - by eapply cancelled_kept.
  - fold s. congruence.
  - done.
  - done.
Qed.

(** A submission returns when its member is settled. *)
Lemma step_done i o y' : bexec clock (BvDone i) y = Some (o, y') → bstep_ok y (BvDone i) o y'.
Proof.
  cbn [bexec]. destruct (y_frames y !! i) as [key|] eqn:Hf; [|done].
  destruct (b_items (y_batcher y) !! i) as [it|] eqn:Hit; [|done].
  pose proof Hy as [Hi Hc Hg]. pose proof (bi_item _ _ Hi _ _ Hit) as Hok.
  pose proof (bc_live _ _ _ Hc _ _ _ Hf Hit) as Hlive. unfold item_ok in Hok.
  assert (Hret : fut_done (it_future it) = true →
    bsys_ok (BSystem (y_batcher y) (delete i (y_frames y)) (y_tenants y) (y_gathering y))).
  { intros Hd. split; simpl; [done| |done]. eapply returned_bcalls; [done..| |];
      intros Hs; rewrite Hs in Hok; by rewrite Hok in Hd. }
  destruct (it_future it) as [|resp|e|] eqn:Hfut; [done|..|].
  - intros Hex. apply (inj Some) in Hex. injection Hex as <- <-. split; simpl; [by apply Hret| |by apply kept_same|done|done|done].
    exists it. split; [done|]. exists resp. by left.
  - intros Hex. apply (inj Some) in Hex. injection Hex as <- <-. split; simpl; [by apply Hret| |by apply kept_same|done|done|done].
    exists it. split; [done|]. exists []. right. by exists e.
  - exfalso. destruct (it_state it); try done. destruct Hok as [[? ?]|[? ?]]; done.
Qed.

Lemma step_timer_end b o y' : bexec clock (BvTimerEnd b) y = Some (o, y') → bstep_ok y (BvTimerEnd b) o y'.
Proof.
  cbn [bexec]. destruct (b_timers (y_batcher y) !! b) as [[]|] eqn:Hb; [|done..]. intros Hex.
  injection Hex as <- <-. destruct Hy as [Hi Hc Hg]. split; simpl; [|done|by apply kept_same|done|done|done].
  split; simpl; [by apply timer_gone_binv|by apply timer_gone_bcalls|done].
Qed.

Lemma step_start f o y' : bexec clock (BvStart f) y = Some (o, y') → bstep_ok y (BvStart f) o y'.
Proof.
  cbn [bexec]. destruct (b_flushes (y_batcher y) !! f) as [[items reason [] []]|] eqn:Hf; try done;
    intros Hex; injection Hex as <- <-; destruct Hy as [Hi Hc Hg]; (split; simpl; [| |by apply kept_same|done|done|done]).
  - split; simpl; [by eapply gone_binv|by eapply gone_bcalls|done].
  - intros fl Hfl. by replace fl with (Flush items reason false true) by congruence.
  - split; simpl; [by eapply start_binv|by apply start_bcalls|done].
  - intros fl Hfl. by replace fl with (Flush items reason false false) by congruence.
Qed.

Lemma step_answer f a o y' : bexec clock (BvAnswer f a) y = Some (o, y') → bstep_ok y (BvAnswer f a) o y'.
Proof.
  cbn [bexec]. destruct (b_flushes (y_batcher y) !! f) as [fl|] eqn:Hf; [|done].
  destruct (fl_started fl && can_answer a) eqn:Hg; [|done]. apply andb_true_iff in Hg as [Hst Ha].
  intros Hex. apply (inj Some) in Hex. pose proof Hy as [Hi Hc Hgt].
  assert (Hl : live fl = true) by (unfold live; by rewrite Hst).
  assert (Hset : settles (settle_at (fl_items fl) a) (fl_items fl) Dispatched) by by apply settles_at.
  destruct (bi_flush _ _ Hi _ _ Hf) as (_ & Hnd & _).
  pose proof (runs_execute f fl a (y_batcher y) Ha Hnd (live_settleable _ _ _ Hi Hf Hl) (live_inflight _ _ _ Hi Hf Hl)) as Hr.
  destruct (bfinish_runs y _ (λ _ b, (BONone, BSystem b (y_frames y) (y_tenants y) (y_gathering y))) _ _ Hr) as (r & lg & Heq).
  rewrite Heq in Hex. injection Hex as <- <-. split; simpl.
  - split; simpl; [by eapply binv_quiet, ended_binv|by eapply bcalls_quiet, ended_bcalls|done].
  - done.
  - eapply (settle_kept (fl_items fl) a); [done|by eapply live_settleable|done].
  - done.
  - done.
  - intros fl' Hfl'. by replace fl' with fl by congruence.
Qed.

Lemma step_shutdown o y' : bexec clock BvShutdown y = Some (o, y') → bstep_ok y BvShutdown o y'.
Proof.
  cbn [bexec]. destruct (y_gathering y) eqn:Hgt; [done|]. intros Hex. apply (inj Some) in Hex.
  pose proof Hy as [Hi Hc _]. destruct (b_closed (y_batcher y)) eqn:Hcl.
  - assert (Hm : bfinish y shutdown_begin (λ started b, (BONone, BSystem b (y_frames y) (y_tenants y) started))
                 = (BONone, BSystem (y_batcher y) (y_frames y) (y_tenants y) false)).
    { unfold bfinish, shutdown_begin, bind, get. by rewrite Hcl. }
    rewrite Hm in Hex. injection Hex as <- <-. split; simpl; [by split|done|by apply kept_same|done|done|].
    split; [done|]. unfold grp. by rewrite (bi_closed _ _ Hi Hcl).
  - pose proof (runs_shutdown_ok _ _ _ Hi Hc Hcl) as Hr.
    destruct (bfinish_runs y _ (λ started b, (BONone, BSystem b (y_frames y) (y_tenants y) started)) _ _ Hr) as (r & lg & Heq).
    pose proof (shut_binv _ Hi Hcl) as Hb. pose proof (shut_bcalls _ _ _ Hi Hc) as Hbc.
    pose proof (shut_items (y_batcher y)) as Hits.
    assert (Hfin : b_closed (shut_flushes (shut_groups (y_batcher y))) = true ∧
                   b_max_size (shut_flushes (shut_groups (y_batcher y))) = b_max_size (y_batcher y) ∧
                   grp (shut_flushes (shut_groups (y_batcher y))) = ∅) by done.
    revert Heq Hb Hbc Hits Hfin. generalize (shut_flushes (shut_groups (y_batcher y))).
    intros s' Heq Hb Hbc Hits (Hcl' & Hmx & Hgr).
    rewrite Heq in Hex. injection Hex as <- <-. split; simpl.
    + split; simpl; [by apply binv_quiet|by apply bcalls_quiet|done].
    + done.
    + eapply kept_update; [exact Hits|]. intros i it Hit. unfold on_list. case_decide; [|done].
      unfold drop_fun, fail_fun. destruct (it_state it) eqn:Hst; simpl; [..|done];
        (split; [done|intros Hd; exfalso]);
        [by pose proof (bi_item _ _ Hi _ _ Hit) as Hok; unfold item_ok in Hok; rewrite Hst in Hok; rewrite Hok in Hd..|].
      rename select (i ∈ _) into Hin. apply elem_of_app in Hin as [Hin|Hin].
      * destruct (M_item _ Hi i Hin) as (? & ? & ? & _). congruence.
      * destruct (U_item _ Hi Hcl i Hin) as (? & ? & [?|[? _]]); congruence.
    + done.
    + done.
    + done.
Qed.

Lemma step_gathered o y' : bexec clock BvGathered y = Some (o, y') → bstep_ok y BvGathered o y'.
Proof.
  cbn [bexec]. destruct (_ && _ && _); [|done]. intros [= <- <-]. destruct Hy as [Hi Hc Hg].
  split; simpl; [by split|done|by apply kept_same|done|done|done].
Qed.

Lemma step_snapshot o y' : bexec clock BvSnapshot y = Some (o, y') → bstep_ok y BvSnapshot o y'.
Proof.
  cbn [bexec]. intros Hex. injection Hex as <- <-. destruct Hy as [Hi Hc Hg].
  split; simpl; [by split|done|by apply kept_same|done|done|done].
Qed.

(** The timer finds its batch in its group. *)
Lemma step_timer b o y' : bexec clock (BvTimer b) y = Some (o, y') → bstep_ok y (BvTimer b) o y'.
Proof.
  cbn [bexec]. destruct (b_timers (y_batcher y) !! b) as [[]|] eqn:Hb; [done| |done]. intros Hex.
  apply (inj Some) in Hex. pose proof Hy as [Hi Hc Hg]. destruct (bi_timer _ _ Hi _ Hb) as [k Hk].
  destruct (bi_group _ _ Hi _ _ Hk) as (ba & Hba & Hkey & Ht & Hne & Hnd & _ & Hlen).
  destruct Hne as [Hne|?]; [|done]. destruct Hlen as [Hlen|[? _]]; [|done].
  assert (Hr : runs (timer_expired clock b) (y_batcher y) ()
    (up_timers (delete b) (detached b ba ByTimeout (Some b) (y_batcher y)))).
  { apply runs_timer; try done; [by rewrite Hkey, <- grp_lookup|]. intros i Hin. by apply (bi_member _ _ Hi k b ba). }
  set (timers := delete b (b_timers (y_batcher y))).
  assert (Heqt : up_timers (delete b) (detached b ba ByTimeout (Some b) (y_batcher y))
    = up_timers (λ _, timers) (detached b ba ByTimeout (Some b) (y_batcher y))).
  { apply up_timers_eq. unfold timers. by rewrite detached_timers_eq, bool_decide_false by naive_solver. }
  rewrite Heqt in Hr. clear Heqt.
  assert (H1 : timers !! b ≠ Some false) by (unfold timers; by rewrite lookup_delete_eq).
  assert (H2 : ∀ b', b' ≠ b → timers !! b' = b_timers (y_batcher y) !! b') by (intros; by apply lookup_delete_ne).
  assert (Hreason : ByTimeout = BySize ↔ Z.of_nat (length (ba_items ba)) = b_max_size (y_batcher y)) by (split; [done|lia]).
  destruct (bfinish_runs y _ (λ _ b, (BONone, BSystem b (y_frames y) (y_tenants y) (y_gathering y))) _ _ Hr) as (r & lg & Heq).
  assert (Hb' : binv None (up_timers (λ _, timers) (detached b ba ByTimeout (Some b) (y_batcher y)))).
  { eapply (detached_binv None _ _ _ k b ba); try done. by left. }
  assert (Hbc : bcalls (up_timers (λ _, timers) (detached b ba ByTimeout (Some b) (y_batcher y))) (y_frames y) (y_tenants y)).
  { by eapply (detached_bcalls None _ _ _ k b ba). }
  pose proof (detached_items (y_batcher y) b ba ByTimeout (Some b) timers) as Hits.
  pose proof (detached_closed (y_batcher y) b ba ByTimeout (Some b) timers) as Hcl.
  assert (Hgr : grp (up_timers (λ _, timers) (detached b ba ByTimeout (Some b) (y_batcher y)))
                = delete k (grp (y_batcher y))) by by eapply (detached_groups None).
  pose proof (detached_flushes (y_batcher y) b ba ByTimeout (Some b) timers) as Hfl.
  pose proof (detached_max (y_batcher y) b ba ByTimeout (Some b) timers) as Hmx.
  revert Heq Hb' Hbc Hits Hcl Hgr Hfl Hmx.
  generalize (up_timers (λ _, timers) (detached b ba ByTimeout (Some b) (y_batcher y))).
  intros s' Heq Hb' Hbc Hits Hcl Hgr Hfl Hmx. rewrite Heq in Hex. injection Hex as <- <-. split; simpl.
  - split; simpl; [by apply binv_quiet|by apply bcalls_quiet|]. intros Hgt. rewrite Hcl. by apply Hg.
  - done.
  - eapply kept_update; [exact Hits|]. intros i it Hit. unfold on_list. case_decide; [|done].
    split; [done|]. intros Hd. destruct (bi_member _ _ Hi k b ba i) as (it' & ? & Hst); [done..|].
    assert (it' = it) as -> by congruence. pose proof (bi_item _ _ Hi _ _ Hit) as Hok. unfold item_ok in Hok.
    rewrite Hst in Hok. by rewrite Hok in Hd.
  - by rewrite Hcl.
  - done.
  - intros k' ba' Hk' Hba'. assert (k' = k) as -> by (by eapply (leave_key (y_batcher y) k b)).
    assert (ba' = ba) as -> by congruence. by split.
Qed.

Lemma bstep_all ev o y' : bexec clock ev y = Some (o, y') → bstep_ok y ev o y'.
Proof.
  destruct ev; [apply step_submit|apply step_done|apply step_cancel|apply step_timer|apply step_timer_end
    |apply step_start|apply step_answer|apply step_shutdown|apply step_gathered|apply step_snapshot].
Qed.
End step.
End system.
