(* ===== verification/BatchingTheorems.v ===== *)
(** What the batcher guarantees in every reachable state. *)
From Stdlib Require Import SpecFloat.
From S2P Require Import Prelude.
From S2P Require Import Python.
From S2P Require Import Json.
From S2P Require Import PlainFloats.
From S2P Require Import Errors.
From S2P Require Import Chat.
From S2P Require Import Compatibility.
From S2P Require Import Batching.
From S2P Require Import BatchingInv.
From S2P Require Import BatchingOps.
From S2P Require Import BatchingSteps.
From S2P Require Import BatchingStops.
From S2P Require Import BatchingShutdown.
From S2P Require Import BatchingSystem.

Section reachable.
Context `{FloatRepr, ModelDump}.
Variable clock : nat → Z.

Lemma batcher_init_ok ms mw ob b0 :
  batcher_init ms mw ob = inr b0 → binv None b0 ∧ bcalls b0 ∅ ∅ ∧ b_max_size b0 = ms ∧ b_closed b0 = false.
Proof.
  unfold batcher_init. destruct ((2 <=? ms) && (ms <=? 64)) eqn:Hms; [|done]. cbn [negb].
  destruct (SFltb _ _ && _); [|done]. cbn [negb]. intros Heq. apply (inj inr) in Heq.
  apply andb_true_iff in Hms as [H1%Z.leb_le H2%Z.leb_le].
  destruct (runs_notify (Batcher ms mw ob [] ∅ ∅ ∅ ∅ 0 0 false 0 0 [])) as (r & lg & Hr).
  rewrite Hr in Heq. simpl in Heq. subst b0. split_and!; try done.
  apply binv_quiet. constructor; simpl; try done; try (intros *; rewrite ?lookup_empty; done).
  apply NoDup_nil_2.
Qed.

Lemma breachable_ok ms mw ob b0 y :
  batcher_init ms mw ob = inr b0 → breachable clock b0 y → bsys_ok y ∧ b_max_size (y_batcher y) = ms.
Proof.
  intros Hinit. destruct (batcher_init_ok _ _ _ _ Hinit) as (Hi & Hc & Hm & _).
  induction 1 as [|y ev o y' Hr [Hy Hmy] Hex]; [by split|].
  destruct (bstep_all clock _ Hy _ _ _ Hex) as [? _ _ _ Hmx _]. split; [done|congruence].
Qed.

Lemma brun_reachable b0 evs y y' : breachable clock b0 y → brun clock evs y = Some y' → breachable clock b0 y'.
Proof.
  revert y. induction evs as [|ev evs IH]; intros y Hr; simpl; [by intros [= <-]|].
  destruct (bexec clock ev y) as [[o y1]|] eqn:He; [|done]. intros Hrun.
  eapply (IH y1); [|done]. by eapply breachable_step.
Qed.

(** The members of a flush agree on tenant and shared fields. *)
Lemma flush_members ms mw ob b0 y f fl :
  batcher_init ms mw ob = inr b0 → breachable clock b0 y → b_flushes (y_batcher y) !! f = Some fl →
  fl_items fl ≠ [] ∧ NoDup (fl_items fl) ∧
  ∃ t, ∀ i, i ∈ fl_items fl → ∃ it, b_items (y_batcher y) !! i = Some it ∧ y_tenants y !! i = Some t ∧
    request_valid (it_request it) = true ∧ eligible (batching_eligibility (it_request it) true) = true ∧
    ∀ j jt fd, j ∈ fl_items fl → b_items (y_batcher y) !! j = Some jt → fd ∉ batch_dropped →
      supplied (it_request it) fd = supplied (it_request jt) fd.
Proof.
  intros Hinit Hr Hf. destruct (breachable_ok _ _ _ _ _ Hinit Hr) as [[Hi Hc _] Hm].
  destruct (bi_flush _ _ Hi _ _ Hf) as (Hlen & Hnd & _).
  destruct (bc_flush _ _ _ Hc _ _ Hf) as [k Hk].
  destruct (fl_items fl) as [|i0 l] eqn:Hl; [simpl in Hlen; lia|]. split_and!; [done|done|].
  destruct (Hk i0) as (it0 & t & Hit0 & Ht0 & Hk0 & Hv0 & He0); [by left|].
  exists t. intros i Hin. destruct (Hk i Hin) as (it & t' & Hit & Ht & Hki & Hv & He).
  destruct (compatibility_key_inj t' t (it_request it) (it_request it0)) as [-> _]; [done..|congruence|].
  exists it. split_and!; try done. intros j jt fd Hj Hjt Hfd.
  destruct (Hk j Hj) as (jt' & t2 & Hjt' & _ & Hkj & Hvj & _). assert (jt' = jt) as -> by congruence.
  eapply (compatibility_key_inj t t2); [done..|congruence|done].
Qed.

(** C10: The members of a batch that is dispatched belong together: there are at least
    one and at most the configured number of them, the reason is [size] exactly
    when the batch is full, no member occurs twice or in another flush, and they
    come from one tenant, with valid eligible requests that supply the same values
    for every shared field. *)
Theorem batch_homogeneous ms mw ob b0 y f fl :
  batcher_init ms mw ob = inr b0 → breachable clock b0 y → b_flushes (y_batcher y) !! f = Some fl →
  1 ≤ Z.of_nat (length (fl_items fl)) ≤ ms ∧
  (fl_reason fl = BySize ↔ Z.of_nat (length (fl_items fl)) = ms) ∧
  NoDup (fl_items fl) ∧
  (∀ g gl i, b_flushes (y_batcher y) !! g = Some gl → i ∈ fl_items fl → i ∈ fl_items gl → g = f) ∧
  ∃ t, ∀ i, i ∈ fl_items fl → ∃ it, b_items (y_batcher y) !! i = Some it ∧ y_tenants y !! i = Some t ∧
    request_valid (it_request it) = true ∧ eligible (batching_eligibility (it_request it) true) = true ∧
    ∀ j jt fd, j ∈ fl_items fl → b_items (y_batcher y) !! j = Some jt → fd ∉ batch_dropped →
      supplied (it_request it) fd = supplied (it_request jt) fd.
Proof.
  intros Hinit Hr Hf. destruct (flush_members _ _ _ _ _ _ _ Hinit Hr Hf) as (_ & _ & Ht).
  destruct (breachable_ok _ _ _ _ _ Hinit Hr) as [[Hi _ _] Hm].
  destruct (bi_flush _ _ Hi _ _ Hf) as (Hlen & Hnd & Hre). rewrite Hm in Hlen, Hre.
  split_and!; try done; [lia..|]. intros g gl i Hg H1 H2. symmetry. by eapply (bi_disjoint _ _ Hi).
Qed.

(** The outcome of the [n]-th member of an answered flush. *)
Lemma flush_outcome ms mw ob b0 y f fl a o y' n i it :
  batcher_init ms mw ob = inr b0 → breachable clock b0 y → b_flushes (y_batcher y) !! f = Some fl →
  bexec clock (BvAnswer f a) y = Some (o, y') →
  fl_items fl !! n = Some i → b_items (y_batcher y) !! i = Some it →
  ∃ it', b_items (y_batcher y') !! i = Some it' ∧
    if decide (it_state it = ItemCancelled) then it' = it else
    match a with
    | inr (ABatch r) =>
        if decide (length (br_responses r) = length (fl_items fl))
        then ∃ response, br_responses r !! n = Some response ∧ it_future it' = FResult response
        else it_future it' = FException (gw BackendProtocolError)
    | _ => it_future it' = FException (failure a)
    end.
Proof.
  intros Hinit Hr Hf Hex Hn Hit. destruct (breachable_ok _ _ _ _ _ Hinit Hr) as [Hy _].
  destruct (bstep_all clock _ Hy _ _ _ Hex) as [_ _ _ _ _ Heff]. destruct (Heff fl Hf) as [Hfl Hits].
  destruct Hy as [Hi _ _]. destruct (bi_flush _ _ Hi _ _ Hf) as (_ & Hnd & _).
  assert (Hset : settles (settle_at (fl_items fl) a) (fl_items fl) Dispatched) by by apply settles_at.
  exists (settle_at (fl_items fl) a i it). rewrite Hits, lookup_update_at, Hit. split; [done|].
  assert (Hin : i ∈ fl_items fl) by by eapply list_elem_of_lookup_2.
  case_decide as Hst; [by apply (se_cancelled _ _ _ Hset)|]. by apply settle_at_outcome.
Qed.

(** When the backend answers a flush, each of its members gets its outcome, and
    nothing else changes: a result with a response for every member gives the
    [n]-th response to the [n]-th member; any other answer gives every member the
    exception it stands for; members cancelled before keep that state; the flush
    is gone. *)
Theorem batch_delivery ms mw ob b0 y f fl a o y' :
  batcher_init ms mw ob = inr b0 → breachable clock b0 y → b_flushes (y_batcher y) !! f = Some fl →
  bexec clock (BvAnswer f a) y = Some (o, y') →
  b_flushes (y_batcher y') = delete f (b_flushes (y_batcher y)) ∧
  (∀ i it, b_items (y_batcher y) !! i = Some it → i ∉ fl_items fl → b_items (y_batcher y') !! i = Some it) ∧
  ∀ n i it, fl_items fl !! n = Some i → b_items (y_batcher y) !! i = Some it →
    ∃ it', b_items (y_batcher y') !! i = Some it' ∧
      if decide (it_state it = ItemCancelled) then it' = it else
      match a with
      | inr (ABatch r) =>
          if decide (length (br_responses r) = length (fl_items fl))
          then ∃ response, br_responses r !! n = Some response ∧ it_future it' = FResult response
          else it_future it' = FException (gw BackendProtocolError)
      | _ => it_future it' = FException (failure a)
      end.
Proof.
  intros Hinit Hr Hf Hex. destruct (breachable_ok _ _ _ _ _ Hinit Hr) as [Hy _].
  destruct (bstep_all clock _ Hy _ _ _ Hex) as [_ _ _ _ _ Heff]. destruct (Heff fl Hf) as [Hfl Hits].
  destruct Hy as [Hi _ _]. destruct (bi_flush _ _ Hi _ _ Hf) as (_ & Hnd & _).
  assert (Hset : settles (settle_at (fl_items fl) a) (fl_items fl) Dispatched) by by apply settles_at.
  split_and!; [done| |].
  - intros i it Hit Hni. rewrite Hits, lookup_update_at, Hit. simpl. by rewrite (se_out _ _ _ Hset).
  - intros n i it Hn Hit. by eapply flush_outcome.
Qed.

(** C25: Every event of the batcher answers as it should.  A submission is refused
    exactly after shutdown, and otherwise waits on a new member; a submission that
    returns gives its member's response or raises its member's exception, and a
    cancelled one raises the cancellation; a flush calls the backend with its
    members' requests, unless it was cancelled before it ran.  No other exception
    comes out of the batcher: inconsistent states, accounting errors and lookups
    that fail cannot occur. *)
Theorem batch_answers ms mw ob b0 y ev o y' :
  batcher_init ms mw ob = inr b0 → breachable clock b0 y → bexec clock ev y = Some (o, y') →
  banswer_ok y ev o y'.
Proof.
  intros Hinit Hr Hex. destruct (breachable_ok _ _ _ _ _ Hinit Hr) as [Hy _].
  by destruct (bstep_all clock _ Hy _ _ _ Hex).
Qed.

(** A member's request never changes, and an outcome is final: once a member's
    future is done, no event changes the member. *)
Theorem batch_once ms mw ob b0 y ev o y' i it :
  batcher_init ms mw ob = inr b0 → breachable clock b0 y → bexec clock ev y = Some (o, y') →
  b_items (y_batcher y) !! i = Some it →
  ∃ it', b_items (y_batcher y') !! i = Some it' ∧ it_request it' = it_request it ∧
    (fut_done (it_future it) = true → it' = it).
Proof.
  intros Hinit Hr Hex Hit. destruct (breachable_ok _ _ _ _ _ Hinit Hr) as [Hy _].
  by apply (bs_kept _ _ _ _ (bstep_all clock _ Hy _ _ _ Hex)).
Qed.

(** C19: The counters say what they mean: [pending] is the number of suspended
    submissions that were not dispatched, [inflight] the number of flushes whose
    members are not settled; and while a batch waits in its group it is neither
    empty nor full and its timer runs. *)
Theorem batch_accounting ms mw ob b0 y :
  batcher_init ms mw ob = inr b0 → breachable clock b0 y →
  b_pending (y_batcher y) = Z.of_nat (size (filter (λ i, waits (y_batcher y) i = true) (dom (y_frames y)))) ∧
  b_inflight (y_batcher y) =
    Z.of_nat (size (filter (λ ffl : nat * flush, live ffl.2 = true) (b_flushes (y_batcher y)))) ∧
  ∀ k b, dict_get (b_groups (y_batcher y)) k = Some b → ∃ ba, b_batches (y_batcher y) !! b = Some ba ∧
    1 ≤ Z.of_nat (length (ba_items ba)) < ms ∧ b_timers (y_batcher y) !! b = Some false.
Proof.
  intros Hinit Hr. destruct (breachable_ok _ _ _ _ _ Hinit Hr) as [[Hi Hc _] Hm]. split_and!.
  - by eapply pending_count.
  - rewrite (bi_inflight _ _ Hi). apply (sum_map_indicator live).
  - intros k b Hk. rewrite <- grp_lookup in Hk.
    destruct (bi_group _ _ Hi _ _ Hk) as (ba & Hb & _ & _ & Hne & _ & Ht & Hl). exists ba.
    rewrite Hm in Hl. destruct Hne as [Hne|?], Hl as [Hl|[? _]]; try done.
    split_and!; try done. destruct (ba_items ba); [done|simpl; lia].
Qed.

(** ** Every submission returns *)

Lemma done_returns y i k it :
  bsys_ok y → y_frames y !! i = Some k → b_items (y_batcher y) !! i = Some it →
  it_state it ≠ Pending → it_state it ≠ Dispatched →
  ∃ o y', bexec clock (BvDone i) y = Some (o, y') ∧ y_frames y' !! i = None.
Proof.
  intros [Hi Hc _] Hf Hit Hp Hd. pose proof (bi_item _ _ Hi _ _ Hit) as Hok.
  pose proof (bc_live _ _ _ Hc _ _ _ Hf Hit) as Hl. unfold item_ok in Hok.
  cbn [bexec]. rewrite Hf, Hit. destruct (it_state it); try done.
  destruct Hok as [[r ->]|[e ->]]; eexists _, _; (split; [done|apply lookup_delete_eq]).
Qed.

(** The events in between keep the submission suspended. *)
Lemma frames_kept ev y o y' :
  match ev with BvTimer _ | BvStart _ | BvAnswer _ _ => True | _ => False end →
  bexec clock ev y = Some (o, y') → y_frames y' = y_frames y.
Proof.
  destruct ev; try done; intros _; cbn [bexec]; repeat case_match; try done; intros Hex;
    apply (inj Some) in Hex; try (by injection Hex as <- <-);
    unfold bfinish in Hex; repeat case_match; by injection Hex as <- <-.
Qed.

Definition returns_after (n : nat) (a : exn + batch_answer) (y : bsystem) (i : nat) : Prop :=
  ∃ evs y1 o y2, (length evs ≤ n)%nat ∧
    Forall (λ ev, match ev with BvTimer _ | BvStart _ => True | BvAnswer _ a' => a' = a | _ => False end) evs ∧
    brun clock evs y = Some y1 ∧ bexec clock (BvDone i) y1 = Some (o, y2) ∧ y_frames y2 !! i = None.

Lemma returns_step n a y i ev o y' :
  match ev with BvTimer _ | BvStart _ => True | BvAnswer _ a' => a' = a | _ => False end →
  bexec clock ev y = Some (o, y') → returns_after n a y' i → returns_after (S n) a y i.
Proof.
  intros Hev Hex (evs & y1 & o1 & y2 & Hn & Hall & Hrun & Hd). exists (ev :: evs), y1, o1, y2.
  split_and!; [simpl; lia|by constructor|simpl; by rewrite Hex|apply Hd..].
Qed.

Lemma returns_settled n a y i k it :
  bsys_ok y → y_frames y !! i = Some k → b_items (y_batcher y) !! i = Some it →
  it_state it ≠ Pending → it_state it ≠ Dispatched → returns_after n a y i.
Proof.
  intros Hy Hf Hit Hp Hd. destruct (done_returns y i k it) as (o & y' & ? & ?); try done.
  exists [], y, o, y'. split_and!; try done. simpl. lia.
Qed.

(** A member of a running flush. *)
Lemma returns_running a y i k f fl :
  bsys_ok y → can_answer a = true → y_frames y !! i = Some k → b_flushes (y_batcher y) !! f = Some fl →
  i ∈ fl_items fl → fl_started fl = true → returns_after 1 a y i.
Proof.
  intros Hy Ha Hf Hfl Hin Hst. destruct (bexec clock (BvAnswer f a) y) as [[o y']|] eqn:Hex.
  2:{ cbn [bexec] in Hex. by rewrite Hfl, Hst, Ha in Hex. }
  eapply (returns_step 0 a y i (BvAnswer f a)); [done|exact Hex|].
  pose proof (frames_kept (BvAnswer f a) _ _ _ I Hex) as Hfr.
  destruct (bstep_all clock _ Hy _ _ _ Hex) as [Hy' _ _ _ _ Heff]. destruct (Heff fl Hfl) as [_ Hits].
  destruct Hy as [Hi Hc _]. destruct (bi_flying _ _ Hi _ _ _ Hfl Hin) as (it & Hit & Hfly).
  assert (Hset : settles (settle_at (fl_items fl) a) (fl_items fl) Dispatched) by by apply settles_at.
  assert (Hd : it_state it = Dispatched).
  { pose proof (bc_live _ _ _ Hc _ _ _ Hf Hit). unfold flying, live in Hfly. rewrite Hst in Hfly.
    by destruct (it_state it). }
  destruct (se_in _ _ _ Hset i it Hin Hd) as [Hc' _].
  eapply (returns_settled 0 a y' i k (settle_at (fl_items fl) a i it)); [done|by rewrite Hfr| |congruence..].
  by rewrite Hits, lookup_update_at, Hit.
Qed.

(** A member of a flush that has not run. *)
Lemma returns_dispatched a y i k f fl it :
  bsys_ok y → can_answer a = true → y_frames y !! i = Some k → b_flushes (y_batcher y) !! f = Some fl →
  i ∈ fl_items fl → b_items (y_batcher y) !! i = Some it → it_state it = Dispatched → returns_after 2 a y i.
Proof.
  intros Hy Ha Hf Hfl Hin Hit Hst. destruct (fl_started fl) eqn:Hs.
  { destruct (returns_running a y i k f fl) as (evs & ? & ? & ? & ? & ?); try done.
    eexists evs, _, _, _. split; [lia|done]. }
  assert (Hcl : fl_cancel fl = false).
  { destruct Hy as [Hi _ _]. destruct (bi_flying _ _ Hi _ _ _ Hfl Hin) as (it' & ? & Hfly).
    assert (it' = it) as -> by congruence. unfold flying, live in Hfly. rewrite Hst, Hs in Hfly. by destruct (fl_cancel fl). }
  destruct (bexec clock (BvStart f) y) as [[o y']|] eqn:Hex.
  2:{ cbn [bexec] in Hex. rewrite Hfl in Hex. destruct fl; simpl in *. by subst. }
  eapply (returns_step 1 a y i (BvStart f)); [done|exact Hex|].
  pose proof (frames_kept (BvStart f) _ _ _ I Hex) as Hfr.
  destruct (bstep_all clock _ Hy _ _ _ Hex) as [Hy' _ _ _ _ _].
  eapply (returns_running a y' i k f (flush_started fl)); [done|done|by rewrite Hfr| |done|done].
  cbn [bexec] in Hex. rewrite Hfl in Hex. destruct fl; simpl in *. subst. injection Hex as <- <-.
  change (alter flush_started f (b_flushes (y_batcher y)) !! f = Some (flush_started (Flush fl_items fl_reason false false))).
  by rewrite lookup_alter_eq, Hfl.
Qed.

(** No submission waits forever: in every reachable state a suspended submission
    returns after at most three further steps of the batcher, the expiry of its
    batch's timer, the start of its flush and the backend's answer, whatever the
    answer is. *)
Theorem batch_returns ms mw ob b0 y i k a :
  batcher_init ms mw ob = inr b0 → breachable clock b0 y → y_frames y !! i = Some k → can_answer a = true →
  returns_after 3 a y i.
Proof.
  intros Hinit Hr Hf Ha. destruct (breachable_ok _ _ _ _ _ Hinit Hr) as [Hy _].
  pose proof Hy as [Hi Hc _]. destruct (bc_frame _ _ _ Hc _ _ Hf) as (it & _ & Hit & _).
  destruct (decide (it_state it = Pending)) as [Hp|Hp].
  - destruct (bc_pending _ _ _ Hc _ _ _ Hf Hit Hp) as (b & ba & Hk & Hb & Hin).
    destruct (bi_group _ _ Hi _ _ Hk) as (ba' & ? & _ & _ & _ & _ & Ht & _).
    assert (ba' = ba) as -> by congruence.
    destruct (bexec clock (BvTimer b) y) as [[o y']|] eqn:Hex.
    2:{ cbn [bexec] in Hex. by rewrite Ht in Hex. }
    eapply (returns_step 2 a y i (BvTimer b)); [done|exact Hex|].
    pose proof (frames_kept (BvTimer b) _ _ _ I Hex) as Hfr.
    destruct (bstep_all clock _ Hy _ _ _ Hex) as [Hy' _ Hkept _ _ Heff].
    destruct (Heff k ba Hk Hb) as [_ Hfl]. destruct (Hkept i it Hit) as (it' & Hit' & _).
    assert (Hnew : b_flushes (y_batcher y') !! b_next (y_batcher y) = Some (Flush (ba_items ba) ByTimeout false false))
      by (rewrite Hfl; apply lookup_insert_eq).
    destruct (bi_flying _ _ (by_inv _ Hy') _ _ _ Hnew Hin) as (it2 & ? & Hfly).
    assert (it2 = it') as -> by congruence.
    unfold flying in Hfly. destruct (it_state it') eqn:Hst'; try done.
    + eapply (returns_dispatched a y' i k); [done|done|by rewrite Hfr|exact Hnew|exact Hin|exact Hit'|exact Hst'].
    + apply (returns_settled 2 a y' i k it'); [done|by rewrite Hfr|done|by rewrite Hst'..].
  - destruct (decide (it_state it = Dispatched)) as [Hd|Hd]; [|by eapply returns_settled].
    destruct (bi_dispatched _ _ Hi _ _ Hit Hd) as (f & fl & Hfl & Hin).
    destruct (returns_dispatched a y i k f fl it) as (evs & ? & ? & ? & ? & ?); try done.
    eexists evs, _, _, _. split; [lia|done].
Qed.

(** C20: Shutting down resolves everything.  It closes the batcher, for good; a closed
    batcher has no waiting member, and each suspended submission has its outcome
    or is in a flush that is running and told to stop; once [shutdown] returns
    nothing is in flight and every suspended submission has its outcome. *)
Theorem batch_shutdown ms mw ob b0 y ev o y' :
  batcher_init ms mw ob = inr b0 → breachable clock b0 y → bexec clock ev y = Some (o, y') →
  (ev = BvShutdown ∨ b_closed (y_batcher y) = true → b_closed (y_batcher y') = true) ∧
  (b_closed (y_batcher y') = true →
   b_pending (y_batcher y') = 0 ∧
   ∀ i k, y_frames y' !! i = Some k → ∃ it, b_items (y_batcher y') !! i = Some it ∧
     (fut_done (it_future it) = true ∨
      ∃ f fl, b_flushes (y_batcher y') !! f = Some fl ∧ fl_started fl = true ∧ fl_cancel fl = true ∧
        i ∈ fl_items fl)) ∧
  (ev = BvGathered → b_inflight (y_batcher y') = 0 ∧
   ∀ i k, y_frames y' !! i = Some k → ∃ it, b_items (y_batcher y') !! i = Some it ∧
     fut_done (it_future it) = true).
Proof.
  intros Hinit Hr Hex. destruct (breachable_ok _ _ _ _ _ Hinit Hr) as [Hy _].
  destruct (bstep_all clock _ Hy _ _ _ Hex) as [[Hi Hc Hg] _ _ Hcl _ Heff].
  assert (Hclosed : b_closed (y_batcher y') = true → b_pending (y_batcher y') = 0 ∧
   ∀ i k, y_frames y' !! i = Some k → ∃ it, b_items (y_batcher y') !! i = Some it ∧
     (fut_done (it_future it) = true ∨
      ∃ f fl, b_flushes (y_batcher y') !! f = Some fl ∧ fl_started fl = true ∧ fl_cancel fl = true ∧
        i ∈ fl_items fl)).
  { intros Hc'. pose proof (bi_closed _ _ Hi Hc') as Hnil. split.
    - rewrite (bi_pending _ _ Hi). unfold grp. rewrite Hnil. apply sum_map_empty.
    - intros i k Hf. destruct (bc_frame _ _ _ Hc _ _ Hf) as (it & _ & Hit & _). exists it. split; [done|].
      pose proof (bi_item _ _ Hi _ _ Hit) as Hok. unfold item_ok in Hok.
      destruct (it_state it) eqn:Hst.
      + destruct (bc_pending _ _ _ Hc _ _ _ Hf Hit Hst) as (b & _ & Hk & _).
        unfold grp in Hk. by rewrite Hnil in Hk.
      + right. destruct (bi_dispatched _ _ Hi _ _ Hit Hst) as (f & fl & Hfl & Hin). exists f, fl.
        destruct (bi_flying _ _ Hi _ _ _ Hfl Hin) as (it' & ? & Hfly). assert (it' = it) as -> by congruence.
        pose proof (bi_cancel _ _ Hi _ _ Hfl) as Hcan. unfold flying, live in Hfly.
        rewrite Hst, Hcan, Hc', orb_false_r in Hfly. rewrite Hcan. done.
      + left. by destruct Hok as [[? ->]|[? ->]].
      + left. by rewrite Hok. }
  split_and!; [|exact Hclosed|].
  - intros [->|?]; [|by apply Hcl]. by destruct Heff.
  - intros ->. cbn [bexec] in Hex.
    destruct (y_gathering y && bool_decide (b_timers (y_batcher y) = ∅) && bool_decide (b_flushes (y_batcher y) = ∅)) eqn:Hgo; [|done].
    apply andb_true_iff in Hgo as [[Hgy _]%andb_true_iff Hno%bool_decide_eq_true].
    injection Hex as <- <-. simpl in *. split; [by rewrite (bi_inflight _ _ Hi), Hno, sum_map_empty|].
    intros i k Hf. destruct (Hclosed (by_gathering _ Hy Hgy)) as [_ Hall].
    destruct (Hall i k Hf) as (it & Hit & [?|(f & fl & Hfl & _)]); [by exists it|by rewrite Hno in Hfl].
Qed.
End reachable.

(** * A concrete batcher *)

#[local] Existing Instance plain_floats.
#[local] Existing Instance plain_model_dump.

Definition demo_clock : nat → Z := Z.of_nat.
Definition demo_batcher : batcher :=
  match batcher_init 2 float_one true with
  | inr b => b
  | inl _ => Batcher 0 float_one true [] ∅ ∅ ∅ ∅ 0 0 false 0 0 []
  end.
Definition demo_bstart : bsystem := BSystem demo_batcher ∅ ∅ false.
Definition bdemo (evs : list bevent) : bsystem := default demo_bstart (brun demo_clock evs demo_bstart).

Lemma demo_batcher_init : batcher_init 2 float_one true = inr demo_batcher.
Proof. reflexivity. Qed.

Lemma bdemo_reachable evs : is_Some (brun demo_clock evs demo_bstart) → breachable demo_clock demo_batcher (bdemo evs).
Proof.
  intros [y Hy]. unfold bdemo. rewrite Hy. by eapply brun_reachable; [constructor|].
Qed.

(** Two compatible submissions fill a batch; a third one opens another. *)
Definition full_events : list bevent :=
  [BvSubmit "a" (demo_request "one" None); BvSubmit "a" (demo_request "two" None);
   BvSubmit "b" (demo_request "three" None)].
Definition demo_answer : batch_answer :=
  ABatch (BackendBatchResult [[("id"%py, VInt 1)]; [("id"%py, VInt 2)]] (Some 7) UObserved).

Lemma full_reachable : breachable demo_clock demo_batcher (bdemo full_events).
Proof. apply bdemo_reachable. vm_compute. by eexists. Qed.
Lemma started_reachable : breachable demo_clock demo_batcher (bdemo (full_events ++ [BvStart 3])).
Proof. apply bdemo_reachable. vm_compute. by eexists. Qed.

Lemma batch_homogeneous_witness :
  ∃ fl, b_flushes (y_batcher (bdemo full_events)) !! 3%nat = Some fl ∧ fl_items fl = [0; 2]%nat ∧ NoDup (fl_items fl).
Proof.
  destruct (b_flushes (y_batcher (bdemo full_events)) !! 3%nat) as [fl|] eqn:Hf; [|vm_compute in Hf; discriminate Hf].
  exists fl. split; [reflexivity|]. split; [vm_compute in Hf; injection Hf as <-; reflexivity|].
  exact (proj1 (proj2 (proj2 (batch_homogeneous _ _ _ _ _ _ _ _ demo_batcher_init full_reachable Hf)))).
Defined.

Lemma batch_delivery_witness :
  ∃ o y' it, bexec demo_clock (BvAnswer 3 (inr demo_answer)) (bdemo (full_events ++ [BvStart 3])) = Some (o, y') ∧
    b_items (y_batcher y') !! 2%nat = Some it ∧ it_future it = FResult [("id"%py, VInt 2)].
Proof.
  destruct (bexec demo_clock (BvAnswer 3 (inr demo_answer)) (bdemo (full_events ++ [BvStart 3]))) as [[o y']|] eqn:Hex;
    [|vm_compute in Hex; discriminate Hex].
  destruct (b_flushes (y_batcher (bdemo (full_events ++ [BvStart 3]))) !! 3%nat) as [fl|] eqn:Hf;
    [|vm_compute in Hf; discriminate Hf].
  destruct (b_items (y_batcher (bdemo (full_events ++ [BvStart 3]))) !! 2%nat) as [it|] eqn:Hit;
    [|vm_compute in Hit; discriminate Hit].
  pose proof (batch_delivery _ _ _ _ _ _ _ _ _ _ _ demo_batcher_init started_reachable Hf Hex) as (_ & _ & Hall).
  assert (Hn : fl_items fl !! 1%nat = Some 2%nat) by (vm_compute in Hf; injection Hf as <-; reflexivity).
  destruct (Hall 1%nat 2%nat it Hn Hit) as (it' & Hit' & Hout).
  exists o, y', it'. split; [reflexivity|]. split; [exact Hit'|].
  rewrite decide_False in Hout by (vm_compute in Hit; injection Hit as <-; discriminate).
  cbn [demo_answer br_responses] in Hout.
  rewrite decide_True in Hout by (vm_compute in Hf; injection Hf as <-; reflexivity).
  destruct Hout as (response & Hr & ->). simpl in Hr. by injection Hr as <-.
Defined.

Lemma batch_answers_witness :
  ∃ o y', bexec demo_clock (BvStart 3) (bdemo full_events) = Some (o, y') ∧ banswer_ok (bdemo full_events) (BvStart 3) o y'.
Proof.
  destruct (bexec demo_clock (BvStart 3) (bdemo full_events)) as [[o y']|] eqn:Hex; [|vm_compute in Hex; discriminate Hex].
  exists o, y'. split; [reflexivity|].
  exact (batch_answers _ _ _ _ _ _ _ _ _ demo_batcher_init full_reachable Hex).
Defined.

Lemma batch_once_witness :
  ∃ o y' it', bexec demo_clock (BvAnswer 3 (inr demo_answer)) (bdemo (full_events ++ [BvStart 3])) = Some (o, y') ∧
    b_items (y_batcher y') !! 0%nat = Some it' ∧ it_request it' = demo_request "one" None.
Proof.
  destruct (bexec demo_clock (BvAnswer 3 (inr demo_answer)) (bdemo (full_events ++ [BvStart 3]))) as [[o y']|] eqn:Hex;
    [|vm_compute in Hex; discriminate Hex].
  destruct (b_items (y_batcher (bdemo (full_events ++ [BvStart 3]))) !! 0%nat) as [it|] eqn:Hit;
    [|vm_compute in Hit; discriminate Hit].
  destruct (batch_once _ _ _ _ _ _ _ _ _ _ _ demo_batcher_init started_reachable Hex Hit) as (it' & Hit' & Hr & _).
  exists o, y', it'. split; [reflexivity|]. split; [exact Hit'|]. rewrite Hr.
  vm_compute in Hit. injection Hit as <-. reflexivity.
Defined.

Lemma batch_accounting_witness :
  b_pending (y_batcher (bdemo full_events)) = 1 ∧
  b_inflight (y_batcher (bdemo full_events)) =
    Z.of_nat (size (filter (λ ffl : nat * flush, live ffl.2 = true) (b_flushes (y_batcher (bdemo full_events))))).
Proof.
  split; [vm_compute; reflexivity|].
  exact (proj1 (proj2 (batch_accounting _ _ _ _ _ _ demo_batcher_init full_reachable))).
Defined.

(** The third submission waits for its timer. *)
Lemma batch_returns_witness :
  returns_after demo_clock 3 (inl (gw BackendTimeoutError)) (bdemo full_events) 4.
Proof.
  destruct (y_frames (bdemo full_events) !! 4%nat) as [k|] eqn:Hf; [|vm_compute in Hf; discriminate Hf].
  exact (batch_returns _ _ _ _ _ _ 4%nat k (inl (gw BackendTimeoutError)) demo_batcher_init full_reachable Hf eq_refl).
Defined.

Lemma batch_shutdown_witness :
  ∃ o y', bexec demo_clock BvShutdown (bdemo full_events) = Some (o, y') ∧ b_closed (y_batcher y') = true ∧
    b_pending (y_batcher y') = 0.
Proof.
  destruct (bexec demo_clock BvShutdown (bdemo full_events)) as [[o y']|] eqn:Hex; [|vm_compute in Hex; discriminate Hex].
  destruct (batch_shutdown _ _ _ _ _ _ _ _ _ demo_batcher_init full_reachable Hex) as (Hc & Hall & _).
  exists o, y'. split; [reflexivity|].
  assert (Hcl : b_closed (y_batcher y') = true) by (apply Hc; left; reflexivity).
  split; [exact Hcl|]. exact (proj1 (Hall Hcl)).
Defined.
