(* ===== verification/Vllm.v ===== *)
(** gateway/backends/vllm.py, the requests: what is sent to the vLLM server, how
    its answers become results or gateway errors, and the batch protocol.  The HTTP
    client is third-party code: its answers are a parameter. *)
From Stdlib Require Import SpecFloat.
From S2P Require Import Prelude.
From S2P Require Import Python.
From S2P Require Import Errors.
From S2P Require Import Chat.
From S2P Require Import Batching.

(** * The HTTP client *)

(** How a call of the client can fail: [httpx2.TimeoutException],
    [httpx2.ConnectError], another [httpx2.RequestError], or another exception. *)
Inductive client_failure := TimeoutException | ConnectError | RequestError | Raised (e : exn).

(** A response: its status, its [Content-Type] and what [response.json()] does. *)
Record http_response := HttpResponse {
  rs_status : Z;
  rs_content_type : option pystr;
  rs_json : exn + pyval;
}.

Abbreviation http_answer := (client_failure + http_response)%type.

(** The [except] clauses of [generate] and [generate_batch]. *)
Definition client_error (f : client_failure) : exn :=
  match f with
  | TimeoutException => gw BackendTimeoutError
  | ConnectError | RequestError => gw BackendUnavailableError
  | Raised e => e
  end.
Definition client_result (a : http_answer) : exn + http_response :=
  match a with inl f => inl (client_error f) | inr r => inr r end.

(** [_raise_for_upstream_status]. *)
Definition raise_for_upstream_status (status : Z) : exn + unit :=
  if (200 <=? status) && (status <? 300) then inr ()
  else if bool_decide (status ∈ [400; 404; 422]) then
    inl (Gateway (error_status BackendRequestRejectedError status))
  else if bool_decide (status ∈ [401; 403]) then inl (gw BackendConfigurationError)
  else inl (gw BackendHTTPError).

(** The JSON object of a response; other bodies violate the protocol. *)
Definition response_object (r : http_response) : exn + pydict :=
  match rs_json r with
  | inl ValueError => inl (gw BackendProtocolError)
  | inl e => inl e
  | inr (VDict d) => inr d
  | inr _ => inl (gw BackendProtocolError)
  end.

Definition object_of_answer (a : http_answer) : exn + pydict :=
  let? r := client_result a in
  do? raise_for_upstream_status (rs_status r) in
  response_object r.

(** * Equality of JSON values, Python's [==] *)

Definition int_of_bool (b : bool) : Z := if b then 1 else 0.
Definition float_eq_int (f : spec_float) (z : Z) : bool :=
  match f with
  | S754_zero _ => z =? 0
  | S754_finite s m e =>
      let n := if s then Z.neg m else Z.pos m in
      if 0 <=? e then z =? n * 2 ^ e else z * 2 ^ (- e) =? n
  | _ => false
  end.
Definition num_eq (x y : Z + spec_float) : bool :=
  match x, y with
  | inl a, inl b => a =? b
  | inr f, inr g => SFeqb f g
  | inl z, inr f | inr f, inl z => float_eq_int f z
  end.
Definition number (v : pyval) : option (Z + spec_float) :=
  match v with
  | VBool b => Some (inl (int_of_bool b))
  | VInt z => Some (inl z)
  | VFloat f => Some (inr f)
  | _ => None
  end.

Fixpoint py_eq (v w : pyval) {struct v} : bool :=
  match v, w with
  | VNone, VNone => true
  | VStr s, VStr t => bool_decide (s = t)
  | VList l, VList k =>
      (fix all l k := match l, k with
                      | [], [] => true
                      | x :: l, y :: k => py_eq x y && all l k
                      | _, _ => false
                      end) l k
  | VDict d, VDict e =>
      bool_decide (length d = length e) &&
      (fix all d := match d with
                    | [] => true
                    | (k, x) :: d =>
                        match dict_get e k with Some y => py_eq x y | None => false end && all d
                    end) d
  | _, _ => match number v, number w with Some x, Some y => num_eq x y | _, _ => false end
  end.

(** * Demultiplexing *)

(** The loop over [choices]. *)
Fixpoint index_choices (batch_size : Z) (choices : list pyval) (by_index : gmap Z pydict)
    : exn + gmap Z pydict :=
  match choices with
  | [] => inr by_index
  | VDict choice :: choices =>
      match dict_get choice "index"%py with
      | Some (VInt index) =>
          if (index <? 0) || (batch_size <=? index) || bool_decide (is_Some (by_index !! index))
          then inl (gw BackendProtocolError)
          else index_choices batch_size choices (<[index := choice]> by_index)
      | _ => inl (gw BackendProtocolError)
      end
  | _ :: _ => inl (gw BackendProtocolError)
  end.

Definition safe_names : list pystr :=
  ["id"; "object"; "created"; "model"; "system_fingerprint"]%py.
Definition safe_batch_fields (payload : pydict) : pydict :=
  omap (λ k, (λ v, (k, v)) <$> dict_get payload k) safe_names.

(** The response of one member. *)
Definition member_response (safe : pydict) (choice : pydict) : pydict :=
  dict_set safe "choices"%py (VList [VDict (dict_set choice "index"%py (VInt 0))]).

Fixpoint member_responses (safe : pydict) (by_index : gmap Z pydict) (indices : list Z)
    : exn + list pydict :=
  match indices with
  | [] => inr []
  | index :: indices =>
      match by_index !! index with
      | None => inl KeyError
      | Some choice =>
          let? rest := member_responses safe by_index indices in
          inr (member_response safe choice :: rest)
      end
  end.

(** The aggregate usage of the batch. *)
Definition batch_usage (payload : pydict) : option Z * usage_result :=
  match dict_get payload "usage"%py with
  | None => (None, UMissing)
  | Some (VDict usage) =>
      match dict_get usage "completion_tokens"%py with
      | Some (VInt n) => if n <? 0 then (None, UInvalid) else (Some n, UObserved)
      | _ => (None, UInvalid)
      end
  | Some _ => (None, UInvalid)
  end.

(** [_demultiplex_batch_response]. *)
Definition demultiplex_batch_response (payload : pydict) (batch_size : nat)
    : exn + backend_batch_result :=
  match dict_get payload "choices"%py with
  | Some (VList choices) =>
      if negb (bool_decide (length choices = batch_size)) then inl (gw BackendProtocolError) else
      let? by_index := index_choices (Z.of_nat batch_size) choices ∅ in
      if negb (bool_decide (dom by_index = list_to_set (seqZ 0 (Z.of_nat batch_size))))
      then inl (gw BackendProtocolError) else
      let? responses := member_responses (safe_batch_fields payload) by_index
                          (seqZ 0 (Z.of_nat batch_size)) in
      let '(tokens, usage) := batch_usage payload in
      inr (BackendBatchResult responses tokens usage)
  | _ => inl (gw BackendProtocolError)
  end.

(** * Requests *)

(** What a caller may pass: a chat request, or another object. *)
Inductive any_request := IsChat (r : chat_request) | NotChat.
Definition as_chat (r : any_request) : option chat_request :=
  match r with IsChat r => Some r | NotChat => None end.

Section requests.
Context `{ModelDump}.

(** The server: its answer to a POST of a JSON object to a path. *)
Variable post : pystr → pydict → http_answer.

(** [VLLMBackend.generate]. *)
Definition vllm_generate (r : chat_request) : exn + pydict :=
  object_of_answer (post "v1/chat/completions" (to_upstream_payload r)).

Definition capability_error (m : pystr) : exn := Gateway (error_msg BackendCapabilityError m).

(** [request.to_upstream_payload()["messages"]] of every request. *)
Fixpoint batch_messages (rs : list chat_request) : exn + list pyval :=
  match rs with
  | [] => inr []
  | r :: rs =>
      match dict_get (to_upstream_payload r) "messages"%py with
      | None => inl KeyError
      | Some m => let? ms := batch_messages rs in inr (m :: ms)
      end
  end.

(** The checks of [generate_batch] and the payload it sends. *)
Definition batch_payload (requests : list any_request) : exn + pydict :=
  match mapM as_chat requests with
  | None | Some [] => inl (capability_error "Batch generation requires chat completion requests")
  | Some (first :: rest) =>
      if existsb (λ r, cr_stream r || negb (cr_n r =? 1)) (first :: rest) then
        inl (capability_error "Batch generation requires stream=false and n=1") else
      let shared_payload := to_batch_shared_payload first in
      if existsb (λ r, negb (py_eq (VDict (to_batch_shared_payload r)) (VDict shared_payload))) rest
      then inl (capability_error "Batch generation requires compatible shared fields") else
      let? messages := batch_messages (first :: rest) in
      inr (dict_set shared_payload "messages" (VList messages))
  end.

(** [VLLMBackend.generate_batch]. *)
Definition vllm_generate_batch (requests : list any_request) : exn + backend_batch_result :=
  let? payload := batch_payload requests in
  let? answer := object_of_answer (post "v1/chat/completions/batch" payload) in
  demultiplex_batch_response answer (length requests).
End requests.

(** [check_health]: the answer to a GET of [health]. *)
Definition check_health (a : http_answer) : exn + bool :=
  match a with
  | inr r => inr ((200 <=? rs_status r) && (rs_status r <? 300))
  | inl (TimeoutException | ConnectError | RequestError) | inl (Raised RuntimeError) => inr false
  | inl (Raised e) => inl e
  end.
