(* ===== verification/VllmTheorems.v ===== *)
(** What the vLLM backend promises: the batch protocol is exactly reversed, answers
    are classified, and the batches of the batcher are accepted and sent faithfully. *)
From Stdlib Require Import SpecFloat.
From S2P Require Import Prelude.
From S2P Require Import Python.
From S2P Require Import Json.
From S2P Require Import Errors.
From S2P Require Import Chat.
From S2P Require Import Compatibility.
From S2P Require Import Batching.
From S2P Require Import Routing.
From S2P Require Import Vllm.

(** * Demultiplexing *)

(** A choice of a batch answer that carries the index [i]. *)
Definition carries (i : Z) (c : pydict) : Prop := dict_get c "index"%py = Some (VInt i).

(** [choices] are dictionaries with pairwise distinct indices below [n]. *)
Definition indexed_by (n : Z) (choices : list pyval) (l : list (Z * pydict)) : Prop :=
  choices = (λ ic, VDict ic.2) <$> l ∧ NoDup l.*1 ∧
  Forall (λ ic, carries ic.1 ic.2 ∧ 0 ≤ ic.1 < n) l.

Lemma index_choices_complete n l m :
  NoDup l.*1 → Forall (λ ic : Z * pydict, carries ic.1 ic.2 ∧ 0 ≤ ic.1 < n) l →
  (∀ i, i ∈ l.*1 → m !! i = None) →
  index_choices n ((λ ic, VDict ic.2) <$> l) m = inr (list_to_map l ∪ m).
Proof.
  revert m. induction l as [|[i c] l IH]; intros m Hnd Hl Hm; simpl; [by rewrite (left_id_L ∅ (∪))|].
  apply NoDup_cons in Hnd as [Hni Hnd]. apply Forall_cons in Hl as [[Hc Hb] Hl]. simpl in *. rewrite Hc.
  rewrite (proj2 (Z.ltb_ge _ _)), (proj2 (Z.leb_gt _ _)) by lia. simpl.
  rewrite bool_decide_false by (rewrite Hm; [apply is_Some_None|left]).
  rewrite IH; [|done..|].
  - f_equal. rewrite <- insert_union_l, insert_union_r; [done|]. by apply not_elem_of_list_to_map_1.
  - intros j Hj. rewrite lookup_insert_ne by (intros ->; done). apply Hm. by right.
Qed.

Lemma index_choices_sound n cs m m' :
  index_choices n cs m = inr m' →
  ∃ l, indexed_by n cs l ∧ (∀ i, i ∈ l.*1 → m !! i = None).
Proof.
  revert m. induction cs as [|c cs IH]; intros m; simpl.
  { intros _. exists []. split; [|by intros ? ?%elem_of_nil].
    split_and!; [done|apply NoDup_nil_2|apply Forall_nil_2]. }
  destruct c as [| | | | | |c]; try done.
  destruct (dict_get c "index"%py) as [[| |i| | | |]|] eqn:Hc; try done.
  destruct (i <? 0) eqn:H0; [done|]. destruct (n <=? i) eqn:Hn; [done|]. simpl.
  case_bool_decide as Hi; [done|]. intros (l & (-> & Hnd & Hl) & Hm)%IH.
  apply Z.ltb_ge in H0. apply Z.leb_gt in Hn. apply eq_None_not_Some in Hi.
  exists ((i, c) :: l). split; [split_and!|].
  - reflexivity.
  - apply NoDup_cons. split; [|done]. intros Hin%Hm. by rewrite lookup_insert_eq in Hin.
  - constructor; [|done]. by split.
  - intros j [->|Hj]%elem_of_cons; [done|]. specialize (Hm j Hj). by apply lookup_insert_None in Hm as [].
Qed.

Lemma index_choices_error n cs m e : index_choices n cs m = inl e → e = gw BackendProtocolError.
Proof.
  revert m. induction cs as [|c cs IH]; intros m; simpl; [done|].
  destruct c as [| | | | | |c]; try (by intros [= <-]).
  destruct (dict_get c "index"%py) as [[| |i| | | |]|]; try (by intros [= <-]).
  destruct (_ || _); [by intros [= <-]|]. apply IH.
Qed.

(** As many distinct indices below [n] as there are: all of them. *)
Lemma all_indices (n : nat) (l : list Z) :
  NoDup l → Forall (λ i, 0 ≤ i < Z.of_nat n) l → length l = n → l ≡ₚ seqZ 0 (Z.of_nat n).
Proof.
  intros Hnd Hl Hlen. apply submseteq_length_Permutation.
  - apply NoDup_submseteq; [done|]. intros i Hi. apply elem_of_seqZ.
    rewrite Forall_forall in Hl. specialize (Hl _ Hi). lia.
  - rewrite length_seqZ. lia.
Qed.

Lemma member_responses_ok safe m js :
  (∀ i, i ∈ js → is_Some (m !! i)) →
  member_responses safe m js = inr ((λ i, member_response safe (default [] (m !! i))) <$> js).
Proof.
  induction js as [|i js IH]; intros Hm; simpl; [done|].
  destruct (Hm i) as [c ->]; [by left|]. rewrite IH; [done|]. intros j Hj. apply Hm. by right.
Qed.

(** The answer to a well indexed batch. *)
Lemma demultiplex_indexed payload (n : nat) cs l :
  dict_get payload "choices"%py = Some (VList cs) → indexed_by (Z.of_nat n) cs l → length l = n →
  demultiplex_batch_response payload n =
    inr (BackendBatchResult
           ((λ i, member_response (safe_batch_fields payload) (default [] ((list_to_map l : gmap Z pydict) !! i)))
              <$> seqZ 0 (Z.of_nat n))
           (batch_usage payload).1 (batch_usage payload).2).
Proof.
  intros Hcs (-> & Hnd & Hl) Hlen. unfold demultiplex_batch_response. rewrite Hcs, length_fmap, Hlen.
  rewrite bool_decide_true by done. cbn [negb].
  assert (Hp : l.*1 ≡ₚ seqZ 0 (Z.of_nat n)).
  { apply all_indices; [done| |by rewrite length_fmap].
    apply Forall_fmap. eapply Forall_impl; [exact Hl|]. intros ? [_ ?]. done. }
  rewrite index_choices_complete by done. cbn [sum_bind]. rewrite (right_id_L ∅ (∪)).
  assert (Hdom : dom (list_to_map l : gmap Z pydict) = list_to_set (seqZ 0 (Z.of_nat n))).
  { apply set_eq. intros i. rewrite dom_list_to_map_L, !elem_of_list_to_set. by rewrite Hp. }
  rewrite bool_decide_true by done. cbn [negb]. rewrite member_responses_ok.
  - simpl. by destruct (batch_usage payload).
  - intros i Hi. apply elem_of_dom. rewrite Hdom. by apply elem_of_list_to_set.
Qed.

Lemma demultiplex_refused payload (n : nat) :
  (∀ cs l, dict_get payload "choices"%py = Some (VList cs) → length cs = n → ¬ indexed_by (Z.of_nat n) cs l) →
  demultiplex_batch_response payload n = inl (gw BackendProtocolError).
Proof.
  intros Hno. unfold demultiplex_batch_response.
  destruct (dict_get payload "choices"%py) as [[| | | | |cs|]|]; try done.
  case_bool_decide as Hlen; [|done]. cbn [negb].
  destruct (index_choices (Z.of_nat n) cs ∅) as [e|m] eqn:Hi; simpl; [by apply index_choices_error in Hi as ->|].
  apply index_choices_sound in Hi as (l & Hl & _). by destruct (Hno cs l).
Qed.

(** The member responses of a batch whose choice [i] is the [i]-th of [choices]. *)
Definition tagged (choices : list pydict) : list (Z * pydict) :=
  imap (λ i c, (Z.of_nat i, dict_set c "index"%py (VInt (Z.of_nat i)))) choices.

Lemma tagged_lookup choices (i : nat) :
  tagged choices !! i = (λ c, (Z.of_nat i, dict_set c "index"%py (VInt (Z.of_nat i)))) <$> choices !! i.
Proof. apply list_lookup_imap. Qed.

Lemma tagged_indices choices : (tagged choices).*1 = seqZ 0 (Z.of_nat (length choices)).
Proof.
  apply list_eq. intros i. rewrite list_lookup_fmap, tagged_lookup.
  destruct (choices !! i) as [c|] eqn:Hc; simpl.
  - symmetry. apply lookup_seqZ. apply lookup_lt_Some in Hc. lia.
  - symmetry. apply lookup_seqZ_ge. apply lookup_ge_None in Hc. lia.
Qed.

Lemma tagged_ok choices : Forall (λ ic, carries ic.1 ic.2 ∧ 0 ≤ ic.1 < Z.of_nat (length choices)) (tagged choices).
Proof.
  apply Forall_lookup. intros i ic. rewrite tagged_lookup.
  destruct (choices !! i) as [c|] eqn:Hc; [|done]. intros [= <-]. simpl. apply lookup_lt_Some in Hc.
  split; [|lia]. unfold carries. by rewrite dict_get_set, decide_True.
Qed.

Lemma demultiplex_tagged payload cs choices :
  dict_get payload "choices"%py = Some (VList cs) →
  cs ≡ₚ (λ ic, VDict ic.2) <$> tagged choices →
  demultiplex_batch_response payload (length choices) =
    inr (BackendBatchResult (member_response (safe_batch_fields payload) <$> choices)
           (batch_usage payload).1 (batch_usage payload).2).
Proof.
  intros Hcs Hp. symmetry in Hp. apply Permutation_sym, Permutation_map_inv in Hp as (l & -> & Hp).
  assert (Hp1 : l.*1 ≡ₚ seqZ 0 (Z.of_nat (length choices))) by by rewrite <- tagged_indices, Hp.
  assert (Hnd : NoDup l.*1) by (rewrite Hp1; apply NoDup_seqZ).
  rewrite (demultiplex_indexed _ _ ((λ ic, VDict ic.2) <$> l) l); [|done| |].
  - do 2 f_equal. apply list_eq. intros i. rewrite !list_lookup_fmap.
    destruct (choices !! i) as [c|] eqn:Hc; simpl.
    + rewrite lookup_seqZ_lt by (apply lookup_lt_Some in Hc; lia). simpl. f_equal.
      erewrite (elem_of_list_to_map_1 l (Z.of_nat i)); [|done|].
      * simpl. unfold member_response. by rewrite dict_set_set.
      * rewrite <- Hp. apply list_elem_of_lookup. exists i. by rewrite tagged_lookup, Hc.
    + rewrite lookup_seqZ_ge; [done|]. apply lookup_ge_None in Hc. lia.
  - split_and!; [done|done|]. rewrite <- Hp. apply tagged_ok.
  - rewrite <- (length_fmap fst), Hp1, length_seqZ. lia.
Qed.

(** C14: The batch protocol loses nothing and mixes nothing up: when the server's
    choices are, in any order, the members' choices tagged with their positions,
    demultiplexing gives each member, in order, a response with its own choice at
    index 0 and the batch's identifying fields, and classifies the usage. *)
Theorem demultiplex_roundtrip payload cs choices :
  dict_get payload "choices"%py = Some (VList cs) →
  cs ≡ₚ imap (λ i c, VDict (dict_set c "index"%py (VInt (Z.of_nat i)))) choices →
  demultiplex_batch_response payload (length choices) =
    inr (BackendBatchResult (member_response (safe_batch_fields payload) <$> choices)
           (batch_usage payload).1 (batch_usage payload).2).
Proof.
  intros Hcs Hp. eapply demultiplex_tagged; [done|]. rewrite Hp. unfold tagged. rewrite fmap_imap. done.
Qed.

(** What an accepted answer is, and what a refused one is not. *)
Lemma demultiplex_cases payload n :
  match demultiplex_batch_response payload n with
  | inr r => length (br_responses r) = n ∧ (br_tokens r, br_usage r) = batch_usage payload ∧
      ∃ cs l, dict_get payload "choices"%py = Some (VList cs) ∧ length cs = n ∧
        indexed_by (Z.of_nat n) cs l ∧
        ∀ i c, (i, c) ∈ l →
          br_responses r !! Z.to_nat i = Some (member_response (safe_batch_fields payload) c)
  | inl e => e = gw BackendProtocolError ∧
      ∀ cs l, dict_get payload "choices"%py = Some (VList cs) → length cs = n →
        ¬ indexed_by (Z.of_nat n) cs l
  end.
Proof.
  destruct (dict_get payload "choices"%py) as [[| | | | |cs|]|] eqn:Hcs;
    try (rewrite demultiplex_refused; [by split|congruence]).
  destruct (decide (length cs = n)) as [Hlen|]; [|rewrite demultiplex_refused; [split; [done|]|]; congruence].
  destruct (index_choices (Z.of_nat n) cs ∅) as [e|m] eqn:Hi.
  - assert (Hno : ∀ l, ¬ indexed_by (Z.of_nat n) cs l).
    { intros l (-> & Hnd & Hl). rewrite index_choices_complete in Hi by done. done. }
    rewrite demultiplex_refused; [split; [done|]|]; intros cs' l Hcs' _; by simplify_eq.
  - apply index_choices_sound in Hi as (l & Hl & _). pose proof Hl as (-> & Hnd & Hall).
    rewrite length_fmap in Hlen. rewrite (demultiplex_indexed _ _ _ l) by done. simpl.
    split_and!; [rewrite length_fmap, length_seqZ; lia|by destruct (batch_usage payload)|].
    eexists _, l. split_and!; [done|by rewrite length_fmap|done..|].
    intros i c Hic. rewrite list_lookup_fmap. rewrite Forall_forall in Hall.
    destruct (Hall _ Hic) as [_ Hr]. simpl in Hr. rewrite lookup_seqZ_lt by lia. simpl.
    rewrite Z2Nat.id by lia. by rewrite (elem_of_list_to_map_1 _ _ _ Hnd Hic).
Qed.

(** A batch answer is accepted exactly when its choices are a list of as many
    dictionaries as the batch has members, with pairwise distinct integer indices in
    range; then the member with index [i] gets the choice that carries [i], and any
    other answer is a protocol error. *)
Theorem demultiplex_spec payload n :
  match demultiplex_batch_response payload n with
  | inr r => length (br_responses r) = n ∧ (br_tokens r, br_usage r) = batch_usage payload ∧
      ∃ cs l, dict_get payload "choices"%py = Some (VList cs) ∧ length cs = n ∧
        indexed_by (Z.of_nat n) cs l ∧
        ∀ i c, (i, c) ∈ l →
          br_responses r !! Z.to_nat i = Some (member_response (safe_batch_fields payload) c)
  | inl e => e = gw BackendProtocolError ∧
      ∀ cs l, dict_get payload "choices"%py = Some (VList cs) → length cs = n →
        ¬ indexed_by (Z.of_nat n) cs l
  end.
Proof. exact (demultiplex_cases payload n). Qed.

Lemma demultiplex_roundtrip_witness :
  demultiplex_batch_response
    [("choices", VList [VDict [("x", VInt 8); ("index", VInt 1)]; VDict [("x", VInt 7); ("index", VInt 0)]]);
     ("usage", VDict [("completion_tokens", VInt 5)])]%py 2 =
  inr (BackendBatchResult
    [[("choices", VList [VDict [("x", VInt 7); ("index", VInt 0)]])];
     [("choices", VList [VDict [("x", VInt 8); ("index", VInt 0)]])]]%py (Some 5) UObserved).
Proof.
  apply (demultiplex_roundtrip
    [("choices", VList [VDict [("x", VInt 8); ("index", VInt 1)]; VDict [("x", VInt 7); ("index", VInt 0)]]);
     ("usage", VDict [("completion_tokens", VInt 5)])]%py _ [[("x", VInt 7)]; [("x", VInt 8)]]%py eq_refl).
  apply Permutation_swap.
Defined.

(** * Answers *)

(** What the HTTP client is documented to do: it raises its own exceptions, and
    reading JSON raises [ValueError] for a body that is none. *)
Definition documented (a : http_answer) : Prop :=
  match a with
  | inl (Raised _) => False
  | inl _ => True
  | inr r => match rs_json r with inl e => e = ValueError | inr _ => True end
  end.

Definition rejected (a : http_answer) : Prop :=
  match a with inr r => rs_status r ∈ [400; 404; 422] | inl _ => False end.

Lemma raise_for_status_cases n :
  match raise_for_upstream_status n with
  | inr _ => 200 ≤ n < 300
  | inl e => ¬ 200 ≤ n < 300 ∧
      (n ∈ [400; 404; 422] ∧ e = Gateway (error_status BackendRequestRejectedError n) ∨
       (n ∉ [400; 404; 422]) ∧ (e = gw BackendConfigurationError ∨ e = gw BackendHTTPError))
  end.
Proof.
  unfold raise_for_upstream_status. destruct ((200 <=? n) && (n <? 300)) eqn:H2.
  { apply andb_true_iff in H2 as [?%Z.leb_le ?%Z.ltb_lt]. lia. }
  apply andb_false_iff in H2. rewrite Z.leb_gt, Z.ltb_ge in H2.
  case_bool_decide; [split; [lia|by left]|]. case_bool_decide; (split; [lia|right; auto]).
Qed.

(** C28: How an answer of the server is told to the client: a JSON object with a 2xx
    status is returned unchanged; every other answer is a backend error.  A status
    400, 404 or 422 is passed on and leaves the backend routable, and every other
    failure, also one of authentication, is shown as 502, 503 or 504 and counts
    against the health of the backend. *)
Theorem vllm_outcomes `{ModelDump} post r :
  let a := post "v1/chat/completions"%py (to_upstream_payload r) in
  documented a →
  match vllm_generate post r with
  | inr d => ∃ rsp, a = inr rsp ∧ 200 ≤ rs_status rsp < 300 ∧ rs_json rsp = inr (VDict d)
  | inl e => ∃ g, e = Gateway g ∧ issubclass (ge_class g) BackendError = true ∧
      (rejected a → health_impacting e = false ∧
         ∃ rsp, a = inr rsp ∧ error_status_code g = rs_status rsp) ∧
      (¬ rejected a → health_impacting e = true ∧ error_status_code g ∈ [502; 503; 504])
  end.
Proof.
  intros a Hdoc. unfold vllm_generate. fold a. clearbody a. unfold object_of_answer, client_result.
  assert (Hbad : ∀ c, c ∈ [BackendTimeoutError; BackendUnavailableError; BackendProtocolError;
                           BackendConfigurationError; BackendHTTPError] → ¬ rejected a →
    ∃ g, gw c = Gateway g ∧ issubclass (ge_class g) BackendError = true ∧
      (rejected a → health_impacting (gw c) = false ∧
         ∃ rsp, a = inr rsp ∧ error_status_code g = rs_status rsp) ∧
      (¬ rejected a → health_impacting (gw c) = true ∧ error_status_code g ∈ [502; 503; 504])).
  { intros c Hc Hno. exists (error_of c). split; [done|].
    assert (Hg : issubclass (ge_class (error_of c)) BackendError = true ∧ health_impacting (gw c) = true ∧
      error_status_code (error_of c) ∈ [502; 503; 504]).
    { repeat (apply elem_of_cons in Hc as [->|Hc]; [split_and!; [done|done|by apply (bool_decide_unpack _)]|]).
      by apply elem_of_nil in Hc. }
    destruct Hg as (? & ? & ?). split_and!; done. }
  destruct a as [f|rsp]; simpl in *.
  { destruct f; simpl; [..|done]; (apply Hbad; [by apply (bool_decide_unpack _)|tauto]). }
  pose proof (raise_for_status_cases (rs_status rsp)) as Hst.
  destruct (raise_for_upstream_status (rs_status rsp)) as [e|[]]; simpl in *.
  - destruct Hst as (_ & [[Hin ->]|[Hni [->| ->]]]); [|(apply Hbad; [by apply (bool_decide_unpack _)|tauto])..].
    exists (error_status BackendRequestRejectedError (rs_status rsp)). split_and!; try done.
    intros _. split; [done|]. by exists rsp.
  - assert (Hno : rs_status rsp ∉ [400; 404; 422]) by (intros ?; set_solver by lia).
    unfold response_object. destruct (rs_json rsp) as [e|v] eqn:Hj; [subst e; (apply Hbad; [by apply (bool_decide_unpack _)|tauto])|].
    destruct v; try ((apply Hbad; [by apply (bool_decide_unpack _)|tauto])). by exists rsp.
Qed.

#[local] Existing Instance plain_model_dump.

Lemma vllm_outcomes_witness :
  ∃ g, vllm_generate (λ _ _, inr (HttpResponse 401 None (inl ValueError))) (demo_request "x" None) = inl (Gateway g)
    ∧ error_status_code g ∈ [502; 503; 504].
Proof.
  destruct (vllm_outcomes (λ _ _, inr (HttpResponse 401 None (inl ValueError))) (demo_request "x" None) eq_refl)
    as (g & Hg & _ & _ & Hno).
  exists g. rewrite <- Hg. split; [reflexivity|]. apply Hno. simpl. intros Hin.
  by repeat (apply elem_of_cons in Hin as [Hin|Hin]; [discriminate Hin|]); apply elem_of_nil in Hin.
Defined.
