(* ===== verification/VllmStreams.v ===== *)
(** gateway/backends/vllm.py, the streams: who owns an opened streaming response,
    and closing the backend.

    Awaits split the code into atomic steps: opening a stream, calling
    [response.aclose()], its end, and one step of the loop of [close]. *)
From S2P Require Import Prelude.
From S2P Require Import Python.
From S2P Require Import Errors.
From S2P Require Import Vllm.

(** * State *)

(** [vl_responses]: for each streaming response the client returned, how often its
    [aclose] was called; [vl_streams]: the [_closed] flag of the [_VLLMBackendStream]
    that wraps it, named by the response; [vl_active]: [_active_streams];
    [vl_closed]: [_client.is_closed]. *)
Record vllm := Vllm {
  vl_responses : gmap nat nat;
  vl_streams : gmap nat bool;
  vl_active : gset nat;
  vl_closed : bool;
  vl_next : nat;
}.

Definition vllm_init : vllm := Vllm ∅ ∅ ∅ false 0.

Definition up_responses (f : gmap nat nat → gmap nat nat) (s : vllm) : vllm :=
  Vllm (f (vl_responses s)) (vl_streams s) (vl_active s) (vl_closed s) (vl_next s).
Definition up_streams (f : gmap nat bool → gmap nat bool) (s : vllm) : vllm :=
  Vllm (vl_responses s) (f (vl_streams s)) (vl_active s) (vl_closed s) (vl_next s).
Definition up_streams_active (f : gset nat → gset nat) (s : vllm) : vllm :=
  Vllm (vl_responses s) (vl_streams s) (f (vl_active s)) (vl_closed s) (vl_next s).
Definition client_aclose (s : vllm) : vllm :=
  Vllm (vl_responses s) (vl_streams s) (vl_active s) true (vl_next s).
Definition next_response (s : vllm) : vllm :=
  Vllm (vl_responses s) (vl_streams s) (vl_active s) (vl_closed s) (S (vl_next s)).

Abbreviation vl := (sem vllm exn).

(** * Operations *)

(** [await response.aclose()], which may raise. *)
Definition response_aclose (r : nat) (outcome : option exn) : vl unit :=
  do! modify (up_responses (alter S r)) in
  match outcome with Some e => raise e | None => ret () end.

(** The [except] clauses of [stream] and of the iteration. *)
Definition stream_error (f : client_failure) : exn :=
  match f with
  | TimeoutException => gw BackendTimeoutError
  | ConnectError | RequestError | Raised RuntimeError => gw BackendUnavailableError
  | Raised e => e
  end.

Definition event_stream (content_type : option pystr) : bool :=
  let media_type := str_before 59 (default ""%py content_type) in
  bool_decide (str_casefold (str_strip media_type) = "text/event-stream"%py).

(** [VLLMBackend.stream] from the client's answer on; [outcome] is that of closing
    a response that is refused. *)
Definition open_stream (a : http_answer) (outcome : option exn) : vl nat :=
  match a with
  | inl f => raise (stream_error f)
  | inr rsp =>
      let! s := get in
      let r := vl_next s in
      do! modify next_response in
      do! modify (up_responses (<[r := O]>)) in
      match raise_for_upstream_status (rs_status rsp) with
      | inl e => do! response_aclose r outcome in raise e
      | inr _ =>
          if negb (event_stream (rs_content_type rsp)) then
            do! response_aclose r outcome in raise (gw BackendProtocolError)
          else
            do! modify (up_streams (<[r := false]>)) in
            do! modify (up_streams_active (union {[r]})) in
            ret r
      end
  end.

(** [_VLLMBackendStream.aclose] up to its await; true when the response is being
    closed, false when the stream was closed before. *)
Definition aclose_begin (r : nat) : vl bool :=
  let! s := get in
  match vl_streams s !! r with
  | Some false =>
      do! modify (up_streams (<[r := true]>)) in
      do! response_aclose r None in
      ret true
  | _ => ret false
  end.
(** The [finally] clause. *)
Definition aclose_end (r : nat) (outcome : option exn) : vl unit :=
  do! modify (up_streams_active (λ a, a ∖ {[r]})) in
  match outcome with Some e => raise e | None => ret () end.

(** * The backend and its users

    [vs_closing]: the streams whose response is being closed.  [vs_loop]: the state
    of a running [close]: the streams left to visit, the one it waits for, and the
    number of responses received when it began. *)
Record close_loop := CloseLoop {
  cl_left : list nat;
  cl_waiting : option nat;
  cl_before : nat;
}.
Record vsystem := VSystem {
  vs_backend : vllm;
  vs_closing : gset nat;
  vs_loop : option close_loop;
}.

(** [VAclose r]: the relay, a routed stream or the stream's own iterator calls
    [aclose].  [VAclosed r x]: closing the response of [r] ends with [x].
    [VCloseStep]: the loop of [close] goes on, to its next stream or to closing the
    client. *)
Inductive vevent :=
| VOpen (a : http_answer) (outcome : option exn)
| VAclose (r : nat)
| VAclosed (r : nat) (outcome : option exn)
| VClose
| VCloseStep.

Definition close_waits (y : vsystem) (r : nat) : bool :=
  match vs_loop y with Some (CloseLoop _ (Some r') _) => bool_decide (r = r') | _ => false end.

(** A closed client answers [RuntimeError]. *)
Definition client_answers (s : vllm) (a : http_answer) : bool :=
  match a with inr _ => negb (vl_closed s) | inl _ => true end.

Definition vexec (ev : vevent) (y : vsystem) : option ((exn + unit) * vsystem) :=
  let s := vs_backend y in
  match ev with
  | VOpen a outcome =>
      if client_answers s a then
        let '(r, s') := open_stream a outcome s in
        Some (match r with inl e => inl e | inr _ => inr () end, VSystem s' (vs_closing y) (vs_loop y))
      else None
  | VAclose r =>
      match vl_streams s !! r with
      | Some _ =>
          match aclose_begin r s with
          | (inr started, s') =>
              Some (inr (), VSystem s' (if started then {[r]} ∪ vs_closing y else vs_closing y) (vs_loop y))
          | (inl e, s') => Some (inl e, VSystem s' (vs_closing y) (vs_loop y))
          end
      | None => None
      end
  | VAclosed r outcome =>
      if bool_decide (r ∈ vs_closing y) then
        let '(x, s') := aclose_end r outcome s in
        let loop := if close_waits y r then
                      match x, vs_loop y with
                      | inr _, Some l => Some (CloseLoop (cl_left l) None (cl_before l))
                      | _, _ => None     (* [close] raises *)
                      end
                    else vs_loop y in
        Some (x, VSystem s' (vs_closing y ∖ {[r]}) loop)
      else None
  | VClose =>
      match vs_loop y with
      | None => Some (inr (), VSystem s (vs_closing y)
                  (Some (CloseLoop (elements (vl_active s)) None (vl_next s))))
      | Some _ => None
      end
  | VCloseStep =>
      match vs_loop y with
      | Some (CloseLoop (r :: rest) None before) =>
          match aclose_begin r s with
          | (inr started, s') =>
              Some (inr (), VSystem s' (if started then {[r]} ∪ vs_closing y else vs_closing y)
                (Some (CloseLoop rest (if started then Some r else None) before)))
          | (inl e, s') => Some (inl e, VSystem s' (vs_closing y) None)
          end
      | Some (CloseLoop [] None before) =>
          Some (inr (), VSystem (client_aclose s) (vs_closing y) None)
      | _ => None
      end
  end.

Inductive vreachable : vsystem → Prop :=
| vreachable_init : vreachable (VSystem vllm_init ∅ None)
| vreachable_step y ev o y' : vreachable y → vexec ev y = Some (o, y') → vreachable y'.

(** * Ownership *)

(** The response [r], whose [aclose] was called [n] times, was refused, or its
    stream is open, or being closed, or closed. *)
Definition owned (y : vsystem) (r n : nat) : Prop :=
  let s := vs_backend y in
  match vl_streams s !! r with
  | None => n = 1%nat ∧ (r ∉ vl_active s) ∧ (r ∉ vs_closing y)
  | Some false => n = 0%nat ∧ r ∈ vl_active s ∧ (r ∉ vs_closing y)
  | Some true => n = 1%nat ∧ (r ∈ vl_active s ↔ r ∈ vs_closing y)
  end.

Record vinv (y : vsystem) : Prop := {
  vi_owned r n : vl_responses (vs_backend y) !! r = Some n → owned y r n;
  vi_received r : r ∈ vl_active (vs_backend y) ∨ r ∈ vs_closing y ∨ is_Some (vl_streams (vs_backend y) !! r) →
    is_Some (vl_responses (vs_backend y) !! r);
  vi_next r : is_Some (vl_responses (vs_backend y) !! r) → (r < vl_next (vs_backend y))%nat;
  vi_loop l : vs_loop y = Some l → (cl_before l ≤ vl_next (vs_backend y))%nat ∧
    ∀ r, (r < cl_before l)%nat → vl_responses (vs_backend y) !! r = Some 0%nat → r ∈ cl_left l;
}.

Lemma open_stream_vinv a outcome y x s' :
  vinv y → open_stream a outcome (vs_backend y) = (x, s') → vinv (VSystem s' (vs_closing y) (vs_loop y)).
Proof.
  intros [Ho Hrc Hn Hl]. destruct y as [s closing loop]. simpl in *. set (r := vl_next s).
  assert (Hfresh : vl_responses s !! r = None).
  { destruct (vl_responses s !! r) eqn:Hr; [|done]. assert (r < vl_next s)%nat by (apply Hn; eauto). unfold r in *. lia. }
  assert (Hnone : (r ∉ vl_active s) ∧ (r ∉ closing) ∧ vl_streams s !! r = None).
  { split_and!; [intros Hx; destruct (Hrc r); [by left|]; congruence|
      intros Hx; destruct (Hrc r); [by right; left|]; congruence|].
    destruct (vl_streams s !! r) eqn:Hx; [|done]. destruct (Hrc r); [right; right; eauto|]. congruence. }
  destruct Hnone as (Ha & Hc & Hs).
  assert (Hbad : ∀ s', s' = up_responses (alter S r) (up_responses (<[r := O]>) (next_response s)) →
    vinv (VSystem s' closing loop)).
  { intros s1 ->. constructor; simpl.
    - intros q n. destruct (decide (q = r)) as [->|Hne].
      + rewrite lookup_alter_eq, lookup_insert_eq. intros [= <-]. unfold owned. simpl. by rewrite Hs.
      + rewrite lookup_alter_ne, lookup_insert_ne by done. apply Ho.
    - intros q Hq. destruct (decide (q = r)) as [->|Hne]; [by rewrite lookup_alter_eq, lookup_insert_eq|].
      rewrite lookup_alter_ne, lookup_insert_ne by done. by apply Hrc.
    - intros q. destruct (decide (q = r)) as [->|Hne]; [unfold r; lia|].
      rewrite lookup_alter_ne, lookup_insert_ne by done. intros ?%Hn. lia.
    - intros l Hloop. destruct (Hl l Hloop) as [Hb Hz]. split; [lia|]. intros q Hq.
      rewrite lookup_alter_ne, lookup_insert_ne by (unfold r; lia). by apply Hz. }
  destruct a as [f|rsp]; simpl; [intros [= <- <-]; by constructor|].
  unfold bind, get, modify, raise, ret. simpl. fold r.
  destruct (raise_for_upstream_status (rs_status rsp)) as [e|_].
  { unfold response_aclose, bind, modify, raise, ret. destruct outcome; intros [= <- <-]; by apply Hbad. }
  destruct (event_stream _); simpl.
  2:{ unfold response_aclose, bind, modify, raise, ret. destruct outcome; intros [= <- <-]; by apply Hbad. }
  intros [= <- <-]. clear Hbad. constructor; simpl.
  - intros q n. destruct (decide (q = r)) as [->|Hne].
    + rewrite lookup_insert_eq. intros [= <-]. unfold owned. simpl. rewrite lookup_insert_eq. set_solver.
    + rewrite lookup_insert_ne by done. intros Hq%Ho. unfold owned in *. simpl in *.
      rewrite lookup_insert_ne by done. destruct (vl_streams s !! q) as [[]|]; set_solver.
  - intros q Hq. destruct (decide (q = r)) as [->|Hne]; [by rewrite lookup_insert_eq|].
    rewrite lookup_insert_ne by done. rewrite lookup_insert_ne in Hq by done. apply Hrc.
    destruct Hq as [[->%elem_of_singleton|?]%elem_of_union|[?|?]]; [done|auto..].
  - intros q. destruct (decide (q = r)) as [->|Hne]; [unfold r; lia|].
    rewrite lookup_insert_ne by done. intros ?%Hn. lia.
  - intros l Hloop. destruct (Hl l Hloop) as [Hb Hz]. split; [lia|]. intros q Hq.
    rewrite lookup_insert_ne by (unfold r; lia). by apply Hz.
Qed.

(** Calling [aclose]. *)
Lemma aclose_begin_vinv y r loop :
  vinv y →
  (∀ l, loop = Some l → (cl_before l ≤ vl_next (vs_backend y))%nat ∧
     ∀ q, (q < cl_before l)%nat → q ≠ r → vl_responses (vs_backend y) !! q = Some 0%nat → q ∈ cl_left l) →
  ∃ started s', aclose_begin r (vs_backend y) = (inr started, s') ∧
    vinv (VSystem s' (if started then {[r]} ∪ vs_closing y else vs_closing y) loop).
Proof.
  intros [Ho Hrc Hn _] Hl. destruct y as [s closing loop0]. simpl in *.
  unfold aclose_begin, bind, get. destruct (vl_streams s !! r) as [[]|] eqn:Hs.
  1,3: eexists false, s; split; [done|]; constructor; simpl; [exact Ho|exact Hrc|exact Hn|];
    intros l Hloop; destruct (Hl l Hloop) as [Hb Hz]; split; [done|]; intros q Hq Hq0; apply Hz; [done| |done];
    intros ->; specialize (Ho _ _ Hq0); unfold owned in Ho; simpl in Ho; rewrite Hs in Ho; by destruct Ho.
  destruct (Hrc r) as [n Hr]; [right; right; eauto|]. pose proof (Ho _ _ Hr) as Hor. unfold owned in Hor. simpl in Hor.
  rewrite Hs in Hor. destruct Hor as (-> & Hact & Hncl).
  eexists true, _. split; [reflexivity|]. constructor; simpl.
  - intros q n. destruct (decide (q = r)) as [->|Hne].
    + rewrite lookup_alter_eq, Hr. intros [= <-]. unfold owned. simpl. rewrite lookup_insert_eq. set_solver.
    + rewrite lookup_alter_ne by done. intros Hq%Ho. unfold owned in *. simpl in *.
      rewrite lookup_insert_ne by done. destruct (vl_streams s !! q) as [[]|]; set_solver.
  - intros q Hq. destruct (decide (q = r)) as [->|Hne]; [by rewrite lookup_alter_eq, Hr|].
    rewrite lookup_alter_ne by done. rewrite lookup_insert_ne in Hq by done. apply Hrc.
    destruct Hq as [?|[[->%elem_of_singleton|?]%elem_of_union|?]]; [auto|done|auto..].
  - intros q. destruct (decide (q = r)) as [->|Hne]; [intros _; apply Hn; by rewrite Hr|].
    rewrite lookup_alter_ne by done. apply Hn.
  - intros l Hloop. destruct (Hl l Hloop) as [Hb Hz]. split; [done|]. intros q Hq.
    destruct (decide (q = r)) as [->|Hne]; [by rewrite lookup_alter_eq, Hr|]. rewrite lookup_alter_ne by done. by apply Hz.
Qed.

Lemma vexec_vinv ev y o y' : vinv y → vexec ev y = Some (o, y') → vinv y'.
Proof.
  intros Hi. pose proof Hi as [Ho Hrc Hn Hl]. destruct ev as [a outcome|r|r outcome| |]; simpl.
  - destruct (client_answers _ a); [|done]. destruct (open_stream a outcome (vs_backend y)) as [x s'] eqn:Hop.
    intros [= _ <-]. by eapply open_stream_vinv.
  - destruct (vl_streams (vs_backend y) !! r) as [b|] eqn:Hs; [|done].
    destruct (aclose_begin_vinv y r (vs_loop y)) as (started & s' & -> & Hi'); [done| |by intros [= _ <-]].
    intros l Hloop. destruct (Hl l Hloop). split; auto.
  - case_bool_decide as Hin; [|done].
    assert (Hend : ∀ loop, (∀ l, loop = Some l → ∃ l', vs_loop y = Some l' ∧ cl_left l = cl_left l' ∧ cl_before l = cl_before l') →
      vinv (VSystem (up_streams_active (λ a, a ∖ {[r]}) (vs_backend y)) (vs_closing y ∖ {[r]}) loop)).
    { intros loop Hloop. constructor; simpl.
      - intros q n Hq%Ho. unfold owned in *. simpl in *.
        destruct (vl_streams (vs_backend y) !! q) as [[]|]; set_solver.
      - intros q Hq. apply Hrc. destruct Hq as [[? _]%elem_of_difference|[[? _]%elem_of_difference|?]]; auto.
      - exact Hn.
      - intros l (l' & Hl' & -> & ->)%Hloop. by apply Hl. }
    unfold aclose_end, bind, modify, raise, ret. destruct outcome as [e|]; intros [= _ <-]; apply Hend;
      intros l; destruct (close_waits y r); try done; try (by eauto).
    destruct (vs_loop y) as [l'|]; [|done]. intros [= <-]. by exists l'.
  - destruct (vs_loop y) as [?|] eqn:Hloop; [done|]. intros [= _ <-]. constructor; simpl; [exact Ho|done|done|].
    intros l [= <-]. simpl. split; [done|]. intros r _ Hr. apply elem_of_elements.
    specialize (Ho _ _ Hr). unfold owned in Ho. destruct (vl_streams _ !! r) as [[]|]; by destruct Ho as (? & ? & ?) || destruct Ho.
  - destruct (vs_loop y) as [[[|r rest] [?|] before]|] eqn:Hloop; try done.
    + intros [= _ <-]. by constructor.
    + destruct (Hl _ eq_refl) as [Hb Hz].
      destruct (aclose_begin_vinv y r (Some (CloseLoop rest None before))) as (started & s' & -> & Hi'); [done| |].
      { intros l [= <-]. split; [done|]. intros q Hq Hne Hq0. specialize (Hz q Hq Hq0). simpl in *.
        apply elem_of_cons in Hz as [?|?]; done. }
      intros [= _ <-]. destruct Hi' as [Ho' Hrc' Hn' Hl']. constructor; [exact Ho'|exact Hrc'|exact Hn'|].
      intros l [= <-]. by apply (Hl' (CloseLoop rest None before)).
Qed.

Lemma vreachable_vinv y : vreachable y → vinv y.
Proof.
  induction 1 as [|y ev o y' _ IH Hex]; [|by eapply vexec_vinv].
  constructor; simpl; try done; [intros r [?|[?|[? ?]]]|intros r [? ?]]; set_solver.
Qed.

(** C29: No streaming response is lost and none is closed twice: every response the
    client ever returned is open with its stream registered, or its [aclose] was
    called exactly once; closing the client comes after every response received
    before [close] began was closed. *)
Theorem stream_ownership y :
  vreachable y →
  (∀ r n, vl_responses (vs_backend y) !! r = Some n →
     n = 1%nat ∨ n = 0%nat ∧ r ∈ vl_active (vs_backend y) ∧ vl_streams (vs_backend y) !! r = Some false) ∧
  (∀ before, vs_loop y = Some (CloseLoop [] None before) →
     ∃ y', vexec VCloseStep y = Some (inr (), y') ∧ vl_closed (vs_backend y') = true ∧
       ∀ r n, (r < before)%nat → vl_responses (vs_backend y') !! r = Some n → n = 1%nat).
Proof.
  intros Hr. destruct (vreachable_vinv _ Hr) as [Ho _ _ Hl].
  assert (Hone : ∀ r n, vl_responses (vs_backend y) !! r = Some n →
     n = 1%nat ∨ n = 0%nat ∧ r ∈ vl_active (vs_backend y) ∧ vl_streams (vs_backend y) !! r = Some false).
  { intros r n Hn%Ho. unfold owned in Hn. destruct (vl_streams _ !! r) as [[]|]; [left|right|left]; tauto. }
  split; [done|]. intros before Hloop. simpl. rewrite Hloop. eexists. split; [done|]. split; [done|].
  simpl. intros r n Hb Hn. destruct (Hone r n Hn) as [?|(-> & _)]; [done|].
  destruct (Hl _ Hloop) as [_ Hz]. by apply Hz, elem_of_nil in Hb.
Qed.

(** ** A run: one stream, closed by [close] *)

Definition demo_open : vevent :=
  VOpen (inr (HttpResponse 200 (Some "Text/Event-Stream; charset=utf-8"%py) (inl ValueError))) None.
Definition vstep (y : vsystem) (ev : vevent) : vsystem :=
  match vexec ev y with Some (_, y') => y' | None => y end.
Definition demo_drained : vsystem :=
  foldl vstep (VSystem vllm_init ∅ None) [demo_open; VClose; VCloseStep; VAclosed 0 None].

Lemma vsteps_reachable evs y : vreachable y → vreachable (foldl vstep y evs).
Proof.
  revert y. induction evs as [|ev evs IH]; intros y Hy; [done|]. apply IH. unfold vstep.
  destruct (vexec ev y) as [[o y']|] eqn:He; [|done]. by eapply vreachable_step.
Qed.

Lemma demo_drained_reachable : vreachable demo_drained.
Proof. apply vsteps_reachable. constructor. Qed.

Lemma stream_ownership_witness :
  ∃ y', vexec VCloseStep demo_drained = Some (inr (), y') ∧ vl_closed (vs_backend y') = true ∧
    vl_responses (vs_backend y') !! 0%nat = Some 1%nat.
Proof.
  destruct (stream_ownership demo_drained demo_drained_reachable) as [Hall Hclose].
  destruct (Hclose 1%nat eq_refl) as (y' & Hex & Hcl & Hone). exists y'. split; [exact Hex|]. split; [exact Hcl|].
  destruct (vl_responses (vs_backend y') !! 0%nat) as [n|] eqn:Hn.
  - by rewrite (Hone 0%nat n (Nat.lt_0_succ 0) Hn).
  - vm_compute in Hex. injection Hex as <-. discriminate Hn.
Defined.
