(* ===== verification/BatchedRequests.v ===== *)
(** The batcher over the vLLM backend: every dispatched batch is accepted by
    [generate_batch] and sent as its members would send themselves, and each member
    gets back its own choice.  ([BackendPool.generate_batch] between the two passes
    requests and answers through.) *)
From Stdlib Require Import SpecFloat.
From S2P Require Import Prelude.
From S2P Require Import Python.
From S2P Require Import Json.
From S2P Require Import PlainFloats.
From S2P Require Import Errors.
From S2P Require Import Chat.
From S2P Require Import Compatibility.
From S2P Require Import Batching.
From S2P Require Import BatchingInv.
From S2P Require Import BatchingSystem.
From S2P Require Import BatchingTheorems.
From S2P Require Import Vllm.
From S2P Require Import VllmTheorems.

(** * Equality of payloads *)

Lemma py_eq_dict d e :
  length d = length e →
  (∀ k x, (k, x) ∈ d → ∃ y, dict_get e k = Some y ∧ py_eq x y = true) →
  py_eq (VDict d) (VDict e) = true.
Proof.
  intros Hlen Hd. cbn [py_eq]. rewrite bool_decide_true by done. cbn [andb]. clear Hlen.
  induction d as [|[k x] d IH]; [done|]. destruct (Hd k x) as (y & -> & ->); [by left|].
  apply IH. intros k' x' Hin. apply Hd. by right.
Qed.

Lemma py_eq_strings l : py_eq (VList (VStr <$> l)) (VList (VStr <$> l)) = true.
Proof.
  induction l as [|s l IH]; [done|]. cbn [py_eq fmap list_fmap] in *.
  rewrite bool_decide_true by done. done.
Qed.

Lemma SFeqb_refl f : is_finite f = true → SFeqb f f = true.
Proof.
  destruct f as [[]| | |[] m e]; try done; intros _; unfold SFeqb; simpl;
    by rewrite Z.compare_refl, Pcompare_refl.
Qed.

(** The outcome of a backend's [generate_batch] as the batcher sees it. *)
Definition batch_answer_of (r : exn + backend_batch_result) : exn + batch_answer :=
  match r with inl e => inl e | inr r => inr (ABatch r) end.

Section batched.
Context `{FloatRepr, ModelDump}.

Lemma py_eq_supplied r fd v :
  request_valid r = true → fd ∉ batch_dropped → supplied r fd = Some v → py_eq v v = true.
Proof.
  intros Hr Hfd Hs. destruct (supplied_flat _ _ _ Hr Hfd Hs) as [_ Hfin].
  unfold supplied in Hs. case_bool_decide; [|done].
  destruct fd; simpl in Hs; try (destruct Hfd; set_solver).
  - injection Hs as <-. apply bool_decide_true. done.
  - injection Hs as <-. by apply SFeqb_refl.
  - injection Hs as <-. by apply SFeqb_refl.
  - destruct (cr_max_tokens r); [|done]. injection Hs as <-. apply Z.eqb_refl.
  - destruct (cr_stop r) as [[s|l]|]; [..|done]; injection Hs as <-;
      [by apply bool_decide_true|apply py_eq_strings].
  - destruct (cr_seed r); [|done]. injection Hs as <-. apply Z.eqb_refl.
Qed.

(** Requests that agree on the shared fields pass the compatibility check. *)
Lemma shared_payload_eq r r' :
  request_valid r = true → (∀ fd, fd ∉ batch_dropped → supplied r fd = supplied r' fd) →
  py_eq (VDict (to_batch_shared_payload r)) (VDict (to_batch_shared_payload r')) = true.
Proof.
  intros Hr Heq.
  assert (Hget : ∀ k, dict_get (to_batch_shared_payload r) k = dict_get (to_batch_shared_payload r') k).
  { intros k. apply option_eq. intros v.
    split; intros Hk; destruct (shared_only _ _ _ Hk) as [fd ->]; rewrite shared_field in *;
      case_decide; try done; by rewrite Heq in *. }
  apply py_eq_dict.
  - apply Permutation_length, dict_permutation; [apply shared_keys..|done].
  - intros k x Hin. apply dict_get_in in Hin; [|apply shared_keys]. exists x.
    split; [by rewrite <- Hget|]. destruct (shared_only _ _ _ Hin) as [fd ->].
    rewrite shared_field in Hin. case_decide; [done|]. by eapply py_eq_supplied.
Qed.

Lemma upstream_messages r :
  request_valid r = true →
  dict_get (to_upstream_payload r) "messages"%py = Some (VList (message_value <$> cr_messages r)).
Proof.
  unfold request_valid, required_fields. rewrite !andb_true_iff. intros (((([_ [_ Hm]] & _) & _) & _) & _).
  unfold to_upstream_payload. rewrite (model_dump_field r FMessages). unfold supplied. by rewrite Hm.
Qed.

Lemma batch_messages_ok rs :
  Forall (λ r, request_valid r = true) rs →
  batch_messages rs = inr ((λ r, VList (message_value <$> cr_messages r)) <$> rs).
Proof.
  induction 1 as [|r rs Hr _ IH]; simpl; [done|]. by rewrite upstream_messages, IH.
Qed.

Lemma eligible_single r :
  request_valid r = true → eligible (batching_eligibility r true) = true →
  cr_stream r || negb (cr_n r =? 1) = false.
Proof.
  unfold request_valid, field_constraints. rewrite !andb_true_iff.
  intros ((((([_ Hn%Z.ltb_lt] & _) & _) & _) & _) & _). unfold batching_eligibility. simpl.
  destruct (cr_stream r); [done|]. destruct (1 <? cr_n r) eqn:H1; [done|]. intros _.
  apply Z.ltb_ge in H1. simpl. apply negb_false_iff, Z.eqb_eq. lia.
Qed.

(** Members of one batch. *)
Definition batchable (rs : list chat_request) : Prop :=
  Forall (λ r, request_valid r = true ∧ eligible (batching_eligibility r true) = true) rs ∧
  ∀ r r' fd, r ∈ rs → r' ∈ rs → fd ∉ batch_dropped → supplied r fd = supplied r' fd.

Lemma batch_payload_ok rs first rest :
  batchable rs → rs = first :: rest →
  batch_payload (IsChat <$> rs) = inr (dict_set (to_batch_shared_payload first) "messages"%py
    (VList ((λ r, VList (message_value <$> cr_messages r)) <$> rs))).
Proof.
  intros [Hall Heq] Hrs. assert (Hm : mapM as_chat (IsChat <$> rs) = Some rs).
  { apply mapM_Some. clear. induction rs; constructor; done. }
  unfold batch_payload. rewrite Hm. rewrite Forall_forall in Hall. subst rs.
  destruct (existsb _ (first :: rest)) eqn:Hx.
  { apply existsb_exists in Hx as (r & Hin%list_elem_of_In & Hr). destruct (Hall r Hin).
    by rewrite eligible_single in Hr. }
  destruct (existsb _ rest) eqn:Hy.
  { apply existsb_exists in Hy as (r & Hin%list_elem_of_In & Hr). destruct (Hall r) as [Hv _]; [by right|].
    rewrite shared_payload_eq in Hr; [done|done|]. intros fd. apply Heq; [by right|by left]. }
  rewrite batch_messages_ok; [done|]. apply Forall_forall. intros r Hin. by destruct (Hall r Hin).
Qed.

(** ** Dispatched batches *)

Variable clock : nat → Z.

Lemma flush_requests ms mw ob b0 y f fl :
  batcher_init ms mw ob = inr b0 → breachable clock b0 y → b_flushes (y_batcher y) !! f = Some fl →
  ∃ first rest, requests_of (y_batcher y) (fl_items fl) = first :: rest ∧
    batchable (first :: rest) ∧ length (first :: rest) = length (fl_items fl) ∧
    ∀ n i it, fl_items fl !! n = Some i → b_items (y_batcher y) !! i = Some it →
      (first :: rest) !! n = Some (it_request it).
Proof.
  intros Hinit Hr Hf. destruct (flush_members _ _ _ _ _ _ _ _ Hinit Hr Hf) as (Hne & _ & t & Ht).
  set (l := fl_items fl) in *. set (req := λ i, it_request <$> b_items (y_batcher y) !! i).
  assert (Hreq : ∀ i, i ∈ l → ∃ it, b_items (y_batcher y) !! i = Some it ∧ req i = Some (it_request it)).
  { intros i Hin. destruct (Ht i Hin) as (it & Hit & _). exists it. unfold req. by rewrite Hit. }
  assert (Hmap : Some <$> omap req l = req <$> l).
  { clear Hne Ht. induction l as [|i l IH]; [done|]. destruct (Hreq i) as (it & _ & Hi); [by left|].
    simpl. rewrite Hi. simpl. f_equal. apply IH. intros j Hj. apply Hreq. by right. }
  assert (Hlen : length (omap req l) = length l).
  { apply (f_equal length) in Hmap. by rewrite !length_fmap in Hmap. }
  assert (Hat : ∀ n i it, l !! n = Some i → b_items (y_batcher y) !! i = Some it →
    omap req l !! n = Some (it_request it)).
  { intros n i it Hn Hit. apply (f_equal (λ k, k !! n)) in Hmap. rewrite !list_lookup_fmap, Hn in Hmap. simpl in Hmap.
    unfold req at 2 in Hmap. rewrite Hit in Hmap. simpl in Hmap.
    destruct (omap req l !! n); simpl in Hmap; congruence. }
  assert (Hin : ∀ r, r ∈ omap req l → ∃ i it, i ∈ l ∧ b_items (y_batcher y) !! i = Some it ∧ r = it_request it).
  { intros r (i & Hi & Hri)%list_elem_of_omap. destruct (Hreq i Hi) as (it & Hit & Hit'). exists i, it.
    split_and!; [done|done|congruence]. }
  unfold requests_of. fold req. assert (Hb : batchable (omap req l)).
  { split.
    - apply Forall_forall. intros r (i & it & Hi & Hit & ->)%Hin. destruct (Ht i Hi) as (it' & Hit' & _ & ? & ? & _).
      assert (it' = it) as -> by congruence. done.
    - intros r r' fd (i & it & Hi & Hit & ->)%Hin (j & jt & Hj & Hjt & ->)%Hin Hfd.
      destruct (Ht i Hi) as (it' & Hit' & _ & _ & _ & Hs). assert (it' = it) as -> by congruence. by eapply Hs. }
  destruct (omap req l) as [|first rest]; [by destruct l|]. exists first, rest. by split_and!.
Qed.

(** C26: A batch is sent exactly as its members would send themselves: [generate_batch]
    accepts the requests of every flush that can occur and posts one object whose
    [messages] are the members' messages in order, whose other fields have the
    value every single member would send alone, and which has no further field. *)
Theorem batch_request_faithful ms mw ob b0 y f fl :
  batcher_init ms mw ob = inr b0 → breachable clock b0 y → b_flushes (y_batcher y) !! f = Some fl →
  let rs := requests_of (y_batcher y) (fl_items fl) in
  length rs = length (fl_items fl) ∧
  ∃ payload, batch_payload (IsChat <$> rs) = inr payload ∧
    dict_get payload "messages"%py = Some (VList ((λ r, VList (message_value <$> cr_messages r)) <$> rs)) ∧
    (∀ r fd, r ∈ rs → fd ∉ batch_dropped →
       dict_get payload (field_name fd) = dict_get (to_upstream_payload r) (field_name fd)) ∧
    (∀ k, dict_has payload k = true → k = "messages"%py ∨ ∃ fd, (fd ∉ batch_dropped) ∧ k = field_name fd).
Proof.
  intros Hinit Hr Hf rs. destruct (flush_requests _ _ _ _ _ _ _ Hinit Hr Hf) as (first & rest & Hrs & Hb & Hlen & _).
  unfold rs. rewrite Hrs. split; [done|]. eexists. split; [by eapply batch_payload_ok|]. destruct Hb as [_ Heq].
  split_and!.
  - by rewrite dict_get_set, decide_True.
  - intros r fd Hin Hfd. rewrite dict_get_set, decide_False.
    + rewrite shared_field, decide_False by done. unfold to_upstream_payload. rewrite model_dump_field.
      apply Heq; [by left|done|done].
    + intros Hk. change "messages"%py with (field_name FMessages) in Hk. apply field_name_inj in Hk as ->.
      apply Hfd. left.
  - intros k. unfold dict_has. rewrite dict_get_set. case_decide as Hk; [by left|].
    destruct (dict_get _ k) as [v|] eqn:Hg; [|done]. intros _. right.
    destruct (shared_only _ _ _ Hg) as [fd ->]. exists fd. split; [|done]. intros Hfd.
    by rewrite shared_field, decide_True in Hg.
Qed.

(** C8: From the submissions to the answers: when the server answers the batch of a
    running flush with status 200 to 299 and the members' choices tagged with their
    positions, in any order, every member that was not cancelled gets the response
    made of its own choice, whatever the other members are. *)
Theorem batch_end_to_end ms mw ob b0 y f fl post rsp answer cs choices o y' n i it choice :
  batcher_init ms mw ob = inr b0 → breachable clock b0 y → b_flushes (y_batcher y) !! f = Some fl →
  (∀ payload, post "v1/chat/completions/batch"%py payload = inr rsp) →
  200 ≤ rs_status rsp < 300 → rs_json rsp = inr (VDict answer) →
  dict_get answer "choices"%py = Some (VList cs) → length choices = length (fl_items fl) →
  cs ≡ₚ imap (λ i c, VDict (dict_set c "index"%py (VInt (Z.of_nat i)))) choices →
  bexec clock (BvAnswer f (batch_answer_of (vllm_generate_batch post
    (IsChat <$> requests_of (y_batcher y) (fl_items fl))))) y = Some (o, y') →
  fl_items fl !! n = Some i → b_items (y_batcher y) !! i = Some it → it_state it ≠ ItemCancelled →
  choices !! n = Some choice →
  ∃ it', b_items (y_batcher y') !! i = Some it' ∧
    it_future it' = FResult (member_response (safe_batch_fields answer) choice).
Proof.
  intros Hinit Hr Hf Hpost Hst Hjson Hcs Hlen Hp Hex Hn Hit Hnc Hch.
  destruct (flush_requests _ _ _ _ _ _ _ Hinit Hr Hf) as (first & rest & Hrs & Hb & Hlr & _).
  assert (Hres : vllm_generate_batch post (IsChat <$> requests_of (y_batcher y) (fl_items fl)) =
    inr (BackendBatchResult (member_response (safe_batch_fields answer) <$> choices)
           (batch_usage answer).1 (batch_usage answer).2)).
  { unfold vllm_generate_batch. rewrite Hrs. erewrite batch_payload_ok by done. cbn [sum_bind].
    rewrite Hpost. unfold object_of_answer, raise_for_upstream_status, response_object. simpl.
    rewrite (proj2 (Z.leb_le _ _)), (proj2 (Z.ltb_lt _ _)) by lia. simpl. rewrite Hjson. simpl.
    rewrite length_fmap. change (S (length rest)) with (length (first :: rest)). rewrite Hlr, <- Hlen.
    eapply demultiplex_tagged; [done|]. rewrite Hp. unfold tagged. by rewrite fmap_imap. }
  rewrite Hres in Hex. destruct (flush_outcome _ _ _ _ _ _ _ _ _ _ _ _ _ _ Hinit Hr Hf Hex Hn Hit) as (it' & Hit' & Hout).
  exists it'. split; [done|]. rewrite decide_False in Hout by done. cbn [batch_answer_of br_responses] in Hout.
  rewrite length_fmap, decide_True in Hout by done. destruct Hout as (response & Hre & ->).
  rewrite list_lookup_fmap, Hch in Hre. by injection Hre as <-.
Qed.
End batched.

(** ** Witnesses *)

#[local] Existing Instance plain_floats.
#[local] Existing Instance plain_model_dump.

Lemma shared_model : FModel ∉ batch_dropped.
Proof. by apply (bool_decide_unpack _). Qed.
Lemma shared_stop : FStop ∉ batch_dropped.
Proof. by apply (bool_decide_unpack _). Qed.

Lemma batch_request_faithful_witness :
  ∃ payload, batch_payload (IsChat <$> requests_of (y_batcher (bdemo full_events)) [0; 2]%nat) = inr payload ∧
    dict_get payload "model"%py = Some (VStr "m") ∧
    dict_get payload "stop"%py = Some (VStr "x").
Proof.
  destruct (b_flushes (y_batcher (bdemo full_events)) !! 3%nat) as [fl|] eqn:Hf; [|vm_compute in Hf; discriminate Hf].
  pose proof (batch_request_faithful _ _ _ _ _ _ _ _ demo_batcher_init full_reachable Hf)
    as (_ & payload & Hp & _ & Hfield & _).
  assert (Hl : fl_items fl = [0; 2]%nat) by (vm_compute in Hf; injection Hf as <-; reflexivity).
  rewrite Hl in Hp, Hfield. exists payload. split; [exact Hp|].
  assert (Hin : demo_request "one" None ∈ requests_of (y_batcher (bdemo full_events)) [0; 2]%nat)
    by (vm_compute; left).
  split.
  - refine (eq_trans (Hfield _ FModel Hin shared_model) eq_refl).
  - refine (eq_trans (Hfield _ FStop Hin shared_stop) eq_refl).
Defined.

Definition demo_post (path : pystr) (payload : pydict) : http_answer :=
  inr (HttpResponse 200 (Some "application/json"%py)
    (inr (VDict [("id"%py, VStr "batch");
                 ("choices"%py, VList [VDict [("text"%py, VStr "second"); ("index"%py, VInt 1)];
                                       VDict [("text"%py, VStr "first"); ("index"%py, VInt 0)]])]))).
Definition demo_choices : list pydict := [[("text"%py, VStr "first")]; [("text"%py, VStr "second")]].

Lemma demo_status : 200 ≤ 200 < 300.
Proof. lia. Qed.

Lemma batch_end_to_end_witness :
  ∃ o y' it', bexec demo_clock (BvAnswer 3 (batch_answer_of (vllm_generate_batch demo_post
      (IsChat <$> requests_of (y_batcher (bdemo (full_events ++ [BvStart 3]))) [0; 2]%nat))))
      (bdemo (full_events ++ [BvStart 3])) = Some (o, y') ∧
    b_items (y_batcher y') !! 2%nat = Some it' ∧
    it_future it' = FResult [("id", VStr "batch");
      ("choices", VList [VDict [("text", VStr "second"); ("index", VInt 0)]])]%py.
Proof.
  set (y := bdemo (full_events ++ [BvStart 3])).
  destruct (bexec demo_clock _ y) as [[o y']|] eqn:Hex; [|vm_compute in Hex; discriminate Hex].
  destruct (b_flushes (y_batcher y) !! 3%nat) as [fl|] eqn:Hf; [|vm_compute in Hf; discriminate Hf].
  destruct (b_items (y_batcher y) !! 2%nat) as [it|] eqn:Hit; [|vm_compute in Hit; discriminate Hit].
  assert (Hl : fl_items fl = [0; 2]%nat) by (vm_compute in Hf; injection Hf as <-; reflexivity).
  assert (Hst : it_state it ≠ ItemCancelled) by (vm_compute in Hit; injection Hit as <-; discriminate).
  rewrite <- Hl in Hex.
  assert (Hlen : length demo_choices = length (fl_items fl)) by (rewrite Hl; reflexivity).
  assert (Hn : fl_items fl !! 1%nat = Some 2%nat) by (rewrite Hl; reflexivity).
  destruct (batch_end_to_end demo_clock _ _ _ _ _ _ _ demo_post _ _ _ demo_choices _ _ 1 2 it _
              demo_batcher_init started_reachable Hf (λ _, eq_refl) demo_status eq_refl eq_refl Hlen
              (Permutation_swap _ _ _) Hex Hn Hit Hst eq_refl) as (it' & Hit' & Hout).
  exists o, y', it'. split; [reflexivity|]. split; [exact Hit'|]. rewrite Hout. reflexivity.
Defined.
