(* ===== verification/Backends.v ===== *)
(** gateway/backends/base.py and gateway/backends/fake.py: what the batcher expects
    of a backend's [generate_batch], as an interface; the batcher proved against it;
    and the two implementations, the vLLM backend and the fake one. *)
From Stdlib Require Import SpecFloat.
From S2P Require Import Prelude.
From S2P Require Import Python.
From S2P Require Import Json.
From S2P Require Import PlainFloats.
From S2P Require Import Errors.
From S2P Require Import Chat.
From S2P Require Import Compatibility.
From S2P Require Import Batching.
From S2P Require Import BatchingInv.
From S2P Require Import BatchingOps.
From S2P Require Import BatchingSystem.
From S2P Require Import BatchingTheorems.
From S2P Require Import Vllm.
From S2P Require Import VllmTheorems.
From S2P Require Import BatchedRequests.

(** * The interface

    [InferenceBackend.generate_batch] returns demultiplexed member responses: for
    requests that may be batched, one response per request, in order, each of which
    answers its own request.  What it is to answer a request is the backend's. *)
Class BatchBackend (generate_batch : list chat_request → exn + backend_batch_result)
    (answers : chat_request → pydict → Prop) : Prop :=
  batch_contract rs res :
    batchable rs → generate_batch rs = inr res → Forall2 answers rs (br_responses res).

Section client.
Context `{FloatRepr, ModelDump}.
Context (generate_batch : list chat_request → exn + backend_batch_result).
Context (answers : chat_request → pydict → Prop) `{!BatchBackend generate_batch answers}.
Variable clock : nat → Z.

(** C9: The batcher over any backend that keeps the contract: a batch it dispatches and
    the backend answers gives every member that was not cancelled a response that
    answers its own request, never the one of another member and never a protocol
    error; an exception of the backend reaches every member as it is, and its
    cancellation as unavailability. *)
Theorem batcher_over_backend ms mw ob b0 y f fl o y' n i it :
  let answer := generate_batch (requests_of (y_batcher y) (fl_items fl)) in
  batcher_init ms mw ob = inr b0 → breachable clock b0 y → b_flushes (y_batcher y) !! f = Some fl →
  bexec clock (BvAnswer f (batch_answer_of answer)) y = Some (o, y') →
  fl_items fl !! n = Some i → b_items (y_batcher y) !! i = Some it → it_state it ≠ ItemCancelled →
  ∃ it', b_items (y_batcher y') !! i = Some it' ∧
    match answer with
    | inr _ => ∃ response, it_future it' = FResult response ∧ answers (it_request it) response
    | inl e => it_future it' = FException (failure (inl e))
    end.
Proof.
  intros answer Hinit Hr Hf Hex Hn Hit Hnc.
  destruct (flush_requests _ _ _ _ _ _ _ _ Hinit Hr Hf) as (first & rest & Hrs & Hb & Hlr & Hreq).
  destruct (flush_outcome _ _ _ _ _ _ _ _ _ _ _ _ _ _ Hinit Hr Hf Hex Hn Hit) as (it' & Hit' & Hout).
  exists it'. split; [done|]. rewrite decide_False in Hout by done.
  destruct answer as [e|res] eqn:Ha; [done|]. subst answer. rewrite Hrs in Ha.
  apply batch_contract in Ha; [|done]. cbn [batch_answer_of] in Hout.
  rewrite decide_True in Hout by (rewrite <- Hlr; symmetry; by eapply Forall2_length).
  destruct Hout as (response & Hre & ->). exists response. split; [done|].
  eapply Forall2_lookup_lr; [exact Ha| |exact Hre]. by eapply Hreq.
Qed.
End client.

(** * The vLLM backend *)

(** What vLLM documents of its batch endpoint: the choice of an answer that carries
    the index [i] is one for the [i]-th conversation under the common fields.  [served
    m fields c]: [c] is a choice for the messages [m] under [fields]; the order of an
    object's members says nothing. *)
Record honest_server (post : pystr → pydict → http_answer) (served : pyval → pydict → pydict → Prop) : Prop := {
  served_fields m d d' c : (∀ k, dict_get d k = dict_get d' k) → served m d c → served m d' c;
  server_honest payload rsp answer ms cs m c (i : nat) :
    post "v1/chat/completions/batch"%py payload = inr rsp → 200 ≤ rs_status rsp < 300 →
    rs_json rsp = inr (VDict answer) →
    dict_get payload "messages"%py = Some (VList ms) → ms !! i = Some m →
    dict_get answer "choices"%py = Some (VList cs) → VDict c ∈ cs → carries (Z.of_nat i) c →
    served m (dict_pop payload "messages"%py) c;
}.

(** A response made of a choice for the request's own messages and fields. *)
Definition vllm_answers `{ModelDump} (served : pyval → pydict → pydict → Prop) (r : chat_request)
    (response : pydict) : Prop :=
  ∃ safe c, response = member_response safe c ∧
    served (VList (message_value <$> cr_messages r)) (to_batch_shared_payload r) c.

Lemma object_of_answer_ok a d : object_of_answer a = inr d →
  ∃ rsp, a = inr rsp ∧ 200 ≤ rs_status rsp < 300 ∧ rs_json rsp = inr (VDict d).
Proof.
  unfold object_of_answer, client_result. destruct a as [e|rsp]; [done|]. cbn [sum_bind].
  pose proof (raise_for_status_cases (rs_status rsp)) as Hst.
  destruct (raise_for_upstream_status (rs_status rsp)) as [|[]]; [done|]. cbn [sum_bind].
  unfold response_object. destruct (rs_json rsp) as [e|v] eqn:Hj; [by destruct e|].
  destruct v; try done. intros [= <-]. by exists rsp.
Qed.

Lemma fmap_lookup_Some {A B} (g : A → B) (l : list A) (i : nat) x : l !! i = Some x → (g <$> l) !! i = Some (g x).
Proof. intros Hx. by rewrite list_lookup_fmap, Hx. Qed.

(** The shared fields of one member are those of another. *)
Lemma shared_get `{ModelDump} rs r r' k : batchable rs → r ∈ rs → r' ∈ rs →
  dict_get (to_batch_shared_payload r) k = dict_get (to_batch_shared_payload r') k.
Proof.
  intros [_ Heq] Hr Hr'. apply option_eq. intros v.
  split; intros Hk; destruct (shared_only _ _ _ Hk) as [fd ->]; rewrite shared_field in *;
    case_decide; try done; by (rewrite (Heq r r') || rewrite (Heq r' r)).
Qed.

Lemma indexed_choice (n : nat) cs l (i : nat) :
  indexed_by (Z.of_nat n) cs l → length cs = n → (i < n)%nat →
  ∃ c, (Z.of_nat i, c) ∈ l ∧ VDict c ∈ cs ∧ carries (Z.of_nat i) c.
Proof.
  intros (-> & Hnd & Hl) Hlen Hi. rewrite length_fmap in Hlen.
  assert (Hp : l.*1 ≡ₚ seqZ 0 (Z.of_nat n)).
  { apply all_indices; [done| |by rewrite length_fmap].
    apply Forall_fmap. eapply Forall_impl; [exact Hl|]. intros ? [_ ?]. done. }
  assert (Hin : Z.of_nat i ∈ l.*1) by (rewrite Hp; apply elem_of_seqZ; lia).
  apply list_elem_of_fmap in Hin as ([j c] & -> & Hin). exists c. split_and!; [done| |].
  - apply list_elem_of_fmap. by exists (j, c).
  - rewrite Forall_forall in Hl. by destruct (Hl _ Hin).
Qed.

#[export] Instance vllm_batch_backend `{ModelDump} post served :
  honest_server post served →
  BatchBackend (λ rs, vllm_generate_batch post (IsChat <$> rs)) (vllm_answers served).
Proof.
  intros Hserver rs res Hb. destruct rs as [|first rest] eqn:Hrs; [done|]. rewrite <- Hrs in *.
  unfold vllm_generate_batch. rewrite (batch_payload_ok rs first rest) by done. cbn [sum_bind].
  destruct (object_of_answer _) as [e|answer] eqn:Ho; [done|]. cbn [sum_bind]. rewrite length_fmap.
  apply object_of_answer_ok in Ho as (rsp & Hpost & Hst & Hjson).
  pose proof (demultiplex_cases answer (length rs)) as Hd. intros Hres. rewrite Hres in Hd.
  destruct Hd as (Hlen & _ & cs & l & Hcs & Hlcs & Hl & Hresp).
  apply Forall2_same_length_lookup_2; [done|]. intros i r response Hr Hre.
  destruct (indexed_choice (length rs) cs l i) as (c & Hin & Hc & Hi); [done..|by eapply lookup_lt_Some|].
  apply Hresp in Hin. rewrite Nat2Z.id, Hre in Hin. injection Hin as ->.
  exists (safe_batch_fields answer), c. split; [done|].
  eapply served_fields; [done| |].
  2: { eapply (server_honest _ _ Hserver _ _ _ _ cs _ c i Hpost Hst Hjson); [|exact (fmap_lookup_Some (λ r, VList (message_value <$> cr_messages r)) _ _ _ Hr)|done..].
       by rewrite dict_get_set, decide_True. }
  intros k. rewrite dict_get_pop, dict_get_set.
  assert (Hin1 : first ∈ rs) by (rewrite Hrs; left).
  assert (Hin2 : r ∈ rs) by by eapply list_elem_of_lookup_2.
  case_decide as Hk; [|by eapply shared_get]. subst k.
  rewrite (shared_field r FMessages). by rewrite decide_True by left.
Qed.

(** An honest server exists: one that echoes the conversations, in reverse order. *)
Definition echo_choice (i : nat) (m : pyval) : pyval := VDict [("index", VInt (Z.of_nat i)); ("echo", m)]%py.
Definition echo_post (path : pystr) (payload : pydict) : http_answer :=
  match dict_get payload "messages"%py with
  | Some (VList ms) =>
      inr (HttpResponse 200 None (inr (VDict [("choices"%py, VList (reverse (imap echo_choice ms)))])))
  | _ => inr (HttpResponse 400 None (inl ValueError))
  end.

Lemma echo_honest : honest_server echo_post (λ m _ c, dict_get c "echo"%py = Some m).
Proof.
  split; [done|]. intros payload rsp answer ms cs m c i. unfold echo_post. intros Hp _ Hj Hms Hm Hcs Hc Hi.
  rewrite Hms in Hp. injection Hp as <-. injection Hj as <-. injection Hcs as <-.
  rewrite elem_of_reverse, list_elem_of_lookup in Hc. destruct Hc as [j Hj].
  rewrite list_lookup_imap in Hj. destruct (ms !! j) as [m'|] eqn:Hm'; [|done]. injection Hj as <-.
  injection Hi as Hij. assert (j = i) as -> by lia. rewrite Hm in Hm'. by injection Hm' as ->.
Qed.

(** * The fake backend *)

(** [FakeBackend] with the [FakeBackendStream]s it opened: a stream is named by its
    number, and [fk_streams] says of each whether it is closed. *)
Record fake_backend := FakeBackend {
  fk_prefix : pystr;
  fk_chunks : list (list N);
  fk_closed : bool;
  fk_last_stream : option nat;
  fk_streams : list bool;
}.

(** [f"{self.prefix} response"], and [generate] of a chat request. *)
Definition fake_content (prefix : pystr) : pystr := PyStr (codes prefix ++ codes " response"%py).
Definition fake_choice (prefix : pystr) (index : nat) : pyval :=
  VDict [("index", VInt (Z.of_nat index));
         ("message", VDict [("role", VStr "assistant"); ("content", VStr (fake_content prefix))]);
         ("finish_reason", VStr "stop")]%py.
Definition fake_generate (fk : fake_backend) (r : chat_request) : pydict :=
  [("id", VStr "chatcmpl-fake"); ("object", VStr "chat.completion"); ("created", VInt 0);
   ("model", VStr (cr_model r));
   ("choices", VList (fake_choice (fk_prefix fk) <$> seq 0 (Z.to_nat (cr_n r))));
   ("usage", VDict [("prompt_tokens", VInt 0); ("completion_tokens", VInt 0); ("total_tokens", VInt 0)])]%py.

Definition fake_generate_batch (fk : fake_backend) (requests : list chat_request) : backend_batch_result :=
  BackendBatchResult ((λ r, dict_pop (fake_generate fk r) "usage"%py) <$> requests) (Some 0) UObserved.

(** [FakeBackendStream.aclose], [FakeBackend.stream] and one [__anext__] of an iterator
    of stream [i] with [rest] still to yield: the next chunk, or the end, which closes. *)
Definition fake_aclose (i : nat) (fk : fake_backend) : fake_backend :=
  FakeBackend (fk_prefix fk) (fk_chunks fk) (fk_closed fk) (fk_last_stream fk) (<[i := true]> (fk_streams fk)).
Definition fake_stream (fk : fake_backend) : nat * fake_backend :=
  let i := length (fk_streams fk) in
  (i, FakeBackend (fk_prefix fk) (fk_chunks fk) (fk_closed fk) (Some i) (fk_streams fk ++ [false])).
Definition fake_next (i : nat) (rest : list (list N)) (fk : fake_backend)
    : option (list N) * list (list N) * fake_backend :=
  match rest with
  | chunk :: rest => (Some chunk, rest, fk)
  | [] => (None, [], fake_aclose i fk)
  end.

Definition fake_health (fk : fake_backend) : bool := negb (fk_closed fk).
Definition fake_close (fk : fake_backend) : fake_backend :=
  let fk := match fk_last_stream fk with Some i => fake_aclose i fk | None => fk end in
  FakeBackend (fk_prefix fk) (fk_chunks fk) true (fk_last_stream fk) (fk_streams fk).

(** Every member gets what it would get alone, but for the usage. *)
Definition fake_answers (fk : fake_backend) (r : chat_request) (response : pydict) : Prop :=
  response = dict_pop (fake_generate fk r) "usage"%py.

#[export] Instance fake_batch_backend `{ModelDump} fk :
  BatchBackend (λ rs, inr (fake_generate_batch fk rs)) (fake_answers fk).
Proof.
  intros rs res _ [= <-]. apply Forall2_fmap_r, Forall_Forall2_diag. by apply Forall_true.
Qed.

(** The responses of the fake backend are in the form the vLLM backend gives members:
    a valid single request has one choice, with index 0. *)
Lemma fake_single fk r : cr_n r = 1 →
  dict_get (dict_pop (fake_generate fk r) "usage"%py) "choices"%py = Some (VList [fake_choice (fk_prefix fk) 0]).
Proof. intros Hn. rewrite dict_get_pop, decide_False by done. unfold fake_generate. by rewrite Hn. Qed.

(** ** Witness *)

#[local] Existing Instance plain_floats.
#[local] Existing Instance plain_model_dump.

Definition demo_fake : fake_backend := FakeBackend "fake" [] false None [].

Lemma batcher_over_backend_witness :
  ∃ o y' it it', bexec demo_clock (BvAnswer 3 (batch_answer_of
      (inr (fake_generate_batch demo_fake (requests_of (y_batcher (bdemo (full_events ++ [BvStart 3]))) [0; 2]%nat)))))
      (bdemo (full_events ++ [BvStart 3])) = Some (o, y') ∧
    b_items (y_batcher (bdemo (full_events ++ [BvStart 3]))) !! 2%nat = Some it ∧
    b_items (y_batcher y') !! 2%nat = Some it' ∧
    it_future it' = FResult (dict_pop (fake_generate demo_fake (it_request it)) "usage"%py).
Proof.
  set (y := bdemo (full_events ++ [BvStart 3])).
  destruct (bexec demo_clock _ y) as [[o y']|] eqn:Hex; [|vm_compute in Hex; discriminate Hex].
  destruct (b_flushes (y_batcher y) !! 3%nat) as [fl|] eqn:Hf; [|vm_compute in Hf; discriminate Hf].
  destruct (b_items (y_batcher y) !! 2%nat) as [it|] eqn:Hit; [|vm_compute in Hit; discriminate Hit].
  assert (Hl : fl_items fl = [0; 2]%nat) by (vm_compute in Hf; injection Hf as <-; reflexivity).
  assert (Hst : it_state it ≠ ItemCancelled) by (vm_compute in Hit; injection Hit as <-; discriminate).
  assert (Hn : fl_items fl !! 1%nat = Some 2%nat) by (rewrite Hl; reflexivity).
  rewrite <- Hl in Hex.
  destruct (batcher_over_backend (λ rs, inr (fake_generate_batch demo_fake rs)) (fake_answers demo_fake)
              demo_clock _ _ _ _ _ _ _ _ _ _ _ _
              demo_batcher_init started_reachable Hf Hex Hn Hit Hst) as (it' & Hit' & response & Hre & Ha).
  exists o, y', it, it'. split; [reflexivity|]. split; [reflexivity|]. split; [exact Hit'|].
  rewrite Hre, Ha. reflexivity.
Defined.
