(* ===== verification/Metrics.v ===== *)
(** gateway/observability/metrics.py: which updates of which collectors the gateway
    requests.  The collectors are third-party code: whether an update raises is a
    parameter, and every helper swallows what they raise. *)
From S2P Require Import Prelude.
From S2P Require Import Python.
From S2P Require Import Json.
From S2P Require Import Errors.
From S2P Require Import Admission.
From S2P Require Import Routing.
From S2P Require Import Chat.
From S2P Require Import Compatibility.
From S2P Require Import Batching.

(** * Collectors *)

(** The attributes of [GatewayMetrics]. *)
Inductive collector :=
| Requests | RequestDuration | AdmissionQueueWait | ClientTtft | BackendTtft | TtftObservations
| ObservedOutputTokens | TokenAccountingRequests | ErrorsTotal | AdmissionInflight | AdmissionQueued
| TenantAdmissionInflight | TenantAdmissionQueued | BackendHealthy | BackendInflight
| BackendRequests | BatchEligibility | Batches | BatchSize | BatchWait | BatchPending
| BatchInflight.

#[export] Instance collector_eq_dec : EqDecision collector.
Proof. solve_decision. Defined.

Inductive collector_type := Counter | Gauge | Histogram.

#[export] Instance collector_type_eq_dec : EqDecision collector_type.
Proof. solve_decision. Defined.

(** How [__init__] constructs each collector: its type, metric name and label names. *)
Definition collector_decl (c : collector) : collector_type * pystr * list pystr :=
  match c with
  | Requests => (Counter, "gateway_requests_total", ["mode"; "status_code"; "outcome"])
  | RequestDuration => (Histogram, "gateway_request_duration_seconds", ["mode"; "outcome"])
  | AdmissionQueueWait => (Histogram, "gateway_admission_queue_wait_seconds", ["outcome"])
  | ClientTtft => (Histogram, "gateway_client_ttft_seconds", ["backend_id"])
  | BackendTtft => (Histogram, "gateway_backend_ttft_seconds", ["backend_id"])
  | TtftObservations => (Counter, "gateway_ttft_observations_total", ["result"])
  | ObservedOutputTokens => (Counter, "gateway_observed_output_tokens_total", ["mode"])
  | TokenAccountingRequests => (Counter, "gateway_token_accounting_requests_total", ["mode"; "result"])
  | ErrorsTotal => (Counter, "gateway_errors_total", ["code"])
  | AdmissionInflight => (Gauge, "gateway_admission_inflight", [])
  | AdmissionQueued => (Gauge, "gateway_admission_queued", [])
  | TenantAdmissionInflight => (Gauge, "gateway_tenant_admission_inflight", ["tenant_id"])
  | TenantAdmissionQueued => (Gauge, "gateway_tenant_admission_queued", ["tenant_id"])
  | BackendHealthy => (Gauge, "gateway_backend_healthy", ["backend_id"])
  | BackendInflight => (Gauge, "gateway_backend_inflight", ["backend_id"])
  | BackendRequests => (Counter, "gateway_backend_requests_total", ["backend_id"; "operation"; "outcome"])
  | BatchEligibility => (Counter, "gateway_batch_eligibility_total", ["decision"; "reason"])
  | Batches => (Counter, "gateway_batches_total", ["flush_reason"; "outcome"])
  | BatchSize => (Histogram, "gateway_batch_size", [])
  | BatchWait => (Histogram, "gateway_batch_wait_seconds", [])
  | BatchPending => (Gauge, "gateway_batch_pending", [])
  | BatchInflight => (Gauge, "gateway_batch_inflight", [])
  end%py.

(** The bucket bounds, in ten-thousandths of a second or of a request. *)
Definition REQUEST_DURATION_BUCKETS : list Z :=
  [500; 1000; 2500; 5000; 10000; 20000; 50000; 100000; 300000; 600000; 1200000].
Definition QUEUE_WAIT_BUCKETS : list Z :=
  [10; 25; 50; 100; 250; 500; 1000; 2500; 5000; 10000; 20000; 50000; 100000].
Definition TTFT_BUCKETS : list Z :=
  [100; 250; 500; 1000; 2000; 4000; 8000; 10000; 20000; 50000; 100000; 300000].
Definition BATCH_SIZE_BUCKETS : list Z := [10000; 20000; 40000; 80000; 160000; 320000; 640000].
Definition BATCH_WAIT_BUCKETS : list Z := [5; 10; 25; 50; 100; 250; 500; 1000; 2500; 10000].

(** The [buckets] a collector is constructed with. *)
Definition collector_buckets (c : collector) : list Z :=
  match c with
  | RequestDuration => REQUEST_DURATION_BUCKETS
  | AdmissionQueueWait => QUEUE_WAIT_BUCKETS
  | ClientTtft | BackendTtft => TTFT_BUCKETS
  | BatchSize => BATCH_SIZE_BUCKETS
  | BatchWait => BATCH_WAIT_BUCKETS
  | _ => []
  end.

(** Exactly the histograms have buckets, and these are positive and increase strictly, as
    the constructor of a histogram demands. *)
Theorem histogram_buckets c :
  (collector_buckets c ≠ [] ↔ (collector_decl c).1.1 = Histogram) ∧
  StronglySorted Z.lt (0 :: collector_buckets c).
Proof. split; [by destruct c|]. destruct c; vm_compute; repeat constructor. Qed.

(** [c.labels( *ls).inc(n)], [c.labels( *ls).set(v)] and [c.labels( *ls).observe(v)]. *)
Inductive update :=
| Inc (c : collector) (ls : list pystr) (n : Z)
| SetGauge (c : collector) (ls : list pystr) (v : Z)
| Observe (c : collector) (ls : list pystr) (v : Z).

Definition update_collector (u : update) : collector :=
  match u with Inc c _ _ | SetGauge c _ _ | Observe c _ _ => c end.
Definition update_value (u : update) : Z :=
  match u with Inc _ _ v | SetGauge _ _ v | Observe _ _ v => v end.

(** * Labels *)

Inductive mode := MStreaming | MNonStreaming | MUnknown.
Inductive request_outcome := RCompleted | RCancelled | RError.
Inductive accounting_result := AObserved | AMissing | AInvalid | AAggregateOnly.

Definition mode_label (m : mode) : pystr :=
  match m with MStreaming => "streaming" | MNonStreaming => "non_streaming" | MUnknown => "unknown" end%py.
Definition outcome_label (o : request_outcome) : pystr :=
  match o with RCompleted => "completed" | RCancelled => "cancelled" | RError => "error" end%py.
Definition result_label (r : accounting_result) : pystr :=
  match r with
  | AObserved => "observed" | AMissing => "missing" | AInvalid => "invalid"
  | AAggregateOnly => "aggregate_only"
  end%py.
Definition wait_label (o : wait_outcome) : pystr :=
  match o with
  | WaitAdmitted => "admitted" | TimedOut => "timeout" | Rejected => "rejected" | WasCancelled => "cancelled"
  end%py.
Definition operation_label (o : operation) : pystr :=
  match o with OpGenerate => "generate" | OpStream => "stream" | OpBatch => "batch" end%py.
Definition op_outcome_label (o : op_outcome) : pystr :=
  match o with Success => "success" | Error => "error" | Cancelled => "cancelled" end%py.
Definition flush_label (r : flush_reason) : pystr :=
  match r with BySize => "size" | ByTimeout => "timeout" end%py.
Definition batch_outcome_label (o : batch_outcome) : pystr :=
  match o with BSuccess => "success" | BError => "error" | BCancelled => "cancelled" end%py.
Definition usage_accounting (u : usage_result) : accounting_result :=
  match u with UObserved => AObserved | UMissing => AMissing | UInvalid => AInvalid end.
Definition decision_label (d : batch_decision) : pystr :=
  match d with Eligible => "eligible" | Bypass => "bypass" end%py.
Definition reason_label (r : eligibility_reason) : pystr :=
  match r with
  | REligible => "eligible" | RDisabled => "disabled" | RStreaming => "streaming" | RNGt1 => "n_gt_1"
  end%py.
(** [str(status_code)] of a status or of the string [unknown]. *)
Definition status_label (status : option Z) : pystr :=
  match status with Some n => PyStr (int_repr n) | None => "unknown"%py end.

(** * The helpers

    Each is the list of the updates its [try] block requests, in order. *)

Definition record_request (m : mode) (status : option Z) (o : request_outcome) (duration : Z) : list update :=
  [Inc Requests [mode_label m; status_label status; outcome_label o] 1;
   Observe RequestDuration [mode_label m; outcome_label o] (Z.max 0 duration)].

Definition admission_wait_observed (duration : Z) (o : wait_outcome) : list update :=
  [Observe AdmissionQueueWait [wait_label o] (Z.max 0 duration)].

Definition admission_state_changed (inflight queued : Z) (tenants : list (pystr * (Z * Z))) : list update :=
  SetGauge AdmissionInflight [] (Z.max 0 inflight) ::
  SetGauge AdmissionQueued [] (Z.max 0 queued) ::
  (tenants ≫= λ '(tid, (inflight, queued)),
     [SetGauge TenantAdmissionInflight [tid] (Z.max 0 inflight);
      SetGauge TenantAdmissionQueued [tid] (Z.max 0 queued)]).

Definition backend_state_changed (backends : list (pystr * (bool * Z))) : list update :=
  backends ≫= λ '(bid, (healthy, inflight)),
    [SetGauge BackendHealthy [bid] (if healthy : bool then 1 else 0);
     SetGauge BackendInflight [bid] (Z.max 0 inflight)].

Definition backend_operation_observed (bid : pystr) (op : operation) (o : op_outcome) : list update :=
  [Inc BackendRequests [bid; operation_label op; op_outcome_label o] 1].

(** [backend_id or "unknown"]. *)
Definition safe_backend_id (bid : option pystr) : pystr :=
  match bid with Some b => if str_truthy b then b else "unknown"%py | None => "unknown"%py end.
Definition observe_ttft (bid : option pystr) (client : Z) (backend : option Z) : list update :=
  [Observe ClientTtft [safe_backend_id bid] (Z.max 0 client)] ++
  match backend with
  | Some t => [Observe BackendTtft [safe_backend_id bid] (Z.max 0 t)]
  | None => []
  end ++
  [Inc TtftObservations ["observed"%py] 1].

Definition record_missing_ttft : list update := [Inc TtftObservations ["missing"%py] 1].

Definition record_token_accounting (m : mode) (r : accounting_result) (tokens : option Z) : list update :=
  match r, tokens with
  | AObserved, Some n => [Inc ObservedOutputTokens [mode_label m] n]
  | _, _ => []
  end ++ [Inc TokenAccountingRequests [mode_label m; result_label r] 1].

(** The [completion_tokens] of a [usage] value, when they are authoritative. *)
Definition usage_tokens (usage : pyval) : option Z :=
  match usage with
  | VDict usage =>
      match dict_get usage "completion_tokens"%py with
      | Some (VInt n) => if n <? 0 then None else Some n
      | _ => None
      end
  | _ => None
  end.

Definition observe_non_streaming_usage (response : pydict) : list update :=
  match dict_get response "usage"%py with
  | None => record_token_accounting MNonStreaming AMissing None
  | Some usage =>
      match usage_tokens usage with
      | None => record_token_accounting MNonStreaming AInvalid None
      | Some n => record_token_accounting MNonStreaming AObserved (Some n)
      end
  end.

Definition record_error (code : pystr) : list update := [Inc ErrorsTotal [code] 1].

Definition batch_eligibility_observed (e : batch_eligibility) : list update :=
  [Inc BatchEligibility [decision_label (be_decision e); reason_label (be_reason e)] 1].

Definition batch_state_changed (pending inflight : Z) : list update :=
  [SetGauge BatchPending [] (Z.max 0 pending); SetGauge BatchInflight [] (Z.max 0 inflight)].

Definition batch_dispatched (size : Z) (waits : list Z) : list update :=
  Observe BatchSize [] size :: ((λ t, Observe BatchWait [] (Z.max 0 t)) <$> waits).

Definition batch_completed (r : flush_reason) (o : batch_outcome) : list update :=
  [Inc Batches [flush_label r; batch_outcome_label o] 1].

Definition observe_batch_usage (u : usage_result) (tokens : option Z) (members : Z) : list update :=
  match u, tokens with
  | UObserved, Some n =>
      [Inc ObservedOutputTokens ["non_streaming"%py] n;
       Inc TokenAccountingRequests ["non_streaming"%py; "aggregate_only"%py] members]
  | _, _ => [Inc TokenAccountingRequests ["non_streaming"%py; result_label (usage_accounting u)] members]
  end.

(** ** The metrics as an observer *)

Definition admission_updates (o : observation) : list update :=
  match o with
  | ObsState i q ts => admission_state_changed i q ts
  | ObsWait d w => admission_wait_observed d w
  end.
Definition pool_updates (o : pool_observation) : list update :=
  match o with
  | PoolState bs => backend_state_changed bs
  | PoolOperation bid op out => backend_operation_observed bid op out
  end.
Definition batch_updates (o : batch_observation) : list update :=
  match o with
  | BatchState p i => batch_state_changed p i
  | BatchDispatched _ size waits => batch_dispatched size waits
  | BatchCompleted r o => batch_completed r o
  | BatchUsage u tokens members => observe_batch_usage u tokens members
  end.

(** ** Updates that raise

    [accepts u]: the collectors carry out the update.  The first update that raises
    ends the [try] block, and the exception is logged. *)
Fixpoint attempt (accepts : update → bool) (us : list update) : list update :=
  match us with
  | [] => []
  | u :: us => if accepts u then u :: attempt accepts us else []
  end.

(** What the collectors accept, by their documentation: the method is one of the
    collector's type, there are as many label values as label names, and a counter is
    not decremented. *)
Definition counter_ok (u : update) : bool :=
  match u with Inc _ _ n => 0 <=? n | _ => true end.
Definition well_typed (u : update) : bool :=
  let '(t, _, labels) := collector_decl (update_collector u) in
  bool_decide (t = match u with Inc _ _ _ => Counter | SetGauge _ _ _ => Gauge | Observe _ _ _ => Histogram end) &&
  bool_decide (length match u with Inc _ ls _ | SetGauge _ ls _ | Observe _ ls _ => ls end = length labels).

Definition collectors_accept (u : update) : bool := well_typed u && counter_ok u.

(** The value of a gauge after the updates [us]. *)
Definition gauge_step (c : collector) (ls : list pystr) (v : option Z) (u : update) : option Z :=
  match u with
  | SetGauge c' ls' v' => if bool_decide (c' = c ∧ ls' = ls) then Some v' else v
  | _ => v
  end.
Definition gauge_value (c : collector) (ls : list pystr) (us : list update) : option Z :=
  foldl (gauge_step c ls) None us.

(** The total of a counter after the updates [us]. *)
Definition counter_step (c : collector) (ls : list pystr) (n : Z) (u : update) : Z :=
  match u with
  | Inc c' ls' k => if bool_decide (c' = c ∧ ls' = ls) then n + k else n
  | _ => n
  end.
Definition counter_value (c : collector) (ls : list pystr) (us : list update) : Z :=
  foldl (counter_step c ls) 0 us.

Lemma attempt_app accepts us vs : Forall (λ u, accepts u = true) us →
  attempt accepts (us ++ vs) = us ++ attempt accepts vs.
Proof. induction 1 as [|u us Hu _ IH]; simpl; [done|]. by rewrite Hu, IH. Qed.

Lemma attempt_accepted accepts us : Forall (λ u, accepts u = true) us → attempt accepts us = us.
Proof. intros Hus. rewrite <- (app_nil_r us) at 1. rewrite attempt_app by done. apply app_nil_r. Qed.

(** ** Well-typed updates *)

Abbreviation typed us := (Forall (λ u, collectors_accept u = true) us).

Lemma typed_bind {A} (f : A → list update) l : (∀ x, typed (f x)) → typed (l ≫= f).
Proof.
  intros Hf. induction l as [|x l IH]; [constructor|]. simpl. by apply Forall_app_2.
Qed.

Lemma typed_admission o : typed (admission_updates o).
Proof.
  destruct o as [i q ts|d w]; simpl; [|by repeat constructor].
  do 2 (constructor; [done|]). apply typed_bind. intros [tid [? ?]]. by repeat constructor.
Qed.

Lemma typed_pool o : typed (pool_updates o).
Proof.
  destruct o as [bs|bid op out]; simpl; [|by repeat constructor].
  apply typed_bind. intros [bid [? ?]]. by repeat constructor.
Qed.

(** What the batcher tells its observer about tokens is not negative. *)
Definition usage_nonneg (o : batch_observation) : Prop :=
  match o with
  | BatchUsage _ tokens members => 0 ≤ default 0 tokens ∧ 0 ≤ members
  | _ => True
  end.

Lemma typed_batch o : usage_nonneg o → typed (batch_updates o).
Proof.
  destruct o as [p i|r size waits|r o|u tokens members]; simpl; intros Ho.
  - by repeat constructor.
  - constructor; [done|]. by apply Forall_fmap, Forall_true.
  - by repeat constructor.
  - destruct Ho as [Ht%Z.leb_le Hm%Z.leb_le]. unfold observe_batch_usage.
    destruct u, tokens; repeat constructor; unfold collectors_accept; simpl; by rewrite ?Ht, ?Hm.
Qed.

Lemma typed_accounting m r tokens : 0 ≤ default 0 tokens → typed (record_token_accounting m r tokens).
Proof.
  intros Ht%Z.leb_le. destruct r, tokens; repeat constructor; unfold collectors_accept; simpl in *; by rewrite ?Ht.
Qed.

(** Every update the gateway requests is one the collectors carry out: whatever the
    observers of admission, routing and batching report, and whatever a response
    contains, the method fits the type of the collector, every label name gets a
    value, and no counter is decremented; so no helper loses a part of its updates. *)
Theorem metrics_well_typed accepts :
  (∀ u, collectors_accept u = true → accepts u = true) →
  (∀ o, attempt accepts (admission_updates o) = admission_updates o) ∧
  (∀ o, attempt accepts (pool_updates o) = pool_updates o) ∧
  (∀ o, usage_nonneg o → attempt accepts (batch_updates o) = batch_updates o) ∧
  (∀ m status o d, attempt accepts (record_request m status o d) = record_request m status o d) ∧
  (∀ bid c b, attempt accepts (observe_ttft bid c b) = observe_ttft bid c b) ∧
  (∀ response, attempt accepts (observe_non_streaming_usage response) = observe_non_streaming_usage response) ∧
  (∀ code, attempt accepts (record_error code) = record_error code) ∧
  (∀ e, attempt accepts (batch_eligibility_observed e) = batch_eligibility_observed e).
Proof.
  intros Hacc. assert (Hall : ∀ us, typed us → attempt accepts us = us).
  { intros us Hus. apply attempt_accepted. eapply Forall_impl; [exact Hus|]. exact Hacc. }
  split_and!; intros *; [..|intros Ho| | | | |]; apply Hall.
  - apply typed_admission.
  - apply typed_pool.
  - by apply typed_batch.
  - by repeat constructor.
  - by destruct b; repeat constructor.
  - unfold observe_non_streaming_usage, usage_tokens. destruct (dict_get _ _) as [u|]; [|by apply typed_accounting].
    destruct u as [| | | | | |d]; try by apply typed_accounting.
    destruct (dict_get d _) as [[| |z| | | |]|]; try by apply typed_accounting.
    destruct (z <? 0) eqn:Hz; [by apply typed_accounting|]. apply Z.ltb_ge in Hz. by apply typed_accounting.
  - by repeat constructor.
  - by repeat constructor.
Qed.

Lemma metrics_well_typed_witness :
  attempt collectors_accept
    (observe_non_streaming_usage [("usage"%py, VDict [("completion_tokens"%py, VInt 3)])]) =
  [Inc ObservedOutputTokens ["non_streaming"%py] 3;
   Inc TokenAccountingRequests ["non_streaming"%py; "observed"%py] 1].
Proof.
  destruct (metrics_well_typed collectors_accept (λ _ Hu, Hu)) as (_ & _ & _ & _ & _ & H & _).
  rewrite H. reflexivity.
Defined.
