(* ===== verification/Sse.v ===== *)
(** gateway/observability/sse.py: the passive parser of a copied SSE byte stream.
    Bytes are numbers; the observer is defined for any [json.loads], [sse_loads] is
    Python's. *)
From Stdlib Require Import SpecFloat.
From S2P Require Import Prelude.
From S2P Require Import Python.
From S2P Require Import Json.
From S2P Require Import JsonLoads.
From S2P Require Import Errors.
From S2P Require Import Metrics.
From S2P Require Import Batching.

(** * Bytes *)

Definition LF : N := 10.
Definition CR : N := 13.
Abbreviation bytes := (list N).

(** The regular expression [\r?\n], tried at the head. *)
Definition newline (l : bytes) : option bytes :=
  match l with
  | c :: l =>
      if (c =? LF)%N then Some l
      else if (c =? CR)%N then
        match l with d :: l => if (d =? LF)%N then Some l else None | [] => None end
      else None
  | [] => None
  end.
(** [\r?\n\r?\n]. *)
Definition boundary (l : bytes) : option bytes :=
  match newline l with Some l => newline l | None => None end.

(** [_EVENT_BOUNDARY.search]: what comes before and after the leftmost match. *)
Fixpoint search_boundary (l : bytes) : option (bytes * bytes) :=
  match boundary l with
  | Some rest => Some ([], rest)
  | None =>
      match l with
      | [] => None
      | c :: l => match search_boundary l with
                  | Some (event, rest) => Some (c :: event, rest)
                  | None => None
                  end
      end
  end.

(** [bytes.splitlines]: lines end at LF, CR or CR LF; [line] is the line read so far,
    [after_cr] that the last byte was a CR. *)
Fixpoint splitlines_from (line : bytes) (after_cr : bool) (l : bytes) : list bytes :=
  match l with
  | [] => match line with [] => [] | _ => [line] end
  | c :: l =>
      if (c =? LF)%N then
        if after_cr then splitlines_from [] false l else line :: splitlines_from [] false l
      else if (c =? CR)%N then line :: splitlines_from [] true l
      else splitlines_from (line ++ [c]) false l
  end.
Definition splitlines (l : bytes) : list bytes := splitlines_from [] false l.

Definition starts_with (p l : bytes) : bool := bool_decide (take (length p) l = p).

(** [bytes.strip]: the six ASCII white-space characters. *)
Definition byte_space (c : N) : bool := ((c =? 32) || ((9 <=? c) && (c <=? 13)))%N.
Fixpoint byte_lstrip (l : bytes) : bytes :=
  match l with [] => [] | c :: l' => if byte_space c then byte_lstrip l' else l end.
Definition byte_strip (l : bytes) : bytes := reverse (byte_lstrip (reverse (byte_lstrip l))).

(** [sep.join]. *)
Fixpoint join_lines (ls : list bytes) : bytes :=
  match ls with [] => [] | [l] => l | l :: ls => l ++ LF :: join_lines ls end.

Definition ascii_bytes (s : pystr) : bytes := codes s.

(** ** The data of an event *)

Definition data_line (line : bytes) : option bytes :=
  if starts_with (ascii_bytes ":") line then None
  else if bool_decide (line = ascii_bytes "data") then Some []
  else if starts_with (ascii_bytes "data:") line then
    let value := drop 5 line in
    Some (match value with c :: value' => if (c =? 32)%N then value' else value | [] => [] end)
  else None.
Definition data_lines (event : bytes) : list bytes := omap data_line (splitlines event).

(** * The observer *)

(** How [json.loads] fails: [UnicodeDecodeError] or [JSONDecodeError], or another
    [Exception]. *)
Inductive json_failure := DecodeError | OtherFailure.
(** [json.loads] with the interpreter's [float] and recursion limit, and the two kinds of
    its errors that [_observe_event] tells apart. *)
Definition sse_loads (to_float : list N → spec_float) (depth : nat) (data : bytes) : json_failure + pyval :=
  match loads_bytes to_float depth data with
  | inl (JSONDecodeError | UnicodeDecodeError) => inl DecodeError
  | inl _ => inl OtherFailure
  | inr v => inr v
  end.

(** [SSEMetricsObserver]; [ss_log]: the updates the metrics carried out. *)
Record sse := Sse {
  ss_max : Z;
  ss_buffer : bytes;
  ss_first : bool;
  ss_usage : option usage_result;
  ss_tokens : option Z;
  ss_disabled : bool;
  ss_finalized : bool;
  ss_reads : nat;
  ss_log : list update;
}.

Definition with_buffer (b : bytes) (s : sse) : sse :=
  Sse (ss_max s) b (ss_first s) (ss_usage s) (ss_tokens s) (ss_disabled s) (ss_finalized s) (ss_reads s) (ss_log s).
Definition with_usage (u : usage_result) (t : option Z) (s : sse) : sse :=
  Sse (ss_max s) (ss_buffer s) (ss_first s) (Some u) t (ss_disabled s) (ss_finalized s) (ss_reads s) (ss_log s).

(** [__init__]. *)
Definition sse_init (max_event_bytes : Z) : exn + sse :=
  if max_event_bytes <=? 0 then inl ValueError
  else inr (Sse max_event_bytes [] false None None false false 0 []).

(** [_disable]. *)
Definition disable (s : sse) : sse :=
  if ss_disabled s then s
  else Sse (ss_max s) [] (ss_first s) (ss_usage s) (ss_tokens s) true (ss_finalized s) (ss_reads s) (ss_log s).

Section observer.
Variable json_loads : bytes → json_failure + pyval.
Variable accepts : update → bool.
Variable clock : nat → Z.
Variable request_started_at : Z.
Variable backend_id : option pystr.
Variable upstream_request_started_at : option Z.

(** A call of a metrics helper. *)
Definition record (us : list update) (s : sse) : sse :=
  Sse (ss_max s) (ss_buffer s) (ss_first s) (ss_usage s) (ss_tokens s) (ss_disabled s) (ss_finalized s)
    (ss_reads s) (ss_log s ++ attempt accepts us).

(** [_observe_first_content]. *)
Definition has_content (choice : pyval) : bool :=
  match choice with
  | VDict choice =>
      match dict_get choice "delta"%py with
      | Some (VDict delta) =>
          match dict_get delta "content"%py with
          | Some (VStr content) => str_truthy content
          | _ => false
          end
      | _ => false
      end
  | _ => false
  end.
Definition observe_first_content (payload : pydict) (s : sse) : sse :=
  if ss_first s then s else
  match dict_get payload "choices"%py with
  | Some (VList choices) =>
      if existsb has_content choices then
        let observed_at := clock (ss_reads s) in
        let s := record (observe_ttft backend_id (observed_at - request_started_at)
                           ((λ t, observed_at - t) <$> upstream_request_started_at)) s in
        Sse (ss_max s) (ss_buffer s) true (ss_usage s) (ss_tokens s) (ss_disabled s) (ss_finalized s)
          (S (ss_reads s)) (ss_log s)
      else s
  | _ => s
  end.

(** [_observe_usage]. *)
Definition observe_usage (payload : pydict) (s : sse) : sse :=
  match ss_usage s, dict_get payload "usage"%py with
  | None, Some usage =>
      match usage_tokens usage with
      | Some n => with_usage UObserved (Some n) s
      | None => with_usage UInvalid (ss_tokens s) s
      end
  | _, _ => s
  end.

(** [_observe_event]; the result tells whether it raised. *)
Definition observe_event (event : bytes) (s : sse) : bool * sse :=
  match data_lines event with
  | [] => (false, s)
  | lines =>
      let data := join_lines lines in
      if bool_decide (byte_strip data = ascii_bytes "[DONE]") then (false, s) else
      match json_loads data with
      | inl DecodeError => (false, disable s)
      | inl OtherFailure => (true, s)
      | inr (VDict payload) => (false, observe_usage payload (observe_first_content payload s))
      | inr _ => (false, disable s)
      end
  end.

(** [_drain_events]; an event is longer than its boundary is short, so the length of
    the buffer bounds the number of iterations. *)
Fixpoint drain_events (fuel : nat) (s : sse) : option (bool * sse) :=
  match search_boundary (ss_buffer s) with
  | None => Some (false, s)
  | Some (event, rest) =>
      match fuel with
      | O => None
      | S fuel =>
          let s := with_buffer rest s in
          if ss_max s <? Z.of_nat (length event) then Some (false, disable s) else
          let '(raised, s) := observe_event event s in
          if raised then Some (true, s)
          else if ss_disabled s then Some (false, s) else drain_events fuel s
      end
  end.

(** The loop of [observe_bytes] over what is left of the chunk. *)
Fixpoint observe_loop (fuel : nat) (chunk : bytes) (s : sse) : option (bool * sse) :=
  match chunk with
  | [] => Some (false, s)
  | _ =>
      let available := ss_max s - Z.of_nat (length (ss_buffer s)) in
      if available <=? 0 then Some (false, disable s) else
      match fuel with
      | O => None
      | S fuel =>
          let n := Z.to_nat available in
          let s := with_buffer (ss_buffer s ++ take n chunk) s in
          match drain_events (length (ss_buffer s)) s with
          | None => None
          | Some (true, s) => Some (true, s)
          | Some (false, s) =>
              if ss_disabled s then Some (false, s) else observe_loop fuel (drop n chunk) s
          end
      end
  end.

(** [observe_bytes]; [None] would be a loop that was cut off. *)
Definition observe_bytes (chunk : bytes) (s : sse) : option sse :=
  if ss_disabled s || ss_finalized s || bool_decide (chunk = []) then Some s else
  match observe_loop (length chunk) chunk s with
  | None => None
  | Some (true, s) => Some (disable s)
  | Some (false, s) => Some s
  end.

(** [finalize]. *)
Definition finalize (s : sse) : sse :=
  if ss_finalized s then s else
  let s := Sse (ss_max s) (ss_buffer s) (ss_first s) (ss_usage s) (ss_tokens s) (ss_disabled s) true
             (ss_reads s) (ss_log s) in
  let s := if ss_first s then s else record record_missing_ttft s in
  let s := match ss_usage s with
           | Some UObserved => record (record_token_accounting MStreaming AObserved (ss_tokens s)) s
           | Some UInvalid => record (record_token_accounting MStreaming AInvalid None) s
           | _ => if ss_disabled s then record (record_token_accounting MStreaming AInvalid None) s
                  else record (record_token_accounting MStreaming AMissing None) s
           end in
  with_buffer [] s.
End observer.
