(* ===== verification/SseTheorems.v ===== *)
(** The SSE observer sees the events of the byte stream, however the stream is cut
    into chunks, in bounded space, and accounts for each stream once. *)
From S2P Require Import Prelude.
From S2P Require Import Python.
From S2P Require Import Json.
From S2P Require Import JsonLoads.
From S2P Require Import PlainFloats.
From S2P Require Import Errors.
From S2P Require Import Metrics.
From S2P Require Import Batching.
From S2P Require Import Sse.

(** * Event boundaries *)

Lemma newline_app l k r : newline l = Some r → newline (l ++ k) = Some (r ++ k).
Proof.
  destruct l as [|c [|d l]]; simpl; [done| |]; destruct (c =? LF)%N; try (by intros [= <-]).
  - by destruct (c =? CR)%N.
  - destruct (c =? CR)%N; [|done]. destruct (d =? LF)%N; [|done]. by intros [= <-].
Qed.

Lemma boundary_app l k r : boundary l = Some r → boundary (l ++ k) = Some (r ++ k).
Proof.
  unfold boundary. destruct (newline l) as [l'|] eqn:H1; [|done]. intros H2.
  rewrite (newline_app _ k _ H1). by apply newline_app.
Qed.

Lemma newline_length l r : newline l = Some r → (length r < length l)%nat.
Proof.
  destruct l as [|c [|d l]]; simpl; [done| |]; destruct (c =? LF)%N; try (intros [= <-]; simpl; lia).
  - by destruct (c =? CR)%N.
  - destruct (c =? CR)%N; [|done]. destruct (d =? LF)%N; [|done]. intros [= <-]. simpl; lia.
Qed.

Lemma boundary_length l r : boundary l = Some r → (length r < length l)%nat.
Proof.
  unfold boundary. destruct (newline l) as [l'|] eqn:H1; [|done]. intros H2.
  apply newline_length in H1, H2. lia.
Qed.

Lemma search_length l e r : search_boundary l = Some (e, r) → (length e + length r < length l)%nat.
Proof.
  revert e r. induction l as [|c l IH]; intros e r; simpl.
  - done.
  - destruct (boundary (c :: l)) as [rest|] eqn:Hb.
    + intros [= <- <-]. apply boundary_length in Hb. simpl in *. lia.
    + destruct (search_boundary l) as [[e' r']|]; [|done]. intros [= <- <-]. specialize (IH e' r' eq_refl). simpl. lia.
Qed.

(** A text that could still become a boundary contains none. *)
Lemma newline_partial l k : newline l = None → is_Some (newline (l ++ k)) → l = [] ∨ l = [CR].
Proof.
  destruct l as [|c [|d l]]; simpl; [by left| |].
  - destruct (c =? LF)%N; [done|]. destruct (c =? CR)%N eqn:Hc; [apply N.eqb_eq in Hc as ->; by right|].
    by intros _ [].
  - destruct (c =? LF)%N; [done|]. destruct (c =? CR)%N; [|by intros _ []].
    destruct (d =? LF)%N; [done|]. by intros _ [].
Qed.

Lemma boundary_partial l k : boundary l = None → is_Some (boundary (l ++ k)) → search_boundary l = None.
Proof.
  intros Hl Hk. unfold boundary in Hk. destruct (newline l) as [l'|] eqn:H1.
  - rewrite (newline_app _ k _ H1) in Hk.
    assert (H2 : newline l' = None) by (unfold boundary in Hl; by rewrite H1 in Hl).
    assert (Hl' : l' = [] ∨ l' = [CR]) by by eapply newline_partial.
    destruct l as [|c [|d l]]; cbn [newline] in H1; [done| |].
    + destruct (c =? LF)%N eqn:Hc; [|destruct (c =? CR)%N; done].
      cbn [search_boundary]. by rewrite Hl.
    + destruct (c =? LF)%N eqn:Hc.
      * injection H1 as <-. destruct Hl' as [|[= -> ->]]; [done|]. apply N.eqb_eq in Hc as ->. done.
      * destruct (c =? CR)%N eqn:Hc'; [|done]. destruct (d =? LF)%N eqn:Hd; [|done]. injection H1 as ->.
        apply N.eqb_eq in Hc', Hd. subst c d. by destruct Hl' as [-> | ->].
  - assert (Hp : l = [] ∨ l = [CR]).
    { apply (newline_partial l k); [done|]. destruct (newline (l ++ k)); [by eexists|]. by destruct Hk. }
    by destruct Hp as [-> | ->].
Qed.

Lemma search_app l k e r : search_boundary l = Some (e, r) → search_boundary (l ++ k) = Some (e, r ++ k).
Proof.
  revert e r. induction l as [|c l IH]; intros e r; [done|].
  change ((c :: l) ++ k) with (c :: (l ++ k)). cbn [search_boundary].
  destruct (boundary (c :: l)) as [rest|] eqn:Hb.
  - intros [= <- <-]. change (c :: l ++ k) with ((c :: l) ++ k). by rewrite (boundary_app _ k _ Hb).
  - intros Hs. change (c :: l ++ k) with ((c :: l) ++ k).
    destruct (boundary ((c :: l) ++ k)) as [rest|] eqn:Hb'.
    + assert (Hn : search_boundary (c :: l) = None) by (eapply boundary_partial; [done|by rewrite Hb']).
      cbn [search_boundary] in Hn. rewrite Hb in Hn. rewrite Hn in Hs. done.
    + destruct (search_boundary l) as [[e' r']|]; [|done]. injection Hs as <- <-. by rewrite (IH e' r' eq_refl).
Qed.

(** * Splitting into events *)

Fixpoint split_events (fuel : nat) (l : bytes) : list bytes * bytes :=
  match search_boundary l, fuel with
  | Some (e, r), S fuel => let '(es, rest) := split_events fuel r in (e :: es, rest)
  | _, _ => ([], l)
  end.
Definition events (l : bytes) : list bytes * bytes := split_events (length l) l.

Lemma split_fuel n l : (length l ≤ n)%nat → split_events n l = events l.
Proof.
  unfold events. assert (Hg : ∀ m n l, (length l ≤ n)%nat → (length l ≤ m)%nat → split_events n l = split_events m l).
  { clear. induction m as [|m IH]; intros [|n] l Hn Hm; simpl; try done.
    - destruct l; [done|simpl in Hm; lia].
    - destruct l; [done|simpl in Hn; lia].
    - destruct (search_boundary l) as [[e r]|] eqn:Hs; [|done]. apply search_length in Hs.
      rewrite (IH n r) by lia. done. }
  intros Hn. by apply Hg.
Qed.

Lemma events_unfold l :
  events l = match search_boundary l with
             | Some (e, r) => (e :: (events r).1, (events r).2)
             | None => ([], l)
             end.
Proof.
  unfold events at 1. destruct (length l) as [|n] eqn:Hl; simpl; destruct (search_boundary l) as [[e r]|] eqn:Hs; try done.
  - apply search_length in Hs. lia.
  - apply search_length in Hs. rewrite split_fuel by lia. by destruct (events r).
Qed.

Lemma events_ind (P : bytes → Prop) :
  (∀ l, search_boundary l = None → P l) →
  (∀ l e r, search_boundary l = Some (e, r) → P r → P l) → ∀ l, P l.
Proof.
  intros H0 H1 l. remember (length l) as n eqn:Hn. revert l Hn.
  induction n as [n IH] using lt_wf_ind. intros l ->.
  destruct (search_boundary l) as [[e r]|] eqn:Hs; [|by apply H0].
  eapply H1; [done|]. eapply IH; [|done]. apply search_length in Hs. lia.
Qed.

Lemma events_rest l : search_boundary (events l).2 = None ∧ (length (events l).2 ≤ length l)%nat.
Proof.
  induction l as [l Hs|l e r Hs IH] using events_ind; rewrite events_unfold, Hs; simpl; [by split|].
  apply search_length in Hs. destruct IH. split; [done|lia].
Qed.

Lemma events_short l e : e ∈ (events l).1 → (length e ≤ length l)%nat.
Proof.
  induction l as [l Hs|l e' r Hs IH] using events_ind; rewrite events_unfold, Hs; simpl; [by intros ?%elem_of_nil|].
  apply search_length in Hs. intros [->|Hin]%elem_of_cons; [lia|]. apply IH in Hin. lia.
Qed.

Lemma events_app l k :
  events (l ++ k) = ((events l).1 ++ (events ((events l).2 ++ k)).1, (events ((events l).2 ++ k)).2).
Proof.
  induction l as [l Hs|l e r Hs IH] using events_ind.
  - rewrite (events_unfold l), Hs. simpl. by destruct (events (l ++ k)).
  - rewrite (events_unfold (l ++ k)), (search_app _ _ _ _ Hs), IH, (events_unfold l), Hs. done.
Qed.

(** * The observer against the byte-wise description *)

Section observer.
Variable json_loads : bytes → json_failure + pyval.
Variable accepts : update → bool.
Variable clock : nat → Z.
Variable request_started_at : Z.
Variable backend_id : option pystr.
Variable upstream_request_started_at : option Z.

Abbreviation one_event := (observe_event json_loads accepts clock request_started_at backend_id
                                 upstream_request_started_at).
Abbreviation draining := (drain_events json_loads accepts clock request_started_at backend_id
                                upstream_request_started_at).
Abbreviation looping := (observe_loop json_loads accepts clock request_started_at backend_id
                                upstream_request_started_at).
Abbreviation observing := (observe_bytes json_loads accepts clock request_started_at backend_id
                                 upstream_request_started_at).

(** The effect of one event on an observer whose buffer is empty. *)
Definition handle_event (event : bytes) (s : sse) : sse :=
  let '(raised, s') := one_event event (with_buffer [] s) in
  if raised then disable s' else s'.

(** Events in order, until one disables the observer; [rest] stays in the buffer. *)
Fixpoint handle (es : list bytes) (rest : bytes) (s : sse) : sse :=
  match es with
  | [] => with_buffer rest s
  | e :: es =>
      let s' := handle_event e s in
      if ss_disabled s' then s' else handle es rest s'
  end.

(** One byte: a full buffer without a boundary disables. *)
Definition feed (s : sse) (b : N) : sse :=
  if ss_disabled s then s
  else if ss_max s <=? Z.of_nat (length (ss_buffer s)) then disable s
  else handle (events (ss_buffer s ++ [b])).1 (events (ss_buffer s ++ [b])).2 s.

(** ** What an event can change *)

Abbreviation first_content := (observe_first_content accepts clock request_started_at backend_id
                                 upstream_request_started_at).

(** Reading a payload leaves the buffer and the flags alone. *)
Definition frame (s : sse) : Z * bytes * bool * bool := (ss_max s, ss_buffer s, ss_disabled s, ss_finalized s).

Lemma first_content_frame d s : frame (first_content d s) = frame s.
Proof.
  unfold observe_first_content. destruct (ss_first s); [done|].
  destruct (dict_get d "choices"%py) as [[| | | | |cs|]|]; try done. by destruct (existsb _ cs).
Qed.
Lemma first_content_buffer d s b : first_content d (with_buffer b s) = with_buffer b (first_content d s).
Proof.
  unfold observe_first_content. simpl. destruct (ss_first s); [done|].
  destruct (dict_get d "choices"%py) as [[| | | | |cs|]|]; try done. by destruct (existsb _ cs).
Qed.
Lemma usage_frame d s : frame (observe_usage d s) = frame s.
Proof.
  unfold observe_usage. destruct (ss_usage s), (dict_get d "usage"%py); try done. by destruct (usage_tokens p).
Qed.
Lemma usage_buffer d s b : observe_usage d (with_buffer b s) = with_buffer b (observe_usage d s).
Proof.
  unfold observe_usage. simpl. destruct (ss_usage s), (dict_get d "usage"%py); try done. by destruct (usage_tokens p).
Qed.

Lemma payload_frame d s : frame (observe_usage d (first_content d s)) = frame s.
Proof. by rewrite usage_frame, first_content_frame. Qed.

Lemma observe_event_state event s : ss_disabled s = false →
  let s' := (one_event event s).2 in
  ss_max s' = ss_max s ∧ ss_finalized s' = ss_finalized s ∧
  (ss_disabled s' = true → ss_buffer s' = []) ∧ (ss_disabled s' = false → ss_buffer s' = ss_buffer s).
Proof.
  intros Hd. unfold Sse.observe_event. destruct (data_lines event) as [|l ls]; [simpl; by rewrite Hd|].
  case_bool_decide; [simpl; by rewrite Hd|].
  destruct (json_loads _) as [[]|[]]; simpl; try (unfold disable; rewrite Hd; simpl; split_and!; done);
    try (by rewrite Hd).
  pose proof (payload_frame d s) as Hf. unfold frame in Hf. injection Hf as -> -> -> ->. by rewrite Hd.
Qed.

Lemma observe_event_buffer event s b : ss_disabled s = false →
  one_event event (with_buffer b s) =
    ((one_event event s).1, let s' := (one_event event s).2 in
                                if ss_disabled s' then s' else with_buffer b s').
Proof.
  intros Hd. unfold Sse.observe_event. destruct (data_lines event) as [|l ls]; [simpl; by rewrite Hd|].
  case_bool_decide; [simpl; by rewrite Hd|].
  destruct (json_loads _) as [[]|[]]; simpl; try (unfold disable; simpl; rewrite Hd; done);
    try (by rewrite Hd).
  pose proof (payload_frame d s) as Hf. unfold frame in Hf. injection Hf as _ _ -> _. rewrite Hd.
  by rewrite first_content_buffer, usage_buffer.
Qed.

Lemma with_buffer_twice b b' s : with_buffer b (with_buffer b' s) = with_buffer b s.
Proof. done. Qed.
Lemma with_buffer_same s : with_buffer (ss_buffer s) s = s.
Proof. by destruct s. Qed.

Lemma handle_event_state event s : ss_disabled s = false →
  let s' := handle_event event s in
  ss_max s' = ss_max s ∧ ss_finalized s' = ss_finalized s ∧ ss_buffer s' = [].
Proof.
  intros Hd. unfold handle_event. rewrite observe_event_buffer by done.
  destruct (observe_event_state event s Hd) as (Hm & Hf & Hb & _).
  destruct (one_event event s) as [raised s']. simpl in *.
  destruct (ss_disabled s') eqn:Hd'; destruct raised; simpl; unfold disable; simpl; rewrite ?Hd'; simpl;
    rewrite ?Hm, ?Hf; try (by rewrite Hb); done.
Qed.

Lemma handle_buffer es rest s b : ss_disabled s = false →
  handle es rest (with_buffer b s) = handle es rest s.
Proof. by destruct es. Qed.

Lemma handle_app es es' rest rest' s : ss_disabled s = false →
  handle (es ++ es') rest s =
    let s1 := handle es rest' s in if ss_disabled s1 then s1 else handle es' rest s1.
Proof.
  revert s. induction es as [|e es IH]; intros s Hd; simpl.
  - rewrite Hd. symmetry. by apply handle_buffer.
  - destruct (ss_disabled (handle_event e s)) eqn:He; [by rewrite He|]. by apply IH.
Qed.

Lemma handle_state es rest s : ss_disabled s = false →
  let s' := handle es rest s in
  ss_max s' = ss_max s ∧ ss_finalized s' = ss_finalized s ∧
  (ss_disabled s' = true → ss_buffer s' = []) ∧ (ss_disabled s' = false → ss_buffer s' = rest).
Proof.
  revert s. induction es as [|e es IH]; intros s Hd; simpl; [by rewrite ?Hd|].
  destruct (handle_event_state e s Hd) as (Hm & Hf & Hb).
  destruct (ss_disabled (handle_event e s)) eqn:He; [by rewrite He|].
  destruct (IH _ He) as (Hm' & Hf' & ? & ?). split_and!; congruence || done.
Qed.

(** ** Chunks *)

(** What holds between two calls. *)
Definition sse_ok (s : sse) : Prop :=
  0 < ss_max s ∧ Z.of_nat (length (ss_buffer s)) ≤ ss_max s ∧
  (ss_disabled s = false → search_boundary (ss_buffer s) = None) ∧
  (ss_disabled s = true → ss_buffer s = []).

(** [drain_events], with an exception answered as [observe_bytes] answers it. *)
Definition settle (r : option (bool * sse)) : option sse :=
  match r with
  | None => None
  | Some (raised, s) => Some (if raised then disable s else s)
  end.

Lemma drain_handle n s : ss_disabled s = false →
  (length (ss_buffer s) ≤ n)%nat → Z.of_nat (length (ss_buffer s)) ≤ ss_max s →
  settle (draining n s) = Some (handle (events (ss_buffer s)).1 (events (ss_buffer s)).2 s).
Proof.
  remember (ss_buffer s) as l eqn:Hl. revert n s Hl.
  induction l as [l Hs|l e r Hs IH] using events_ind; intros n s -> Hd Hn Hmax; rewrite events_unfold, Hs.
  - destruct n; simpl; rewrite Hs; simpl; by rewrite with_buffer_same.
  - apply search_length in Hs as Hlen. destruct n as [|n]; [lia|]. simpl. rewrite Hs.
    rewrite (proj2 (Z.ltb_ge _ _)) by (simpl; lia).
    rewrite observe_event_buffer by done. unfold handle_event. rewrite observe_event_buffer by done.
    destruct (observe_event_state e s Hd) as (Hm & _ & Hb & _).
    destruct (one_event e s) as [raised s'] eqn:Ho. simpl in *.
    destruct (ss_disabled s') eqn:Hd'.
    + destruct raised; simpl; unfold disable; rewrite Hd'; simpl; rewrite ?Hd'; done.
    + destruct raised; simpl; unfold disable; simpl; rewrite ?Hd'; simpl; rewrite ?Hd'; [done|].
      rewrite (IH n (with_buffer r s')) by (simpl; (done || lia)). f_equal. by rewrite !handle_buffer.
Qed.

Lemma feed_disabled s p : ss_disabled s = true → foldl feed s p = s.
Proof. revert s. induction p as [|b p IH]; intros s Hd; simpl; [done|]. unfold feed at 2. rewrite Hd. by apply IH. Qed.

(** A piece that fits in the buffer. *)
Lemma feed_piece p s : sse_ok s → ss_disabled s = false →
  Z.of_nat (length (ss_buffer s) + length p) ≤ ss_max s →
  foldl feed s p = handle (events (ss_buffer s ++ p)).1 (events (ss_buffer s ++ p)).2 s.
Proof.
  intros (Hpos & _ & Hsearch & _) Hd. specialize (Hsearch Hd). induction p as [|b p IH] using rev_ind; intros Hlen.
  - rewrite app_nil_r, events_unfold, Hsearch. simpl. by rewrite with_buffer_same.
  - rewrite length_app in Hlen. simpl in Hlen. rewrite foldl_app, IH by lia. simpl.
    rewrite (app_assoc (ss_buffer s)), (events_app (ss_buffer s ++ p) [b]). simpl.
    destruct (events_rest (ss_buffer s ++ p)) as [Hr Hrl]. rewrite length_app in Hrl.
    rewrite (handle_app _ _ _ (events (ss_buffer s ++ p)).2) by done.
    destruct (handle_state (events (ss_buffer s ++ p)).1 (events (ss_buffer s ++ p)).2 s Hd) as (Hm & _ & _ & Hb).
    cbv zeta. unfold feed. destruct (ss_disabled (handle _ _ s)) eqn:Hd'; [done|]. rewrite Hb, Hm by done.
    rewrite (proj2 (Z.leb_gt _ _)) by lia. done.
Qed.

Lemma handle_ok es l s : ss_disabled s = false → 0 < ss_max s →
  search_boundary l = None → Z.of_nat (length l) ≤ ss_max s → sse_ok (handle es l s).
Proof.
  intros Hd Hpos Hl Hlen. destruct (handle_state es l s Hd) as (Hm & _ & Hb1 & Hb2).
  unfold sse_ok. rewrite Hm. destruct (ss_disabled (handle es l s)).
  - rewrite Hb1 by done. split_and!; simpl; (lia || done).
  - rewrite Hb2 by done. split_and!; (lia || done).
Qed.

Lemma loop_feed n chunk s : sse_ok s → ss_disabled s = false → (length chunk ≤ n)%nat →
  settle (looping n chunk s) = Some (foldl feed s chunk) ∧ sse_ok (foldl feed s chunk).
Proof.
  revert chunk s. induction n as [|n IH]; intros chunk s Hok Hd Hn.
  { destruct chunk; [done|simpl in Hn; lia]. }
  destruct chunk as [|b chunk]; [done|]. pose proof Hok as (Hpos & Hlen & Hs & Hb). cbn [Sse.observe_loop].
  destruct (ss_max s - Z.of_nat (length (ss_buffer s)) <=? 0) eqn:Hav.
  - apply Z.leb_le in Hav. simpl foldl.
    assert (Hf : feed s b = disable s) by (unfold feed; by rewrite Hd, (proj2 (Z.leb_le _ _)) by lia).
    rewrite Hf, feed_disabled by (unfold disable; by rewrite Hd). split; [done|]. unfold disable. rewrite Hd.
    split_and!; simpl; (lia || done).
  - apply Z.leb_gt in Hav. set (k := Z.to_nat (ss_max s - Z.of_nat (length (ss_buffer s)))).
    assert (Htl : (length (take k (b :: chunk)) ≤ k)%nat) by (rewrite length_take; lia).
    assert (Hsplit : foldl feed s (b :: chunk) = foldl feed (foldl feed s (take k (b :: chunk))) (drop k (b :: chunk)))
      by by rewrite <- foldl_app, take_drop.
    rewrite Hsplit, (feed_piece (take k (b :: chunk)) s) by (done || lia). clear Hsplit.
    set (s1 := with_buffer (ss_buffer s ++ take k (b :: chunk)) s).
    assert (Hl1 : Z.of_nat (length (ss_buffer s1)) ≤ ss_max s1) by (unfold s1; simpl; rewrite length_app; lia).
    pose proof (drain_handle (length (ss_buffer s1)) s1 Hd (le_n _) Hl1) as Hdr.
    change (ss_buffer s1) with (ss_buffer s ++ take k (b :: chunk)) in Hdr at 2 3. unfold s1 in Hdr at 3.
    rewrite handle_buffer in Hdr by done.
    set (es := events (ss_buffer s ++ take k (b :: chunk))) in *.
    assert (Hhok : sse_ok (handle es.1 es.2 s)).
    { destruct (events_rest (ss_buffer s ++ take k (b :: chunk))) as [? Hl2]. rewrite length_app in Hl2.
      apply handle_ok; try done. unfold es. lia. }
    destruct (draining (length (ss_buffer s1)) s1) as [[raised s2]|]; [|done]. injection Hdr as Hdr.
    rewrite <- Hdr in *. destruct raised.
    + assert (Hdd : ss_disabled (disable s2) = true) by (unfold disable; by destruct (ss_disabled s2) eqn:?).
      rewrite feed_disabled by done. by split.
    + destruct (ss_disabled s2) eqn:Hd2; [by rewrite feed_disabled|].
      apply IH; [done|done|]. rewrite length_drop. simpl in *. unfold k. lia.
Qed.

Lemma observe_feed chunk s : sse_ok s → ss_finalized s = false →
  observing chunk s = Some (foldl feed s chunk) ∧ sse_ok (foldl feed s chunk).
Proof.
  intros Hok Hf. unfold Sse.observe_bytes. rewrite Hf, orb_false_r. destruct (ss_disabled s) eqn:Hd.
  { simpl. by rewrite feed_disabled. }
  simpl. case_bool_decide as Hc; [by subst chunk|].
  destruct (loop_feed (length chunk) chunk s Hok Hd (le_n _)) as [Hl Hok']. split; [|done]. rewrite <- Hl.
  by destruct (looping (length chunk) chunk s) as [[[] ?]|].
Qed.
(** ** Whole streams *)

Fixpoint observe_all (chunks : list bytes) (s : sse) : option sse :=
  match chunks with
  | [] => Some s
  | c :: cs => match observing c s with Some s' => observe_all cs s' | None => None end
  end.

Lemma disable_finalized s : ss_finalized (disable s) = ss_finalized s.
Proof. unfold disable. by destruct (ss_disabled s). Qed.

Lemma feed_finalized p s : ss_finalized (foldl feed s p) = ss_finalized s.
Proof.
  revert s. induction p as [|b p IH]; intros s; simpl; [done|]. rewrite IH. unfold feed.
  destruct (ss_disabled s) eqn:Hd; [done|]. destruct (_ <=? _); [apply disable_finalized|].
  by destruct (handle_state (events (ss_buffer s ++ [b])).1 (events (ss_buffer s ++ [b])).2 s Hd) as (_ & ? & _).
Qed.

Lemma observe_all_feed chunks s : sse_ok s → ss_finalized s = false →
  observe_all chunks s = Some (foldl feed s (concat chunks)) ∧ sse_ok (foldl feed s (concat chunks)).
Proof.
  revert s. induction chunks as [|c cs IH]; intros s Hok Hf; [by split|].
  destruct (observe_feed c s Hok Hf) as [Ho Hok']. cbn [observe_all concat]. rewrite Ho, foldl_app.
  apply IH; [done|]. by rewrite feed_finalized.
Qed.

Lemma sse_init_ok m s0 : sse_init m = inr s0 →
  sse_ok s0 ∧ ss_finalized s0 = false ∧ ss_disabled s0 = false ∧ ss_max s0 = m ∧ ss_buffer s0 = [] ∧ ss_log s0 = [] ∧
  ss_first s0 = false ∧ ss_usage s0 = None.
Proof.
  unfold sse_init. destruct (m <=? 0) eqn:Hm; [done|]. apply Z.leb_gt in Hm. intros [= <-].
  unfold sse_ok. simpl. split_and!; done || lia.
Qed.

Lemma feed_max p s : sse_ok s → ss_max (foldl feed s p) = ss_max s.
Proof.
  revert s. assert (Hf : ∀ s b, ss_max (feed s b) = ss_max s).
  { intros s b. unfold feed. destruct (ss_disabled s) eqn:Hd; [done|]. destruct (_ <=? _); [unfold disable; by rewrite Hd|].
    by destruct (handle_state (events (ss_buffer s ++ [b])).1 (events (ss_buffer s ++ [b])).2 s Hd) as (? & _). }
  induction p as [|b p IH] using rev_ind; intros s Hok; [done|]. rewrite foldl_app. simpl. by rewrite Hf, IH.
Qed.

(** C33: How the transport cuts the stream into chunks does not matter: after the same
    bytes the observer is in the same state, whatever the chunks, it never raises,
    and it never buffers more than the configured number of bytes. *)
Theorem sse_chunking m s0 chunks chunks' :
  sse_init m = inr s0 → concat chunks = concat chunks' →
  ∃ s, observe_all chunks s0 = Some s ∧ observe_all chunks' s0 = Some s ∧
    Z.of_nat (length (ss_buffer s)) ≤ m.
Proof.
  intros Hinit Heq. destruct (sse_init_ok _ _ Hinit) as (Hok & Hf & _ & Hm & _).
  destruct (observe_all_feed chunks s0 Hok Hf) as [Ho (_ & Hlen & _)].
  destruct (observe_all_feed chunks' s0 Hok Hf) as [Ho' _]. rewrite <- Heq in Ho'.
  eexists. split_and!; [done|done|]. by rewrite feed_max, Hm in Hlen.
Qed.

Lemma feed_parts parts es tail s :
  sse_ok s → ss_disabled s = false → ss_buffer s = [] →
  Forall2 (λ part e, search_boundary part = Some (e, []) ∧ Z.of_nat (length part) ≤ ss_max s) parts es →
  search_boundary tail = None → Z.of_nat (length tail) ≤ ss_max s →
  foldl feed s (concat parts ++ tail) = handle es tail s.
Proof.
  intros Hok Hd Hb Hparts Ht Hlen. revert es s Hok Hd Hb Hparts Hlen.
  induction parts as [|part parts IH]; intros es s Hok Hd Hb Hparts Hlen.
  - inversion Hparts; subst. simpl. rewrite feed_piece by (try done; rewrite Hb; simpl; lia).
    rewrite Hb. simpl. by rewrite events_unfold, Ht.
  - apply Forall2_cons_inv_l in Hparts as (e & es' & [Hs Hl] & Hparts & ->).
    cbn [concat]. rewrite <- app_assoc, foldl_app, (feed_piece part s) by (try done; rewrite Hb; simpl; lia).
    rewrite Hb. simpl app. rewrite events_unfold, Hs, events_unfold. simpl.
    destruct (handle_event_state e s Hd) as (Hm & Hf & Hbe).
    destruct (ss_disabled (handle_event e s)) eqn:He; [by apply feed_disabled|].
    rewrite <- (handle_buffer es' tail (handle_event e s) []) by done. apply IH; try done.
    + destruct Hok as (Hpos & _). split_and!; simpl; rewrite ?Hm; (lia || done).
    + eapply Forall2_impl; [exact Hparts|]. intros ? ? []. simpl. rewrite Hm. done.
    + simpl. by rewrite Hm.
Qed.

(** C32: The observer implements the reading of the stream event by event: when the
    bytes are a sequence of events with their terminating blank lines, and an
    unfinished rest, none longer than the limit, then after any chunks of these bytes
    the observer is as after handling the events one by one in order, up to the
    first that disables it. *)
Theorem sse_events m s0 chunks parts es tail :
  sse_init m = inr s0 → concat chunks = concat parts ++ tail →
  Forall2 (λ part e, search_boundary part = Some (e, []) ∧ Z.of_nat (length part) ≤ m) parts es →
  search_boundary tail = None → Z.of_nat (length tail) ≤ m →
  observe_all chunks s0 = Some (handle es tail s0).
Proof.
  intros Hinit Heq Hparts Ht Hlen. destruct (sse_init_ok _ _ Hinit) as (Hok & Hf & Hd & <- & Hb & _).
  destruct (observe_all_feed chunks s0 Hok Hf) as [-> _]. rewrite Heq. by rewrite (feed_parts parts es tail s0).
Qed.

(** ** Accounting *)

Definition count (c : collector) (us : list update) : nat :=
  length (filter (λ u, update_collector u = c) us).

Lemma count_app c us vs : count c (us ++ vs) = (count c us + count c vs)%nat.
Proof. unfold count. by rewrite filter_app, length_app. Qed.

Lemma counter_value_app c ls us vs : counter_value c ls (us ++ vs) = counter_value c ls us + counter_value c ls vs.
Proof.
  unfold counter_value. rewrite foldl_app. generalize (foldl (counter_step c ls) 0 us). intros n.
  revert n. induction vs as [|v vs IH] using rev_ind; intros n; [simpl; lia|].
  rewrite !foldl_app. simpl. rewrite IH. unfold counter_step. destruct v; try lia. case_bool_decide; lia.
Qed.

(** The collectors work as documented. *)
Hypothesis accepts_ok : ∀ u, collectors_accept u = true → accepts u = true.

Lemma attempt_all us : Forall (λ u, collectors_accept u = true) us → attempt accepts us = us.
Proof. intros Hus. apply attempt_accepted. eapply Forall_impl; [exact Hus|]. exact accepts_ok. Qed.

(** What an observer that is not finalized has recorded. *)
Record recorded (s : sse) : Prop := {
  rec_ttft : count TtftObservations (ss_log s) = if ss_first s then 1%nat else 0%nat;
  rec_client : count ClientTtft (ss_log s) = if ss_first s then 1%nat else 0%nat;
  rec_tokens : count TokenAccountingRequests (ss_log s) = 0%nat;
  rec_total : counter_value ObservedOutputTokens ["streaming"%py] (ss_log s) = 0;
  rec_usage : ss_usage s = Some UObserved → ∃ n, ss_tokens s = Some n ∧ 0 ≤ n;
}.

Lemma recorded_same s s' : ss_log s' = ss_log s → ss_first s' = ss_first s → ss_usage s' = ss_usage s →
  ss_tokens s' = ss_tokens s → recorded s → recorded s'.
Proof. intros Hl Hf Hu Ht []. by constructor; rewrite ?Hl, ?Hf, ?Hu, ?Ht. Qed.

Lemma recorded_buffer b s : recorded s → recorded (with_buffer b s).
Proof. by apply recorded_same. Qed.
Lemma recorded_disable s : recorded s → recorded (disable s).
Proof. unfold disable. destruct (ss_disabled s); [done|]. by apply recorded_same. Qed.

Lemma observe_ttft_attempt bid t o : attempt accepts (observe_ttft bid t o) = observe_ttft bid t o.
Proof. apply attempt_all. by destruct o; repeat constructor. Qed.

Lemma recorded_first_content d s : recorded s → recorded (first_content d s).
Proof.
  intros [H1 H2 H3 H4 H5]. unfold observe_first_content. destruct (ss_first s) eqn:Hf; [by constructor; rewrite ?Hf|].
  assert (Hs : recorded s) by (constructor; by rewrite ?Hf).
  destruct (dict_get d "choices"%py) as [[| | | | |cs|]|]; try done. destruct (existsb _ cs); [|done].
  constructor; cbn [record ss_log ss_first ss_usage ss_tokens];
    rewrite ?observe_ttft_attempt, ?count_app, ?counter_value_app, ?H1, ?H2, ?H3, ?H4;
    try done; by destruct upstream_request_started_at.
Qed.

Lemma usage_tokens_nonneg v n : usage_tokens v = Some n → 0 ≤ n.
Proof.
  unfold usage_tokens. destruct v; try done. destruct (dict_get _ _) as [[]|]; try done.
  destruct (z <? 0) eqn:Hz; [done|]. intros [= <-]. by apply Z.ltb_ge.
Qed.

Lemma recorded_usage d s : recorded s → recorded (observe_usage d s).
Proof.
  intros [H1 H2 H3 H4 H5]. unfold observe_usage. destruct (ss_usage s) eqn:Hu; [by constructor; rewrite ?Hu|].
  destruct (dict_get d "usage"%py) as [u|]; [|constructor; by rewrite ?Hu].
  destruct (usage_tokens u) as [n|] eqn:Hn; constructor; simpl; try done.
  intros _. exists n. split; [done|]. by eapply usage_tokens_nonneg.
Qed.

Lemma recorded_event e s : recorded s → recorded (handle_event e s).
Proof.
  intros Hr. unfold handle_event, Sse.observe_event. apply (recorded_buffer []) in Hr.
  destruct (data_lines e) as [|l ls]; [done|]. case_bool_decide; [done|].
  destruct (json_loads _) as [[]|[]]; try (by apply recorded_disable). by apply recorded_usage, recorded_first_content.
Qed.

Lemma recorded_handle es rest s : recorded s → recorded (handle es rest s).
Proof.
  revert s. induction es as [|e es IH]; intros s Hr; simpl; [by apply recorded_buffer|].
  apply (recorded_event e) in Hr. destruct (ss_disabled _); [done|]. by apply IH.
Qed.

Lemma recorded_feed p s : recorded s → recorded (foldl feed s p).
Proof.
  revert s. induction p as [|b p IH]; intros s Hr; simpl; [done|]. apply IH. unfold feed.
  destruct (ss_disabled s); [done|]. destruct (_ <=? _); [by apply recorded_disable|by apply recorded_handle].
Qed.

(** C34: Every stream is accounted for exactly once: when the relay finalizes the
    observer after any bytes, the metrics hold one time-to-first-token result, a
    client observation only if content was seen, one token-accounting record, and
    the authoritative token count if there was one; after that neither more bytes
    nor another call of [finalize] changes anything. *)
Theorem sse_accounting m s0 chunks s :
  sse_init m = inr s0 → observe_all chunks s0 = Some s →
  let s' := finalize accepts s in
  count TtftObservations (ss_log s') = 1%nat ∧
  count ClientTtft (ss_log s') = (if ss_first s then 1%nat else 0%nat) ∧
  count TokenAccountingRequests (ss_log s') = 1%nat ∧
  counter_value ObservedOutputTokens ["streaming"%py] (ss_log s') =
    match ss_usage s with Some UObserved => default 0 (ss_tokens s) | _ => 0 end ∧
  finalize accepts s' = s' ∧ ∀ chunk, observing chunk s' = Some s'.
Proof.
  intros Hinit Ho s'. destruct (sse_init_ok _ _ Hinit) as (Hok & Hf & _ & _ & _ & Hlog & Hfirst & Hus).
  destruct (observe_all_feed chunks s0 Hok Hf) as [Ho' _]. rewrite Ho in Ho'. injection Ho' as Hs.
  assert (Hr : recorded s).
  { rewrite Hs. apply recorded_feed. constructor; rewrite ?Hlog, ?Hfirst, ?Hus; done. }
  assert (Hfs : ss_finalized s = false) by (by rewrite Hs, feed_finalized).
  assert (Hfin : ss_finalized s' = true).
  { unfold s', finalize. rewrite Hfs. simpl. destruct (ss_first s), (ss_usage s) as [[]|], (ss_disabled s); done. }
  destruct Hr as [H1 H2 H3 H4 H5].
  assert (Hlog' : ss_log s' = (ss_log s ++ (if ss_first s then [] else record_missing_ttft)) ++
    match ss_usage s with
    | Some UObserved => record_token_accounting MStreaming AObserved (ss_tokens s)
    | Some UInvalid => record_token_accounting MStreaming AInvalid None
    | _ => record_token_accounting MStreaming (if ss_disabled s then AInvalid else AMissing) None
    end).
  { unfold s', finalize. rewrite Hfs. cbn [record with_buffer ss_log ss_first ss_usage ss_tokens ss_disabled ss_finalized].
    assert (Ha : attempt accepts record_missing_ttft = record_missing_ttft) by (apply attempt_all; by repeat constructor).
    assert (Hi : ∀ r, attempt accepts (record_token_accounting MStreaming r None) = record_token_accounting MStreaming r None).
    { intros r. apply attempt_all. destruct r; by repeat constructor. }
    destruct (ss_usage s) as [[]|] eqn:Hu.
    - destruct H5 as (n & Hn & Hpos); [done|]. rewrite Hn.
      assert (Hi' : attempt accepts (record_token_accounting MStreaming AObserved (Some n)) = record_token_accounting MStreaming AObserved (Some n)).
      { apply attempt_all. by apply typed_accounting. }
      destruct (ss_first s); cbn [record with_buffer ss_log ss_first ss_usage ss_tokens ss_disabled ss_finalized]; rewrite ?Hn, ?Hi', ?Ha, ?app_nil_r; done.
    - destruct (ss_first s), (ss_disabled s); cbn [record with_buffer ss_log ss_first ss_usage ss_tokens ss_disabled ss_finalized]; rewrite ?Hi, ?Ha, ?app_nil_r; done.
    - destruct (ss_first s), (ss_disabled s); cbn [record with_buffer ss_log ss_first ss_usage ss_tokens ss_disabled ss_finalized]; rewrite ?Hi, ?Ha, ?app_nil_r; done.
    - destruct (ss_first s), (ss_disabled s); cbn [record with_buffer ss_log ss_first ss_usage ss_tokens ss_disabled ss_finalized]; rewrite ?Hi, ?Ha, ?app_nil_r; done. }
  rewrite Hlog'. rewrite !count_app, !counter_value_app, H1, H2, H3, H4.
  split_and!.
  - by destruct (ss_first s), (ss_usage s) as [[]|], (ss_disabled s), (ss_tokens s).
  - by destruct (ss_first s), (ss_usage s) as [[]|], (ss_disabled s), (ss_tokens s).
  - by destruct (ss_first s), (ss_usage s) as [[]|], (ss_disabled s), (ss_tokens s).
  - destruct (ss_usage s) as [[]|]; [destruct H5 as (n & -> & _); [done|]| | |]; by destruct (ss_first s), (ss_disabled s).
  - unfold finalize at 1. by rewrite Hfin.
  - intros chunk. unfold Sse.observe_bytes. by rewrite Hfin, orb_true_r.
Qed.
End observer.

(** ** A stream with content and usage *)

#[local] Existing Instance plain_floats.
Definition demo_loads : bytes → json_failure + pyval := sse_loads plain_float_parse 100.
Definition demo_content : pyval := VDict [("choices", VList [VDict [("delta", VDict [("content", VStr "x")])]])]%py.
Definition demo_usage : pyval := VDict [("usage", VDict [("completion_tokens", VInt 7)])]%py.
Definition demo_events : list bytes :=
  [ascii_bytes "data: " ++ json_encode demo_content; ascii_bytes "data:" ++ json_encode demo_usage; ascii_bytes "data: [DONE]"].
Definition demo_parts : list bytes := (λ e, e ++ [LF; LF]) <$> demo_events.
(** The same bytes one by one. *)
Definition demo_bytes : list bytes := (λ b, [b]) <$> concat demo_parts.
Definition demo_sse : sse := Sse 64 [] false None None false false 0 [].
Definition demo_clock_sse (n : nat) : Z := 10 + Z.of_nat n.

Lemma sse_chunking_witness :
  ∃ s, observe_all demo_loads collectors_accept demo_clock_sse 3 (Some "b"%py) (Some 5) demo_bytes demo_sse = Some s ∧
    observe_all demo_loads collectors_accept demo_clock_sse 3 (Some "b"%py) (Some 5) demo_parts demo_sse = Some s.
Proof.
  destruct (sse_chunking demo_loads collectors_accept demo_clock_sse 3 (Some "b"%py) (Some 5) 64 demo_sse demo_bytes demo_parts
              eq_refl eq_refl) as (s & H1 & H2 & _).
  exists s. split; [exact H1|exact H2].
Defined.

Lemma sse_events_witness :
  observe_all demo_loads collectors_accept demo_clock_sse 3 (Some "b"%py) (Some 5) demo_bytes demo_sse =
    Some (handle demo_loads collectors_accept demo_clock_sse 3 (Some "b"%py) (Some 5) demo_events [] demo_sse).
Proof.
  apply (sse_events demo_loads collectors_accept demo_clock_sse 3 (Some "b"%py) (Some 5) 64 demo_sse demo_bytes demo_parts
           demo_events []); [reflexivity|reflexivity| |reflexivity|discriminate].
  repeat constructor; discriminate.
Defined.

Lemma sse_accounting_witness :
  ∃ s, observe_all demo_loads collectors_accept demo_clock_sse 3 (Some "b"%py) (Some 5) demo_bytes demo_sse = Some s ∧
    counter_value ObservedOutputTokens ["streaming"%py] (ss_log (finalize collectors_accept s)) = 7.
Proof.
  destruct (observe_all demo_loads collectors_accept demo_clock_sse 3 (Some "b"%py) (Some 5) demo_bytes demo_sse) as [s|] eqn:Hs;
    [|vm_compute in Hs; discriminate Hs].
  exists s. split; [reflexivity|].
  destruct (sse_accounting demo_loads collectors_accept demo_clock_sse 3 (Some "b"%py) (Some 5) (λ _ Hu, Hu) 64 demo_sse
              demo_bytes s eq_refl Hs) as (_ & _ & _ & Ht & _).
  rewrite Ht. vm_compute in Hs. injection Hs as <-. reflexivity.
Defined.
