(* ===== verification/Relay.v ===== *)
(** gateway/streaming/relay.py: the relay of an opened backend stream, and the HTTP
    response that owns it.

    Two tasks use a relay: the one that iterates it, and the one that runs the
    response.  They meet in [aclose], whose lock is held while the backend stream is
    being closed; everything else between two awaits is one atomic step. *)
From S2P Require Import Prelude.
From S2P Require Import Python.
From S2P Require Import Errors.
From S2P Require Import Metrics.
From S2P Require Import Batching.
From S2P Require Import Sse.

(** * State *)

Inductive stream_outcome := Completed | StreamCancelled | UpstreamError.

#[export] Instance stream_outcome_eq_dec : EqDecision stream_outcome.
Proof. solve_decision. Defined.

(** Who calls [aclose]: the generator [_iterate], or [SSEStreamingResponse.__call__]. *)
Inductive caller := ByIterator | ByResponse.

#[export] Instance caller_eq_dec : EqDecision caller.
Proof. solve_decision. Defined.

(** The generator: waiting for the backend's next chunk, suspended at its [yield], in
    [aclose], or finished. *)
Inductive iterator_state := IterAwaiting | IterYielded | IterClosing | IterDone.

(** The response: sending, in the [aclose] of an [except] clause, in that of the
    [finally] clause, or finished. *)
Inductive response_state := Sending | Handling | Finalizing | Returned.

(** [StreamingRelay] with its surroundings.  [rl_holder]: who holds [_close_lock], with
    the outcome it passed; [rl_waiting]: who waits for it; [rl_closes] and
    [rl_releases]: the calls of [backend_stream.aclose] and [lease.release];
    [rl_outcomes]: those told to [on_outcome]; [rl_sent]: the chunks yielded. *)
Record relay := Relay {
  rl_observer : option sse;
  rl_closed : bool;
  rl_holder : option (caller * stream_outcome);
  rl_waiting : list caller;
  rl_iterator : iterator_state;
  rl_response : response_state;
  rl_closes : nat;
  rl_releases : nat;
  rl_outcomes : list stream_outcome;
  rl_sent : list bytes;
}.

Definition relay_init (observer : option sse) : relay :=
  Relay observer false None [] IterAwaiting Sending 0 0 [] [].

Definition with_iterator (i : iterator_state) (r : relay) : relay :=
  Relay (rl_observer r) (rl_closed r) (rl_holder r) (rl_waiting r) i (rl_response r) (rl_closes r)
    (rl_releases r) (rl_outcomes r) (rl_sent r).
Definition with_response (q : response_state) (r : relay) : relay :=
  Relay (rl_observer r) (rl_closed r) (rl_holder r) (rl_waiting r) (rl_iterator r) q (rl_closes r)
    (rl_releases r) (rl_outcomes r) (rl_sent r).
Definition with_lock (h : option (caller * stream_outcome)) (w : list caller) (r : relay) : relay :=
  Relay (rl_observer r) (rl_closed r) h w (rl_iterator r) (rl_response r) (rl_closes r)
    (rl_releases r) (rl_outcomes r) (rl_sent r).

(** ** aclose *)

(** [aclose] up to its first suspension: waiting for the lock, returning because the
    relay is closed (the result is true), or calling the backend stream's [aclose]. *)
Definition aclose_enter (c : caller) (outcome : stream_outcome) (r : relay) : bool * relay :=
  match rl_holder r with
  | Some _ => (false, with_lock (rl_holder r) (rl_waiting r ++ [c]) r)
  | None =>
      if rl_closed r then (true, r) else
      (false, Relay (rl_observer r) true (Some (c, outcome)) (rl_waiting r) (rl_iterator r) (rl_response r)
                (S (rl_closes r)) (rl_releases r) (rl_outcomes r) (rl_sent r))
  end.

(** What follows [aclose] in its caller: the generator ends, as the relay is closed;
    the response goes on to its [finally] clause, or returns. *)
Definition response_closes (r : relay) : relay :=
  let '(done, r) := aclose_enter ByResponse StreamCancelled (with_response Finalizing r) in
  if done then with_response Returned r else r.
Definition after_aclose (c : caller) (r : relay) : relay :=
  match c with
  | ByIterator => with_iterator IterDone r
  | ByResponse =>
      match rl_response r with
      | Handling => response_closes r
      | _ => with_response Returned r
      end
  end.
Definition aclose_from (c : caller) (outcome : stream_outcome) (r : relay) : relay :=
  let '(done, r) := aclose_enter c outcome r in
  if done then after_aclose c r else r.

Section relay.
Variable json_loads : bytes → json_failure + pyval.
Variable accepts : update → bool.
Variable clock : nat → Z.
Variable request_started_at : Z.
Variable backend_id : option pystr.
Variable upstream_request_started_at : option Z.

Abbreviation observing := (observe_bytes json_loads accepts clock request_started_at backend_id
                                 upstream_request_started_at).

(** The rest of [aclose] once the backend stream's [aclose] has ended with
    [failure]: an [Exception] is logged and changes the outcome, the lease is
    released in any case, and another [BaseException] skips the notifications. *)
Definition aclose_end (failure : option exn) (r : relay) : relay :=
  match rl_holder r with
  | None => r
  | Some (c, outcome) =>
      let skipped := match failure with Some e => negb (is_exception e) | None => false end in
      let final_outcome := match failure with Some _ => UpstreamError | None => outcome end in
      after_aclose c
        (Relay (if skipped then rl_observer r else finalize accepts <$> rl_observer r)
           (rl_closed r) None (rl_waiting r) (rl_iterator r) (rl_response r) (rl_closes r)
           (S (rl_releases r))
           (if skipped then rl_outcomes r else rl_outcomes r ++ [final_outcome])
           (rl_sent r))
  end.

(** ** The generator *)

(** A chunk is copied to the observer, whose failures are swallowed, and yielded. *)
Definition relay_chunk (chunk : bytes) (r : relay) : relay :=
  Relay (match rl_observer r with
         | Some o => Some (default o (observing chunk o))
         | None => None
         end)
    (rl_closed r) (rl_holder r) (rl_waiting r) IterYielded (rl_response r) (rl_closes r) (rl_releases r)
    (rl_outcomes r) (rl_sent r ++ [chunk]).

(** How the [async for] or the [yield] is left: at the end of the stream, or by an
    exception raised by the backend stream or thrown into the generator. *)
Definition iterator_ends (e : option exn) (r : relay) : relay :=
  match e with
  | None => aclose_from ByIterator Completed (with_iterator IterClosing r)
  | Some CancelledError => aclose_from ByIterator StreamCancelled (with_iterator IterClosing r)
  | Some e =>
      if is_exception e then aclose_from ByIterator UpstreamError (with_iterator IterClosing r)
      else if rl_closed r then with_iterator IterDone r   (* the [finally] clause *)
      else aclose_from ByIterator StreamCancelled (with_iterator IterClosing r)
  end.

(** ** Events

    [RlChunk c], [RlEnds e]: the backend stream yields, ends or raises; [RlNext]: the
    next chunk is asked for; [RlThrow e]: an exception is thrown in at the [yield];
    [RlResponse handled]: the transport ends, with [ClientDisconnect] or a
    cancellation when [handled]; [RlClosed f]: the backend stream's [aclose] ends;
    [RlWake c], [RlWaitCancelled c]: a waiting call of [aclose] gets the lock or is
    cancelled. *)
Inductive rlevent :=
| RlChunk (chunk : bytes)
| RlNext
| RlEnds (e : option exn)
| RlThrow (e : exn)
| RlResponse (handled : bool)
| RlClosed (failure : option exn)
| RlWake (c : caller)
| RlWaitCancelled (c : caller).

Definition unwait (c : caller) (r : relay) : relay :=
  with_lock (rl_holder r) (filter (λ c', c' ≠ c) (rl_waiting r)) r.

Definition rlexec (ev : rlevent) (r : relay) : option relay :=
  match ev with
  | RlChunk chunk =>
      match rl_iterator r with IterAwaiting => Some (relay_chunk chunk r) | _ => None end
  | RlNext =>
      match rl_iterator r with IterYielded => Some (with_iterator IterAwaiting r) | _ => None end
  | RlEnds e =>
      match rl_iterator r with IterAwaiting => Some (iterator_ends e r) | _ => None end
  | RlThrow e =>
      match rl_iterator r with IterYielded => Some (iterator_ends (Some e) r) | _ => None end
  | RlResponse handled =>
      match rl_response r with
      | Sending =>
          Some (if handled : bool then aclose_from ByResponse StreamCancelled (with_response Handling r)
                else response_closes r)
      | _ => None
      end
  | RlClosed failure =>
      match rl_holder r with Some _ => Some (aclose_end failure r) | None => None end
  | RlWake c =>
      match rl_holder r with
      | None => if bool_decide (c ∈ rl_waiting r) then Some (after_aclose c (unwait c r)) else None
      | Some _ => None
      end
  | RlWaitCancelled c =>
      if bool_decide (c ∈ rl_waiting r) then Some (after_aclose c (unwait c r)) else None
  end.

Inductive rlreachable (r0 : relay) : relay → Prop :=
| rlreachable_init : rlreachable r0 r0
| rlreachable_step r ev r' : rlreachable r0 r → rlexec ev r = Some r' → rlreachable r0 r'.
End relay.
