(* ===== verification/RelayTheorems.v ===== *)
(** The relay cleans up exactly once and passes the stream through unchanged. *)
From S2P Require Import Prelude.
From S2P Require Import Python.
From S2P Require Import Errors.
From S2P Require Import Metrics.
From S2P Require Import Batching.
From S2P Require Import Sse.
From S2P Require Import SseTheorems.
From S2P Require Import Relay.

(** * Phases *)

Definition not_closing (i : iterator_state) : bool := match i with IterClosing => false | _ => true end.
Definition in_aclose (q : response_state) : bool := match q with Handling | Finalizing => true | _ => false end.

(** Which callers are inside [aclose], holding its lock or waiting for it. *)
Definition phase_ok (closed : bool) (holder : option caller) (waiting : list caller) (i : iterator_state)
    (q : response_state) : bool :=
  match closed, holder, waiting with
  | false, None, [] => match i, q with (IterAwaiting | IterYielded), Sending => true | _, _ => false end
  | true, Some ByIterator, [] => negb (not_closing i) && negb (in_aclose q)
  | true, Some ByIterator, [ByResponse] => negb (not_closing i) && in_aclose q
  | true, Some ByResponse, [] => not_closing i && in_aclose q
  | true, Some ByResponse, [ByIterator] => negb (not_closing i) && in_aclose q
  | true, None, [] => not_closing i && negb (in_aclose q)
  | true, None, [ByResponse] => not_closing i && in_aclose q
  | true, None, [ByIterator] => negb (not_closing i) && negb (in_aclose q)
  | _, _, _ => false
  end.

Definition holder_of (r : relay) : option caller := fst <$> rl_holder r.

Record rlinv (r : relay) : Prop := {
  ri_phase : phase_ok (rl_closed r) (holder_of r) (rl_waiting r) (rl_iterator r) (rl_response r) = true;
  ri_closes : rl_closes r = Nat.b2n (rl_closed r);
  ri_releases : rl_releases r =
    match rl_holder r with Some _ => 0%nat | None => Nat.b2n (rl_closed r) end;
  ri_outcomes : (length (rl_outcomes r) ≤ rl_releases r)%nat;
}.

(** The finitely many phases, and the invariant in each, by computation. *)
Ltac phases r Hp :=
  destruct r as [obs cl h w i q n_closes n_releases outs sent]; unfold holder_of in Hp; cbn [rl_closed rl_holder rl_waiting
    rl_iterator rl_response rl_closes rl_releases rl_outcomes] in *;
  destruct cl, h as [[[] ?]|], w as [|[] [|? ?]]; try discriminate Hp; destruct i, q; try discriminate Hp.
Ltac phase_done := constructor; cbn in *; try reflexivity; rewrite ?length_app; cbn; lia.

Section relay.
Variable json_loads : bytes → json_failure + pyval.
Variable accepts : update → bool.
Variable clock : nat → Z.
Variable request_started_at : Z.
Variable backend_id : option pystr.
Variable upstream_request_started_at : option Z.

Abbreviation stepping := (rlexec json_loads accepts clock request_started_at backend_id upstream_request_started_at).
Abbreviation reaching := (rlreachable json_loads accepts clock request_started_at backend_id
                               upstream_request_started_at).

Lemma rlinv_end e r : rlinv r → rl_iterator r = IterAwaiting ∨ rl_iterator r = IterYielded →
  rlinv (iterator_ends e r).
Proof.
  intros [Hp Hc Hr Ho] Hi.
  assert (H : ∀ o, rlinv (aclose_from ByIterator o (with_iterator IterClosing r))).
  { intros outcome. phases r Hp; destruct Hi as [Hi|Hi]; try discriminate Hi; phase_done. }
  unfold iterator_ends. destruct e as [e|]; [|by apply H].
  destruct e; try apply H; cbn [is_exception]; destruct (rl_closed r) eqn:Hcl; try apply H.
  all: phases r Hp; destruct Hi as [Hi|Hi]; try discriminate Hi; phase_done.
Qed.

Lemma rlexec_inv ev r r' : rlinv r → stepping ev r = Some r' → rlinv r'.
Proof.
  intros Hinv. pose proof Hinv as [Hp Hc Hr Ho]. destruct ev as [chunk| |e|e|handled|failure|c|c]; cbn [Relay.rlexec].
  - clear Hinv. phases r Hp; intros Hex; try discriminate Hex; injection Hex as <-; phase_done.
  - clear Hinv. phases r Hp; intros Hex; try discriminate Hex; injection Hex as <-; phase_done.
  - destruct (rl_iterator r) eqn:Hi; try done. intros [= <-]. apply rlinv_end; auto.
  - destruct (rl_iterator r) eqn:Hi; try done. intros [= <-]. apply (rlinv_end (Some e)); auto.
  - destruct (rl_response r) eqn:Hq; try done. intros [= <-]. clear Hinv.
    phases r Hp; try discriminate Hq; destruct handled; phase_done.
  - destruct (rl_holder r) as [[c o]|] eqn:Hh; [|done]. intros [= <-]. clear Hinv. unfold aclose_end. rewrite Hh.
    destruct failure as [e|]; [destruct (is_exception e)|];
      phases r Hp; try discriminate Hh; injection Hh as <- <-; phase_done.
  - destruct (rl_holder r) eqn:Hh; [done|]. case_bool_decide as Hin; [|done]. intros [= <-]. clear Hinv.
    destruct c; phases r Hp; try discriminate Hh; try (by apply elem_of_nil in Hin);
      try (by apply list_elem_of_singleton in Hin); phase_done.
  - case_bool_decide as Hin; [|done]. intros [= <-]. clear Hinv.
    destruct c; phases r Hp; try (by apply elem_of_nil in Hin);
      try (by apply list_elem_of_singleton in Hin); phase_done.
Qed.

Lemma rlreachable_inv o r : reaching (relay_init o) r → rlinv r.
Proof. induction 1; [by constructor|by eapply rlexec_inv]. Qed.

(** C11: The relay cleans up exactly once, however its two tasks interleave, and
    however the stream ends: the backend stream is closed, the lease released and the
    outcome reported at most once; once the generator has finished or the response
    has returned, closing the backend stream has begun, and whenever it has ended, in
    whatever way, the lease is released; and who is inside [aclose] gets out: it
    holds the lock until the backend stream is closed, or can take it when it is free. *)
Theorem relay_cleanup o r :
  reaching (relay_init o) r →
  (rl_closes r ≤ 1)%nat ∧ (rl_releases r ≤ rl_closes r)%nat ∧ (length (rl_outcomes r) ≤ rl_releases r)%nat ∧
  (rl_iterator r = IterDone ∨ rl_response r = Returned → rl_closes r = 1%nat) ∧
  (rl_holder r = None → rl_releases r = rl_closes r) ∧
  (∀ c out f, rl_holder r = Some (c, out) →
     ∃ r', stepping (RlClosed f) r = Some r' ∧ rl_holder r' = None ∧ rl_releases r' = 1%nat) ∧
  (rl_iterator r = IterClosing → rl_holder r = None → is_Some (stepping (RlWake ByIterator) r)) ∧
  (rl_response r = Handling ∨ rl_response r = Finalizing → rl_holder r = None →
     is_Some (stepping (RlWake ByResponse) r)).
Proof.
  intros Hr. destruct (rlreachable_inv _ _ Hr) as [Hp Hc Hrel Ho]. rewrite Hc, Hrel in *. clear Hr.
  cbn [Relay.rlexec]. split_and!.
  - by destruct (rl_closed r); simpl; lia.
  - destruct (rl_holder r); simpl; lia.
  - done.
  - phases r Hp; intros [Hx|Hx]; done.
  - by intros ->.
  - intros c out f Hh. rewrite Hh in *. eexists. split; [done|]. unfold aclose_end. rewrite Hh.
    phases r Hp; try discriminate Hh; injection Hh as <- <-; cbn in *; subst; done.
  - phases r Hp; intros Hx Hh; try done; try discriminate Hx; cbn; by eexists.
  - phases r Hp; intros [Hx|Hx] Hh; try done; try discriminate Hx; cbn; by eexists.
Qed.

(** ** Transparency *)

Fixpoint rlrun (evs : list rlevent) (r : relay) : option relay :=
  match evs with
  | [] => Some r
  | ev :: evs => match stepping ev r with Some r' => rlrun evs r' | None => None end
  end.
Definition chunk_of (ev : rlevent) : option bytes :=
  match ev with RlChunk chunk => Some chunk | _ => None end.

(** Everything but a chunk and the end of a close leaves the observer alone. *)
Lemma aclose_from_seen c out r :
  rl_observer (aclose_from c out r) = rl_observer r ∧ rl_sent (aclose_from c out r) = rl_sent r.
Proof.
  unfold aclose_from, aclose_enter, after_aclose, response_closes, aclose_enter. simpl.
  destruct (rl_holder r) eqn:Hh; [done|]. destruct (rl_closed r) eqn:Hcl; [|done].
  destruct c; [done|]. destruct (rl_response r); simpl; rewrite ?Hh, ?Hcl; done.
Qed.

Lemma response_closes_seen r :
  rl_observer (response_closes r) = rl_observer r ∧ rl_sent (response_closes r) = rl_sent r.
Proof.
  unfold response_closes, aclose_enter. simpl. destruct (rl_holder r); [done|]. by destruct (rl_closed r).
Qed.

Lemma after_aclose_seen c r :
  rl_observer (after_aclose c r) = rl_observer r ∧ rl_sent (after_aclose c r) = rl_sent r.
Proof. destruct c; [done|]. simpl. destruct (rl_response r); try done. apply response_closes_seen. Qed.

Lemma rlexec_seen ev r r' : stepping ev r = Some r' →
  match ev with
  | RlChunk chunk => rl_sent r' = rl_sent r ++ [chunk] ∧
      rl_observer r' = (λ o, default o (observe_bytes json_loads accepts clock request_started_at backend_id
                                          upstream_request_started_at chunk o)) <$> rl_observer r
  | _ => rl_sent r' = rl_sent r ∧
      (rl_observer r' = rl_observer r ∨ rl_observer r' = finalize accepts <$> rl_observer r)
  end.
Proof.
  destruct ev as [chunk| |e|e|handled|failure|c|c]; cbn [Relay.rlexec].
  - destruct (rl_iterator r); try done. intros [= <-]. simpl. by destruct (rl_observer r).
  - destruct (rl_iterator r); try done. intros [= <-]. auto.
  - destruct (rl_iterator r); try done. intros [= <-]. unfold iterator_ends.
    destruct (aclose_from_seen ByIterator Completed (with_iterator IterClosing r)) as [? ?].
    destruct (aclose_from_seen ByIterator StreamCancelled (with_iterator IterClosing r)) as [? ?].
    destruct (aclose_from_seen ByIterator UpstreamError (with_iterator IterClosing r)) as [? ?].
    destruct e as [e|]; [destruct e; simpl is_exception; cbn iota; try destruct (rl_closed r)|]; auto.
  - destruct (rl_iterator r); try done. intros [= <-]. unfold iterator_ends.
    destruct (aclose_from_seen ByIterator StreamCancelled (with_iterator IterClosing r)) as [? ?].
    destruct (aclose_from_seen ByIterator UpstreamError (with_iterator IterClosing r)) as [? ?].
    destruct e; simpl is_exception; cbn iota; try destruct (rl_closed r); auto.
  - destruct (rl_response r); try done. intros [= <-]. destruct handled.
    + destruct (aclose_from_seen ByResponse StreamCancelled (with_response Handling r)). auto.
    + destruct (response_closes_seen r). auto.
  - destruct (rl_holder r) as [[c out]|] eqn:Hh; [|done]. intros [= <-]. unfold aclose_end. rewrite Hh.
    match goal with |- context [after_aclose ?c ?r] => destruct (after_aclose_seen c r) as [-> ->] end. simpl.
    destruct (match failure with Some _ => _ | None => _ end); auto.
  - destruct (rl_holder r); [done|]. case_bool_decide; [|done]. intros [= <-].
    destruct (after_aclose_seen c (unwait c r)). auto.
  - case_bool_decide; [|done]. intros [= <-]. destruct (after_aclose_seen c (unwait c r)). auto.
Qed.

Lemma finalize_finalized s : ss_finalized (finalize accepts s) = true.
Proof.
  unfold finalize. destruct (ss_finalized s) eqn:Hf; [done|]. simpl.
  by destruct (ss_first s), (ss_usage s) as [[]|], (ss_disabled s).
Qed.
Lemma finalize_twice s : finalize accepts (finalize accepts s) = finalize accepts s.
Proof. unfold finalize at 1. by rewrite finalize_finalized. Qed.

(** What the observer, which was [s0], has seen of the chunks. *)
Definition seen_ok (s0 : sse) (r : relay) : Prop :=
  ∃ seen s, seen `prefix_of` rl_sent r ∧
    observe_all json_loads accepts clock request_started_at backend_id upstream_request_started_at seen s0 = Some s ∧
    (rl_observer r = Some s ∧ seen = rl_sent r ∨ rl_observer r = Some (finalize accepts s)).

Lemma seen_chunk m s0 r chunk r' : sse_init m = inr s0 → seen_ok s0 r → stepping (RlChunk chunk) r = Some r' → seen_ok s0 r'.
Proof.
  intros Hinit (seen & s & Hpre & Hall & Hobs) He. destruct (sse_init_ok _ _ Hinit) as (Hok & Hf & _).
  apply rlexec_seen in He as [Hsent He]. destruct Hobs as [[Ho ->]|Ho]; rewrite Ho in He; simpl in He.
  - pose proof (observe_all_feed json_loads accepts clock request_started_at backend_id
                  upstream_request_started_at) as Hfeed.
    destruct (Hfeed (rl_sent r) s0 Hok Hf) as [Ha Hok1].
    rewrite Hall in Ha. injection Ha as Hs. rewrite <- Hs in Hok1.
    assert (Hf1 : ss_finalized s = false) by (by rewrite Hs, feed_finalized).
    destruct (observe_feed json_loads accepts clock request_started_at backend_id
                upstream_request_started_at chunk s Hok1 Hf1) as [Hob _].
    rewrite Hob in He. eexists _, _. split; [reflexivity|]. split; [|left; split; [exact He|reflexivity]].
    rewrite Hsent. destruct (Hfeed (rl_sent r ++ [chunk]) s0 Hok Hf) as [-> _].
    rewrite concat_app, foldl_app, <- Hs. simpl. by rewrite app_nil_r.
  - exists seen, s. rewrite Hsent. split_and!; [by apply prefix_app_r|done|]. right. rewrite He.
    unfold Sse.observe_bytes. by rewrite finalize_finalized, orb_true_r.
Qed.

Lemma seen_step m s0 ev r r' : sse_init m = inr s0 → seen_ok s0 r → stepping ev r = Some r' →
  rl_sent r' = rl_sent r ++ omap chunk_of [ev] ∧ seen_ok s0 r'.
Proof.
  intros Hinit Hseen He. split.
  { apply rlexec_seen in He. destruct ev; destruct He as [-> _]; simpl; by rewrite ?app_nil_r. }
  destruct ev; [by eapply seen_chunk|..]; apply rlexec_seen in He as [Hsent He];
    destruct Hseen as (seen & s & Hpre & Hall & Hobs); exists seen, s; rewrite Hsent;
    (split_and!; [done|done|]); destruct He as [->| ->]; try done;
    destruct Hobs as [[-> _]| ->]; right; simpl; rewrite ?finalize_twice; done.
Qed.

Lemma seen_run m s0 evs r r' : sse_init m = inr s0 → seen_ok s0 r → rlrun evs r = Some r' →
  rl_sent r' = rl_sent r ++ omap chunk_of evs ∧ seen_ok s0 r'.
Proof.
  intros Hinit. revert r. induction evs as [|ev evs IH]; intros r Hseen; cbn [rlrun].
  { intros [= <-]. simpl. by rewrite app_nil_r. }
  destruct (stepping ev r) as [r1|] eqn:He; [|done]. intros Hrun.
  destruct (seen_step _ _ _ _ _ Hinit Hseen He) as [Hsent Hseen1].
  destruct (IH r1 Hseen1 Hrun) as [-> Hfin]. split; [|done].
  rewrite Hsent, <- app_assoc. simpl. by destruct (chunk_of ev).
Qed.

(** C35: The relay is transparent: the chunks it yields are exactly those of the backend
    stream, in order, whatever the observer does with their copies, and the observer
    has seen a prefix of them, all of them as long as it is not finalized. *)
Theorem relay_transparent m s0 evs r :
  sse_init m = inr s0 → rlrun evs (relay_init (Some s0)) = Some r →
  rl_sent r = omap chunk_of evs ∧
  ∃ seen s, seen `prefix_of` rl_sent r ∧
    observe_all json_loads accepts clock request_started_at backend_id upstream_request_started_at seen s0 = Some s ∧
    (rl_observer r = Some s ∧ seen = rl_sent r ∨ rl_observer r = Some (finalize accepts s)).
Proof.
  intros Hinit Hrun. apply (seen_run _ _ _ _ _ Hinit) in Hrun; [done|].
  exists [], s0. split_and!; [done|done|by left].
Qed.
End relay.

(** ** The client disconnects while the backend stream ends *)

Definition demo_relay_events : list rlevent :=
  [RlChunk (ascii_bytes "data: C"); RlNext; RlEnds None; RlResponse true; RlClosed None; RlWake ByResponse].
Abbreviation demo_rlrun evs :=
  (rlrun demo_loads collectors_accept demo_clock_sse 3 None None evs (relay_init (Some demo_sse))).

Lemma rlrun_reachable evs r r' :
  rlreachable demo_loads collectors_accept demo_clock_sse 3 None None (relay_init (Some demo_sse)) r →
  rlrun demo_loads collectors_accept demo_clock_sse 3 None None evs r = Some r' →
  rlreachable demo_loads collectors_accept demo_clock_sse 3 None None (relay_init (Some demo_sse)) r'.
Proof.
  revert r. induction evs as [|ev evs IH]; intros r Hr; cbn [rlrun]; [by intros [= <-]|].
  destruct (rlexec demo_loads collectors_accept demo_clock_sse 3 None None ev r) as [r1|] eqn:He; [|done].
  apply IH. by eapply rlreachable_step.
Qed.

Lemma relay_cleanup_witness :
  ∃ r, demo_rlrun demo_relay_events = Some r ∧ rl_response r = Returned ∧ rl_closes r = 1%nat ∧ rl_releases r = rl_closes r.
Proof.
  destruct (demo_rlrun demo_relay_events) as [r|] eqn:Hr; [|vm_compute in Hr; discriminate Hr].
  assert (Hq : rl_response r = Returned ∧ rl_holder r = None) by (vm_compute in Hr; injection Hr as <-; done).
  destruct Hq as [Hq Hh].
  assert (Hre := rlrun_reachable _ _ _ (rlreachable_init _ _ _ _ _ _ _) Hr).
  destruct (relay_cleanup _ _ _ _ _ _ _ _ Hre) as (_ & _ & _ & Hone & Hrel & _).
  exists r. split; [reflexivity|]. split; [exact Hq|]. split; [by apply Hone; right|by apply Hrel].
Defined.

Lemma relay_transparent_witness :
  ∃ r, demo_rlrun demo_relay_events = Some r ∧ rl_sent r = [ascii_bytes "data: C"].
Proof.
  destruct (demo_rlrun demo_relay_events) as [r|] eqn:Hr; [|vm_compute in Hr; discriminate Hr].
  exists r. split; [reflexivity|].
  destruct (relay_transparent demo_loads collectors_accept demo_clock_sse 3 None None 64 demo_sse demo_relay_events r eq_refl Hr)
    as [Hs _].
  exact Hs.
Defined.
