(* ===== verification/Endpoint.v ===== *)
(** gateway/api/chat.py: the chat-completion endpoint, from the request's headers and
    its validated body to the response, over the admission controller, the batcher
    and the backend.  What these answer is a parameter; the calls made to them are
    recorded in order. *)
From S2P Require Import Prelude.
From S2P Require Import Python.
From S2P Require Import Json.
From S2P Require Import Errors.
From S2P Require Import Auth.
From S2P Require Import Chat.
From S2P Require Import Compatibility.
From S2P Require Import Batching.
From S2P Require Import Metrics.

(** * Data *)

(** The fields of [Settings] the endpoint reads. *)
Record limits := Limits {
  li_max_completion_tokens : Z;
  li_max_choices : Z;
  li_batching_enabled : bool;
}.

(** The calls of the services. *)
Inductive service_call :=
| CallAcquire (tenant_id : pystr)
| CallGenerate (r : chat_request)
| CallSubmit (tenant_id : pystr) (r : chat_request)
| CallStream (r : chat_request)
| CallStreamClose
| CallRelease.

(** How they answer: whether the lease was queued, the response, [None] for a stream
    that was opened; [an_setup]: what constructing the observer and the relay
    raises, if anything; [an_close]: what closing the stream again raises. *)
Record answers := Answers {
  an_acquire : exn + bool;
  an_generate : exn + pydict;
  an_submit : exn + pydict;
  an_stream : exn + unit;
  an_setup : option exn;
  an_close : option exn;
}.

(** The attributes the endpoint leaves on [request.state], its calls, and the metric
    updates it requests. *)
Record request_state := RequestState {
  rq_tenant : option pystr;
  rq_mode : option mode;
  rq_admission_result : option pystr;
  rq_streaming : bool;
  rq_calls : list service_call;
  rq_updates : list update;
}.

Definition request_start : request_state := RequestState None None None false [] [].

Abbreviation ep := (sem request_state exn).

Definition call (c : service_call) : ep unit :=
  modify (λ s, RequestState (rq_tenant s) (rq_mode s) (rq_admission_result s) (rq_streaming s)
                 (rq_calls s ++ [c]) (rq_updates s)).
Definition update_metrics (us : list update) : ep unit :=
  modify (λ s, RequestState (rq_tenant s) (rq_mode s) (rq_admission_result s) (rq_streaming s)
                 (rq_calls s) (rq_updates s ++ us)).
Definition set_tenant (t : pystr) : ep unit :=
  modify (λ s, RequestState (Some t) (rq_mode s) (rq_admission_result s) (rq_streaming s)
                 (rq_calls s) (rq_updates s)).
Definition set_mode (m : mode) : ep unit :=
  modify (λ s, RequestState (rq_tenant s) (Some m) (rq_admission_result s) (rq_streaming s)
                 (rq_calls s) (rq_updates s)).
Definition set_admission_result (queued : bool) : ep unit :=
  modify (λ s, RequestState (rq_tenant s) (rq_mode s)
                 (Some (if queued then "queued" else "admitted")%py) (rq_streaming s)
                 (rq_calls s) (rq_updates s)).
Definition set_streaming : ep unit :=
  modify (λ s, RequestState (rq_tenant s) (rq_mode s) (rq_admission_result s) true
                 (rq_calls s) (rq_updates s)).

Definition answer {A} (a : exn + A) : ep A := match a with inl e => raise e | inr x => ret x end.

(** The response: JSON, or a stream whose relay owns the backend stream and the lease. *)
Inductive chat_response :=
| JsonResponse (content : pydict)
| StreamResponse.

(** * The endpoint *)

Definition limit_message (field : pystr) (limit : Z) : pystr :=
  PyStr (codes field ++ codes " must not exceed "%py ++ int_repr limit).

Definition enforce_configured_limits (r : chat_request) (li : limits) : exn + unit :=
  do? match cr_max_tokens r with
      | Some n => if li_max_completion_tokens li <? n
                  then inl (Gateway (error_msg InvalidRequestError
                         (limit_message "max_tokens" (li_max_completion_tokens li))))
                  else inr ()
      | None => inr ()
      end in
  if li_max_choices li <? cr_n r
  then inl (Gateway (error_msg InvalidRequestError (limit_message "n" (li_max_choices li))))
  else inr ().

Section endpoint.
Variable an : answers.

(** [admission.acquire(tenant)] and the lease's [release]. *)
Definition acquire (tenant_id : pystr) : ep bool :=
  do! call (CallAcquire tenant_id) in answer (an_acquire an).
Definition release : ep unit := call CallRelease.

(** [AdmissionController.admit], around the body [k] of the [async with]. *)
Definition admit_tenant {A} (tenant_id : pystr) (k : bool → ep A) : ep A :=
  let! was_queued := acquire tenant_id in
  finally (k was_queued) release.

(** [_create_streaming_completion]. *)
Definition create_streaming_completion (tenant_id : pystr) (r : chat_request) : ep chat_response :=
  let! was_queued := acquire tenant_id in
  do! set_admission_result was_queued in
  do! set_streaming in
  let! opened := reify (do! call (CallStream r) in answer (an_stream an)) in
  match opened with
  | inl e => do! release in raise e
  | inr _ =>
      match an_setup an with
      | None => ret StreamResponse
      | Some e =>
          do! call CallStreamClose in
          do! match an_close an with Some e => raise e | None => ret () end in
          do! release in
          raise e
      end
  end.

(** [create_chat_completion]; [batcher]: a dynamic batcher is installed. *)
Definition create_chat_completion (li : limits) (batcher : bool) (tenant_id : pystr) (r : chat_request)
    : ep chat_response :=
  do! set_mode (if cr_stream r then MStreaming else MNonStreaming) in
  do! answer (enforce_configured_limits r li) in
  let eligibility := batching_eligibility r (li_batching_enabled li) in
  do! update_metrics (batch_eligibility_observed eligibility) in
  if cr_stream r then create_streaming_completion tenant_id r else
  let! response := admit_tenant tenant_id (λ was_queued,
    do! set_admission_result was_queued in
    if eligible eligibility then
      if negb batcher then raise (gw BatchingUnavailableError)
      else do! call (CallSubmit tenant_id r) in answer (an_submit an)
    else do! call (CallGenerate r) in answer (an_generate an)) in
  do! (if negb (eligible eligibility) then update_metrics (observe_non_streaming_usage response)
       else ret ()) in
  ret (JsonResponse response).

(** [authenticate_tenant], the dependency that runs before the endpoint. *)
Definition authenticate_tenant (reg : registry) (authorization : option pystr) : ep tenant_context :=
  let! t := answer (authenticate reg authorization) in
  do! set_tenant (tenant_id t) in
  ret t.

Definition chat_endpoint (reg : registry) (li : limits) (batcher : bool) (authorization : option pystr)
    (r : chat_request) : ep chat_response :=
  let! t := authenticate_tenant reg authorization in
  create_chat_completion li batcher (tenant_id t) r.
End endpoint.

(** * What the endpoint guarantees *)

(** The calls of a request that fails, between its admission and its release. *)
Definition calls_failed (an : answers) (batcher batched : bool) (tid : pystr) (r : chat_request) : list service_call :=
  if cr_stream r then CallStream r :: match an_stream an with inr _ => [CallStreamClose] | inl _ => [] end
  else if batched then (if batcher then [CallSubmit tid r] else []) else [CallGenerate r].
(** An opened stream that can neither be relayed nor closed. *)
Definition stranded (an : answers) (r : chat_request) : bool :=
  cr_stream r && match an_stream an, an_setup an, an_close an with inr _, Some _, Some _ => true | _, _, _ => false end.

(** C12: The life of a request.  Without valid credentials, and when it exceeds the
    configured limits, no service is called.  An admitted request calls one service, with the
    client's request unchanged: the stream, the batcher when it is eligible for batching
    (none if no batcher is installed), or the backend; a JSON response is that service's answer, and
    the lease of a stream that becomes a response is left to the relay.  Otherwise the lease
    is released exactly once and last, whatever the services answer, with one exception:
    when a stream was opened, what relays it cannot be constructed, and closing the stream
    again raises, then the request ends with what closing raised, and the lease is neither
    released nor left to a relay. *)
Theorem endpoint_lifecycle an reg li batcher authorization r :
  let '(res, s) := chat_endpoint an reg li batcher authorization r request_start in
  let batched := eligible (batching_eligibility r (li_batching_enabled li)) in
  match authenticate reg authorization with
  | inl e => res = inl e ∧ rq_calls s = []
  | inr t =>
      match enforce_configured_limits r li, an_acquire an with
      | inl e, _ => res = inl e ∧ rq_calls s = []
      | inr _, inl e => res = inl e ∧ rq_calls s = [CallAcquire (tenant_id t)]
      | inr _, inr _ =>
          match res with
          | inr (JsonResponse d) =>
              rq_calls s = [CallAcquire (tenant_id t);
                            if batched then CallSubmit (tenant_id t) r else CallGenerate r; CallRelease] ∧
              (if batched then an_submit an else an_generate an) = inr d ∧ cr_stream r = false
          | inr StreamResponse =>
              rq_calls s = [CallAcquire (tenant_id t); CallStream r] ∧ an_stream an = inr () ∧
              an_setup an = None ∧ cr_stream r = true
          | inl e =>
              if stranded an r
              then rq_calls s = [CallAcquire (tenant_id t); CallStream r; CallStreamClose] ∧ an_close an = Some e
              else rq_calls s = [CallAcquire (tenant_id t)] ++ calls_failed an batcher batched (tenant_id t) r ++ [CallRelease]
          end
      end
  end.
Proof.
  destruct (chat_endpoint an reg li batcher authorization r request_start) as [res s] eqn:Hrun. unfold stranded, calls_failed.
  unfold chat_endpoint, authenticate_tenant, bind, answer, ret, raise in Hrun.
  destruct (authenticate reg authorization) as [e|t]; [by injection Hrun as <- <-|].
  cbn in Hrun. unfold create_chat_completion, bind, answer, ret, raise in Hrun. cbn in Hrun.
  destruct (enforce_configured_limits r li) as [e|_]; [by injection Hrun as <- <-|]. cbn in Hrun.
  destruct (cr_stream r) eqn:Hs.
  - unfold create_streaming_completion, acquire, bind, answer, ret, raise in Hrun. cbn in Hrun.
    destruct (an_acquire an) as [e|q]; [by injection Hrun as <- <-|]. cbn in Hrun.
    unfold reify, bind, answer in Hrun. cbn in Hrun.
    destruct (an_stream an) as [e|[]]; [injection Hrun as <- <-; done|]. cbn in Hrun.
    destruct (an_setup an) as [e|]; [|by injection Hrun as <- <-]. cbn in Hrun.
    destruct (an_close an) as [e'|]; injection Hrun as <- <-; done.
  - unfold admit_tenant, acquire, bind, answer, ret, raise in Hrun. cbn in Hrun.
    destruct (an_acquire an) as [e|q]; [by injection Hrun as <- <-|]. cbn in Hrun.
    unfold finally, bind, answer, raise in Hrun. cbn in Hrun.
    destruct (eligible _) eqn:He; cbn in Hrun.
    + destruct batcher; cbn in Hrun; [|by injection Hrun as <- <-].
      destruct (an_submit an) as [e|d]; injection Hrun as <- <-; done.
    + destruct (an_generate an) as [e|d]; injection Hrun as <- <-; done.
Qed.
