(* ===== verification/Lifecycle.v ===== *)
(** gateway/observability/middleware.py, gateway/core/request_id.py and
    gateway/api/health.py: what surrounds a request. *)
From S2P Require Import Prelude.
From S2P Require Import Python.
From S2P Require Import Errors.
From S2P Require Import Metrics.
From S2P Require Import Sse.
From S2P Require Import Relay.
From S2P Require Import Routing.

(** * InferenceMetricsMiddleware *)

(** The ASGI messages the middleware looks at; the others pass. *)
Inductive message :=
| ResponseStart (status : Z)
| ResponseBody (more_body : bool)
| OtherMessage.

(** What the application has written to [scope["state"]] so far. *)
Record scope_state := ScopeState {
  sc_mode : option mode;
  sc_stream_outcome : option stream_outcome;
}.

(** One message of the application: what [send] raises, if anything, and the state
    when it is looked at. *)
Record sending := Sending {
  sn_message : message;
  sn_raises : bool;
  sn_state : scope_state;
}.

(** [status_code], [finalized], the clock readings and the recorded updates. *)
Record timing := Timing {
  tm_status : option Z;
  tm_finalized : bool;
  tm_reads : nat;
  tm_log : list update;
}.

Definition is_inference_request (method path : option pystr) : bool :=
  bool_decide (method = Some "POST"%py) && bool_decide (path = Some "/v1/chat/completions"%py).

Section middleware.
Variable accepts : update → bool.
Variable clock : nat → Z.

(** [finalize]; the first reading of the clock is [started_at]. *)
Definition finalize_request (o : request_outcome) (st : scope_state) (t : timing) : timing :=
  if tm_finalized t then t else
  Timing (tm_status t) true (S (tm_reads t))
    (tm_log t ++ attempt accepts
       (record_request (default MUnknown (sc_mode st)) (tm_status t) o (clock (tm_reads t) - clock 0))).

(** [status_code or 500]. *)
Definition status_or_500 (status : option Z) : Z :=
  match status with Some n => if n =? 0 then 500 else n | None => 500 end.
Definition body_outcome (st : scope_state) (t : timing) : request_outcome :=
  if bool_decide (sc_stream_outcome st = Some StreamCancelled) then RCancelled
  else if bool_decide (sc_stream_outcome st = Some UpstreamError) || (400 <=? status_or_500 (tm_status t))
  then RError else RCompleted.

(** [send_wrapper]. *)
Definition send_wrapper (sn : sending) (t : timing) : timing :=
  let t := match sn_message sn with
           | ResponseStart status => Timing (Some status) (tm_finalized t) (tm_reads t) (tm_log t)
           | _ => t
           end in
  if sn_raises sn then t else
  match sn_message sn with
  | ResponseBody false => finalize_request (body_outcome (sn_state sn) t) (sn_state sn) t
  | _ => t
  end.

(** How the application ends: normally, or with an exception. *)
Definition application_ends (e : option exn) (st : scope_state) (t : timing) : timing :=
  match e with
  | Some CancelledError => finalize_request RCancelled st t
  | Some _ => finalize_request RError st t
  | None => if tm_finalized t then t else finalize_request RCancelled st t
  end.

(** [__call__] for an application that sends [sends] and ends with [e]; a request
    that is not an inference request passes unobserved. *)
Definition middleware_call (http : bool) (method path : option pystr) (sends : list sending) (e : option exn)
    (st : scope_state) : list update :=
  if negb http || negb (is_inference_request method path) then []
  else tm_log (application_ends e st (foldl (λ t sn, send_wrapper sn t) (Timing None false 1 []) sends)).
End middleware.

(** * RequestIDMiddleware

    The identifier of a request: the one the client sent, if it is not empty, or the
    fresh one [uuid4] yields; it is set for the request and on the response. *)
Definition request_id (header : option pystr) (fresh : pystr) : pystr :=
  match header with Some h => if str_truthy h then h else fresh | None => fresh end.

(** [dispatch], over the context variable: the response of [call_next] gets the
    header, and the variable is reset in any case.  [B] is what a response has besides
    its headers. *)
Definition dispatch {E B : Type} (header_name : pystr) (header : option pystr) (fresh : pystr)
    (call_next : sem (option pystr) E (B * list (pystr * pystr)))
    : sem (option pystr) E (B * list (pystr * pystr)) :=
  let rid := request_id header fresh in
  let! outer := get in
  do! modify (λ _, Some rid) in
  finally
    (let! response := call_next in
     ret (response.1, dict_set response.2 header_name rid))
    (modify (λ _, outer)).

(** * Health *)

(** [readiness]: the status of the response; the pool is present when the gateway
    routes to vLLM backends. *)
Definition readiness (ready : bool) (pool : option pool) : Z :=
  let ready := match pool with
               | Some p => if ready then is_routable p else ready
               | None => ready
               end in
  if negb ready then 503 else 200.

(** * Every request is recorded once *)

(** The status and the state when the final body message has been sent; without one,
    the last status. *)
Fixpoint final_body (status : option Z) (sends : list sending) : option Z * option scope_state :=
  match sends with
  | [] => (status, None)
  | sn :: sends =>
      let status := match sn_message sn with ResponseStart n => Some n | _ => status end in
      match sn_message sn, sn_raises sn with
      | ResponseBody false, false => (status, Some (sn_state sn))
      | _, _ => final_body status sends
      end
  end.

Section recorded.
Variable accepts : update → bool.
Variable clock : nat → Z.
Hypothesis accepts_ok : ∀ u, collectors_accept u = true → accepts u = true.

Lemma send_finalized sends t :
  tm_finalized t = true → let t' := foldl (λ t sn, send_wrapper accepts clock sn t) t sends in
  tm_finalized t' = true ∧ tm_log t' = tm_log t.
Proof.
  revert t. induction sends as [|sn sends IH]; intros t Ht; [done|]. cbn [foldl].
  assert (Hs : tm_finalized (send_wrapper accepts clock sn t) = true ∧
               tm_log (send_wrapper accepts clock sn t) = tm_log t).
  { unfold send_wrapper, finalize_request.
    destruct (sn_message sn) as [n|[]|], (sn_raises sn); simpl; rewrite ?Ht; done. }
  destruct Hs as [Hf Hl]. destruct (IH _ Hf) as [? ->]. done.
Qed.

Lemma recorded_request m status o d : attempt accepts (record_request m status o d) = record_request m status o d.
Proof. apply attempt_accepted. by repeat constructor; apply accepts_ok. Qed.

Lemma sends_recorded sends status :
  let t := foldl (λ t sn, send_wrapper accepts clock sn t) (Timing status false 1 []) sends in
  match final_body status sends with
  | (status', Some st) => tm_finalized t = true ∧
      tm_log t = record_request (default MUnknown (sc_mode st)) status'
                   (body_outcome st (Timing status' false 1 [])) (clock 1 - clock 0)
  | (status', None) => t = Timing status' false 1 []
  end.
Proof.
  revert status. induction sends as [|sn sends IH]; intros status; [done|]. cbn [foldl final_body].
  set (w := send_wrapper accepts clock sn (Timing status false 1 [])).
  assert (Hw : w = send_wrapper accepts clock sn (Timing status false 1 [])) by done. clearbody w.
  unfold send_wrapper in Hw. destruct (sn_message sn) as [n|[]|], (sn_raises sn); cbn -[attempt record_request] in Hw;
    subst w; try apply IH.
  unfold finalize_request. cbn -[attempt record_request foldl]. rewrite recorded_request.
  destruct (send_finalized sends (Timing status true 2
    (record_request (default MUnknown (sc_mode (sn_state sn))) status
       (body_outcome (sn_state sn) (Timing status false 1 [])) (clock 1 - clock 0))) eq_refl) as [? Hl].
  by split.
Qed.

(** An inference request is recorded exactly once, whatever the application sends
    and however it ends: with the outcome of its final body if that was sent (an error
    for a failed stream or a status from 400 on, a cancellation for a cancelled
    stream), as an error when the application raised before, and as cancelled
    otherwise; other requests are not recorded. *)
Theorem request_recorded_once http method path sends e st :
  middleware_call accepts clock http method path sends e st =
    if http && is_inference_request method path then
      match final_body None sends with
      | (status, Some st') => record_request (default MUnknown (sc_mode st')) status
          (body_outcome st' (Timing status false 1 [])) (clock 1 - clock 0)
      | (status, None) => record_request (default MUnknown (sc_mode st)) status
          (match e with None | Some CancelledError => RCancelled | Some _ => RError end) (clock 1 - clock 0)
      end
    else [].
Proof.
  unfold middleware_call. destruct http; [|done]. destruct (is_inference_request method path); [|done]. simpl.
  pose proof (sends_recorded sends None) as Hs. simpl in Hs.
  destruct (final_body None sends) as [status [st'|]].
  - destruct Hs as [Hf Hl]. unfold application_ends, finalize_request. rewrite Hf.
    destruct e as [[]|]; done.
  - rewrite Hs. unfold application_ends, finalize_request. cbn -[attempt record_request]. destruct e as [[]|];
      cbn -[attempt record_request]; by rewrite ?recorded_request.
Qed.
End recorded.

Lemma request_recorded_once_witness :
  middleware_call collectors_accept (λ n, Z.of_nat n) true (Some "POST"%py) (Some "/v1/chat/completions"%py)
    [Sending (ResponseStart 200) false (ScopeState None None);
     Sending (ResponseBody true) false (ScopeState (Some MStreaming) None);
     Sending (ResponseBody false) false (ScopeState (Some MStreaming) (Some UpstreamError))]
    None (ScopeState (Some MStreaming) (Some UpstreamError)) =
  [Inc Requests ["streaming"; "200"; "error"]%py 1; Observe RequestDuration ["streaming"; "error"]%py 1].
Proof.
  rewrite (request_recorded_once collectors_accept (λ n, Z.of_nat n) (λ _ Hu, Hu)). reflexivity.
Defined.
