(* ===== verification/Mirror.v ===== *)
(** A small logic of computations that keep or restore a property: what a component
    has told its observer is its current state, except inside a critical section. *)
From S2P Require Import Prelude.
From S2P Require Import Python.
From S2P Require Import Errors.
From S2P Require Import Batching.

(** * Keeping and restoring

    [P] is broken inside a critical section and holds again once the observer is
    notified.  An internal error may leave it broken. *)
Section logic.
Context {S E : Type} (P : S → Prop) (internal : E → Prop).

Definition ends {A} (m : sem S E A) (s : S) : Prop := wp m (λ _, P) (λ e s', internal e ∨ P s') s.
(** From where [P] holds, from anywhere, and: only internal errors come out. *)
Definition keeps {A} (m : sem S E A) : Prop := ∀ s, P s → ends m s.
Definition restores {A} (m : sem S E A) : Prop := ∀ s, ends m s.
Definition fails {A} (m : sem S E A) : Prop := ∀ s, wp m (λ _ _, True) (λ e _, internal e) s.

Lemma keeps_ret {A} (a : A) : keeps (ret a).
Proof. by intros s. Qed.
Lemma keeps_raise {A} e : keeps (raise e : sem S E A).
Proof. intros s. by right. Qed.
Lemma keeps_get : keeps get.
Proof. by intros s. Qed.
Lemma keeps_unwrap {A} e (o : option A) : keeps (unwrap e o).
Proof. intros s Hs. destruct o; [done|by right]. Qed.
Lemma keeps_modify f : (∀ s, P s → P (f s)) → keeps (modify f).
Proof. intros Hf s Hs. by apply Hf. Qed.
Lemma keeps_bind {A B} (m : sem S E A) (k : A → sem S E B) :
  keeps m → (∀ a, keeps (k a)) → keeps (bind m k).
Proof.
  intros Hm Hk s Hs. apply wp_bind. eapply wp_mono; [by apply Hm| |done]. intros a s' Hs'. by apply Hk.
Qed.
Lemma keeps_restores {A} (m : sem S E A) : restores m → keeps m.
Proof. intros Hm s _. apply Hm. Qed.
Lemma keeps_try {A} (m : sem S E A) h :
  keeps m → (∀ e, keeps (h e)) → (∀ e, internal e → h e = raise e) → keeps (try_catch m h).
Proof.
  intros Hm Hh Hi s Hs. apply wp_try. eapply wp_mono; [by apply Hm|done|]. intros e s' [He|Hs'].
  - rewrite Hi by done. by left.
  - by apply Hh.
Qed.

Lemma restores_raise {A} e : internal e → restores (raise e : sem S E A).
Proof. intros He s. by left. Qed.
Lemma restores_bind {A B} (m : sem S E A) (k : A → sem S E B) :
  restores m → (∀ a, keeps (k a)) → restores (bind m k).
Proof.
  intros Hm Hk s. apply wp_bind. eapply wp_mono; [apply Hm| |done]. intros a s' Hs'. by apply Hk.
Qed.
Lemma restores_after {A B} (m : sem S E A) (k : A → sem S E B) :
  fails m → (∀ a, restores (k a)) → restores (bind m k).
Proof.
  intros Hm Hk s. apply wp_bind. eapply wp_mono; [apply Hm| |by left]. intros a s' _. apply Hk.
Qed.

Lemma fails_ret {A} (a : A) : fails (ret a).
Proof. by intros s. Qed.
Lemma fails_get : fails get.
Proof. by intros s. Qed.
Lemma fails_modify f : fails (modify f).
Proof. by intros s. Qed.
Lemma fails_unwrap {A} e (o : option A) : internal e → fails (unwrap e o).
Proof. intros He s. by destruct o. Qed.
Lemma fails_raise {A} e : internal e → fails (raise e : sem S E A).
Proof. by intros He s. Qed.
Lemma fails_bind {A B} (m : sem S E A) (k : A → sem S E B) :
  fails m → (∀ a, fails (k a)) → fails (bind m k).
Proof.
  intros Hm Hk s. apply wp_bind. eapply wp_mono; [apply Hm| |done]. intros a s' _. apply Hk.
Qed.
End logic.

(** With no internal errors, [finally] and [reify] are transparent too. *)
Section transparent.
Context {S E : Type} (P : S → Prop).
Abbreviation never := (λ _ : E, False).

Lemma keeps_finally {A} (m : sem S E A) f : keeps P never m → keeps P never f → keeps P never (finally m f).
Proof.
  intros Hm Hf s Hs. apply wp_finally. eapply wp_mono; [by apply Hm|..].
  - intros a s' Hs'. eapply wp_mono; [by apply Hf|done|done].
  - intros e s' [[]|Hs']. eapply wp_mono; [by apply Hf| |done]. by right.
Qed.
Lemma keeps_reify {A} (m : sem S E A) : keeps P never m → keeps P never (reify m).
Proof.
  intros Hm s Hs. specialize (Hm s Hs). unfold ends, wp, reify in *.
  destruct (m s) as [[e|a] s']; [by destruct Hm as [[]|]|done].
Qed.
Lemma keeps_for_each {A} (l : list A) (f : A → sem S exn unit) I :
  (∀ x, keeps P I (f x)) → keeps P I (for_each l f).
Proof. intros Hf. induction l as [|x l IH]; [apply keeps_ret|]. by apply keeps_bind. Qed.
End transparent.

(** One step of a proof that a computation keeps, restores or fails. *)
Create HintDb mirror.
#[export] Hint Resolve keeps_ret keeps_raise keeps_get keeps_unwrap restores_raise
  fails_ret fails_get fails_modify fails_unwrap fails_raise : mirror.
#[export] Hint Extern 2 (keeps _ _ (modify _)) => (by apply keeps_modify) : mirror.
Ltac mirror_step :=
  match goal with
  | |- ∀ _, _ => intros ?
  | |- keeps _ _ (bind _ _) => apply keeps_bind; [solve [mirror]|intros ?]
  | |- keeps _ _ (finally _ _) => apply keeps_finally
  | |- keeps _ _ (reify _) => apply keeps_reify
  | |- keeps _ _ (for_each _ _) => apply keeps_for_each; intros ?
  | |- restores _ _ (bind _ _) =>
      first [apply restores_bind; [solve [eauto 3 with mirror]|intros ?]
            |apply restores_after; [solve [mirror]|intros ?]]
  | |- fails _ (bind _ _) => apply fails_bind; [|intros ?]
  | |- _ => solve [eauto 3 with mirror]
  | |- keeps _ _ (match ?x with _ => _ end) => destruct x
  | |- fails _ (match ?x with _ => _ end) => destruct x
  | |- restores _ _ (match ?x with _ => _ end) => destruct x
  end
with mirror := repeat mirror_step.

(** The last notification of the state in a log. *)
Section last_state.
Context {O : Type} (is_state : O → bool).
Definition last_state (l : list O) : option O := last (filter (λ o, is_state o = true) l).

Lemma last_state_snoc l o : last_state (l ++ [o]) = if is_state o then Some o else last_state l.
Proof.
  unfold last_state. rewrite filter_app, filter_cons, filter_nil.
  destruct (is_state o); [rewrite decide_True by done; apply last_snoc|].
  rewrite decide_False by done. by rewrite app_nil_r.
Qed.
End last_state.
