(* ===== verification/Probes.v ===== *)
(** The health probes of routing/pool.py: the first round that [start] runs, the probe
    loop, and their end in [close], over the pool of Routing.  There a probe's report
    and the start of the loop are events of the environment; here they are what
    [probe_once] and [_probe_loop] do. *)
From S2P Require Import Prelude.
From S2P Require Import Python.
From S2P Require Import Errors.
From S2P Require Import Routing.
From S2P Require Import RoutingInv.
From S2P Require Import RoutingSystem.
From S2P Require Import RoutingTheorems.
From S2P Require Import Mirror.

(** * State *)

(** [_probe_task]: not created; about to check [_stop_event]; in [wait_for]; in
    [probe_once], with the backends that have not reported; ended. *)
Inductive probe_task := NoTask | TaskReady | TaskWaits | TaskProbes (todo : gset nat) | TaskEnded.

(** The pool; the round of [start] while it runs, with the backends that have not
    reported; [_stop_event], and whether the probe task was cancelled. *)
Record probing := Probing {
  pr_sys : rsys;
  pr_first : option (gset nat);
  pr_task : probe_task;
  pr_stop : bool;
  pr_cancelled : bool;
}.
Definition with_sys (y : rsys) (s : probing) : probing :=
  Probing y (pr_first s) (pr_task s) (pr_stop s) (pr_cancelled s).
Definition with_task (t : probe_task) (s : probing) : probing :=
  Probing (pr_sys s) (pr_first s) t (pr_stop s) (pr_cancelled s).
Definition with_first (r : option (gset nat)) (s : probing) : probing :=
  Probing (pr_sys s) r (pr_task s) (pr_stop s) (pr_cancelled s).

Definition task_live (t : probe_task) : bool :=
  match t with TaskReady | TaskWaits | TaskProbes _ => true | NoTask | TaskEnded => false end.

(** [probe_once]: the backends that are probed. *)
Definition probe_once (p : pool) : gset nat :=
  if p_closed p then ∅ else list_to_set (seq 0 (length (p_slots p))).
(** [probe]: what it takes the answer of [check_health] for; cancelled, it reports nothing. *)
Definition probe (answer : exn + bool) : option bool :=
  match answer with
  | inr healthy => Some healthy
  | inl e => if is_exception e then Some false else None
  end.

(** * Events

    [PrStart]: [start] is called; [PrFirst i a], [PrReport i a]: [check_health] of
    backend [i] answers in the first round or in one of the loop; [PrFirstDone],
    [PrRoundDone]: the [gather] of the round returns; [PrAbandon]: [start] is cancelled;
    [PrTurn]: the loop looks at [_stop_event]; [PrTimeout]: its [wait_for] times out;
    [PrCancelled]: its cancellation arrives; [PrClose], [PrClosed]: [close] up to the
    wait for the loop, and its end; [PrPool ev]: another event of the pool. *)
Inductive prevent :=
| PrStart
| PrFirst (i : nat) (a : exn + bool)
| PrFirstDone
| PrAbandon
| PrTurn
| PrTimeout
| PrReport (i : nat) (a : exn + bool)
| PrRoundDone
| PrCancelled
| PrClose
| PrClosed
| PrPool (ev : revent).

(** The events that no code of the probes causes. *)
Definition unprobed (ev : revent) : bool :=
  match ev with RvStart | RvProbing | RvHealth _ _ | RvClose | RvClosed => false | _ => true end.

Definition pool_event (ev : revent) (s : probing) : option (routcome * probing) :=
  match rexec ev (pr_sys s) with Some (o, y) => Some (o, with_sys y s) | None => None end.

Definition prexec (ev : prevent) (s : probing) : option (routcome * probing) :=
  let p := r_pool (pr_sys s) in
  match ev with
  | PrStart =>
      '(o, s') ← pool_event RvStart s;
      Some (o, match o with
               | RONone => if p_started p then s' else with_first (Some (probe_once (r_pool (pr_sys s')))) s'
               | _ => s'
               end)
  | PrFirst i a =>
      match pr_first s, probe a with
      | Some todo, Some b =>
          if decide (i ∈ todo) then
            '(o, s') ← pool_event (RvHealth i b) s;
            Some (o, with_first (Some (todo ∖ {[i]})) s')
          else None
      | _, _ => None
      end
  | PrFirstDone =>
      match pr_first s with
      | Some todo =>
          if decide (todo = ∅) then
            '(o, s') ← pool_event RvProbing s;
            let created := negb (p_probing p) && p_probing (r_pool (pr_sys s')) in
            Some (o, with_first None (if created then with_task TaskReady s' else s'))
          else None
      | None => None
      end
  | PrAbandon => match pr_first s with Some _ => Some (RONone, with_first None s) | None => None end
  | PrTurn =>
      if pr_cancelled s then None else
      match pr_task s with
      | TaskReady => Some (RONone, with_task (if pr_stop s then TaskEnded else TaskWaits) s)
      | TaskWaits => if pr_stop s then Some (RONone, with_task TaskReady s) else None
      | _ => None
      end
  | PrTimeout =>
      match pr_task s with
      | TaskWaits => if pr_cancelled s then None else Some (RONone, with_task (TaskProbes (probe_once p)) s)
      | _ => None
      end
  | PrReport i a =>
      match pr_task s, probe a with
      | TaskProbes todo, Some b =>
          if negb (pr_cancelled s) && bool_decide (i ∈ todo) then
            '(o, s') ← pool_event (RvHealth i b) s;
            Some (o, with_task (TaskProbes (todo ∖ {[i]})) s')
          else None
      | _, _ => None
      end
  | PrRoundDone =>
      match pr_task s with
      | TaskProbes todo =>
          if negb (pr_cancelled s) && bool_decide (todo = ∅) then Some (RONone, with_task TaskReady s) else None
      | _ => None
      end
  | PrCancelled =>
      if pr_cancelled s && task_live (pr_task s) then Some (RONone, with_task TaskEnded s) else None
  | PrClose =>
      '(o, s') ← pool_event RvClose s;
      Some (o, if p_closed p then s'
               else Probing (pr_sys s') (pr_first s) (pr_task s) true (task_live (pr_task s)))
  | PrClosed => if task_live (pr_task s) then None else pool_event RvClosed s
  | PrPool ev => if unprobed ev then pool_event ev s else None
  end.

Inductive preachable (p0 : pool) : probing → Prop :=
| preachable_init : preachable p0 (Probing (RSys p0 ∅ ∅ None) None NoTask false false)
| preachable_step s ev o s' : preachable p0 s → prexec ev s = Some (o, s') → preachable p0 s'.

Fixpoint prrun (evs : list prevent) (s : probing) : option probing :=
  match evs with
  | [] => Some s
  | ev :: evs => match prexec ev s with Some (_, s') => prrun evs s' | None => None end
  end.

(** * The flags of the pool *)

Definition flags (p : pool) : bool * bool * bool := (p_started p, p_probing p, p_closed p).

Section flags.
Variable v : bool * bool * bool.
Abbreviation keeps := (keeps (λ p, flags p = v) (λ _ : exn, False)).

Lemma flags_notify : keeps notify_pool.
Proof. apply keeps_modify. intros p Hp. by destruct (p_observer p). Qed.
Lemma flags_observe i op out : keeps (observe_operation i op out).
Proof. apply keeps_modify. intros p Hp. by destruct (p_observer p), (p_slots p !! i). Qed.
Hint Resolve flags_notify flags_observe : mirror.
Lemma flags_lease_of l : keeps (lease_of l).
Proof. unfold lease_of. mirror. Qed.
Lemma flags_health i b : keeps (set_health i b).
Proof. unfold set_health. mirror. Qed.
Lemma flags_release l : keeps (release_lease l).
Proof. unfold release_lease. mirror. Qed.
Hint Resolve flags_lease_of flags_health flags_release : mirror.
Lemma flags_select w : keeps (select w).
Proof. unfold select. mirror. Qed.
Hint Resolve flags_select : mirror.
Lemma flags_begin op n : keeps (match op with OpBatch => batch_begin n | _ => generate_begin end).
Proof. unfold batch_begin, generate_begin. mirror. Qed.
Lemma flags_call_end {A} op l (r : exn + A) : keeps (call_end op l r).
Proof.
  unfold call_end, mark_unhealthy. apply keeps_bind; [mirror|intros le].
  apply keeps_bind; [|intros; destruct r; mirror]. apply keeps_finally; [|mirror].
  destruct r as [e|]; [destruct e|]; mirror.
Qed.
Lemma flags_open_end l r : keeps (open_end l r).
Proof.
  unfold open_end, register_stream, mark_unhealthy. apply keeps_bind; [mirror|intros le].
  destruct r as [e|]; [destruct e|]; mirror.
Qed.
Lemma flags_finish_begin st : keeps (finish_begin st).
Proof. unfold finish_begin. mirror. Qed.
Lemma flags_finish_end st out r : keeps (finish_end st out r).
Proof. unfold finish_end, unregister_stream. mirror. Qed.
Lemma flags_iterate_end st r : keeps (iterate_end st r).
Proof.
  unfold iterate_end, mark_unhealthy. do 3 (apply keeps_bind; [mirror|intros ?]).
  destruct r as [e|]; [destruct e|]; mirror.
Qed.
Lemma flags_set_observer b : keeps (set_pool_observer b).
Proof. unfold set_pool_observer. mirror. Qed.
Lemma flags_release_all ls : keeps (release_all ls).
Proof.
  induction ls as [|l ls IH]; [apply keeps_ret|]. intros p Hp. unfold ends, wp. simpl.
  pose proof (flags_release l p Hp) as H1. unfold ends, wp in H1.
  assert (Hp1 : flags (release_lease l p).2 = v).
  { destruct (release_lease l p) as [[e|[]] p1]; [by destruct H1 as [[]|]|done]. }
  destruct (release_lease l p) as [r p1]. specialize (IH p1 Hp1). unfold ends, wp in IH.
  destruct (release_all ls p1) as [r' p2]. destruct r as [e|[]], r' as [e'|[]]; auto.
Qed.
Lemma flags_close_end ls : keeps (close_end ls).
Proof. unfold close_end. apply keeps_bind; [apply flags_release_all|intros ?]. mirror. Qed.
End flags.

Lemma flags_rfinish {A} y (m : rt A) k o y' :
  (∀ v, keeps (λ p, flags p = v) (λ _ : exn, False) m) →
  (∀ a p, flags (r_pool (k a p).2) = flags p) → rfinish y m k = (o, y') → flags (r_pool y') = flags (r_pool y).
Proof.
  intros Hm Hk Hf. specialize (Hm _ (r_pool y) eq_refl). unfold rfinish, ends, wp in *.
  destruct (m (r_pool y)) as [[e|a] p]; [injection Hf as _ <-; by destruct Hm as [[]|]|].
  rewrite <- Hm, <- (Hk a p), Hf. done.
Qed.
Lemma flags_start_finish st out o0 y o y' : start_finish st out o0 y = (o, y') → flags (r_pool y') = flags (r_pool y).
Proof. apply flags_rfinish; [intros v; apply flags_finish_begin|done]. Qed.

(** Starting, the start of the loop and closing are the only events that set a flag. *)
Lemma rexec_flags ev y o y' :
  rexec ev y = Some (o, y') → ev ≠ RvStart → ev ≠ RvProbing → ev ≠ RvClose → flags (r_pool y') = flags (r_pool y).
Proof.
  intros Hex Hn1 Hn2 Hn3. destruct ev as [op n|l r|st r|st|st r| | |i b| | |b]; cbn [rexec] in Hex; try done.
  - destruct (n <? 0); [done|]. apply (inj Some) in Hex. 
    eapply flags_rfinish in Hex; [exact Hex|intros v; apply flags_begin|done].
  - destruct (r_calls y !! l) as [[]|]; try done; apply (inj Some) in Hex.
    1,3: eapply flags_rfinish in Hex; [exact Hex|intros v; apply flags_call_end|done].
    eapply flags_rfinish in Hex; [exact Hex|intros v; apply flags_open_end|].
    intros [st []] p; [done|]. by eapply (flags_start_finish _ _ _ (RSys p _ _ _)), surjective_pairing.
  - destruct (p_routed _ !! st); [|done]. apply (inj Some) in Hex.
    eapply flags_rfinish in Hex; [exact Hex|intros v; apply flags_iterate_end|].
    intros out p. by eapply (flags_start_finish _ _ _ (RSys p _ _ _)), surjective_pairing.
  - destruct (p_routed _ !! st); [|done]. apply (inj Some) in Hex. by eapply flags_start_finish.
  - destruct (r_finishing y !! st); [|done]. apply (inj Some) in Hex.
    eapply flags_rfinish in Hex; [exact Hex|intros v; apply flags_finish_end|done].
  - destruct (p_slots _ !! i); [|done]. apply (inj Some) in Hex.
    eapply flags_rfinish in Hex; [exact Hex|intros v; apply flags_health|done].
  - destruct (r_closing y) as [[ls sts]|]; [|done]. destruct (forallb _ _); [|done]. apply (inj Some) in Hex.
    eapply flags_rfinish in Hex; [exact Hex|intros v; apply flags_close_end|done].
  - apply (inj Some) in Hex. eapply flags_rfinish in Hex; [exact Hex|intros v; apply flags_set_observer|done].
Qed.

Lemma rexec_start y o y' : rexec RvStart y = Some (o, y') →
  o = (if p_closed (r_pool y) then RORaised (gw NoHealthyBackendError) else RONone) ∧
  flags (r_pool y') = (p_started (r_pool y) || negb (p_closed (r_pool y)), p_probing (r_pool y), p_closed (r_pool y)) ∧
  p_slots (r_pool y') = p_slots (r_pool y).
Proof.
  cbn [rexec]. unfold rfinish, pool_start, bind, get. destruct (p_closed (r_pool y)) eqn:Hc.
  { intros [= <- <-]. simpl. unfold flags. rewrite Hc, orb_false_r. auto. }
  destruct (p_started (r_pool y)) eqn:Hs; intros [= <- <-]; simpl; unfold flags; simpl; rewrite ?Hc, ?Hs; auto.
Qed.
Lemma rexec_probing y o y' : rexec RvProbing y = Some (o, y') →
  flags (r_pool y') = (p_started (r_pool y), p_probing (r_pool y) || negb (p_closed (r_pool y)), p_closed (r_pool y)) ∧
  p_slots (r_pool y') = p_slots (r_pool y) ∧ p_started (r_pool y) = true.
Proof.
  cbn [rexec]. destruct (p_started (r_pool y)) eqn:Hs; [|done]. unfold rfinish, start_probing, modify. intros [= _ <-]. simpl.
  unfold flags. destruct (p_closed (r_pool y)) eqn:Hc, (p_probing (r_pool y)) eqn:Hp; simpl; rewrite ?Hc, ?Hs, ?Hp; auto.
Qed.
Lemma rexec_close y o y' : rexec RvClose y = Some (o, y') →
  flags (r_pool y') = (p_started (r_pool y), p_probing (r_pool y), true) ∧ p_slots (r_pool y') = p_slots (r_pool y).
Proof.
  cbn [rexec]. destruct (r_closing y); [done|]. unfold rfinish, close_begin, bind, get. destruct (p_closed (r_pool y)) eqn:Hc;
    intros [= _ <-]; simpl; unfold flags; simpl; rewrite ?Hc; auto.
Qed.

(** A backend whose health is known stays so. *)
Definition unknown (p : pool) (i : nat) : Prop := health p !! i = Some None.

Lemma rexec_health ev y o y' :
  rsys_ok y → rexec ev y = Some (o, y') →
  length (p_slots (r_pool y')) = length (p_slots (r_pool y)) ∧ ∀ i, unknown (r_pool y') i → unknown (r_pool y) i.
Proof.
  intros Hy Hex. pose proof (rsys_step _ _ _ _ Hy Hex) as (_ & _ & Hh). unfold unknown.
  rewrite <- !(length_fmap sl_healthy). fold (health (r_pool y)) (health (r_pool y')).
  assert (Hsame : ∀ h, h = health (r_pool y) → length h = length (health (r_pool y)) ∧
    ∀ i, h !! i = Some None → health (r_pool y) !! i = Some None) by by intros h ->.
  assert (Hafter : ∀ j b, length (health_after (r_pool y) j b) = length (health (r_pool y)) ∧
    ∀ i, health_after (r_pool y) j b !! i = Some None → health (r_pool y) !! i = Some None).
  { intros j b. unfold health_after. destruct (p_closed _); [done|]. split; [apply length_alter|]. intros i.
    destruct (decide (j = i)) as [->|Hne]; [|by rewrite list_lookup_alter_ne].
    rewrite list_lookup_alter_eq. by destruct (health (r_pool y) !! i). }
  assert (Hres : ∀ j r, length (health_result (r_pool y) j r) = length (health (r_pool y)) ∧
    ∀ i, health_result (r_pool y) j r !! i = Some None → health (r_pool y) !! i = Some None).
  { intros j r. unfold health_result. destruct r as [e|]; [|done]. destruct (health_impacting e); [apply Hafter|done]. }
  destruct ev as [op n|l r|st r|st|st r| | |j b| | |b]; simpl in Hh; try (by apply Hsame).
  - cbn [rexec] in Hex. destruct (r_calls y !! l) as [op|] eqn:Hc; [|done].
    destruct (ow_call _ _ _ _ (ro_owned _ Hy) _ _ Hc) as [le Hle]. rewrite (Hh le Hle). apply Hres.
  - cbn [rexec] in Hex. destruct (p_routed (r_pool y) !! st) as [rs|] eqn:Hst; [|done].
    destruct (ri_routed _ (ro_inv _ Hy) _ _ Hst) as [le Hle]. rewrite (Hh rs le eq_refl Hle). apply Hres.
  - rewrite Hh. apply Hafter.
  - rewrite Hh. unfold health. rewrite length_replicate, length_fmap. split; [done|]. intros i [? _]%lookup_replicate. done.
Qed.

(** * The invariant *)

Definition in_pool (p : pool) (todo : gset nat) : Prop := ∀ i, i ∈ todo → (i < length (p_slots p))%nat.

Record probing_ok (p0 : pool) (s : probing) : Prop := {
  pk_reach : rreachable p0 (pr_sys s);
  pk_started : is_Some (pr_first s) ∨ p_probing (r_pool (pr_sys s)) = true → p_started (r_pool (pr_sys s)) = true;
  pk_first : is_Some (pr_first s) → p_probing (r_pool (pr_sys s)) = false;
  pk_task : p_probing (r_pool (pr_sys s)) = true ↔ pr_task s ≠ NoTask;
  pk_stop : pr_stop s = p_closed (r_pool (pr_sys s));
  pk_cancelled : pr_cancelled s = true → p_closed (r_pool (pr_sys s)) = true;
  pk_live : p_closed (r_pool (pr_sys s)) = true → task_live (pr_task s) = true → pr_cancelled s = true;
  pk_todo_first todo : pr_first s = Some todo → in_pool (r_pool (pr_sys s)) todo;
  pk_todo todo : pr_task s = TaskProbes todo → in_pool (r_pool (pr_sys s)) todo;
  pk_round todo i : pr_first s = Some todo → p_closed (r_pool (pr_sys s)) = false →
    unknown (r_pool (pr_sys s)) i → i ∈ todo;
  pk_known i : p_probing (r_pool (pr_sys s)) = true → ¬ unknown (r_pool (pr_sys s)) i;
}.

(** What the answer of a health check says of the backend: a check that raises fails. *)
Definition verdict (answer : exn + bool) : bool := match answer with inr healthy => healthy | inl _ => false end.
(** The events of the loop, when these are the answers. *)
Definition follows (answers : nat → exn + bool) (ev : prevent) : Prop :=
  match ev with
  | PrTurn | PrTimeout | PrRoundDone => True
  | PrReport i a => a = answers i
  | _ => False
  end.

Section steps.
Context (ids : list pystr) (interval timeout : Z) (ob : bool) (p0 : pool) (Hinit : pool_init ids interval timeout ob = inr p0).
Abbreviation ok := (probing_ok p0).

Lemma ok_sys s : ok s → rsys_ok (pr_sys s).
Proof. intros Hs. by eapply rsys_reachable; [|apply Hs]. Qed.

(** Events that set no flag keep the invariant. *)
Lemma ok_event ev s o s' :
  ok s → pool_event ev s = Some (o, s') → ev ≠ RvStart → ev ≠ RvProbing → ev ≠ RvClose →
  ok s' ∧ flags (r_pool (pr_sys s')) = flags (r_pool (pr_sys s)) ∧
  (pr_first s', pr_task s', pr_stop s', pr_cancelled s') = (pr_first s, pr_task s, pr_stop s, pr_cancelled s) ∧
  rexec ev (pr_sys s) = Some (o, pr_sys s').
Proof.
  intros Hs Hev H1 H2 H3. unfold pool_event in Hev. destruct (rexec ev (pr_sys s)) as [[o1 y]|] eqn:Hex; [|done].
  injection Hev as <- <-. pose proof (rexec_flags _ _ _ _ Hex H1 H2 H3) as Hf.
  destruct (rexec_health _ _ _ _ (ok_sys s Hs) Hex) as [Hlen Hun]. split; [|done].
  pose proof Hf as Hf'. unfold flags in Hf'. injection Hf' as Hst Hpr Hcl.
  destruct Hs. split; simpl; rewrite ?Hst, ?Hpr, ?Hcl; try done.
  - by eapply rreachable_step.
  - intros todo Ht i Hi. rewrite Hlen. by eapply pk_todo_first0.
  - intros todo Ht i Hi. rewrite Hlen. by eapply pk_todo0.
  - intros todo i Ht Hc Hu. by eapply pk_round0; [| |apply Hun].
  - intros i Hp Hu. by eapply pk_known0, Hun.
Qed.

Lemma probe_once_pool p : in_pool p (probe_once p).
Proof.
  intros i. unfold probe_once. destruct (p_closed p); [by intros ?%elem_of_empty|].
  rewrite elem_of_list_to_set, elem_of_seq. lia.
Qed.

Lemma unknown_slots p p' i : p_slots p' = p_slots p → unknown p' i ↔ unknown p i.
Proof. intros Hs. unfold unknown, health. by rewrite Hs. Qed.

(** The events that set a flag. *)
Lemma ok_start s o s' : ok s → prexec PrStart s = Some (o, s') → ok s'.
Proof.
  intros Hs. cbn [prexec]. unfold pool_event. destruct (rexec RvStart (pr_sys s)) as [[o1 y]|] eqn:Hex; [|done].
  cbn [mbind option_bind]. intros [= <- <-]. destruct (rexec_start _ _ _ Hex) as (-> & Hf & Hsl).
  unfold flags in Hf. injection Hf as Hst Hpr Hcl. pose proof (rreachable_step _ _ _ _ _ (pk_reach _ _ Hs) Hex) as Hr.
  assert (Hsame : ok (with_sys y s)).
  { destruct Hs. split; simpl; rewrite ?Hst, ?Hpr, ?Hcl; try done.
    - intros Hx. by rewrite pk_started0.
    - intros todo Ht i Hi. rewrite Hsl. by eapply pk_todo_first0.
    - intros todo Ht i Hi. rewrite Hsl. by eapply pk_todo0.
    - intros todo i Ht Hc Hu. eapply pk_round0; [done..|]. by apply (unknown_slots _ _ _ Hsl).
    - intros i Hp Hu. eapply pk_known0; [done|]. by apply (unknown_slots _ _ _ Hsl). }
  destruct (p_closed (r_pool (pr_sys s))) eqn:Hc; [done|]. destruct (p_started (r_pool (pr_sys s))) eqn:Hns; [done|].
  assert (Hnp : p_probing (r_pool (pr_sys s)) = false).
  { apply not_true_iff_false. intros Hp. rewrite (pk_started _ _ Hs) in Hns; [done|by right]. }
  destruct Hsame. split; simpl in *; try done; rewrite ?Hst, ?Hpr, ?Hnp; try done.
  - intros todo [= <-]. apply probe_once_pool.
  - intros todo i [= <-] _ Hu. unfold probe_once. rewrite Hcl. apply elem_of_list_to_set, elem_of_seq.
    apply lookup_lt_Some in Hu. unfold health in Hu. rewrite length_fmap in Hu. lia.
Qed.

Lemma ok_first_done s o s' : ok s → prexec PrFirstDone s = Some (o, s') → ok s'.
Proof.
  intros Hs. cbn [prexec]. destruct (pr_first s) as [todo|] eqn:Hf; [|done]. case_decide as Ht; [|done]. subst todo.
  unfold pool_event. destruct (rexec RvProbing (pr_sys s)) as [[o1 y]|] eqn:Hex; [|done].
  cbn [mbind option_bind]. intros [= <- <-]. destruct (rexec_probing _ _ _ Hex) as (Hfl & Hsl & Hstarted).
  unfold flags in Hfl. injection Hfl as Hst Hpr Hcl. pose proof (rreachable_step _ _ _ _ _ (pk_reach _ _ Hs) Hex) as Hr.
  pose proof (pk_first _ _ Hs) as Hnp. rewrite Hf in Hnp. specialize (Hnp ltac:(by eexists)). simpl.
  rewrite Hpr, Hnp. cbn [negb andb orb]. pose proof (λ i, pk_round _ _ Hs ∅ i Hf) as Hround.
  assert (Hnt : pr_task s = NoTask).
  { destruct (pr_task s) eqn:Htk; try done; assert (p_probing (r_pool (pr_sys s)) = true) by (apply (pk_task _ _ Hs); congruence); congruence. }
  destruct (p_closed (r_pool (pr_sys s))) eqn:Hc; cbn [negb].
  - destruct Hs. split; simpl; rewrite ?Hst, ?Hpr, ?Hcl, ?Hnp, ?Hnt; try done; congruence.
  - destruct Hs. split; simpl; rewrite ?Hst, ?Hpr, ?Hcl, ?Hnp, ?Hnt; try done; try congruence.
    + intros Hx%pk_cancelled0. congruence.
    + intros i _ Hu%(unknown_slots _ _ _ Hsl). by apply (Hround i eq_refl) in Hu.
Qed.

Lemma ok_close s o s' : ok s → prexec PrClose s = Some (o, s') → ok s'.
Proof.
  intros Hs. cbn [prexec]. unfold pool_event. destruct (rexec RvClose (pr_sys s)) as [[o1 y]|] eqn:Hex; [|done].
  cbn [mbind option_bind]. intros [= <- <-]. destruct (rexec_close _ _ _ Hex) as (Hfl & Hsl).
  unfold flags in Hfl. injection Hfl as Hst Hpr Hcl. pose proof (rreachable_step _ _ _ _ _ (pk_reach _ _ Hs) Hex) as Hr.
  destruct (p_closed (r_pool (pr_sys s))) eqn:Hc; destruct Hs; split; simpl; rewrite ?Hst, ?Hpr, ?Hcl; try done; try congruence.
  all: try by (intros todo Ht i Hi; rewrite Hsl; first [by eapply pk_todo_first0|by eapply pk_todo0]).
  all: try by (intros i Hp Hu%(unknown_slots _ _ _ Hsl); by eapply pk_known0).
  all: intros _ Hx; by apply pk_live0.
Qed.

Lemma ok_with_task t s :
  ok s → pr_task s ≠ NoTask → t ≠ NoTask → (task_live t = true → task_live (pr_task s) = true) →
  (∀ todo, t = TaskProbes todo → in_pool (r_pool (pr_sys s)) todo) → ok (with_task t s).
Proof.
  intros [] Ht Ht' Hlive Htodo. split; simpl; try done; [|by auto]. split; [done|]. intros _. by apply pk_task0.
Qed.
Lemma ok_with_first r s :
  ok s → (∀ todo, r = Some todo → ∃ old, pr_first s = Some old ∧ todo ⊆ old ∧
    ∀ i, i ∈ old → i ∉ todo → p_closed (r_pool (pr_sys s)) = false → ¬ unknown (r_pool (pr_sys s)) i) →
  ok (with_first r s).
Proof.
  intros [] Hr. split; simpl; try done.
  - intros [[todo Hx]|Hp]; [|by auto]. destruct (Hr todo Hx) as (old & Ho & _). apply pk_started0. left. by exists old.
  - intros [todo Hx]. destruct (Hr todo Hx) as (old & Ho & _). apply pk_first0. by exists old.
  - intros todo Hx i Hi. destruct (Hr todo Hx) as (old & Ho & Hsub & _). apply (pk_todo_first0 old Ho). by apply Hsub.
  - intros todo i Hx Hc Hu. destruct (Hr todo Hx) as (old & Ho & Hsub & Hk). pose proof (pk_round0 old i Ho Hc Hu).
    destruct (decide (i ∈ todo)); [done|]. by destruct (Hk i).
Qed.

(** A report tells the health of its backend, while the pool is open. *)
Lemma report_known i b s o s' : ok s → pool_event (RvHealth i b) s = Some (o, s') →
  p_closed (r_pool (pr_sys s)) = false → health (r_pool (pr_sys s')) !! i = Some (Some b).
Proof.
  intros Hs Hev Hc. unfold pool_event in Hev. destruct (rexec _ (pr_sys s)) as [[o1 y]|] eqn:Hex; [|done].
  injection Hev as <- <-. simpl. pose proof (rsys_step _ _ _ _ (ok_sys s Hs) Hex) as (_ & _ & Hh). simpl in Hh. rewrite Hh.
  unfold health_after. rewrite Hc, list_lookup_alter_eq. cbn [rexec] in Hex.
  destruct (p_slots (r_pool (pr_sys s)) !! i) as [sl|] eqn:Hsl; [|done].
  unfold health. by rewrite list_lookup_fmap, Hsl.
Qed.

Lemma prexec_ok ev s o s' : ok s → prexec ev s = Some (o, s') → ok s'.
Proof.
  intros Hs Hex. pose proof (pk_task _ _ Hs) as Htask.
  destruct ev as [|i a| | | | |i a| | | | |ev]; try (by eapply ok_start); try (by eapply ok_first_done);
    try (by eapply ok_close); cbn [prexec] in Hex.
  - destruct (pr_first s) as [todo|] eqn:Hf, (probe a) as [b|]; try done. case_decide as Hi; [|done].
    destruct (pool_event (RvHealth i b) s) as [[o1 s1]|] eqn:Hev; [|done]. injection Hex as <- <-.
    destruct (ok_event _ _ _ _ Hs Hev) as (Hs1 & Hfl & Hsame & _); [done..|]. injection Hsame as Hf1 Ht1 _ _.
    unfold flags in Hfl. injection Hfl as _ _ Hcl. apply ok_with_first; [done|]. intros todo' [= <-]. exists todo.
    split_and!; [congruence|set_solver|]. intros j Hj Hn Hc. destruct (decide (j = i)) as [->|]; [|set_solver].
    unfold unknown. rewrite (report_known _ _ _ _ _ Hs Hev); [done|congruence].
  - destruct (pr_first s) eqn:Hf; [|done]. injection Hex as <- <-. by apply ok_with_first.
  - destruct (pr_cancelled s) eqn:Hcan; [done|]. destruct (pr_task s) eqn:Ht; try done.
    + injection Hex as <- <-. apply ok_with_task; rewrite ?Ht; [done..|by destruct (pr_stop s)|by destruct (pr_stop s)|by destruct (pr_stop s)].
    + destruct (pr_stop s); [|done]. injection Hex as <- <-. by apply ok_with_task; rewrite ?Ht.
  - destruct (pr_task s) eqn:Ht; try done. destruct (pr_cancelled s); [done|]. injection Hex as <- <-.
    apply ok_with_task; rewrite ?Ht; try done. intros todo [= <-]. apply probe_once_pool.
  - destruct (pr_task s) as [| | |todo|] eqn:Ht; try done. destruct (probe a) as [b|]; [|done]. destruct (_ && _); [|done].
    destruct (pool_event (RvHealth i b) s) as [[o1 s1]|] eqn:Hev; [|done]. injection Hex as <- <-.
    destruct (ok_event _ _ _ _ Hs Hev) as (Hs1 & _ & Hsame & _); [done..|]. injection Hsame as _ Ht1 _ _.
    rewrite Ht in Ht1. apply ok_with_task; rewrite ?Ht1; try done. intros todo' [= <-] j Hj.
    apply (pk_todo _ _ Hs1 todo Ht1). set_solver.
  - destruct (pr_task s) as [| | |todo|] eqn:Ht; try done. destruct (_ && _); [|done]. injection Hex as <- <-.
    by apply ok_with_task; rewrite ?Ht.
  - destruct (pr_cancelled s && task_live (pr_task s)) eqn:Hc; [|done]. injection Hex as <- <-.
    apply andb_true_iff in Hc as [_ Hlive]. apply ok_with_task; try done. by destruct (pr_task s).
  - destruct (task_live (pr_task s)); [done|]. by eapply ok_event in Hex; [apply Hex|..].
  - destruct (unprobed ev) eqn:Hu; [|done]. eapply ok_event in Hex; [apply Hex|done|by intros ->..].
Qed.

Lemma pool_init_flags : flags p0 = (false, false, false).
Proof. unfold pool_init in Hinit. repeat case_match; try done. injection Hinit as <-. by destruct ob. Qed.

Lemma preachable_ok s : preachable p0 s → ok s.
Proof.
  induction 1 as [|s ev o s' Hr IH Hex]; [|by eapply prexec_ok]. pose proof pool_init_flags as Hf.
  unfold flags in Hf. injection Hf as Hst Hpr Hcl.
  split; simpl; rewrite ?Hst, ?Hpr, ?Hcl; try done; [constructor|intros [[? ?]|?]; done].
Qed.

(** ** Closing *)

(** A loop that is over on a closed pool stays so. *)
Definition loop_over (s : probing) : Prop := p_closed (r_pool (pr_sys s)) = true ∧ task_live (pr_task s) = false.

Lemma pool_event_closed ev s o s' : pool_event ev s = Some (o, s') →
  p_closed (r_pool (pr_sys s)) = true → p_closed (r_pool (pr_sys s')) = true ∧ pr_task s' = pr_task s.
Proof.
  unfold pool_event. destruct (rexec ev (pr_sys s)) as [[o1 y]|] eqn:Hex; [|done]. intros [= <- <-] Hc. split; [|done]. simpl.
  assert (Hf : ev ≠ RvStart → ev ≠ RvProbing → ev ≠ RvClose → p_closed (r_pool y) = true).
  { intros H1 H2 H3. pose proof (rexec_flags _ _ _ _ Hex H1 H2 H3) as Hf. unfold flags in Hf. injection Hf as _ _ Hf. congruence. }
  destruct ev; try (by apply Hf).
  - destruct (rexec_start _ _ _ Hex) as (_ & Hfl & _). unfold flags in Hfl. injection Hfl as _ _ ->. done.
  - destruct (rexec_probing _ _ _ Hex) as (Hfl & _). unfold flags in Hfl. injection Hfl as _ _ ->. done.
  - destruct (rexec_close _ _ _ Hex) as (Hfl & _). unfold flags in Hfl. injection Hfl as _ _ ->. done.
Qed.

Lemma prexec_over ev s o s' : loop_over s → prexec ev s = Some (o, s') → loop_over s'.
Proof.
  intros [Hc Hl] Hex. assert (Hpool : ∀ e o1 s1, pool_event e s = Some (o1, s1) → loop_over s1).
  { intros e o1 s1 Hev. destruct (pool_event_closed _ _ _ _ Hev Hc) as [? Ht]. by split; rewrite ?Ht. }
  destruct ev as [|i a| | | | |i a| | | | |ev]; cbn [prexec] in Hex.
  - destruct (pool_event RvStart s) as [[o1 s1]|] eqn:Hev; [|done]. injection Hex as <- <-.
    destruct (Hpool _ _ _ Hev). destruct o1; try done. by destruct (p_started _).
  - destruct (pr_first s), (probe a); try done. case_decide; [|done].
    destruct (pool_event _ s) as [[o1 s1]|] eqn:Hev; [|done]. injection Hex as <- <-. apply (Hpool _ _ _ Hev).
  - destruct (pr_first s); [|done]. case_decide; [|done].
    destruct (pool_event RvProbing s) as [[o1 s1]|] eqn:Hev; [|done]. injection Hex as <- <-.
    destruct (Hpool _ _ _ Hev) as [Hc1 Hl1]. unfold pool_event in Hev.
    destruct (rexec RvProbing (pr_sys s)) as [[o2 y]|] eqn:Hr; [|done]. injection Hev as <- <-.
    destruct (rexec_probing _ _ _ Hr) as (Hfl & _). unfold flags in Hfl. injection Hfl as _ Hp _.
    rewrite Hc, orb_false_r in Hp. simpl. rewrite Hp. destruct (p_probing (r_pool (pr_sys s))); (split; [exact Hc1|exact Hl1]).
  - destruct (pr_first s); [|done]. by injection Hex as <- <-.
  - destruct (pr_cancelled s); [done|]. by destruct (pr_task s).
  - by destruct (pr_task s).
  - by destruct (pr_task s).
  - by destruct (pr_task s).
  - rewrite Hl, andb_false_r in Hex. done.
  - destruct (pool_event RvClose s) as [[o1 s1]|] eqn:Hev; [|done]. injection Hex as <- <-.
    rewrite Hc. apply (Hpool _ _ _ Hev).
  - rewrite Hl in Hex. apply (Hpool _ _ _ Hex).
  - destruct (unprobed ev); [|done]. apply (Hpool _ _ _ Hex).
Qed.
Lemma prrun_over evs s s' : loop_over s → prrun evs s = Some s' → loop_over s'.
Proof.
  revert s. induction evs as [|ev evs IH]; intros s Hs; cbn [prrun]; [by intros [= <-]|].
  destruct (prexec ev s) as [[o s1]|] eqn:Hex; [|done]. apply IH. by eapply prexec_over.
Qed.
Lemma closed_over s o s' : ok s → prexec PrClosed s = Some (o, s') → loop_over s'.
Proof.
  intros Hs. cbn [prexec]. destruct (task_live (pr_task s)) eqn:Hl; [done|]. intros Hev. unfold pool_event in Hev.
  destruct (rexec RvClosed (pr_sys s)) as [[o1 y]|] eqn:Hex; [|done]. injection Hev as <- <-.
  destruct (closed_ok _ _ _ (ok_sys s Hs) Hex) as (_ & _ & _ & _ & Hc & _). by split.
Qed.

(** ** Recovery *)

Definition open_probing (s : probing) : Prop := ok s ∧ p_closed (r_pool (pr_sys s)) = false.
Lemma open_flags s : open_probing s → pr_cancelled s = false ∧ pr_stop s = false.
Proof.
  intros [Hs Hc]. split; [|by rewrite (pk_stop _ _ Hs)]. apply not_true_iff_false. intros Hx%(pk_cancelled _ _ Hs). congruence.
Qed.

Section recovery.
Context (answers : nat → exn + bool) (Hans : ∀ j e, answers j = inl e → is_exception e = true).
Abbreviation follows := (follows answers).

Lemma probe_verdict j : probe (answers j) = Some (verdict (answers j)).
Proof. unfold probe, verdict. destruct (answers j) as [e|b] eqn:Ha; [|done]. by rewrite (Hans j e Ha). Qed.

(** The health of the backend is what its check answers. *)
Definition told (s : probing) (i : nat) : Prop := health (r_pool (pr_sys s)) !! i = Some (Some (verdict (answers i))).
Definition backends (s : probing) : nat := length (p_slots (r_pool (pr_sys s))).

(** An event of the loop on the open pool. *)
Lemma loop_event ev s o s' : open_probing s → follows ev → prexec ev s = Some (o, s') →
  open_probing s' ∧ backends s' = backends s ∧ (∀ j, told s j → told s' j) ∧
  match ev, pr_task s with
  | PrTurn, TaskReady => pr_task s' = TaskWaits
  | PrTimeout, TaskWaits => pr_task s' = TaskProbes (probe_once (r_pool (pr_sys s)))
  | PrReport i _, TaskProbes todo => i ∈ todo ∧ pr_task s' = TaskProbes (todo ∖ {[i]}) ∧ told s' i
  | PrRoundDone, TaskProbes todo => todo = ∅ ∧ pr_task s' = TaskReady
  | _, _ => False
  end.
Proof.
  intros Ho Hf Hex. pose proof (prexec_ok _ _ _ _ (proj1 Ho) Hex) as Hok. destruct (open_flags s Ho) as [Hcan Hst].
  destruct Ho as [Hs Hc]. destruct ev as [| | | | | |i a| | | | |]; try done; cbn [prexec] in Hex; rewrite ?Hcan in Hex;
    destruct (pr_task s) as [| | |todo|] eqn:Ht; try done.
  - rewrite Hst in Hex. by injection Hex as <- <-.
  - by rewrite Hst in Hex.
  - by injection Hex as <- <-.
  - simpl in Hf. subst a. rewrite probe_verdict in Hex. cbn [negb andb] in Hex.
    case_bool_decide as Hi; [|done]. destruct (pool_event _ s) as [[o1 s1]|] eqn:Hev; [|done]. injection Hex as <- <-.
    destruct (ok_event _ _ _ _ Hs Hev) as (_ & Hfl & _ & Hr); [done..|]. unfold flags in Hfl. injection Hfl as _ _ Hcl.
    pose proof (rsys_step _ _ _ _ (ok_sys s Hs) Hr) as (_ & _ & Hh). simpl in Hh. unfold health_after in Hh. rewrite Hc in Hh.
    assert (Hti : told s1 i) by (apply (report_known _ _ _ _ _ Hs Hev Hc)).
    split_and!; [split; [done|simpl; congruence]|by destruct (rexec_health _ _ _ _ (ok_sys s Hs) Hr)| |done|done|done].
    intros j Hj. destruct (decide (i = j)) as [<-|Hne]; [done|]. unfold told. simpl.
    rewrite Hh, list_lookup_alter_ne by done. exact Hj.
  - cbn [negb andb] in Hex. case_bool_decide; [|done]. by injection Hex as <- <-.
Qed.

(** [k] more events of the loop tell the health of every backend. *)
Definition due (n k : nat) (s : probing) : Prop :=
  open_probing s ∧ backends s = n ∧
  ((∀ i, (i < n)%nat → told s i) ∨
   match pr_task s with
   | TaskReady => (n + 2 ≤ k)%nat
   | TaskWaits => (n + 1 ≤ k)%nat
   | TaskProbes todo => (∀ i, (i < n)%nat → i ∉ todo → told s i) ∧ (size todo ≤ k)%nat ∨ (size todo + n + 3 ≤ k)%nat
   | NoTask | TaskEnded => False
   end).

Lemma due_step n k ev s o s' : due n (S k) s → follows ev → prexec ev s = Some (o, s') → due n k s'.
Proof.
  intros (Ho & Hn & Hd) Hf Hex. destruct (loop_event _ _ _ _ Ho Hf Hex) as (Ho' & Hn' & Hk & Hc).
  split; [done|]. split; [congruence|]. destruct Hd as [Hd|Hd]; [left; by auto|].
  destruct ev as [| | | | | |i a| | | | |]; try done; destruct (pr_task s) as [| | |todo|] eqn:Ht; try done; simpl in Hc.
  - right. rewrite Hc. lia.
  - right. rewrite Hc. left. unfold probe_once. rewrite (proj2 Ho). fold (backends s). rewrite Hn. split.
    + intros i Hi []. apply elem_of_list_to_set, elem_of_seq. lia.
    + rewrite size_list_to_set by apply NoDup_seq. rewrite length_seq. lia.
  - destruct Hc as (Hi & -> & Hti). right. rewrite size_difference by set_solver. rewrite size_singleton.
    assert (size todo ≠ 0)%nat by (intros Hz; apply size_empty_inv in Hz; set_solver).
    destruct Hd as [[Hd Hle]|Hle]; [left|right; lia]. split; [|lia]. intros j Hj Hnj. destruct (decide (j = i)) as [->|]; [done|].
    apply Hk, Hd; set_solver.
  - destruct Hc as [-> Hc]. destruct Hd as [[Hd _]|Hle]; [left; intros i Hi; apply Hk, Hd; set_solver|right].
    rewrite Hc. rewrite size_empty in Hle. lia.
Qed.
Lemma due_end n k evs s s' : due n k s → Forall follows evs → prrun evs s = Some s' → (k ≤ length evs)%nat →
  ∀ i, (i < n)%nat → told s' i.
Proof.
  intros Hd Hall. revert k s Hd. induction Hall as [|ev evs Hf _ IH]; intros k s Hd; cbn [prrun].
  - intros [= <-] Hle i Hi. destruct k; [|simpl in Hle; lia]. destruct Hd as (_ & _ & [Hd|Hd]); [by apply Hd|].
    destruct (pr_task s) as [| | |todo|]; try done; try lia. destruct Hd as [[Hd Hz]|]; [|lia]. apply Hd; [done|].
    assert (todo ≡ ∅) by (apply size_empty_inv; lia). set_solver.
  - destruct (prexec ev s) as [[o s1]|] eqn:Hex; [|done]. intros Hrun Hle.
    destruct k as [|k]; [|eapply (IH k); [by eapply due_step|done|simpl in Hle; lia]].
    apply (IH 0%nat s1); [|done|lia]. eapply due_step; [|done|exact Hex]. destruct Hd as (? & ? & Hd). split_and!; [done..|].
    destruct Hd as [|Hd]; [by left|right]. destruct (pr_task s); try done; try lia. destruct Hd as [[? ?]|?]; [left; split; [done|lia]|right; lia].
Qed.

Lemma loop_goes_on s : open_probing s → task_live (pr_task s) = true →
  ∃ ev o s', follows ev ∧ prexec ev s = Some (o, s') ∧ task_live (pr_task s') = true.
Proof.
  intros Ho Hl. destruct (open_flags s Ho) as [Hcan Hst]. destruct Ho as [Hs Hc].
  destruct (pr_task s) as [| | |todo|] eqn:Ht; try done.
  - exists PrTurn. cbn [prexec]. rewrite Hcan, Ht, Hst. by eexists _, _.
  - exists PrTimeout. cbn [prexec]. rewrite Hcan, Ht. by eexists _, _.
  - destruct (set_choose_or_empty todo) as [[i Hi]|He].
    + exists (PrReport i (answers i)). cbn [prexec]. rewrite Hcan, Ht, probe_verdict. cbn [negb andb].
      rewrite bool_decide_true by done. unfold pool_event. cbn [rexec].
      destruct (lookup_lt_is_Some_2 _ _ (pk_todo _ _ Hs todo Ht i Hi)) as [sl ->].
      destruct (rfinish _ _ _) as [o y]. by eexists _, _.
    + exists PrRoundDone. cbn [prexec]. rewrite Hcan, Ht. cbn [negb andb]. rewrite bool_decide_true by by apply leibniz_equiv.
      by eexists _, _.
Qed.
Lemma loop_runs k s : open_probing s → task_live (pr_task s) = true →
  ∃ evs s', length evs = k ∧ Forall follows evs ∧ prrun evs s = Some s'.
Proof.
  revert s. induction k as [|k IH]; intros s Ho Hl; [by exists [], s|].
  destruct (loop_goes_on s Ho Hl) as (ev & o & s1 & Hf & Hex & Hl1). destruct (loop_event _ _ _ _ Ho Hf Hex) as (Ho1 & _).
  destruct (IH s1 Ho1 Hl1) as (evs & s' & Hlen & Hall & Hrun). exists (ev :: evs), s'.
  split_and!; [simpl; congruence|by constructor|]. cbn [prrun]. by rewrite Hex.
Qed.

Lemma due_start s : open_probing s → task_live (pr_task s) = true → due (backends s) (2 * backends s + 3) s.
Proof.
  intros Ho Hl. split; [done|]. split; [done|]. right. destruct (pr_task s) as [| | |todo|] eqn:Ht; try done; [lia..|].
  right. assert (size todo ≤ backends s)%nat; [|lia].
  assert (Hz : size (list_to_set (seq 0 (backends s)) : gset nat) = backends s)
    by (rewrite size_list_to_set by apply NoDup_seq; apply length_seq).
  rewrite <- Hz. apply subseteq_size. intros i Hi. apply elem_of_list_to_set, elem_of_seq.
  pose proof (pk_todo _ _ (proj1 Ho) todo Ht i Hi). unfold backends. lia.
Qed.
End recovery.
End steps.

(** C17: The probes do what the pool relies on: the pool under the probe loop stays in the
    states of a pool whose health is set from outside; the loop runs only once the first
    round has told the health of every backend; there is no loop before [start], and
    after [close] has returned none runs ever again. *)
Theorem probe_loop ids interval timeout ob p0 s :
  pool_init ids interval timeout ob = inr p0 → preachable p0 s →
  rreachable p0 (pr_sys s) ∧
  (task_live (pr_task s) = true → p_started (r_pool (pr_sys s)) = true ∧
     ∀ i sl, p_slots (r_pool (pr_sys s)) !! i = Some sl → is_Some (sl_healthy sl)) ∧
  (p_closed (r_pool (pr_sys s)) = true → task_live (pr_task s) = true → pr_cancelled s = true) ∧
  ∀ o s1 evs s2, prexec PrClosed s = Some (o, s1) → prrun evs s1 = Some s2 → task_live (pr_task s2) = false.
Proof.
  intros Hinit Hr. pose proof (preachable_ok _ _ _ _ _ Hinit _ Hr) as Hs. split_and!.
  - apply Hs.
  - intros Hl. assert (Hp : p_probing (r_pool (pr_sys s)) = true) by (apply (pk_task _ _ Hs); by destruct (pr_task s)).
    split; [apply (pk_started _ _ Hs); by right|]. intros i sl Hsl. destruct (sl_healthy sl) as [b|] eqn:Hh; [by eexists|].
    destruct (pk_known _ _ Hs i Hp). unfold unknown, health. by rewrite list_lookup_fmap, Hsl; simpl; rewrite Hh.
  - apply (pk_live _ _ Hs).
  - intros o s1 evs s2 Hex Hrun. pose proof (closed_over _ _ _ _ _ Hinit _ _ _ Hs Hex) as Hov.
    by apply (prrun_over _ _ _ Hov Hrun).
Qed.

(** C16: A backend that answers is found: while the pool is open and its loop runs, the
    loop can always go on by itself, and any [2 * n + 3] events of it, [n] being the
    number of backends, end with the health of every backend being what its
    check answers: healthy if it answers true, and not if it answers false or raises.  So
    a backend that was taken out of service after an error returns once its check
    succeeds, whatever the checks of the others answer. *)
Theorem probe_recovers ids interval timeout ob p0 s answers :
  pool_init ids interval timeout ob = inr p0 → preachable p0 s →
  p_closed (r_pool (pr_sys s)) = false → task_live (pr_task s) = true →
  (∀ j e, answers j = inl e → is_exception e = true) →
  (∀ k, ∃ evs s', length evs = k ∧ Forall (follows answers) evs ∧ prrun evs s = Some s') ∧
  ∀ evs s', Forall (follows answers) evs → prrun evs s = Some s' →
    (2 * length (p_slots (r_pool (pr_sys s))) + 3 ≤ length evs)%nat →
    ∀ i, (i < length (p_slots (r_pool (pr_sys s))))%nat →
      health (r_pool (pr_sys s')) !! i = Some (Some match answers i with inr healthy => healthy | inl _ => false end).
Proof.
  intros Hinit Hr Hc Hl Ha. pose proof (preachable_ok _ _ _ _ _ Hinit _ Hr) as Hs. split.
  - intros k. by eapply loop_runs.
  - intros evs s' Hall Hrun Hlen. apply (due_end _ _ _ _ _ Hinit answers Ha _ _ evs s s' (due_start _ _ s (conj Hs Hc) Hl) Hall Hrun Hlen).
Qed.

(** ** Two backends, one of which fails its first probe *)

Definition demo_probing : probing := Probing (RSys demo_pool ∅ ∅ None) None NoTask false false.
Definition prdemo (evs : list prevent) : probing := default demo_probing (prrun evs demo_probing).

Lemma prrun_reachable p0 evs s s' : preachable p0 s → prrun evs s = Some s' → preachable p0 s'.
Proof.
  revert s. induction evs as [|ev evs IH]; intros s Hr; cbn [prrun]; [by intros [= <-]|].
  destruct (prexec ev s) as [[o s1]|] eqn:Hex; [|done]. apply IH. by eapply preachable_step.
Qed.
Lemma prdemo_reachable evs : is_Some (prrun evs demo_probing) → preachable demo_pool (prdemo evs).
Proof. intros [s Hs]. unfold prdemo. rewrite Hs. by eapply prrun_reachable; [constructor|]. Qed.

Definition discovered_events : list prevent :=
  [PrStart; PrFirst 1 (inr true); PrFirst 0 (inl (gw BackendTimeoutError)); PrFirstDone; PrTurn].
Lemma discovered_reachable : preachable demo_pool (prdemo discovered_events).
Proof. apply prdemo_reachable. vm_compute. by eexists. Qed.

Lemma probe_loop_witness :
  rreachable demo_pool (pr_sys (prdemo discovered_events)) ∧
  health (r_pool (pr_sys (prdemo discovered_events))) = [Some false; Some true].
Proof.
  split; [exact (proj1 (probe_loop _ _ _ _ _ _ demo_pool_init discovered_reachable))|vm_compute; reflexivity].
Defined.

(** Backend 0, which failed its first check, answers now; backend 1 raises. *)
Definition demo_answers (i : nat) : exn + bool := match i with 0%nat => inr true | _ => inl (gw BackendTimeoutError) end.
Definition recovery_events : list prevent :=
  [PrTimeout; PrReport 1 (demo_answers 1); PrReport 0 (demo_answers 0); PrRoundDone; PrTurn; PrTimeout;
   PrReport 0 (demo_answers 0)].
Lemma probe_recovers_witness :
  ∃ s', prrun recovery_events (prdemo discovered_events) = Some s' ∧
    health (r_pool (pr_sys s')) !! 0%nat = Some (Some true) ∧ health (r_pool (pr_sys s')) !! 1%nat = Some (Some false).
Proof.
  destruct (prrun recovery_events (prdemo discovered_events)) as [s'|] eqn:Hrun; [|vm_compute in Hrun; discriminate Hrun].
  assert (Ha : ∀ j e, demo_answers j = inl e → is_exception e = true) by (intros [|j] e [= <-]; reflexivity).
  assert (Hf : Forall (follows demo_answers) recovery_events) by (repeat constructor).
  assert (Hh := proj2 (probe_recovers _ _ _ _ _ _ demo_answers demo_pool_init discovered_reachable
    ltac:(vm_compute; reflexivity) ltac:(vm_compute; reflexivity) Ha) _ s' Hf Hrun ltac:(vm_compute; lia)).
  exists s'. split; [reflexivity|]. split; [apply (Hh 0%nat)|apply (Hh 1%nat)]; vm_compute; lia.
Defined.
