(* ===== verification/Gauges.v ===== *)
(** The gauges mirror the services: after every event, the gauges that the metrics
    export are the counters of the admission controller, the backend pool and the
    batcher. *)
From S2P Require Import Prelude.
From S2P Require Import Python.
From S2P Require Import Json.
From S2P Require Import PlainFloats.
From S2P Require Import Errors.
From S2P Require Import Auth.
From S2P Require Import Admission.
From S2P Require Import AdmissionInv.
From S2P Require Import AdmissionSections.
From S2P Require Import AdmissionSystem.
From S2P Require Import AdmissionTheorems.
From S2P Require Import Routing.
From S2P Require Import RoutingInv.
From S2P Require Import RoutingSystem.
From S2P Require Import RoutingTheorems.
From S2P Require Import Chat.
From S2P Require Import Compatibility.
From S2P Require Import Batching.
From S2P Require Import BatchingInv.
From S2P Require Import BatchingSystem.
From S2P Require Import BatchingTheorems.
From S2P Require Import Metrics.
From S2P Require Import Mirror.

(** * Admission *)

(** Neither an error of the gateway nor a cancellation. *)
Definition internal (e : exn) : Prop :=
  match e with Gateway _ | CancelledError => False | _ => True end.

#[local] Hint Extern 1 (internal _) => exact I : mirror.

Definition is_adm_state (o : observation) : bool := match o with ObsState _ _ _ => true | _ => false end.
Definition told_admission (s : ctrl) : Prop :=
  c_observer s = true →
  last_state is_adm_state (c_log s) = Some (ObsState (c_inflight s) (c_queued s) (tenant_counts s)).

Section admission.
Variable clock : nat → Z.
Abbreviation keeps := (keeps told_admission internal).
Abbreviation restores := (restores told_admission internal).
Abbreviation fails := (fails (S := ctrl) internal).

Lemma restores_notify : restores notify_observer.
Proof.
  intros s. unfold ends, notify_observer. apply wp_modify. destruct (c_observer s) eqn:Ho; [|intros Ho'; congruence].
  intros _. simpl. by rewrite last_state_snoc.
Qed.
Lemma notify_tells s : told_admission (notify_observer s).2.
Proof. exact (restores_notify s). Qed.
Lemma keeps_notify : keeps notify_observer.
Proof. apply keeps_restores, restores_notify. Qed.

Lemma fails_tenant tid : fails (tenant tid).
Proof. unfold tenant. mirror. Qed.
Lemma keeps_tenant tid : keeps (tenant tid).
Proof. unfold tenant. mirror. Qed.
Lemma keeps_clock : keeps (read_clock clock).
Proof. unfold read_clock. mirror. Qed.
Lemma fails_clock : fails (read_clock clock).
Proof. unfold read_clock. mirror. Qed.
Hint Resolve restores_notify keeps_notify fails_clock fails_tenant keeps_tenant keeps_clock : mirror.

Lemma keeps_wait t o f : keeps (observe_wait clock t o f).
Proof.
  unfold observe_wait. mirror. all: apply keeps_modify; intros s Hs Ho; simpl; rewrite last_state_snoc; by apply Hs.
Qed.
Lemma keeps_activate tid : keeps (activate_tenant_locked tid).
Proof. apply keeps_modify. intros s Hs. by destruct (decide _). Qed.
Lemma fails_activate tid : fails (activate_tenant_locked tid).
Proof. apply fails_modify. Qed.
Lemma fails_deactivate tid : fails (deactivate_tenant_locked tid).
Proof. unfold deactivate_tenant_locked. mirror. Qed.
Lemma keeps_complete w f : keeps (complete_future w f).
Proof. unfold complete_future. mirror. Qed.
Hint Resolve keeps_wait keeps_activate fails_activate fails_deactivate keeps_complete : mirror.

Lemma keeps_discard_loop n tid (d : bool) s : (d = false → told_admission s) →
  wp (discard_loop n tid d) (λ r s', r = false → told_admission s') (λ e _, internal e) s.
Proof.
  revert d s. induction n as [|n IH]; intros d s Hs; simpl; [done|].
  apply wp_bind. unfold tenant at 1. apply wp_bind, wp_get. destruct (c_tenants s !! tid) as [st|]; [|done].
  apply wp_ret. apply wp_bind, wp_get. destruct (ts_queue st) as [|w rest]; [done|].
  destruct (future_done s w); [|done]. apply wp_bind, wp_modify, wp_bind, wp_modify. by apply IH.
Qed.
Lemma keeps_discard tid : keeps (discard_completed_waiters_locked tid).
Proof.
  unfold discard_completed_waiters_locked. apply keeps_bind; [apply keeps_tenant|]. intros st s Hs.
  apply wp_bind. eapply wp_mono; [by apply keeps_discard_loop|..].
  - intros [] s' Hs'; [apply restores_notify|by apply Hs'].
  - intros e s' He. by left.
Qed.
Lemma keeps_remove tid w : keeps (remove_waiter_locked tid w).
Proof.
  unfold remove_waiter_locked. mirror. apply keeps_restores. mirror.
Qed.
Lemma restores_grant tid q : restores (grant_locked clock tid q).
Proof.
  unfold grant_locked. mirror.
Qed.
Lemma keeps_grant tid q : keeps (grant_locked clock tid q).
Proof. apply keeps_restores, restores_grant. Qed.
Hint Resolve keeps_discard keeps_remove restores_grant keeps_grant : mirror.

Lemma keeps_round n : keeps (dispatch_round clock n).
Proof.
  induction n as [|n IH]; simpl; mirror.
  apply keeps_restores. mirror.
Qed.
Hint Resolve keeps_round : mirror.

Lemma keeps_while fuel : keeps (dispatch_while clock fuel).
Proof. induction fuel as [|fuel IH]; simpl; mirror. Qed.
Hint Resolve keeps_while : mirror.
Lemma keeps_dispatch : keeps (dispatch_locked clock).
Proof. unfold dispatch_locked. mirror. Qed.
Lemma keeps_release_locked l : keeps (release_locked l).
Proof.
  unfold release_locked. mirror. apply keeps_restores. mirror.
Qed.
Hint Resolve keeps_dispatch keeps_release_locked : mirror.
Lemma keeps_release l : keeps (Admission.release clock l).
Proof. unfold Admission.release. mirror. Qed.

Lemma keeps_acquire_locked t : keeps (acquire_locked clock t).
Proof.
  unfold acquire_locked, state_for. mirror. apply keeps_restores. mirror.
Qed.
Lemma keeps_except {A} t e : keeps (acquire_except clock t e : adm A).
Proof. unfold acquire_except. mirror. Qed.
Lemma except_internal {A} t e : internal e → (acquire_except clock t e : adm A) = raise e.
Proof. by destruct e. Qed.
Hint Resolve keeps_acquire_locked keeps_except : mirror.

Lemma keeps_acquire_else t l : keeps (acquire_else clock t l).
Proof. unfold acquire_else. mirror. Qed.
Hint Resolve keeps_acquire_else : mirror.
Lemma keeps_acquire_begin t : keeps (acquire_begin clock t).
Proof.
  unfold acquire_begin. apply keeps_bind; [mirror|intros t0]. apply keeps_bind; [|intros a; mirror].
  apply keeps_try; [mirror|intros e; mirror|apply except_internal].
Qed.
Lemma keeps_acquire_resume fr w f : keeps (acquire_resume clock fr w f).
Proof.
  unfold acquire_resume. apply keeps_bind; [|intros a; mirror].
  apply keeps_try; [|intros e; mirror|apply except_internal].
  unfold acquire_timed_out, acquire_cancelled. mirror.
Qed.

(** [shutdown] is told at its end, and ends there unless an internal error occurs. *)
Lemma fails_drain_queue n tid : fails (drain_queue n tid).
Proof. induction n as [|n IH]; simpl; unfold complete_future, put_tenant; mirror. Qed.
Hint Resolve fails_drain_queue : mirror.
Lemma fails_drain_tenants tids : fails (drain_tenants tids).
Proof. induction tids as [|tid tids IH]; simpl; mirror. Qed.
Hint Resolve fails_drain_tenants : mirror.
Lemma keeps_shutdown : keeps shutdown.
Proof.
  unfold shutdown. mirror. apply keeps_restores. mirror.
Qed.
Lemma keeps_set_observer b : keeps (set_observer b).
Proof. apply keeps_restores. unfold set_observer. mirror. Qed.
Hint Resolve keeps_acquire_begin keeps_acquire_resume keeps_release keeps_shutdown keeps_set_observer : mirror.

Lemma told_finish {A} (y : Admission.system) (m : adm A) k o y' :
  Admission.finish y m k = (o, y') → keeps m → told_admission (y_ctrl y) →
  (∀ a c, y_ctrl (k a c).2 = c) →
  (∃ e, o = ORaised e ∧ internal e) ∨ told_admission (y_ctrl y').
Proof.
  intros Hf Hm Hy Hk. eapply finish_wp in Hf; [|by apply Hm].
  destruct Hf as [(a & c & Hf & Hc)|(e & c & [= <- <-] & [He|Hc])]; [right|left; eauto|by right].
  specialize (Hk a c). rewrite Hf in Hk. simpl in Hk. by rewrite Hk.
Qed.

Lemma told_exec late y ev o y' :
  told_admission (y_ctrl y) → exec clock late ev y = Some (o, y') →
  (∃ e, o = ORaised e ∧ internal e) ∨ told_admission (y_ctrl y').
Proof.
  intros Hy Hex. destruct ev as [t|w|w|w|l| |b]; simpl in Hex.
  - apply (inj Some) in Hex. eapply told_finish; [exact Hex|auto with mirror|done|]. by intros [? []] c.
  - destruct (Admission.y_frames y !! w) as [[? ? []]|]; try done. destruct (c_futures _ !! w); [|done].
    destruct (_ && _); [done|]. injection Hex as <- <-. by right.
  - destruct (Admission.y_frames y !! w) as [[? ? []]|]; try done; injection Hex as <- <-; by right.
  - destruct (Admission.y_frames y !! w) as [fr|]; [|done]. destruct (c_futures _ !! w) as [f|]; [|done].
    destruct (fut_done f); [|done]. apply (inj Some) in Hex.
    eapply told_finish; [exact Hex|auto with mirror|done|done].
  - destruct (decide _); [|done]. apply (inj Some) in Hex.
    eapply told_finish; [exact Hex|auto with mirror|done|done].
  - apply (inj Some) in Hex. eapply told_finish; [exact Hex|auto with mirror|done|done].
  - apply (inj Some) in Hex. eapply told_finish; [exact Hex|auto with mirror|done|done].
Qed.

Lemma answers_external y ev e y' : answer_ok y ev (ORaised e) y' → ¬ internal e.
Proof.
  destruct ev; simpl; try done.
  - unfold refused. naive_solver.
  - intros (_ & fr & _ & [[-> _]|[[-> _]|[-> _]]]); by intros [].
Qed.

Lemma told_reachable late ts gmi gmq c0 y :
  configured ts gmi gmq c0 → reachable clock late c0 y → told_admission (y_ctrl y).
Proof.
  intros Hcfg. induction 1 as [|y ev o y' Hr IH Hst].
  - destruct Hcfg as (_ & timeout & ob & Hinit). unfold ctrl_init in Hinit.
    destruct (_ || _); [done|]. destruct (negb _); [done|]. apply (inj inr) in Hinit as <-. apply notify_tells.
  - pose proof (sys_reachable _ _ _ _ _ _ _ Hcfg Hr) as Hy. destruct (sys_step _ _ _ _ _ _ Hy Hst) as [_ Ha].
    destruct Hst as [y ev o y' Hex]. destruct (told_exec _ _ _ _ _ IH Hex) as [(e & -> & He)|]; [|done].
    by apply answers_external in Ha.
Qed.
End admission.

(** * The pool *)

Definition is_pool_state (o : pool_observation) : bool := match o with PoolState _ => true | _ => false end.
(** What the observer is shown of the pool; [announced]: that it is closed. *)
Definition shown (announced : bool) (p : pool) : list (pystr * (bool * Z)) :=
  (λ s, (sl_id s, (slot_healthy s && negb announced, sl_inflight s))) <$> p_slots p.
Definition told_as (announced : bool) (p : pool) : Prop :=
  last_state is_pool_state (p_log p) = Some (PoolState (shown announced p)).
(** The observer knows the state of the pool, or all of it but that it is closed. *)
Definition told_pool (p : pool) : Prop := p_observer p = true → told_as (p_closed p) p.
Definition told_since (p : pool) : Prop :=
  p_observer p = true → ∃ announced, (announced = true → p_closed p = true) ∧ told_as announced p.

Lemma restores_notify_pool : restores told_pool (λ _ : exn, False) notify_pool.
Proof.
  intros p. unfold ends, notify_pool. apply wp_modify. destruct (p_observer p) eqn:Ho; [|intros Ho'; congruence].
  intros _. unfold told_as. simpl. by rewrite last_state_snoc.
Qed.
Lemma notify_pool_tells p : told_pool (notify_pool p).2.
Proof. exact (restores_notify_pool p). Qed.
Lemma told_pool_since p : told_pool p → told_since p.
Proof. intros Hp Ho. exists (p_closed p). auto. Qed.
Lemma restores_notify_since : restores told_since (λ _ : exn, False) notify_pool.
Proof. intros p. exact (told_pool_since _ (notify_pool_tells p)). Qed.

Lemma observe_told i op out p : p_observer p = true → (observe_operation i op out p).1 = inr () ∧
  ∀ c, told_as c p → told_as c (observe_operation i op out p).2.
Proof.
  intros Ho. unfold observe_operation, modify. rewrite Ho. split; [done|]. intros c Hp. simpl.
  destruct (p_slots p !! i); [|done]. unfold told_as. simpl. by rewrite last_state_snoc.
Qed.
Lemma observe_silent i op out p : p_observer p = false → observe_operation i op out p = (inr (), p).
Proof. intros Ho. unfold observe_operation, modify. by rewrite Ho. Qed.
Lemma observe_fields i op out p : p_observer (observe_operation i op out p).2 = p_observer p ∧
  p_closed (observe_operation i op out p).2 = p_closed p.
Proof. unfold observe_operation, modify. simpl. destruct (p_observer p) eqn:Ho; [|by rewrite Ho]. by destruct (p_slots p !! i). Qed.
Lemma keeps_observe (P : pool → Prop) i op out : (∀ p, P p → P (observe_operation i op out p).2) →
  keeps P (λ _ : exn, False) (observe_operation i op out).
Proof. intros HP p Hp. exact (HP p Hp). Qed.

(** A property that notifying restores. *)
Section restored.
Context (P : pool → Prop) (Hnotify : restores P (λ _ : exn, False) notify_pool).
Abbreviation keeps := (keeps P (λ _ : exn, False)).
Lemma keeps_notify_pool : keeps notify_pool.
Proof using Hnotify. by apply keeps_restores. Qed.
#[local] Hint Resolve Hnotify keeps_notify_pool : mirror.

Lemma keeps_select w : keeps (select w).
Proof using Hnotify. unfold select. mirror. apply keeps_restores. mirror. Qed.
Lemma keeps_release_lease l : keeps (release_lease l).
Proof using Hnotify. unfold release_lease. mirror. apply keeps_restores. mirror. Qed.
Lemma keeps_health i b : keeps (set_health i b).
Proof using Hnotify. unfold set_health. mirror. apply keeps_restores. mirror. Qed.
Lemma keeps_pool_observer b : keeps (set_pool_observer b).
Proof using Hnotify. apply keeps_restores. unfold set_pool_observer. mirror. Qed.
End restored.

(** What the methods below keep, every event keeps but those of closing. *)
Record pool_keeps (P : pool → Prop) : Prop := {
  pk_select w : keeps P (λ _ : exn, False) (select w);
  pk_release l : keeps P (λ _ : exn, False) (release_lease l);
  pk_health i b : keeps P (λ _ : exn, False) (set_health i b);
  pk_observe i op out : keeps P (λ _ : exn, False) (observe_operation i op out);
  pk_observer b : keeps P (λ _ : exn, False) (set_pool_observer b);
  pk_next f p : P p → P (with_next f p);
  pk_routed f p : P p → P (with_routed f p);
  pk_streams f p : P p → P (with_streams f p);
  pk_started f p : P p → P (with_started f p);
  pk_probing f p : P p → P (with_probing f p);
}.

Section pool_events.
Context (P : pool → Prop) (HP : pool_keeps P).
Abbreviation keeps := (keeps P (λ _ : exn, False)).

Hint Extern 1 (Mirror.keeps _ _ _) => (by apply HP) : mirror.
Hint Extern 1 (Mirror.keeps _ _ (modify _)) =>
  (apply keeps_modify; intros ? ?; by (apply pk_next + apply pk_routed + apply pk_streams + apply pk_started)) : mirror.

Lemma keeps_lease_of l : keeps (lease_of l).
Proof. unfold lease_of. mirror. Qed.
Hint Resolve keeps_lease_of : mirror.
Lemma keeps_call_end {A} op l (r : exn + A) : keeps (call_end op l r).
Proof. unfold call_end, mark_unhealthy. mirror. Qed.
Lemma keeps_open_end l r : keeps (open_end l r).
Proof. unfold open_end, register_stream, mark_unhealthy. mirror. Qed.
Lemma keeps_finish_begin st : keeps (finish_begin st).
Proof. unfold finish_begin. mirror. Qed.
Lemma keeps_finish_end st out r : keeps (finish_end st out r).
Proof. unfold finish_end, unregister_stream. mirror. Qed.
Lemma keeps_iterate_end st r : keeps (iterate_end st r).
Proof. unfold iterate_end, mark_unhealthy. mirror. Qed.
Lemma keeps_pool_start : keeps pool_start.
Proof. unfold pool_start. mirror. Qed.
Lemma keeps_probing : keeps start_probing.
Proof. apply keeps_modify. intros p Hp. destruct (_ && _); [|done]. by apply pk_probing. Qed.
Hint Resolve keeps_call_end keeps_open_end keeps_finish_begin keeps_finish_end keeps_iterate_end
  keeps_pool_start keeps_probing : mirror.

(** From one state of the system to the next. *)
Definition tells (y y' : rsys) : Prop :=
  r_closing y' = r_closing y ∧ (P (r_pool y) → P (r_pool y')).

Lemma tells_rfinish {A} y0 y (m : rt A) k o y' :
  rfinish y m k = (o, y') → keeps m → tells y0 y →
  (∀ a p, (P (r_pool y0) → P p) → tells y0 (k a p).2) → tells y0 y'.
Proof.
  intros Hf Hm [Hc Hy] Hk. unfold rfinish in Hf. specialize (Hm (r_pool y)). unfold ends, wp in Hm.
  destruct (m (r_pool y)) as [[e|a] p].
  - injection Hf as _ <-. split; [done|]. intros Ht. destruct (Hm (Hy Ht)) as [[]|]; done.
  - specialize (Hk a p). rewrite Hf in Hk. apply Hk. auto.
Qed.

Lemma tells_start_finish y0 st out o y : tells y0 y → tells y0 (start_finish st out o y).2.
Proof.
  intros Hy. destruct (start_finish st out o y) as [o' y'] eqn:Hs. unfold start_finish in Hs.
  eapply tells_rfinish; [exact Hs|auto with mirror|done|]. intros started p Hp. by split; [apply Hy|].
Qed.

Lemma tells_exec ev y o y' : rexec ev y = Some (o, y') →
  match ev with RvClose | RvClosed => True | _ => tells y y' end.
Proof.
  intros Hex. assert (Hy : tells y y) by done.
  destruct ev as [op n|l r|st r|st|st r| | |i b| | |b]; try done; cbn [rexec] in Hex.
  - destruct (n <? 0); [done|]. apply (inj Some) in Hex.
    eapply tells_rfinish; [exact Hex| |done|by intros].
    unfold batch_begin, generate_begin. destruct op; mirror.
  - destruct (r_calls y !! l) as [op|]; [|done]. destruct op; apply (inj Some) in Hex;
      (eapply tells_rfinish; [exact Hex|auto with mirror|done|]); try by intros.
    intros [st registered] p Hp. destruct registered; [by split|]. apply tells_start_finish. by split.
  - destruct (p_routed _ !! st); [|done]. apply (inj Some) in Hex.
    eapply tells_rfinish; [exact Hex|auto with mirror|done|]. intros out p Hp. by apply tells_start_finish.
  - destruct (p_routed _ !! st); [|done]. apply (inj Some) in Hex.
    pose proof (tells_start_finish y st Cancelled RONone y Hy) as Ht. by rewrite Hex in Ht.
  - destruct (r_finishing y !! st) as [out|]; [|done]. apply (inj Some) in Hex.
    eapply tells_rfinish; [exact Hex|auto with mirror|done|by intros].
  - apply (inj Some) in Hex. eapply tells_rfinish; [exact Hex|auto with mirror|done|by intros].
  - destruct (p_started _); [|done]. apply (inj Some) in Hex.
    eapply tells_rfinish; [exact Hex|auto with mirror|done|by intros].
  - destruct (p_slots _ !! i); [|done]. apply (inj Some) in Hex.
    eapply tells_rfinish; [exact Hex|auto with mirror|done|by intros].
  - apply (inj Some) in Hex. eapply tells_rfinish; [exact Hex|auto with mirror|done|by intros].
Qed.
End pool_events.

Lemma observe_tells i op out p : told_pool p → told_pool (observe_operation i op out p).2.
Proof.
  intros Hp Ho. destruct (observe_fields i op out p) as [Ho' ->]. rewrite Ho' in Ho. by apply observe_told; auto.
Qed.
Lemma observe_since i op out p : told_since p → told_since (observe_operation i op out p).2.
Proof.
  intros Hp Ho. destruct (observe_fields i op out p) as [Ho' ->]. rewrite Ho' in Ho.
  destruct (Hp Ho) as (c & Hc & Ht). exists c. split; [done|]. by apply observe_told.
Qed.
Lemma told_keeps : pool_keeps told_pool.
Proof.
  split; auto using restores_notify_pool, keeps_select, keeps_release_lease, keeps_health, keeps_pool_observer, keeps_observe, observe_tells.
Qed.
Lemma since_keeps : pool_keeps told_since.
Proof.
  split; auto using restores_notify_since, keeps_select, keeps_release_lease, keeps_health, keeps_pool_observer, keeps_observe, observe_since.
Qed.

(** Closing tells the observer at its end. *)
Lemma told_closed y o y' : rexec RvClosed y = Some (o, y') → ranswer_ok y RvClosed o y' → told_pool (r_pool y').
Proof.
  cbn [rexec]. destruct (r_closing y) as [[ls sts]|]; [|done]. destruct (forallb _ _); [|done].
  intros Hex%(inj Some) Ho. unfold rfinish, close_end in Hex. cbn [r_pool] in Hex.
  destruct (release_all ls (r_pool y)) as [[e|[]] p] eqn:Hr; unfold bind in Hex at 1; rewrite Hr in Hex.
  - by injection Hex as <- <-.
  - injection Hex as <- <-. exact (notify_pool_tells (with_slots (fmap (set_healthy (Some false))) p)).
Qed.

Lemma told_close y o y' : rexec RvClose y = Some (o, y') → r_closing y' = None →
  told_pool (r_pool y) → told_pool (r_pool y').
Proof.
  cbn [rexec]. destruct (r_closing y) as [?|]; [done|]. intros Hex%(inj Some).
  unfold rfinish, close_begin, bind, get in Hex. destruct (p_closed (r_pool y)); simplify_eq/=; done.
Qed.

Lemma told_rreachable ids interval timeout ob p0 y :
  pool_init ids interval timeout ob = inr p0 → rreachable p0 y →
  r_closing y = None → told_pool (r_pool y).
Proof.
  intros Hinit Hr. pose proof Hr as Hok. induction Hr as [|y ev o y' Hr IH Hex].
  - intros _. unfold pool_init in Hinit. case_bool_decide; [done|]. destruct (_ || _); [done|].
    destruct (existsb _ _); [done|]. destruct (negb _); [done|]. apply (inj inr) in Hinit as <-. apply notify_pool_tells.
  - intros Hc. pose proof (tells_exec _ told_keeps _ _ _ _ Hex) as Ht.
    destruct ev; try (apply Ht, IH; [done|]; by rewrite <- (proj1 Ht)).
    + destruct (r_closing y) eqn:Hcl; [by simpl in Hex; rewrite Hcl in Hex|]. eapply told_close; eauto.
    + eapply told_closed; [done|]. eapply rsys_step; [|done]. by eapply rsys_reachable.
Qed.

Lemma told_since_rreachable ids interval timeout ob p0 y :
  pool_init ids interval timeout ob = inr p0 → rreachable p0 y → told_since (r_pool y).
Proof.
  intros Hinit Hr. induction Hr as [|y ev o y' Hr IH Hex].
  - apply told_pool_since. by apply (told_rreachable _ _ _ _ _ _ Hinit (rreachable_init p0)).
  - pose proof (tells_exec _ since_keeps _ _ _ _ Hex) as Ht. destruct ev; try by apply Ht.
    + cbn [rexec] in Hex. destruct (r_closing y); [done|]. apply (inj Some) in Hex.
      unfold rfinish, close_begin, bind, get in Hex. destruct (p_closed (r_pool y)); simplify_eq/=; [done|].
      intros Ho. destruct (IH Ho) as (c & Hc & Hlast). exists c. by split.
    + apply told_pool_since. eapply told_closed; [done|]. eapply rsys_step; [|done]. by eapply rsys_reachable.
Qed.

(** The backends are those of the configuration. *)
Section ids.
Context (ids : list pystr).
Definition has_ids (p : pool) : Prop := sl_id <$> p_slots p = ids.
Abbreviation keeps := (keeps has_ids (λ _ : exn, False)).

Lemma keeps_ids_alter f i : (∀ s, sl_id (f s) = sl_id s) → keeps (modify (with_slots (alter f i))).
Proof. intros Hf. apply keeps_modify. intros p Hp. unfold has_ids. simpl. by rewrite fmap_alter_slot. Qed.
Lemma keeps_ids_notify : keeps notify_pool.
Proof. apply keeps_modify. intros p Hp. by destruct (p_observer p). Qed.
Hint Resolve keeps_ids_notify : mirror.
Hint Extern 1 (Mirror.keeps _ _ (modify (with_slots (alter _ _)))) => (by apply keeps_ids_alter) : mirror.

Lemma ids_keeps : pool_keeps has_ids.
Proof.
  split; try done; intros *.
  - unfold select. mirror.
  - unfold release_lease. mirror.
  - unfold set_health. mirror.
  - apply keeps_modify. intros p Hp. destruct (p_observer p); [|done]. by destruct (p_slots p !! i).
  - unfold set_pool_observer. mirror.
Qed.
Lemma keeps_ids_release_all ls p : has_ids p → has_ids (release_all ls p).2.
Proof.
  revert p. induction ls as [|l ls IH]; intros p Hp; [done|]. simpl.
  pose proof (pk_release _ ids_keeps l p Hp) as Hl. unfold ends, wp in Hl.
  destruct (release_lease l p) as [r p1] eqn:H1.
  assert (H1' : has_ids p1) by (destruct r; [by destruct Hl as [[]|]|done]). specialize (IH _ H1').
  by destruct (release_all ls p1) as [r' p2].
Qed.

Lemma ids_rreachable interval timeout ob p0 y :
  pool_init ids interval timeout ob = inr p0 → rreachable p0 y → has_ids (r_pool y).
Proof.
  intros Hinit Hr. induction Hr as [|y ev o y' Hr IH Hex].
  - by destruct (pool_init_ok _ _ _ _ _ Hinit) as (_ & _ & _ & _ & _ & Hid).
  - pose proof (tells_exec _ ids_keeps _ _ _ _ Hex) as Ht. destruct ev; try by apply Ht.
    + cbn [rexec] in Hex. destruct (r_closing y); [done|]. apply (inj Some) in Hex.
      unfold rfinish, close_begin, bind, get in Hex. by destruct (p_closed (r_pool y)); simplify_eq/=.
    + cbn [rexec] in Hex. destruct (r_closing y) as [[ls sts]|]; [|done]. destruct (forallb _ _); [|done].
      apply (inj Some) in Hex. pose proof (keeps_ids_release_all ls _ IH) as Hls.
      unfold rfinish, close_end in Hex. cbn [r_pool] in Hex.
      destruct (release_all ls (r_pool y)) as [[e|[]] p] eqn:Hrel; unfold bind in Hex at 1; rewrite Hrel in Hex;
        injection Hex as <- <-; [done|]. simpl.
      assert (Hfin : has_ids (with_slots (fmap (set_healthy (Some false))) p)).
      { unfold has_ids. simpl. by rewrite <- list_fmap_compose. }
      by destruct (p_observer p).
Qed.
End ids.

(** * The batcher *)

Definition is_batch_state (o : batch_observation) : bool := match o with BatchState _ _ => true | _ => false end.
Definition told_batcher (s : batcher) : Prop :=
  b_observer s = true → last_state is_batch_state (b_log s) = Some (BatchState (b_pending s) (b_inflight s)).

Section batcher.
Context `{FloatRepr, ModelDump}.
Variable clock : nat → Z.
Abbreviation keeps := (keeps told_batcher (λ _ : exn, False)).
Abbreviation restores := (restores told_batcher (λ _ : exn, False)).

Lemma restores_notify_state : restores notify_state.
Proof.
  intros s. unfold ends, notify_state, observe_batch. apply wp_bind, wp_get, wp_modify.
  destruct (b_observer s) eqn:Ho; [|intros Ho'; congruence]. intros _. simpl. by rewrite last_state_snoc.
Qed.
Lemma notify_state_tells s : told_batcher (notify_state s).2.
Proof. exact (restores_notify_state s). Qed.
Lemma keeps_notify_state : keeps notify_state.
Proof. apply keeps_restores, restores_notify_state. Qed.
Lemma keeps_observe_batch o I : is_batch_state o = false → Mirror.keeps told_batcher I (observe_batch o).
Proof.
  intros Hb. apply keeps_modify. intros s Hs. unfold told_batcher in *. destruct (b_observer s) eqn:Ho; [|by rewrite Ho].
  intros _. simpl. rewrite last_state_snoc, Hb. by apply Hs.
Qed.
Hint Extern 1 (Mirror.keeps _ _ (observe_completed _ _)) => (by apply keeps_observe_batch) : mirror.
Hint Extern 1 (Mirror.keeps _ _ (observe_dispatched _ _ _)) => (by apply keeps_observe_batch) : mirror.
Hint Extern 1 (Mirror.keeps _ _ (observe_usage _ _)) => (by apply keeps_observe_batch) : mirror.
Hint Resolve restores_notify_state keeps_notify_state : mirror.

Lemma keeps_batch_clock : keeps (batch_clock clock).
Proof. unfold batch_clock. mirror. Qed.
Lemma keeps_get_item i : keeps (get_item i).
Proof. unfold get_item. mirror. Qed.
Lemma keeps_get_batch b : keeps (get_batch b).
Proof. unfold get_batch. mirror. Qed.
Lemma keeps_item_state i x : keeps (set_item_state i x).
Proof. unfold set_item_state. mirror. Qed.
Lemma keeps_cancel_timer b : keeps (cancel_timer b).
Proof. unfold cancel_timer. mirror. Qed.
Hint Resolve keeps_batch_clock keeps_get_item keeps_get_batch keeps_item_state keeps_cancel_timer : mirror.
Lemma keeps_resolve i f : keeps (resolve i f).
Proof. unfold resolve. mirror. Qed.
Hint Resolve keeps_resolve : mirror.
Lemma keeps_resolve_unless i f : keeps (resolve_unless_done i f).
Proof. unfold resolve_unless_done. mirror. Qed.
Lemma keeps_mark i : keeps (mark_dispatched i).
Proof. unfold mark_dispatched. mirror. Qed.
Hint Resolve keeps_resolve_unless keeps_mark : mirror.

Lemma keeps_detach b reason current : keeps (detach_locked clock b reason current).
Proof. unfold detach_locked. mirror. apply keeps_restores. mirror. Qed.
Hint Resolve keeps_detach : mirror.
Lemma keeps_join i b : keeps (join_group clock i b).
Proof. unfold join_group. mirror. apply keeps_restores. mirror. Qed.
Hint Resolve keeps_join : mirror.
Lemma keeps_submit tid r : keeps (submit_begin clock tid r).
Proof. unfold submit_begin. mirror. Qed.
Lemma keeps_timer b : keeps (timer_expired clock b).
Proof. unfold timer_expired. mirror. Qed.
Lemma keeps_timer_end b : keeps (timer_cancelled b).
Proof. unfold timer_cancelled. mirror. Qed.

Lemma keeps_complete_members l : keeps (complete_members l).
Proof. induction l as [|[i response] l IH]; simpl; mirror. Qed.
Lemma keeps_fail_items l e : keeps (fail_items l e).
Proof. unfold fail_items, fail_member. mirror. Qed.
Hint Resolve keeps_complete_members keeps_fail_items : mirror.
Lemma keeps_leave (m : bt unit) : restores m → keeps (do! leave_inflight in m).
Proof.
  unfold leave_inflight. intros Hm s Hs. apply wp_bind, wp_bind, wp_get.
  destruct (_ <=? _); [by right|]. apply wp_modify, Hm.
Qed.
Lemma keeps_leave_completed r o : keeps (do! leave_inflight in do! notify_state in observe_completed r o).
Proof. apply keeps_leave. mirror. Qed.
Hint Resolve keeps_leave_completed : mirror.
Lemma keeps_execute f fl a : keeps (execute_end f fl a).
Proof.
  unfold execute_end, execute_body, complete_success. apply keeps_bind; [mirror|intros body].
  destruct body as [e|[]]; [destruct e|]; cbn [is_exception]; mirror.
Qed.

Lemma keeps_cancel_pending i key : keeps (cancel_pending i key).
Proof.
  unfold cancel_pending. apply keeps_bind; [mirror|intros s].
  destruct (dict_get (b_groups s) key) as [b|] eqn:Hg; [|mirror].
  assert (dict_del (b_groups s) key = Some (dict_pop (b_groups s) key)) as -> by (unfold dict_del; by rewrite Hg).
  cbn [unwrap]. apply keeps_bind; [mirror|intros ba]. destruct (bool_decide _); [|mirror].
  apply keeps_restores. unfold cancel_timer. mirror.
Qed.
Hint Resolve keeps_cancel_pending keeps_execute keeps_submit keeps_timer keeps_timer_end : mirror.
Lemma keeps_cancel_item i key : keeps (cancel_item i key).
Proof. unfold cancel_item. mirror. Qed.
Hint Resolve keeps_cancel_item : mirror.

(** Shutting down tells at its end. *)
Lemma fails_any {A} (m : bt A) : fails (λ _, True) m.
Proof. intros s. unfold wp. by destruct (m s) as [[]]. Qed.
Lemma told_shutdown s a s' : told_batcher s → shutdown_begin s = (inr a, s') → told_batcher s'.
Proof.
  intros Hs Hrun. assert (Hk : Mirror.keeps told_batcher (λ _, True) shutdown_begin).
  { unfold shutdown_begin. apply keeps_bind; [mirror|intros s0]. destruct (b_closed s0); [mirror|].
    apply keeps_restores. do 3 (apply restores_after; [apply fails_any|intros ?]).
    do 2 (apply restores_after; [apply fails_any|intros ?]). apply restores_bind; [|mirror].
    intros t. apply (wp_mono _ _ _ _ _ _ (restores_notify_state t)); [done|by left]. }
  specialize (Hk s Hs). unfold ends, wp in Hk. by rewrite Hrun in Hk.
Qed.

Lemma told_bfinish {A} y (m : bt A) k o y' :
  bfinish y m k = (o, y') → keeps m → told_batcher (y_batcher y) →
  (∀ a b, y_batcher (k a b).2 = b) → told_batcher (y_batcher y').
Proof.
  intros Hf Hm Hy Hk. specialize (Hm _ Hy). unfold bfinish, ends, wp in *.
  destruct (m (y_batcher y)) as [[e|a] b]; [injection Hf as _ <-; by destruct Hm as [[]|]|].
  specialize (Hk a b). rewrite Hf in Hk. simpl in Hk. by rewrite Hk.
Qed.
Lemma told_submit_cancelled i key y : told_batcher (y_batcher y) →
  told_batcher (y_batcher (submit_cancelled i key y).2).
Proof.
  intros Hy. destruct (submit_cancelled i key y) as [o y'] eqn:Hs.
  eapply told_bfinish; [exact Hs|auto with mirror|done|done].
Qed.

Lemma told_bexec y ev o y' :
  bsys_ok y → told_batcher (y_batcher y) → bexec clock ev y = Some (o, y') → told_batcher (y_batcher y').
Proof.
  intros Hok Hy Hex. pose proof (bs_answer _ _ _ _ (bstep_all clock _ Hok _ _ _ Hex)) as Ha.
  destruct ev as [tid r|i|i|b|b|f|f a| | |]; cbn [bexec] in Hex.
  - destruct (negb _); [done|]. apply (inj Some) in Hex.
    eapply told_bfinish; [exact Hex|auto with mirror|done|done].
  - destruct (y_frames y !! i) as [key|]; [|done]. destruct (b_items _ !! i) as [it|]; [|done].
    pose proof (told_submit_cancelled i key y Hy) as Hc.
    destruct (it_future it); [done|by injection Hex as _ <-..|]. apply (inj Some) in Hex. by rewrite Hex in Hc.
  - destruct (y_frames y !! i) as [key|]; [|done]. pose proof (told_submit_cancelled i key y Hy) as Hc.
    apply (inj Some) in Hex. by rewrite Hex in Hc.
  - destruct (b_timers _ !! b) as [[]|]; try done. apply (inj Some) in Hex.
    eapply told_bfinish; [exact Hex|auto with mirror|done|done].
  - destruct (b_timers _ !! b) as [[]|]; try done. apply (inj Some) in Hex.
    eapply told_bfinish; [exact Hex|auto with mirror|done|done].
  - destruct (b_flushes _ !! f) as [[l re [] []]|]; try done; by injection Hex as _ <-.
  - destruct (b_flushes _ !! f) as [fl|]; [|done]. destruct (_ && _); [|done]. apply (inj Some) in Hex.
    eapply told_bfinish; [exact Hex|auto with mirror|done|done].
  - destruct (y_gathering y); [done|]. unfold bfinish in Hex.
    destruct (shutdown_begin (y_batcher y)) as [[e|a] b] eqn:Hs; injection Hex as <- <-; [done|].
    by eapply told_shutdown.
  - destruct (_ && _); [|done]. by injection Hex as _ <-.
  - by injection Hex as _ <-.
Qed.

Lemma told_breachable ms mw ob b0 y :
  batcher_init ms mw ob = inr b0 → breachable clock b0 y → told_batcher (y_batcher y).
Proof.
  intros Hinit Hr. pose proof Hinit as Hi. induction Hr as [|y ev o y' Hr IH Hex].
  - unfold batcher_init in Hi. destruct (negb _); [done|]. destruct (negb _); [done|].
    apply (inj inr) in Hi as <-. apply notify_state_tells.
  - destruct (breachable_ok _ _ _ _ _ _ Hinit Hr) as [Hok _]. by eapply told_bexec.
Qed.
End batcher.

(** * The gauges *)

Lemma gauge_last {O} (is_state : O → bool) (f : O → list update) c ls log o v :
  (∀ o', is_state o' = false → ∀ v, foldl (gauge_step c ls) v (f o') = v) →
  last_state is_state log = Some o → (∀ v0, foldl (gauge_step c ls) v0 (f o) = v) →
  gauge_value c ls (log ≫= f) = v.
Proof.
  intros Hout Hlast Hv. unfold gauge_value. induction log as [|o' log IH] using rev_ind; [done|].
  rewrite last_state_snoc in Hlast. rewrite bind_app, foldl_app. simpl. rewrite app_nil_r.
  destruct (is_state o') eqn:Ho; [injection Hlast as ->; apply Hv|]. rewrite Hout by done. by apply IH.
Qed.

(** A pair of gauges per key. *)
Definition gauge_pairs {A} (c1 c2 : collector) (g1 g2 : A → Z) (l : list (pystr * A)) : list update :=
  l ≫= λ kx, [SetGauge c1 [kx.1] (g1 kx.2); SetGauge c2 [kx.1] (g2 kx.2)].

Lemma gauge_pairs_value {A} c1 c2 (g1 g2 : A → Z) l k x v1 v2 :
  c1 ≠ c2 → (k, x) ∈ l → (∀ x', (k, x') ∈ l → x' = x) →
  foldl (gauge_step c1 [k]) v1 (gauge_pairs c1 c2 g1 g2 l) = Some (g1 x) ∧
  foldl (gauge_step c2 [k]) v2 (gauge_pairs c1 c2 g1 g2 l) = Some (g2 x).
Proof.
  intros Hc Hin Hu. induction l as [|[k' x'] l IH] using rev_ind; [by apply elem_of_nil in Hin|].
  unfold gauge_pairs. rewrite bind_app, !foldl_app. simpl.
  destruct (decide (k' = k)) as [->|Hk].
  - assert (x' = x) as -> by (apply Hu, elem_of_app; right; by left). repeat case_bool_decide; naive_solver.
  - assert (Hi : (k, x) ∈ l) by (apply elem_of_app in Hin as [|Hin%list_elem_of_singleton]; [done|congruence]).
    assert (Hu' : ∀ y, (k, y) ∈ l → y = x) by (intros y Hy; apply Hu, elem_of_app; by left).
    specialize (IH Hi Hu'). repeat case_bool_decide; naive_solver.
Qed.

Lemma gauge_pairs_other {A} c c1 c2 (g1 g2 : A → Z) l v :
  c ≠ c1 → c ≠ c2 → foldl (gauge_step c []) v (gauge_pairs c1 c2 g1 g2 l) = v.
Proof.
  intros H1 H2. revert v. induction l as [|[k x] l IH]; intros v; [done|]. cbn.
  repeat case_bool_decide; [naive_solver..|]. apply IH.
Qed.

Lemma admission_state_pairs i q ts : admission_updates (ObsState i q ts) =
  SetGauge AdmissionInflight [] (Z.max 0 i) :: SetGauge AdmissionQueued [] (Z.max 0 q) ::
  gauge_pairs TenantAdmissionInflight TenantAdmissionQueued (λ p, Z.max 0 p.1) (λ p, Z.max 0 p.2) ts.
Proof.
  simpl. unfold admission_state_changed, gauge_pairs. do 2 f_equal.
  induction ts as [|[t [a b]] ts IH]; [done|]. exact (f_equal (λ l, _ :: _ :: l) IH).
Qed.
Lemma pool_state_pairs bs : pool_updates (PoolState bs) =
  gauge_pairs BackendHealthy BackendInflight (λ p : bool * Z, if p.1 then 1 else 0) (λ p, Z.max 0 p.2) bs.
Proof.
  simpl. unfold backend_state_changed, gauge_pairs.
  induction bs as [|[t [a b]] bs IH]; [done|]. exact (f_equal (λ l, _ :: _ :: l) IH).
Qed.

(** ** What the observers' other calls leave alone *)

(** Updates of counters and histograms. *)
Definition no_gauge (u : update) : bool := match u with SetGauge _ _ _ => false | _ => true end.
Lemma no_gauge_value c ls us v : Forall (λ u, no_gauge u = true) us → foldl (gauge_step c ls) v us = v.
Proof. induction 1 as [|u us Hu _ IH]; simpl; [done|]. by destruct u. Qed.
Lemma no_gauge_attempt accepts us : Forall (λ u, no_gauge u = true) us →
  Forall (λ u, no_gauge u = true) (attempt accepts us).
Proof. induction 1 as [|u us Hu _ IH]; simpl; [done|]. destruct (accepts u); by constructor. Qed.

Section exported.
(** The updates the collectors carry out; they accept what they are documented to. *)
Variable accepts : update → bool.
Hypothesis accepts_typed : ∀ u, collectors_accept u = true → accepts u = true.

Lemma attempt_typed us : Forall (λ u, collectors_accept u = true) us → attempt accepts us = us.
Proof. intros Hus. apply attempt_accepted. eapply Forall_impl; [exact Hus|]. exact accepts_typed. Qed.

Definition exported {O} (f : O → list update) (log : list O) : list update := log ≫= λ o, attempt accepts (f o).

Lemma exported_last {O} (is_state : O → bool) (f : O → list update) c ls log o v :
  (∀ o', is_state o' = false → Forall (λ u, no_gauge u = true) (f o')) →
  last_state is_state log = Some o → Forall (λ u, collectors_accept u = true) (f o) →
  (∀ v0, foldl (gauge_step c ls) v0 (f o) = v) →
  gauge_value c ls (exported f log) = v.
Proof.
  intros Hout Hlast Hty Hv. eapply gauge_last; [|exact Hlast|].
  - intros o' Ho v'. by apply no_gauge_value, no_gauge_attempt, Hout.
  - intros v0. by rewrite attempt_typed.
Qed.

Lemma admission_gauges clock late ts gmi gmq c0 y :
  configured ts gmi gmq c0 → reachable clock late c0 y → c_observer (y_ctrl y) = true →
  let s := y_ctrl y in
  let gauge c ls := gauge_value c ls (exported admission_updates (c_log s)) in
  gauge AdmissionInflight [] = Some (c_inflight s) ∧ gauge AdmissionQueued [] = Some (c_queued s) ∧
  ∀ tid st, c_tenants s !! tid = Some st →
    gauge TenantAdmissionInflight [tid] = Some (ts_inflight st) ∧
    gauge TenantAdmissionQueued [tid] = Some (Z.of_nat (length (ts_queue st))).
Proof.
  intros Hcfg Hr Ho s gauge. pose proof (told_reachable _ _ _ _ _ _ _ Hcfg Hr Ho) as Hlast.
  pose proof (so_inv _ _ (sys_reachable _ _ _ _ _ _ _ Hcfg Hr)) as Hi. fold s in Hlast, Hi.
  assert (Hlift : ∀ c ls v, (∀ v0, foldl (gauge_step c ls) v0
      (admission_updates (ObsState (c_inflight s) (c_queued s) (tenant_counts s))) = v) → gauge c ls = v).
  { intros c ls v Hv. eapply exported_last; [|exact Hlast|apply typed_admission|exact Hv].
    intros [] Hs; [done|]. by repeat constructor. }
  assert (H0 : 0 ≤ c_inflight s).
  { rewrite (inv_inflight _ _ Hi). apply sum_map_nonneg. intros. by eapply inflight_nonneg. }
  pose proof (queued_nonneg _ _ Hi) as Hq.
  split_and!.
  - apply Hlift. intros v0. rewrite admission_state_pairs. cbn -[gauge_pairs].
    rewrite gauge_pairs_other by done. f_equal. lia.
  - apply Hlift. intros v0. rewrite admission_state_pairs. cbn -[gauge_pairs].
    rewrite gauge_pairs_other by done. f_equal. lia.
  - intros tid st Ht. pose proof (inflight_nonneg _ _ _ _ Hi Ht) as Hti.
    assert (Hin : (tid, (ts_inflight st, Z.of_nat (length (ts_queue st)))) ∈ tenant_counts s).
    { unfold tenant_counts. apply list_elem_of_bind. exists tid. rewrite Ht. split; [by left|].
      apply (inv_order _ _ Hi). by rewrite Ht. }
    assert (Hu : ∀ p, (tid, p) ∈ tenant_counts s → p = (ts_inflight st, Z.of_nat (length (ts_queue st)))).
    { intros p. unfold tenant_counts. intros (t & Hp & _)%list_elem_of_bind.
      destruct (c_tenants s !! t) as [st'|] eqn:Ht'; [|by apply elem_of_nil in Hp].
      apply list_elem_of_singleton in Hp. injection Hp as <- ->. congruence. }
    assert (Hp := λ v1 v2, gauge_pairs_value TenantAdmissionInflight TenantAdmissionQueued
      (λ p, Z.max 0 p.1) (λ p, Z.max 0 p.2) _ tid _ v1 v2 ltac:(done) Hin Hu). simpl in Hp.
    split; apply Hlift; intros v0; rewrite admission_state_pairs; cbn -[gauge_pairs].
    + rewrite (proj1 (Hp _ None)). f_equal. lia.
    + rewrite (proj2 (Hp None _)). f_equal. lia.
Qed.

Lemma pool_gauges ids interval timeout ob p0 y :
  pool_init ids interval timeout ob = inr p0 → rreachable p0 y → p_observer (r_pool y) = true →
  let p := r_pool y in
  let gauge c ls := gauge_value c ls (exported pool_updates (p_log p)) in
  ∃ announced, (announced = true → p_closed p = true) ∧ (r_closing y = None → announced = p_closed p) ∧
  ∀ s, s ∈ p_slots p →
    gauge BackendHealthy [sl_id s] = Some (if slot_healthy s && negb announced then 1 else 0) ∧
    gauge BackendInflight [sl_id s] = Some (sl_inflight s).
Proof.
  intros Hinit Hr Ho p gauge.
  assert (∃ announced, (announced = true → p_closed p = true) ∧ (r_closing y = None → announced = p_closed p) ∧
    told_as announced p) as (a & Ha & Hac & Hlast).
  { destruct (r_closing y) eqn:Hc.
    - destruct (told_since_rreachable _ _ _ _ _ _ Hinit Hr Ho) as (a & ? & ?). by exists a.
    - exists (p_closed p). split_and!; [done|done|]. by eapply told_rreachable. }
  exists a. split; [done|]. split; [done|]. intros s Hs. unfold told_as in Hlast.
  pose proof (ids_rreachable _ _ _ _ _ _ Hinit Hr) as Hids. fold p in Hids.
  pose proof (ro_inv _ (rsys_reachable _ _ _ _ _ _ Hinit Hr)) as Hi. fold p in Hi.
  assert (Hnd : NoDup (sl_id <$> p_slots p)).
  { rewrite Hids. clear -Hinit. unfold pool_init in Hinit. case_bool_decide; [done|].
    destruct (_ || _); [done|]. destruct (existsb _ _); [done|].
    destruct (bool_decide (NoDup ids)) eqn:Hb; [by apply bool_decide_eq_true in Hb|done]. }
  assert (Hin : (sl_id s, (slot_healthy s && negb a, sl_inflight s)) ∈ shown a p).
  { apply list_elem_of_fmap. by exists s. }
  assert (Hu : ∀ x, (sl_id s, x) ∈ shown a p → x = (slot_healthy s && negb a, sl_inflight s)).
  { intros x (s' & [= Hid ->] & Hs')%list_elem_of_fmap.
    assert (s' = s) as ->; [|done]. apply list_elem_of_lookup in Hs as [i Hs], Hs' as [j Hs'].
    assert (i = j) as ->; [|congruence].
    eapply NoDup_lookup; [exact Hnd|by rewrite list_lookup_fmap, Hs|by rewrite list_lookup_fmap, Hs', Hid]. }
  assert (H0 : 0 ≤ sl_inflight s).
  { apply list_elem_of_lookup in Hs as [i Hs]. rewrite (ri_inflight _ Hi _ _ Hs). apply sum_map_nonneg.
    intros l le Hl. destruct (ri_lease _ Hi _ _ Hl). unfold weight_on. repeat case_match; lia. }
  assert (Hp := λ v1 v2, gauge_pairs_value BackendHealthy BackendInflight
    (λ p : bool * Z, if p.1 then 1 else 0) (λ p, Z.max 0 p.2) _ _ _ v1 v2 ltac:(done) Hin Hu). simpl in Hp.
  split; (eapply exported_last; [|exact Hlast|apply typed_pool|]); try (intros [] Hs'; [done|by repeat constructor]);
    intros v0; rewrite pool_state_pairs.
  - by rewrite (proj1 (Hp _ None)).
  - rewrite (proj2 (Hp None _)). f_equal. lia.
Qed.

Lemma batch_gauges `{FloatRepr, ModelDump} clock ms mw ob b0 y :
  batcher_init ms mw ob = inr b0 → breachable clock b0 y → b_observer (y_batcher y) = true →
  let s := y_batcher y in
  let gauge c ls := gauge_value c ls (exported batch_updates (b_log s)) in
  gauge BatchPending [] = Some (b_pending s) ∧ gauge BatchInflight [] = Some (b_inflight s).
Proof.
  intros Hinit Hr Ho s gauge. pose proof (told_breachable _ _ _ _ _ _ Hinit Hr Ho) as Hlast. fold s in Hlast.
  destruct (breachable_ok _ _ _ _ _ _ Hinit Hr) as [[Hi _ _] _]. fold s in Hi.
  assert (Hp : 0 ≤ b_pending s).
  { rewrite (bi_pending _ _ Hi). apply sum_map_nonneg. intros k b _. unfold batch_len. case_match; lia. }
  assert (Hf : 0 ≤ b_inflight s).
  { rewrite (bi_inflight _ _ Hi). apply sum_map_nonneg. intros k fl _. unfold live_weight. repeat case_match; lia. }
  assert (Hlift : ∀ c v, (∀ v0, foldl (gauge_step c []) v0 (batch_updates (BatchState (b_pending s) (b_inflight s))) = v) →
    gauge c [] = v).
  { intros c v Hv. eapply exported_last; [|exact Hlast|by apply typed_batch|exact Hv].
    intros [| | |u tokens members] Hs; try done; simpl; [|by repeat constructor|destruct u, tokens; by repeat constructor].
    constructor; [done|]. by apply Forall_fmap, Forall_true. }
  split; apply Hlift; intros v0; cbn; f_equal; lia.
Qed.
End exported.

(** C39: The exported gauges mirror the services: with the metrics attached, and whatever
    happened, the admission gauges are the controller's counters, in total and for
    every tenant; the inflight gauge of every backend is the number of its requests, and
    its health gauge says that it is healthy and that the pool is not closed; and the batch
    gauges are the batcher's counters.  While [close] waits for streams and clients, the
    health gauges may still show the health before it: then they all do, or all show that
    no backend is routable.  The collectors need only accept updates of the right shape. *)
Theorem gauges_mirror `{FloatRepr, ModelDump} accepts :
  (∀ u, collectors_accept u = true → accepts u = true) →
  (∀ clock late ts gmi gmq c0 y,
     configured ts gmi gmq c0 → reachable clock late c0 y → c_observer (y_ctrl y) = true →
     let gauge c ls := gauge_value c ls (exported accepts admission_updates (c_log (y_ctrl y))) in
     gauge AdmissionInflight [] = Some (c_inflight (y_ctrl y)) ∧
     gauge AdmissionQueued [] = Some (c_queued (y_ctrl y)) ∧
     ∀ tid st, c_tenants (y_ctrl y) !! tid = Some st →
       gauge TenantAdmissionInflight [tid] = Some (ts_inflight st) ∧
       gauge TenantAdmissionQueued [tid] = Some (Z.of_nat (length (ts_queue st)))) ∧
  (∀ ids interval timeout ob p0 y,
     pool_init ids interval timeout ob = inr p0 → rreachable p0 y →
     p_observer (r_pool y) = true →
     let gauge c ls := gauge_value c ls (exported accepts pool_updates (p_log (r_pool y))) in
     ∃ announced, (announced = true → p_closed (r_pool y) = true) ∧ (r_closing y = None → announced = p_closed (r_pool y)) ∧
     ∀ s, s ∈ p_slots (r_pool y) →
       gauge BackendHealthy [sl_id s] = Some (if slot_healthy s && negb announced then 1 else 0) ∧
       gauge BackendInflight [sl_id s] = Some (sl_inflight s)) ∧
  (∀ clock ms mw ob b0 y,
     batcher_init ms mw ob = inr b0 → breachable clock b0 y → b_observer (y_batcher y) = true →
     let gauge c ls := gauge_value c ls (exported accepts batch_updates (b_log (y_batcher y))) in
     gauge BatchPending [] = Some (b_pending (y_batcher y)) ∧
     gauge BatchInflight [] = Some (b_inflight (y_batcher y))).
Proof.
  intros Hacc. split_and!; intros.
  - by eapply admission_gauges.
  - by eapply pool_gauges.
  - by eapply batch_gauges.
Qed.

#[local] Existing Instance plain_floats.
#[local] Existing Instance plain_model_dump.

Lemma gauges_mirror_witness :
  gauge_value AdmissionInflight [] (exported collectors_accept admission_updates
    (c_log (y_ctrl (demo false busy_events)))) = Some (c_inflight (y_ctrl (demo false busy_events))) ∧
  0 < c_inflight (y_ctrl (demo false busy_events)).
Proof.
  assert (Hr : reachable AdmissionTheorems.demo_clock false demo_ctrl (demo false busy_events)).
  { apply demo_reachable. vm_compute. by eexists. }
  split; [|reflexivity].
  exact (proj1 (proj1 (gauges_mirror collectors_accept (λ _ Hu, Hu)) _ _ _ _ _ _ _ demo_configured Hr eq_refl)).
Defined.
