(* ===== verification/Logging.v ===== *)
(** gateway/core/logging.py: a log record as one line of JSON.  The timestamp and the text
    of an exception are the standard library's. *)
From Stdlib Require Import SpecFloat.
From S2P Require Import Prelude.
From S2P Require Import Python.
From S2P Require Import Json.
From S2P Require Import JsonLoads.

(** * Records *)

(** A value attached to a record: JSON data, or another object, whose [str] is logged. *)
Inductive log_value := Data (v : pyval) | Other (text : pystr).

(** [logging.LogRecord] as the formatter reads it. *)
Record log_record := LogRecord {
  lr_level : pystr;
  lr_logger : pystr;
  lr_message : pystr;
  lr_request_id : option pystr;
  lr_extra : list (pystr * log_value);
  lr_exception : option pystr;
}.

(** [JSONFormatter._structured_fields]. *)
Definition structured_fields : list pystr :=
  ["method"; "path"; "status_code"; "duration_ms"; "error_code"; "backend"; "backend_id"; "backend_healthy";
   "routing_result"; "upstream_status"; "tenant_id"; "admission_result"; "streaming"; "stream_outcome";
   "stream_error_type"]%py.

(** [default=str]. *)
Definition log_json (v : log_value) : pyval := match v with Data v => v | Other text => VStr text end.

(** The value of a field that is set and not [None]. *)
Definition extra_value (r : log_record) (field : pystr) : option pyval :=
  match dict_get (lr_extra r) field with
  | Some (Data VNone) | None => None
  | Some v => Some (log_json v)
  end.

(** [getattr(record, "request_id", None) or get_request_id()]. *)
Definition record_request_id (context : option pystr) (r : log_record) : option pystr :=
  match lr_request_id r with
  | Some s => if str_truthy s then Some s else context
  | None => context
  end.

(** The loop over the structured fields. *)
Fixpoint add_fields (r : log_record) (fields : list pystr) (event : pydict) : pydict :=
  match fields with
  | [] => event
  | field :: fields =>
      add_fields r fields (match extra_value r field with Some v => dict_set event field v | None => event end)
  end.

(** [JSONFormatter.format]: the event, and its text. *)
Definition log_event (timestamp : pystr) (context : option pystr) (r : log_record) : pydict :=
  let event := [("timestamp", VStr timestamp); ("level", VStr (lr_level r)); ("logger", VStr (lr_logger r));
                ("message", VStr (lr_message r))]%py in
  let event := match record_request_id context r with
               | Some i => dict_set event "request_id"%py (VStr i)
               | None => event
               end in
  let event := add_fields r structured_fields event in
  match lr_exception r with
  | Some text => dict_set event "exception"%py (VStr text)
  | None => event
  end.
Definition format `{FloatRepr} (timestamp : pystr) (context : option pystr) (r : log_record) : list N :=
  json_encode_with json_ascii_string (VDict (log_event timestamp context r)).

(** * What is logged *)

Lemma add_fields_get r fs event k :
  dict_get (add_fields r fs event) k =
  if decide (k ∈ fs) then match extra_value r k with Some v => Some v | None => dict_get event k end
  else dict_get event k.
Proof.
  revert event. induction fs as [|f fs IH]; intros event; simpl; [done|].
  rewrite IH. destruct (decide (k = f)) as [->|Hne].
  - rewrite (decide_True (P:=f ∈ f :: fs)) by left.
    destruct (extra_value r f); [rewrite dict_get_set, (decide_True (P:=f = f)) by done|]; by case_decide.
  - assert (Hiff : k ∈ f :: fs ↔ k ∈ fs) by (rewrite elem_of_cons; tauto).
    assert (Hd : dict_get (match extra_value r f with Some v => dict_set event f v | None => event end) k = dict_get event k).
    { destruct (extra_value r f); [by rewrite dict_get_set, decide_False|done]. }
    rewrite Hd. repeat case_decide; tauto.
Qed.

(** A structured field is in the event exactly when the record has it, with its value;
    no field replaces the message, the level or the identifier of the request. *)
Theorem log_event_fields timestamp context r :
  let event := log_event timestamp context r in
  (∀ f, f ∈ structured_fields → dict_get event f = extra_value r f) ∧
  dict_get event "timestamp"%py = Some (VStr timestamp) ∧
  dict_get event "level"%py = Some (VStr (lr_level r)) ∧
  dict_get event "logger"%py = Some (VStr (lr_logger r)) ∧
  dict_get event "message"%py = Some (VStr (lr_message r)) ∧
  dict_get event "request_id"%py = VStr <$> record_request_id context r ∧
  dict_get event "exception"%py = VStr <$> lr_exception r.
Proof.
  assert (Hexc : ∀ k event, k ≠ "exception"%py →
    dict_get (match lr_exception r with Some t => dict_set event "exception"%py (VStr t) | None => event end) k =
    dict_get event k).
  { intros k event Hk. destruct (lr_exception r); [by rewrite dict_get_set, decide_False|done]. }
  assert (Hbase : ∀ k, k ≠ "exception"%py → k ∉ structured_fields → dict_get (log_event timestamp context r) k =
    dict_get (match record_request_id context r with
      | Some i => dict_set [("timestamp", VStr timestamp); ("level", VStr (lr_level r)); ("logger", VStr (lr_logger r));
          ("message", VStr (lr_message r))]%py "request_id"%py (VStr i)
      | None => [("timestamp", VStr timestamp); ("level", VStr (lr_level r)); ("logger", VStr (lr_logger r));
          ("message", VStr (lr_message r))]%py end) k).
  { intros k Hk Hf. unfold log_event. by rewrite Hexc, add_fields_get, decide_False. }
  simpl. split_and!.
  - intros f Hf. assert (Hne : f ≠ "exception"%py) by (intros ->; revert Hf; by apply (bool_decide_unpack _)).
    unfold log_event. rewrite Hexc, add_fields_get, decide_True by done.
    destruct (extra_value r f); [done|].
    assert (Hbad : f ∉ ["timestamp"; "level"; "logger"; "message"; "request_id"]%py).
    { intros Hin. assert (Hno : Forall (λ g, g ∉ structured_fields) ["timestamp"; "level"; "logger"; "message"; "request_id"]%py)
        by by apply (bool_decide_unpack _).
      rewrite Forall_forall in Hno. by apply (Hno f). }
    rewrite !not_elem_of_cons in Hbad. destruct Hbad as (? & ? & ? & ? & ? & _).
    destruct (record_request_id context r); simpl; by rewrite !decide_False by done.
  - rewrite Hbase by by apply (bool_decide_unpack _). by destruct (record_request_id context r).
  - rewrite Hbase by by apply (bool_decide_unpack _). by destruct (record_request_id context r).
  - rewrite Hbase by by apply (bool_decide_unpack _). by destruct (record_request_id context r).
  - rewrite Hbase by by apply (bool_decide_unpack _). by destruct (record_request_id context r).
  - rewrite Hbase by by apply (bool_decide_unpack _). by destruct (record_request_id context r).
  - unfold log_event. destruct (lr_exception r); [by rewrite dict_get_set, decide_True|].
    rewrite add_fields_get, decide_False by by apply (bool_decide_unpack _). by destruct (record_request_id context r).
Qed.

(** * One line *)

Definition printable (c : N) : Prop := (32 ≤ c ≤ 126)%N.

Lemma hex_digit_printable n : (n < 16)%N → printable (hex_digit n).
Proof. unfold printable, hex_digit. intros Hn. destruct (N.ltb_spec n 10); lia. Qed.

Lemma hex4_printable n : Forall printable (hex4 n).
Proof.
  unfold hex4. repeat constructor; try (unfold printable; lia); apply hex_digit_printable, N.mod_lt; lia.
Qed.

Lemma escape_ascii_printable c : Forall printable (escape_ascii c).
Proof.
  unfold escape_ascii. destruct ((c =? 34)%N || _ || _ || _ || _ || _ || _) eqn:He.
  { rewrite !orb_true_iff, !N.eqb_eq in He. unfold printable. naive_solver (repeat constructor; lia). }
  destruct (N.leb_spec 32 c), (N.leb_spec c 126); cbn [andb]; try (constructor; [by split|constructor]).
  all: destruct (c <? 65536)%N; [apply hex4_printable|apply Forall_app_2; apply hex4_printable].
Qed.

Lemma json_ascii_printable s : Forall printable (json_ascii_string s).
Proof.
  unfold json_ascii_string. constructor; [done|]. apply Forall_app_2; [|by repeat constructor].
  induction (codes s) as [|c l IH]; [constructor|]. rewrite bind_cons. apply Forall_app_2; [apply escape_ascii_printable|done].
Qed.

Lemma intersperse_printable ls : Forall (Forall printable) ls → Forall printable (intersperse 44 ls).
Proof.
  induction 1 as [|l ls Hl Hls IH]; [constructor|]. destruct ls; [done|].
  rewrite intersperse_cons2. apply Forall_app_2; [done|]. by constructor.
Qed.

Lemma num_char_printable c : num_char c = true → printable c.
Proof.
  unfold num_char, digit_char, printable. rewrite !orb_true_iff, andb_true_iff, !N.leb_le, !N.eqb_eq. lia.
Qed.

Lemma encode_printable `{FloatRepr} v : Forall printable (json_encode_with json_ascii_string v).
Proof.
  induction v as [|[]|z|f|s|l IH|d IH] using pyval_ind'; cbn [json_encode_with].
  1-3: by repeat constructor.
  - eapply Forall_impl; [apply int_repr_num|]. apply num_char_printable.
  - unfold json_float. destruct f as [| [] | |b m e]; try by repeat constructor.
    + eapply Forall_impl; [by apply float_repr_chars|]. apply num_char_printable.
    + eapply Forall_impl; [by apply float_repr_chars|]. apply num_char_printable.
  - apply json_ascii_printable.
  - constructor; [done|]. apply Forall_app_2; [|by repeat constructor]. apply intersperse_printable.
    by apply Forall_fmap.
  - constructor; [done|]. apply Forall_app_2; [|by repeat constructor]. apply intersperse_printable.
    apply Forall_fmap. eapply Forall_impl; [exact IH|]. intros [k v] Hv. cbn [fst snd] in *.
    apply Forall_app_2; [apply json_ascii_printable|]. by constructor.
Qed.

(** Whatever a record contains, its text is one line of printable ASCII characters:
    no message and no field can begin another line or another record. *)
Theorem log_single_line `{FloatRepr} timestamp context r : Forall printable (format timestamp context r).
Proof. apply encode_printable. Qed.

(** ** Reading the log *)

Lemma dict_set_Forall {A} (P : pystr * A → Prop) d k v : Forall P d → P (k, v) → Forall P (dict_set d k v).
Proof.
  intros Hd Hv. induction Hd as [|[k' v'] d Hk Hd IH]; cbn [dict_set]; [by repeat constructor|].
  case_decide as Heq; [subst k'; by constructor|by constructor].
Qed.
Lemma dict_set_NoDup {A} (d : list (pystr * A)) k v : NoDup d.*1 → NoDup (dict_set d k v).*1.
Proof.
  intros Hd. destruct (dict_get d k) as [w|] eqn:Hk.
  - replace ((dict_set d k v).*1) with (d.*1); [done|]. clear Hd. induction d as [|[k' v'] d IH]; [done|]. cbn in *.
    case_decide; [by subst|]. cbn. by rewrite <- IH.
  - rewrite dict_set_new, fmap_app by done. apply dict_get_None in Hk. apply NoDup_app. split_and!; [done|set_solver|apply NoDup_singleton].
Qed.

Section reading.
Context `{FloatText}.
Definition text_ok (s : pystr) : Prop := Forall scalar (codes s).
Abbreviation good := (readable text_ok).

Lemma good_set d k v : good (VDict d) → text_ok k → good v → good (VDict (dict_set d k v)).
Proof.
  rewrite !readable_dict. intros [Hn Hd] Hk Hv. split; [by apply dict_set_NoDup|by apply dict_set_Forall].
Qed.

(** The strings of a record consist of characters, and the values attached to it have
    texts that can be read. *)
Definition record_good (context : option pystr) (r : log_record) : Prop :=
  text_ok (lr_level r) ∧ text_ok (lr_logger r) ∧ text_ok (lr_message r) ∧ (∀ i, record_request_id context r = Some i → text_ok i) ∧
  (∀ f v, extra_value r f = Some v → good v) ∧ (∀ t, lr_exception r = Some t → text_ok t).

Lemma log_event_good timestamp context r : text_ok timestamp → record_good context r → good (VDict (log_event timestamp context r)).
Proof.
  intros Ht (Hl & Hlog & Hm & Hi & Hx & He). unfold log_event.
  assert (Hadd : ∀ fs event, Forall text_ok fs → good (VDict event) → good (VDict (add_fields r fs event))).
  { induction fs as [|f fs IH]; intros event Hf Hev; [done|]. apply Forall_cons in Hf as [Hf Hfs]. cbn [add_fields].
    apply IH; [done|]. destruct (extra_value r f) eqn:E; [|done]. apply good_set; [done..|by eapply Hx]. }
  assert (Hexc : ∀ event, good (VDict event) →
    good (VDict (match lr_exception r with Some t => dict_set event "exception"%py (VStr t) | None => event end))).
  { intros event Hev. destruct (lr_exception r) as [t|]; [|done]. apply good_set; [done|by apply (bool_decide_unpack _)|by apply He]. }
  apply Hexc, Hadd; [by apply (bool_decide_unpack _)|].
  assert (Hbase : good (VDict [("timestamp", VStr timestamp); ("level", VStr (lr_level r)); ("logger", VStr (lr_logger r));
                               ("message", VStr (lr_message r))]%py)).
  { apply readable_dict. split; [by apply (bool_decide_unpack _)|]. rewrite !Forall_cons. cbn [fst snd readable].
    split_and!; first [assumption|by apply (bool_decide_unpack _)|apply Forall_nil_2]. }
  destruct (record_request_id context r) as [i|]; [|done]. apply good_set; [done|by apply (bool_decide_unpack _)|by apply Hi].
Qed.

(** A reader of the log gets from the line of a record exactly the event of the record. *)
Theorem log_reads_back timestamp context r depth :
  text_ok timestamp → record_good context r → (nesting (VDict (log_event timestamp context r)) ≤ depth)%nat →
  loads float_parse depth (PyStr (format timestamp context r)) = inr (VDict (log_event timestamp context r)).
Proof.
  intros Ht Hr Hn. unfold format. rewrite <- json_text_compact, <- (app_nil_r (json_text _ _ _ _)).
  apply (loads_text [] [] text_ok); [by constructor..|apply json_ascii_reads|by apply log_event_good|done|by constructor].
Qed.
End reading.

(** * The configuration of the loggers *)

(** The dictionary that [configure_logging] passes to [logging.config.dictConfig]. *)
Definition logging_config (log_level : pystr) : pyval :=
  VDict [("version", VInt 1); ("disable_existing_loggers", VBool false);
         ("formatters", VDict [("json", VDict [("()", VStr "gateway.core.logging.JSONFormatter")])]);
         ("handlers", VDict [("default", VDict [("class", VStr "logging.StreamHandler"); ("formatter", VStr "json");
                                                ("stream", VStr "ext://sys.stdout")])]);
         ("root", VDict [("handlers", VList [VStr "default"]); ("level", VStr log_level)])]%py.

(** * The access log *)

(** The record [RequestIDMiddleware.dispatch] logs of a completed request; the duration,
    a rounded float, is measured by the caller. *)
Definition optional_text (s : option pystr) : log_value := Data (match s with Some s => VStr s | None => VNone end).
Definition access_record (method path : pystr) (status : Z) (duration_ms : spec_float)
    (tenant_id admission_result : option pystr) : log_record :=
  LogRecord "INFO" "gateway.request" "request completed" None
    [("method", Data (VStr method)); ("path", Data (VStr path)); ("status_code", Data (VInt status));
     ("duration_ms", Data (VFloat duration_ms)); ("tenant_id", optional_text tenant_id);
     ("admission_result", optional_text admission_result)]%py None.

(** A completed request is logged with the identifier of its context, and with its tenant
    and admission result when there are any; credentials and bodies are never logged. *)
Theorem access_logged timestamp request_id method path status duration tenant admission :
  let event := log_event timestamp (Some request_id) (access_record method path status duration tenant admission) in
  dict_get event "request_id"%py = Some (VStr request_id) ∧
  dict_get event "status_code"%py = Some (VInt status) ∧
  dict_get event "tenant_id"%py = VStr <$> tenant ∧
  dict_get event "admission_result"%py = VStr <$> admission ∧
  event.*1 ⊆ (["timestamp"; "level"; "logger"; "message"; "request_id"; "method"; "path"; "status_code";
               "duration_ms"; "tenant_id"; "admission_result"]%py : list pystr).
Proof.
  cbv zeta. destruct tenant, admission; (split_and!; [vm_compute; reflexivity..|]);
    apply (bool_decide_unpack _); vm_compute; exact I.
Qed.
