(* ===== verification/Topology.v ===== *)
(** deploy/validate_topology.py: which experiment configurations are accepted, on JSON
    values with Python's equality and sets. *)
From Stdlib Require Import SpecFloat.
From S2P Require Import Prelude.
From S2P Require Import Python.
From S2P Require Import Errors.
From S2P Require Import Json.
From S2P Require Import JsonLoads.
From S2P Require Import Chat.
From S2P Require Import Vllm.

(** * Sets of JSON values *)

Definition hashable (v : pyval) : bool := match v with VList _ | VDict _ => false | _ => true end.
(** [iter(v)]. *)
Definition items_of (v : pyval) : exn + list pyval :=
  match v with
  | VList l => inr l
  | VStr s => inr ((λ c, VStr (PyStr [c])) <$> codes s)
  | VDict d => inr (VStr <$> d.*1)
  | _ => inl TypeError
  end.
(** [set(v)]: the first of equal elements. *)
Fixpoint distinct (seen l : list pyval) : list pyval :=
  match l with
  | [] => []
  | x :: l => if existsb (py_eq x) seen then distinct seen l else x :: distinct (x :: seen) l
  end.
Definition py_set (v : pyval) : exn + list pyval :=
  let? l := items_of v in
  if forallb hashable l then inr (distinct [] l) else inl TypeError.
(** [xs <= ys]. *)
Definition subset (xs ys : list pyval) : bool := forallb (λ x, existsb (py_eq x) ys) xs.

(** * Topologies *)

Inductive topology := T0 | T1 | T2 | T3_A | T3_B | T3_C.
#[export] Instance topology_eq_dec : EqDecision topology.
Proof. solve_decision. Defined.
Definition topology_name (t : topology) : pystr :=
  match t with T0 => "T0" | T1 => "T1" | T2 => "T2" | T3_A => "T3-A" | T3_B => "T3-B" | T3_C => "T3-C" end%py.
Definition topologies : list topology := [T0; T1; T2; T3_A; T3_B; T3_C].

(** [expected]: the number of replicas, the traffic, the gateway's backends, and whether
    the gateway aggregates. *)
Definition expected (t : topology) : nat * list pystr * list pystr * bool :=
  match t with
  | T0 | T1 => (1, ["A"], [], false)
  | T2 => (2, ["A"], [], false)
  | T3_A => (2, ["A"; "B"], [], false)
  | T3_B => (2, ["A"; "B"], ["A"; "B"], false)
  | T3_C => (2, ["A"; "B"], ["A"; "B"], true)
  end%nat%py.

(** [topology in expected]. *)
Definition find_topology (v : pyval) : exn + topology :=
  match v with
  | VStr s => match list_find (λ t, topology_name t = s) topologies with
              | Some (_, t) => inr t
              | None => inl ValueError
              end
  | VList _ | VDict _ => inl TypeError
  | _ => inl ValueError
  end.

Definition names (l : list pystr) : pyval := VList (VStr <$> l).
Definition required_keys : list pystr := ["topology"; "replicas"; "traffic"; "gateway_backends"; "aggregation"]%py.

(** [config[key]], after the check of the keys. *)
Definition key (config : pydict) (k : pystr) : exn + pyval :=
  match dict_get config k with Some v => inr v | None => inl KeyError end.

Definition validate (config : pydict) : exn + unit :=
  if negb (forallb (dict_has config) required_keys) then inl ValueError else
  let? topology := key config "topology" in
  let? replicas := key config "replicas" in
  let? traffic := key config "traffic" in
  let? backends := key config "gateway_backends" in
  let? aggregation := key config "aggregation" in
  match replicas with
  | VList rs =>
      if bool_decide (rs = []) then inl ValueError else
      let? declared := py_set replicas in
      if negb (length declared =? length rs)%nat then inl ValueError else
      let? sending := py_set traffic in
      if negb (subset sending declared) then inl ValueError else
      let? serving := py_set backends in
      if negb (subset serving declared) then inl ValueError else
      let? t := find_topology topology in
      let '(n, want_traffic, want_backends, want_aggregation) := expected t in
      if negb ((length rs =? n)%nat && py_eq traffic (names want_traffic) && py_eq backends (names want_backends)
               && py_eq aggregation (VBool want_aggregation)) then inl ValueError else
      if bool_decide (t = T3_A) &&
         negb match dict_get config "routing"%py with
              | Some v => py_eq v (VStr "deterministic_round_robin")
              | None => false
              end
      then inl ValueError else inr ()
  | _ => inl ValueError
  end.

(** ** The command *)

Section command.
(** The reader of floats and the recursion limit of the interpreter. *)
Variable to_float : list N → spec_float.
Variable depth : nat.

(** How [main] ends: with the line that names the topology, with a message of
    [SystemExit], or with another exception. *)
Inductive verdict := Accepted (topology : pyval) | Refused (e : exn) | Traceback (e : exn).

(** [main] on the text of the file, or on how reading it fails. *)
Definition topology_main (file : exn + pystr) : verdict :=
  let result :=
    let? text := file in
    let? config := match loads to_float depth text with inl e => inl (json_exn e) | inr v => inr v end in
    match config with
    | VDict config => let? _ := validate config in key config "topology"
    | _ => inl AttributeError
    end in
  match result with
  | inr topology => Accepted topology
  | inl e => if is_os_error e || bool_decide (e = ValueError) || bool_decide (e = TypeError) then Refused e else Traceback e
  end.
End command.

(** * What is accepted *)

Lemma py_eq_str v s : py_eq v (VStr s) = true ↔ v = VStr s.
Proof.
  split; [|intros ->; simpl; by apply bool_decide_true].
  destruct v as [| | | |t| |]; simpl; try done. by intros ->%bool_decide_eq_true.
Qed.

Lemma py_eq_str_l v s : py_eq (VStr s) v = true ↔ v = VStr s.
Proof.
  split; [|intros ->; simpl; by apply bool_decide_true].
  destruct v as [| | | |t| |]; simpl; try done. by intros ->%bool_decide_eq_true.
Qed.

Lemma py_eq_names v l : py_eq v (names l) = true ↔ v = names l.
Proof.
  unfold names. split.
  - destruct v as [|[]| | | |k|]; try done. intros Hk. f_equal. revert l Hk.
    induction k as [|x k IH]; intros [|s l]; try done. intros Hk. cbn [py_eq fmap list_fmap] in *.
    apply andb_true_iff in Hk as [Hx Hk]. apply (py_eq_str x s) in Hx as ->. simpl. f_equal. by apply IH.
  - intros ->. induction l as [|s l IH]; [done|]. cbn [py_eq fmap list_fmap] in *. by rewrite bool_decide_true.
Qed.

Lemma find_topology_spec v t : find_topology v = inr t ↔ v = VStr (topology_name t).
Proof.
  split.
  - destruct v as [| | | |s| |]; try done. cbn [find_topology].
    destruct (list_find _ topologies) as [[i t']|] eqn:Hf; [|done]. intros [= <-].
    apply list_find_Some in Hf as (_ & <- & _). done.
  - intros ->. by destruct t.
Qed.

Lemma names_set l : forallb hashable (VStr <$> l) = true.
Proof. by induction l. Qed.

(** Names that are declared. *)
Lemma declared_names l rs : subset (distinct [] (VStr <$> l)) rs = true → ∀ s, s ∈ l → VStr s ∈ rs.
Proof.
  intros Hs s Hin. unfold subset in Hs. rewrite forallb_forall in Hs.
  assert (Hd : ∀ seen, (∀ x, x ∈ seen → ∃ t, x = VStr t) →
    VStr s ∈ seen ∨ VStr s ∈ distinct seen (VStr <$> l)).
  { clear Hs. induction l as [|t l IH]; intros seen Hseen; [by apply elem_of_nil in Hin|].
    cbn [fmap list_fmap distinct]. apply elem_of_cons in Hin.
    destruct (existsb (py_eq (VStr t)) seen) eqn:Hx.
    - destruct Hin as [->|Hin]; [|by apply IH]. left. apply existsb_exists in Hx as (x & Hx%list_elem_of_In & Heq).
      by apply py_eq_str_l in Heq as ->.
    - destruct Hin as [->|Hin]; [right; left|]. destruct (IH Hin (VStr t :: seen)) as [H1|H1].
      + intros x [->|Hx']%elem_of_cons; eauto.
      + apply elem_of_cons in H1 as [->|H1]; [right; left|by left].
      + right. by right. }
  destruct (Hd [] ltac:(by intros ? ?%elem_of_nil)) as [H1|H1]; [by apply elem_of_nil in H1|].
  apply list_elem_of_In in H1. specialize (Hs _ H1). apply existsb_exists in Hs as (x & Hx%list_elem_of_In & Heq).
  by apply py_eq_str_l in Heq as ->.
Qed.

Lemma distinct_sub seen l x : x ∈ distinct seen l → x ∈ l.
Proof.
  revert seen. induction l as [|y l IH]; intros seen; [done|]. simpl. rewrite elem_of_cons.
  destruct (existsb _ _); [by right; eauto|]. rewrite elem_of_cons. naive_solver.
Qed.

(** An accepted configuration is the documented one of its topology: the traffic and the
    gateway's backends are the expected names, all declared, there are exactly as
    many pairwise different replicas as expected, the aggregation equals the
    expected boolean, and T3-A routes round-robin. *)
Theorem validate_sound config :
  validate config = inr () →
  ∃ t rs aggregation,
    let '(n, traffic, backends, want) := expected t in
    dict_get config "topology"%py = Some (VStr (topology_name t)) ∧
    dict_get config "replicas"%py = Some (VList rs) ∧ length rs = n ∧
    length (distinct [] rs) = length rs ∧ (∀ s, s ∈ traffic ++ backends → VStr s ∈ rs) ∧
    dict_get config "traffic"%py = Some (names traffic) ∧
    dict_get config "gateway_backends"%py = Some (names backends) ∧
    dict_get config "aggregation"%py = Some aggregation ∧ py_eq aggregation (VBool want) = true ∧
    (t = T3_A → dict_get config "routing"%py = Some (VStr "deterministic_round_robin")).
Proof.
  unfold validate, key. destruct (forallb _ _); [|done]. cbn [negb].
  destruct (dict_get config "topology"%py) as [topology|] eqn:E1; [|done]. cbn [sum_bind].
  destruct (dict_get config "replicas"%py) as [replicas|] eqn:E2; [|done]. cbn [sum_bind].
  destruct (dict_get config "traffic"%py) as [traffic|] eqn:E3; [|done]. cbn [sum_bind].
  destruct (dict_get config "gateway_backends"%py) as [backends|] eqn:E4; [|done]. cbn [sum_bind].
  destruct (dict_get config "aggregation"%py) as [aggregation|] eqn:E5; [|done]. cbn [sum_bind].
  destruct replicas as [| | | | |rs|]; try done. case_bool_decide; [done|].
  unfold py_set at 1. cbn [items_of sum_bind]. destruct (forallb hashable rs); [|done]. cbn [sum_bind].
  destruct (Nat.eqb_spec (length (distinct [] rs)) (length rs)) as [Hd|]; [|done]. cbn [negb].
  destruct (py_set traffic) as [|sending] eqn:Et; [done|]. cbn [sum_bind].
  destruct (subset sending _) eqn:Hs1; [|done]. cbn [negb].
  destruct (py_set backends) as [|serving] eqn:Eb; [done|]. cbn [sum_bind].
  destruct (subset serving _) eqn:Hs2; [|done]. cbn [negb].
  destruct (find_topology topology) as [|t] eqn:Ef; [done|]. cbn [sum_bind]. apply find_topology_spec in Ef as ->.
  destruct (expected t) as [[[n wt] wb] wa] eqn:Ex.
  destruct (_ && _ && _ && _) eqn:Hgot; [|done]. cbn [negb]. rewrite !andb_true_iff in Hgot.
  destruct Hgot as (((Hn%Nat.eqb_eq & ->%py_eq_names) & ->%py_eq_names) & Hagg).
  unfold py_set, names in Et, Eb. cbn [items_of sum_bind] in Et, Eb. rewrite names_set in Et, Eb.
  injection Et as <-. injection Eb as <-. intros Hroute.
  exists t, rs, aggregation. rewrite Ex. split_and!; try done.
  - intros s [Hs|Hs]%elem_of_app; (eapply distinct_sub; eapply declared_names; [|exact Hs]); done.
  - intros ->. simpl in Hroute. destruct (dict_get config "routing"%py) as [v|]; [|done].
    destruct (py_eq v _) eqn:Hv; [|done]. by apply py_eq_str in Hv as ->.
Qed.

(** The configurations in deploy/topologies are accepted; as in Python, so is 0 for [False]. *)
Definition committed (name : pystr) (replicas traffic backends : list pystr) (aggregation : pyval) : pydict :=
  [("aggregation", aggregation); ("gateway_backends", names backends); ("replicas", names replicas);
   ("routing", VStr "deterministic_round_robin"); ("topology", VStr name); ("traffic", names traffic)]%py.
Lemma committed_accepted :
  validate (committed "T0" ["A"] ["A"] [] (VBool false))%py = inr () ∧
  validate (committed "T1" ["A"] ["A"] [] (VInt 0))%py = inr () ∧
  validate (committed "T2" ["A"; "B"] ["A"] [] (VBool false))%py = inr () ∧
  validate (committed "T3-A" ["A"; "B"] ["A"; "B"] [] (VBool false))%py = inr () ∧
  validate (committed "T3-B" ["B"; "A"] ["A"; "B"] ["A"; "B"] (VBool false))%py = inr () ∧
  validate (committed "T3-C" ["A"; "B"] ["A"; "B"] ["A"; "B"] (VBool true))%py = inr () ∧
  validate (committed "T3-C" ["A"; "B"] ["A"; "B"] ["A"; "C"] (VBool true))%py = inl ValueError.
Proof. done. Qed.

(** The command accepts only the text of an accepted configuration, and names its topology. *)
Theorem topology_main_sound to_float depth file v : topology_main to_float depth file = Accepted v →
  ∃ text config t, file = inr text ∧ loads to_float depth text = inr (VDict config) ∧ validate config = inr () ∧
    v = VStr (topology_name t) ∧ dict_get config "topology"%py = Some v.
Proof.
  unfold topology_main. destruct file as [e|text]; cbn [sum_bind]; [by case_match|].
  destruct (loads to_float depth text) as [e|config] eqn:Hl; cbn [sum_bind]; [by case_match|].
  destruct config as [| | | | | |config]; try by case_match. cbn [sum_bind].
  destruct (validate config) as [e|[]] eqn:Hv; cbn [sum_bind]; [by case_match|].
  destruct (validate_sound config Hv) as (t & rs & agg & Ht). destruct (expected t) as [[[n traffic] backends] want].
  destruct Ht as (Ht & _). unfold key. rewrite Ht. intros [= <-]. by exists text, config, t.
Qed.
