(* ===== verification/Replicas.v ===== *)
(** deploy/vllm_replica.py: starting, inspecting and stopping a replica as a process
    group.  The operating system is a parameter: what its [n]-th call answers.  The files
    hold JSON texts.  Times are in milliseconds. *)
From S2P Require Import Prelude.
From S2P Require Import Python.
From S2P Require Import Errors.
From S2P Require Import Json.
From S2P Require Import JsonLoads.
From S2P Require Import PlainFloats.
From S2P Require Import Chat.
From S2P Require Import Vllm.

(** * State *)

(** The files of [pid_dir] by replica name, the signals sent to process groups with the
    number of the call, the time, and the number of calls made. *)
Record host := Host {
  ho_files : gmap pystr pystr;
  ho_signals : list (nat * Z);
  ho_now : Z;
  ho_calls : nat;
}.
Definition on_files (f : gmap pystr pystr → gmap pystr pystr) (h : host) : host :=
  Host (f (ho_files h)) (ho_signals h) (ho_now h) (ho_calls h).

Abbreviation os := (sem host exn).

(** The lifecycle record of a replica, and its file. *)
Definition record_fields (name : pystr) (pid port : Z) (identity : pystr) : pydict :=
  [("name", VStr name); ("pid", VInt pid); ("pgid", VInt pid); ("port", VInt port); ("identity", VStr identity)]%py.
Definition record_text `{FloatRepr} (name : pystr) (pid port : Z) (identity : pystr) : pystr :=
  PyStr (dumps (VDict (record_fields name pid port identity)) ++ [10%N]).

(** [record.get("identity")]. *)
Definition recorded_identity (v : pyval) : pyval :=
  match v with VDict d => default VNone (dict_get d "identity"%py) | _ => VNone end.

Section system.
Context `{FloatText}.
(** The recursion limit of the interpreter, and [str.isalnum], by the Unicode database. *)
Variable depth : nat.
Variable isalnum : pystr → bool.
(** [os.waitpid(pid, WNOHANG)]: whether it reaped the process. *)
Variable waitpid : nat → Z → exn + bool.
(** [os.kill(pid, 0)], [os.killpg], [subprocess.Popen] and [process.poll] (has it exited). *)
Variable kill0 : nat → Z → exn + unit.
Variable killpg : nat → Z → option exn.
Variable popen : nat → list pystr → exn + Z.
Variable poll : nat → Z → bool.
(** The digest of what [ps] prints for the text of a pid, if it finds a process, and how
    running [ps] fails; the group of a process. *)
Variable identity : nat → pyval → exn + option pystr.
Variable getpgid : nat → Z → exn + Z.
(** The time that passes during a call. *)
Variable passes : nat → Z.

(** One call of the system: its number. *)
Definition call : os nat :=
  let! h := get in
  do! modify (λ h, Host (ho_files h) (ho_signals h) (ho_now h + passes (ho_calls h)) (S (ho_calls h))) in
  ret (ho_calls h).
Definition monotonic : os Z := do! call in let! h := get in ret (ho_now h).
Definition sleep (d : Z) : os unit :=
  do! call in modify (λ h, Host (ho_files h) (ho_signals h) (ho_now h + d) (ho_calls h)).

(** * Operations *)

Definition record_path (name : pystr) : os unit := if negb (isalnum name) then raise ValueError else ret ().
(** [json.loads(path.read_text())]. *)
Definition parse_record (text : pystr) : exn + pyval :=
  match loads float_parse depth text with inl e => inl (json_exn e) | inr v => inr v end.
Definition read_record (name : pystr) : os pyval :=
  let! h := get in
  let! text := unwrap FileNotFoundError (ho_files h !! name) in lift (parse_record text).

Definition alive (pid : pyval) : os bool :=
  let! pid := lift (as_int pid) in
  let! n := call in
  let! reaped := match waitpid n pid with
                 | inr b => ret b
                 | inl e => if bool_decide (e = ChildProcessError) then ret false else raise e
                 end in
  if (reaped : bool) then ret false else
  let! n := call in
  match kill0 n pid with
  | inr _ => ret true
  | inl e => if bool_decide (e = ProcessLookupError) then ret false else raise e
  end.

Definition process_identity (pid : pyval) : os pystr :=
  let! n := call in let! i := lift (identity n pid) in unwrap ProcessLookupError i.

Definition verify_identity (r : pyval) : os unit :=
  let! pid := lift (subscript r "pid"%py) in
  let! i := process_identity pid in
  if negb (py_eq (VStr i) (recorded_identity r)) then raise RuntimeError else ret ().

Definition start (name : pystr) (port : Z) (command : list pystr) : os unit :=
  do! record_path name in
  if bool_decide (command = []) || negb ((1 <=? port) && (port <=? 65535)) then raise ValueError else
  let! h := get in
  let! running := match ho_files h !! name with
                  | Some text => let! r := lift (parse_record text) in let! pid := lift (subscript r "pid"%py) in alive pid
                  | None => ret false
                  end in
  if (running : bool) then raise RuntimeError else
  let! n := call in
  let! pid := lift (popen n command) in
  do! sleep 100 in
  let! n := call in
  if poll n pid then raise RuntimeError else
  let! i := process_identity (VInt pid) in
  modify (on_files <[name := record_text name pid port i]>).

(** The [while] loop of [stop]. *)
Fixpoint wait_gone (fuel : nat) (deadline : Z) (pid : pyval) : os unit :=
  match fuel with
  | O => raise OutOfFuel
  | S fuel =>
      let! now := monotonic in
      if deadline <=? now then ret () else
      let! a := alive pid in
      if (a : bool) then do! sleep 100 in wait_gone fuel deadline pid else ret ()
  end.

(** Every turn sleeps for 100 ms. *)
Definition wait_fuel (timeout : Z) : nat := S (S (Z.to_nat (timeout / 100))).

Definition stop (name : pystr) (timeout : Z) : os unit :=
  do! record_path name in
  let! r := read_record name in
  do! verify_identity r in
  let! pid := lift (subscript r "pid"%py) in
  let! p := lift (as_int pid) in
  let! n := call in
  let! group := lift (getpgid n p) in
  let! pgid := lift (subscript r "pgid"%py) in
  if negb (py_eq (VInt group) pgid) || negb (py_eq pgid pid) then raise RuntimeError else
  let! g := lift (as_int pgid) in
  let! n := call in
  do! modify (λ h, Host (ho_files h) (ho_signals h ++ [(n, g)]) (ho_now h) (ho_calls h)) in
  do! match killpg n g with Some e => raise e | None => ret () end in
  let! now := monotonic in
  do! wait_gone (wait_fuel timeout) (now + timeout) pid in
  let! a := alive pid in
  if (a : bool) then raise RuntimeError else modify (on_files (delete name)).

(** [status]: the record with whether it is alive, whether the identity matches, and
    whether the pid is stale or reused. *)
Definition status (name : pystr) : os pydict :=
  do! record_path name in
  let! r := read_record name in
  let! pid := lift (subscript r "pid"%py) in
  let! pid_alive := alive pid in
  let! identity_matches :=
    if (pid_alive : bool) then let! i := process_identity pid in ret (py_eq (VStr i) (recorded_identity r))
    else ret false in
  let d := match r with VDict d => d | _ => [] end in
  let d := dict_set d "alive"%py (VBool (pid_alive && identity_matches)) in
  let d := dict_set d "identity_matches"%py (VBool identity_matches) in
  ret (dict_set d "stale_or_reused"%py (VBool (pid_alive && negb identity_matches))).

(** [main] after the parsing of the arguments: the listed exceptions become a message of
    [SystemExit], the status an exit code with the printed record. *)
Inductive action := Start (name : pystr) (port : Z) (command : list pystr) | Stop (name : pystr) (timeout : Z) | Status (name : pystr).
Inductive exit := Done | Message (e : exn) | Code (code : Z) (printed : pystr) | Raised (e : exn).
Definition strip_separator (command : list pystr) : list pystr :=
  if bool_decide (take 1 command = ["--"%py]) then drop 1 command else command.
Definition caught (e : exn) : bool :=
  is_os_error e || bool_decide (e = ValueError) || bool_decide (e = RuntimeError) || bool_decide (e = KeyError).
Definition main (a : action) (h : host) : exit * host :=
  let failed e h := (if caught e then Message e else Raised e, h) in
  match a with
  | Start name port command =>
      match start name port (strip_separator command) h with (inr _, h) => (Done, h) | (inl e, h) => failed e h end
  | Stop name timeout => match stop name timeout h with (inr _, h) => (Done, h) | (inl e, h) => failed e h end
  | Status name =>
      match status name h with
      | (inr d, h) =>
          (Code (match dict_get d "alive"%py with Some (VBool true) => 0 | _ => 1 end)
             (PyStr (json_text [44; 32]%N [58; 32]%N json_ascii_string (sort_keys (VDict d)))), h)
      | (inl e, h) => failed e h
      end
  end.

(** * What they do *)

Hypothesis passes_nonneg : ∀ n, 0 ≤ passes n.
Hypothesis answers : ∀ n p v c,
  waitpid n p ≠ inl OutOfFuel ∧ kill0 n p ≠ inl OutOfFuel ∧ killpg n p ≠ Some OutOfFuel ∧
  popen n c ≠ inl OutOfFuel ∧ identity n v ≠ inl OutOfFuel ∧ getpgid n p ≠ inl OutOfFuel.

(** Time passes; neither a file nor a signal is touched. *)
Definition later (h h' : host) : Prop :=
  ho_files h' = ho_files h ∧ ho_signals h' = ho_signals h ∧ ho_now h ≤ ho_now h' ∧ (ho_calls h ≤ ho_calls h')%nat.
Instance later_refl : Reflexive later.
Proof. intros h. split_and!; (done || lia). Qed.
Instance later_trans : Transitive later.
Proof. intros h1 h2 h3 (? & ? & ? & ?) (? & ? & ? & ?). split_and!; (congruence || lia). Qed.

(** An observation of the system that ends in the states [later], and never runs out of fuel. *)
Definition observes {A} (m : os A) : Prop := ∀ h, wp m (λ _ h', later h h') (λ e h', later h h' ∧ e ≠ OutOfFuel) h.

Lemma observes_ret {A} (a : A) : observes (ret a).
Proof. by intros h. Qed.
Lemma observes_raise {A} e : e ≠ OutOfFuel → observes (raise e : os A).
Proof. by intros He h. Qed.
Lemma observes_bind {A B} (m : os A) (k : A → os B) : observes m → (∀ a, observes (k a)) → observes (bind m k).
Proof.
  intros Hm Hk h. apply wp_bind. eapply wp_mono; [apply Hm|..]; [|done].
  intros a h1 H1. eapply wp_mono; [apply Hk|..].
  - intros b h2 H2. exact (later_trans _ _ _ H1 H2).
  - intros e h2 [H2 ?]. split; [exact (later_trans _ _ _ H1 H2)|done].
Qed.
Lemma observes_call : observes call.
Proof.
  intros h. unfold call. apply wp_bind, wp_get, wp_bind, wp_modify, wp_ret. pose proof (passes_nonneg (ho_calls h)).
  split_and!; simpl; (done || lia).
Qed.
Lemma observes_unwrap {A} e (o : option A) : e ≠ OutOfFuel → observes (unwrap e o).
Proof. intros He. destruct o; [apply observes_ret|by apply observes_raise]. Qed.
Lemma observes_lift {A} (r : exn + A) : r ≠ inl OutOfFuel → observes (lift r).
Proof. intros Hr. destruct r; [apply observes_raise; congruence|apply observes_ret]. Qed.
Lemma observes_get {A} (k : host → os A) : (∀ h, observes (k h)) → observes (let! h := get in k h).
Proof. intros Hk h. apply wp_bind, wp_get, Hk. Qed.

Lemma as_int_fuel v : as_int v ≠ inl OutOfFuel.
Proof. by destruct v. Qed.
Lemma subscript_fuel v k : subscript v k ≠ inl OutOfFuel.
Proof. destruct v; simpl; try done. by case_match. Qed.
Lemma parse_record_fuel text : parse_record text ≠ inl OutOfFuel.
Proof.
  unfold parse_record. pose proof (loads_ends float_parse depth text) as Hl.
  destruct (loads float_parse depth text) as [[]|]; try done.
Qed.

Ltac observing := repeat lazymatch goal with
  | |- observes (bind get _) => apply observes_get; intros ?
  | |- observes (bind _ _) => apply observes_bind; [|intros ?]
  | |- observes call => apply observes_call
  | |- observes (ret _) => apply observes_ret
  | |- observes (unwrap _ _) => apply observes_unwrap; discriminate
  | |- observes (lift (as_int _)) => apply observes_lift, as_int_fuel
  | |- observes (lift (subscript _ _)) => apply observes_lift, subscript_fuel
  | |- observes (lift (parse_record _)) => apply observes_lift, parse_record_fuel
  | |- observes (if ?b then _ else _) => destruct b
  end.

Lemma observes_alive pid : observes (alive pid).
Proof.
  unfold alive. observing.
  - match goal with |- context [waitpid ?n ?p] => destruct (answers n p VNone []) as (Hw & _); destruct (waitpid n p) as [e|b] end;
      [|apply observes_ret]. case_bool_decide; [apply observes_ret|]. apply observes_raise. congruence.
  - match goal with |- context [kill0 ?n ?p] => destruct (answers n p VNone []) as (_ & Hk & _); destruct (kill0 n p) as [e|[]] end;
      [|apply observes_ret]. case_bool_decide; [apply observes_ret|]. apply observes_raise. congruence.
Qed.
Lemma observes_identity pid : observes (process_identity pid).
Proof.
  unfold process_identity. observing. apply observes_lift. by destruct (answers a 0 pid []) as (_ & _ & _ & _ & Hi & _).
Qed.

Lemma wp_call h Q X : Q (ho_calls h) (Host (ho_files h) (ho_signals h) (ho_now h + passes (ho_calls h)) (S (ho_calls h))) →
  wp call Q X h.
Proof. done. Qed.
Lemma wp_sleep d h Q X : 0 ≤ d →
  (∀ h', later h h' → ho_now h + d ≤ ho_now h' → Q () h') → wp (sleep d) Q X h.
Proof.
  intros Hd HQ. unfold sleep, call. apply wp_bind, wp_bind, wp_get, wp_bind, wp_modify, wp_ret, wp_modify.
  pose proof (passes_nonneg (ho_calls h)). apply HQ; [|simpl; lia]. split_and!; simpl; (done || lia).
Qed.
Lemma observes_sleep d : 0 ≤ d → observes (sleep d).
Proof. intros Hd h. by apply wp_sleep. Qed.

(** Waiting ends within its fuel: every turn takes 100 ms. *)
Lemma wait_gone_ends fuel deadline pid h :
  (0 < fuel)%nat → deadline ≤ ho_now h + 100 * (Z.of_nat fuel - 1) →
  wp (wait_gone fuel deadline pid) (λ _ h', later h h') (λ e h', later h h' ∧ e ≠ OutOfFuel) h.
Proof.
  revert h. induction fuel as [|fuel IH]; intros h H1 Hf; [lia|]; cbn [wait_gone].
  apply wp_bind. unfold monotonic. apply wp_bind. eapply wp_mono; [apply observes_call|..]; [|done].
  intros n h1 Hl1. apply wp_bind, wp_get, wp_ret. destruct (Z.leb_spec deadline (ho_now h1)); [by apply wp_ret|].
  apply wp_bind. eapply wp_mono; [apply observes_alive|..].
  2: { intros e h2 [Hl2 ?]. split; [exact (later_trans _ _ _ Hl1 Hl2)|done]. }
  intros [] h2 Hl2; [|apply wp_ret; exact (later_trans _ _ _ Hl1 Hl2)]. apply wp_bind. apply wp_sleep; [lia|]. intros h3 Hl3 Hnow.
  assert (Hl : later h h3) by exact (later_trans _ _ _ Hl1 (later_trans _ _ _ Hl2 Hl3)).
  destruct Hl1 as (_ & _ & Hn1 & _), Hl2 as (_ & _ & Hn2 & _).
  eapply wp_mono; [apply IH; lia|..].
  - intros [] h4 Hl4. exact (later_trans _ _ _ Hl Hl4).
  - intros e h4 [Hl4 ?]. split; [exact (later_trans _ _ _ Hl Hl4)|done].
Qed.

(** Equality with a string or between ints. *)
Lemma py_eq_str_inv i v : py_eq (VStr i) v = true → v = VStr i.
Proof. destruct v; cbn [py_eq]; try done. intros Heq%bool_decide_eq_true. by rewrite Heq. Qed.
Lemma py_eq_as_int v w a b : py_eq v w = true → as_int v = inr a → as_int w = inr b → a = b.
Proof.
  destruct v as [|[]|z| | | |], w as [|[]|z'| | | |]; cbn; try done; intros ? [= <-] [= <-]; try done;
    try (by apply Z.eqb_eq); symmetry; by apply Z.eqb_eq.
Qed.

(** The process that the record names was the recorded one, in its own group, when the
    two calls before the [n]-th looked. *)
Definition genuine (h : host) (name : pystr) (p : Z) (n : nat) : Prop :=
  ∃ text d v i, ho_files h !! name = Some text ∧ parse_record text = inr (VDict d) ∧
    dict_get d "pid"%py = Some v ∧ as_int v = inr p ∧ dict_get d "identity"%py = Some (VStr i) ∧
    identity (ho_calls h) v = inr (Some i) ∧ getpgid (S (ho_calls h)) p = inr p ∧ n = (ho_calls h + 2)%nat.

(** What is checked before the signal is sent. *)
Lemma verify_genuine h r :
  wp (verify_identity r)
    (λ _ h', h' = Host (ho_files h) (ho_signals h) (ho_now h + passes (ho_calls h)) (S (ho_calls h)) ∧
       ∃ d v i, r = VDict d ∧ dict_get d "pid"%py = Some v ∧ dict_get d "identity"%py = Some (VStr i) ∧
         identity (ho_calls h) v = inr (Some i))
    (λ e h', e ≠ OutOfFuel ∧ ho_files h' = ho_files h ∧ ho_signals h' = ho_signals h) h.
Proof.
  unfold verify_identity. apply wp_bind, wp_lift.
  2: { intros e He. split; [intros ->; by apply subscript_fuel in He|done]. }
  intros v Hv. apply wp_bind. unfold process_identity. apply wp_bind, wp_call, wp_bind, wp_lift.
  2: { intros e He. split; [|done]. intros ->. by destruct (answers (ho_calls h) 0 v []) as (_ & _ & _ & _ & Hi & _). }
  intros [i|] Hi; [|by apply wp_raise]. apply wp_ret. destruct (py_eq (VStr i) _) eqn:Heq; cbn [negb]; [|by apply wp_raise].
  apply wp_ret. split; [done|]. apply py_eq_str_inv in Heq. destruct r as [| | | | | |d]; try done. cbn in Hv, Heq.
  destruct (dict_get d "pid"%py) as [w|] eqn:Hp; [|done]. injection Hv as ->.
  destruct (dict_get d "identity"%py) as [j|] eqn:Hj; [|done]. simpl in Heq. subst j. by exists d, v, i.
Qed.

(** The wait of [stop] and what follows. *)
Lemma stop_wait name timeout pid h :
  wp (let! now := monotonic in
      do! wait_gone (wait_fuel timeout) (now + timeout) pid in
      let! a := alive pid in
      if a then raise RuntimeError else modify (on_files (delete name)))
    (λ _ h', ho_files h' = delete name (ho_files h) ∧ ho_signals h' = ho_signals h)
    (λ e h', e ≠ OutOfFuel ∧ ho_files h' = ho_files h ∧ ho_signals h' = ho_signals h) h.
Proof.
  apply wp_bind. unfold monotonic. apply wp_bind. eapply wp_mono; [apply observes_call|..].
  2: { intros e h1 [(? & ? & _) ?]. by split_and!. }
  intros n h1 (Hf1 & Hs1 & _). apply wp_bind, wp_get, wp_ret, wp_bind.
  eapply wp_mono; [apply (wait_gone_ends (wait_fuel timeout) (ho_now h1 + timeout) pid h1)|..].
  - unfold wait_fuel. lia.
  - unfold wait_fuel. pose proof (Z.div_mod timeout 100). pose proof (Z.mod_pos_bound timeout 100). lia.
  - intros [] h2 (Hf2 & Hs2 & _). apply wp_bind. eapply wp_mono; [apply observes_alive|..].
    + intros [] h3 (Hf3 & Hs3 & _); [apply wp_raise|apply wp_modify]; simpl; split_and!; congruence.
    + intros e h3 [(Hf3 & Hs3 & _) ?]. split_and!; congruence.
  - intros e h2 [(Hf2 & Hs2 & _) ?]. split_and!; congruence.
Qed.

(** C40: [stop] terminates; it sends at most one signal, to the group of a process that was
    just found to be the recorded one, and forgets the record only when it succeeds. *)
Theorem stop_safe name timeout h :
  wp (stop name timeout)
    (λ _ h', ho_files h' = delete name (ho_files h) ∧
       ∃ p n, genuine h name p n ∧ ho_signals h' = ho_signals h ++ [(n, p)])
    (λ e h', e ≠ OutOfFuel ∧ ho_files h' = ho_files h ∧
       (ho_signals h' = ho_signals h ∨ ∃ p n, genuine h name p n ∧ ho_signals h' = ho_signals h ++ [(n, p)])) h.
Proof.
  unfold stop, record_path. apply wp_bind. destruct (isalnum name); cbn [negb]; [|apply wp_raise; auto].
  apply wp_ret. apply wp_bind. unfold read_record. apply wp_bind, wp_get, wp_bind.
  destruct (ho_files h !! name) as [text|] eqn:Ht; [|apply wp_raise; auto]. apply wp_ret, wp_lift.
  2: { intros e He. split; [intros ->; by apply parse_record_fuel in He|auto]. }
  intros r Hr. apply wp_bind. eapply wp_mono; [apply verify_genuine|..].
  2: { intros e h1 (? & -> & ->). auto. }
  intros [] h1 (-> & d & v & i & -> & Hv & Hi & Hid). apply wp_bind. cbn [subscript]. rewrite Hv. apply wp_lift; [|done].
  intros ? [= <-]. apply wp_bind, wp_lift.
  2: { intros e He. split; [intros ->; by apply as_int_fuel in He|auto]. }
  intros p Hp. apply wp_bind, wp_call, wp_bind, wp_lift.
  2: { intros e He. split; [intros ->|auto]. by destruct (answers (S (ho_calls h)) p VNone []) as (_ & _ & _ & _ & _ & Hg). }
  intros group Hg. cbn [ho_calls] in Hg. apply wp_bind, wp_lift.
  2: { intros e He. split; [intros ->|auto]. by destruct (dict_get d "pgid"%py). }
  intros w Hw. destruct (py_eq (VInt group) w) eqn:H1; cbn [negb orb]; [|apply wp_raise; auto].
  destruct (py_eq w v) eqn:H2; cbn [negb]; [|apply wp_raise; auto]. apply wp_bind, wp_lift.
  2: { intros e He. split; [intros ->; by apply as_int_fuel in He|auto]. }
  intros g Hgi. assert (g = p) as -> by by eapply py_eq_as_int.
  assert (group = p) as -> by (eapply (py_eq_as_int (VInt group) w); [done..|exact Hgi]).
  apply wp_bind, wp_call, wp_bind, wp_modify, wp_bind. cbn [ho_files ho_signals ho_now ho_calls].
  assert (Hgen : genuine h name p (S (S (ho_calls h)))) by (exists text, d, v, i; split_and!; (done || lia)).
  destruct (killpg _ _) as [e|] eqn:Hk.
  { apply wp_raise. split_and!; [|done|right; by exists p, (S (S (ho_calls h)))].
    intros ->. by destruct (answers (S (S (ho_calls h))) p VNone []) as (_ & _ & Hkill & _). }
  apply wp_ret. eapply wp_mono; [apply stop_wait|..].
  - intros [] h' [Hf Hs]. split; [done|]. by exists p, (S (S (ho_calls h))).
  - intros e h' (He & Hf & Hs). split_and!; [done|done|right; by exists p, (S (S (ho_calls h)))].
Qed.

(** ** Starting *)

Hypothesis isalnum_scalar : ∀ s, isalnum s = true → Forall scalar (codes s).
Hypothesis popen_pid : ∀ n c p, popen n c = inr p → 0 < p < 2 ^ 31.
Hypothesis digest_scalar : ∀ n v i, identity n v = inr (Some i) → Forall scalar (codes i).

(** What is written is read back. *)
Lemma record_read name pid port i :
  (0 < depth)%nat → Forall scalar (codes name) → 0 < pid < 2 ^ 31 → 1 ≤ port ≤ 65535 → Forall scalar (codes i) →
  parse_record (record_text name pid port i) = inr (VDict (record_fields name pid port i)).
Proof.
  intros Hd Hn Hp Hport Hi. unfold parse_record, record_text, dumps.
  assert (Hlen : ∀ z, 0 < z < 2 ^ 31 → (int_length z ≤ max_str_digits)%nat).
  { intros z Hz. trans 10%nat; [apply int_length_le; lia|unfold max_str_digits; lia]. }
  rewrite (loads_text [32%N] [32%N] (λ s, Forall scalar (codes s))); [done|by repeat constructor..|apply json_ascii_reads| | |by repeat constructor].
  - apply readable_dict. split; [by apply (bool_decide_unpack _)|]. unfold record_fields.
    rewrite !Forall_cons. cbn [fst snd readable].
    split_and!; first [apply Hlen; lia|by apply (bool_decide_unpack _)|assumption|apply Forall_nil_2].
  - cbn. lia.
Qed.

(** [start] writes a record only for a process that it has just started, that is still
    alive and whose identity it read; what it wrote, the other operations read back. *)
Theorem start_records name port command h : (0 < depth)%nat →
  wp (start name port command)
    (λ _ h', ∃ n pid k m i, popen n command = inr pid ∧ poll k pid = false ∧ identity m (VInt pid) = inr (Some i) ∧
       (n < k < m)%nat ∧
       ho_files h' = <[name := record_text name pid port i]> (ho_files h) ∧ ho_signals h' = ho_signals h ∧
       parse_record (record_text name pid port i) = inr (VDict (record_fields name pid port i)))
    (λ e h', e ≠ OutOfFuel ∧ ho_files h' = ho_files h ∧ ho_signals h' = ho_signals h) h.
Proof.
  intros Hdepth. unfold start, record_path. apply wp_bind. destruct (isalnum name) eqn:Hname; cbn [negb]; [|apply wp_raise; auto].
  apply wp_ret. destruct (_ || _) eqn:Hargs; [apply wp_raise; auto|].
  apply orb_false_iff in Hargs as [_ Hport]. apply negb_false_iff, andb_true_iff in Hport as [?%Z.leb_le ?%Z.leb_le].
  apply wp_bind, wp_get, wp_bind. eapply (wp_mono _ (λ _ h', later h h') _ (λ e h', later h h' ∧ e ≠ OutOfFuel)).
  { destruct (ho_files h !! name); [|by apply wp_ret]. apply observes_bind; [apply observes_lift, parse_record_fuel|]. intros r.
    apply observes_bind; [apply observes_lift, subscript_fuel|]. intros pid. apply observes_alive. }
  2: { intros e h1 [(? & ? & _) ?]. by split_and!. }
  intros [] h1 (Hf1 & Hs1 & _ & Hc1); [by apply wp_raise|]. apply wp_bind, wp_call, wp_bind, wp_lift.
  2: { intros e He. split_and!; [intros ->|done..]. by destruct (answers (ho_calls h1) 0 VNone command) as (_ & _ & _ & Hp & _). }
  intros pid Hpid. apply wp_bind, wp_sleep; [lia|]. intros h2 (Hf2 & Hs2 & _ & Hc2) _. cbn [ho_calls ho_files ho_signals] in *.
  apply wp_bind, wp_call. destruct (poll _ _) eqn:Hpoll; [apply wp_raise; split_and!; simpl; congruence|].
  apply wp_bind. unfold process_identity. apply wp_bind, wp_call, wp_bind, wp_lift.
  2: { intros e He. split_and!; simpl; [intros ->|congruence..]. by destruct (answers (S (ho_calls h2)) 0 (VInt pid) []) as (_ & _ & _ & _ & Hi & _). }
  intros [i|] Hi; [|apply wp_raise; split_and!; simpl; [done|congruence..]]. apply wp_ret, wp_modify.
  exists (ho_calls h1), pid, (ho_calls h2), (S (ho_calls h2)), i.
  split_and!; [done|done|done|lia|lia|simpl; congruence|simpl; congruence|].
  apply record_read; [done|by apply isalnum_scalar|by eapply popen_pid|done|by eapply digest_scalar].
Qed.

(** A replica whose recorded process is alive is not started again. *)
Theorem start_twice name port command h text d v h1 :
  isalnum name = true → command ≠ [] → 1 ≤ port ≤ 65535 →
  ho_files h !! name = Some text → parse_record text = inr (VDict d) → dict_get d "pid"%py = Some v → alive v h = (inr true, h1) →
  start name port command h = (inl RuntimeError, h1).
Proof.
  intros Hn Hc [Hp1 Hp2] Ht Hr Hv Ha.
  assert (Hwp : wp (start name port command) (λ _ _, False) (λ e h', e = RuntimeError ∧ h' = h1) h).
  { unfold start, record_path. rewrite Hn, bool_decide_false by done. cbn [negb orb].
    rewrite (proj2 (Z.leb_le 1 port) Hp1), (proj2 (Z.leb_le port 65535) Hp2). cbn [andb negb].
    apply wp_bind, wp_ret, wp_bind, wp_get, wp_bind. rewrite Ht, Hr. apply wp_bind, wp_lift; [|done]. intros ? [= <-].
    apply wp_bind. cbn [subscript]. rewrite Hv. apply wp_lift; [|done]. intros ? [= <-]. unfold wp at 1. rewrite Ha. by apply wp_raise. }
  unfold wp in Hwp. destruct (start name port command h) as [[e|[]] h']; [|done]. by destruct Hwp as [-> ->].
Qed.

(** ** Inspecting *)

(** [status] changes nothing; it reports a replica alive exactly when its process answers
    and is the recorded one, and stale when another process has the number. *)
Theorem status_reports name h :
  wp (status name)
    (λ d h', later h h' ∧ ∃ text r v pid_alive matches, ho_files h !! name = Some text ∧ parse_record text = inr (VDict r) ∧
       dict_get r "pid"%py = Some v ∧
       (matches = true → pid_alive = true ∧ ∃ n i, identity n v = inr (Some i) ∧ dict_get r "identity"%py = Some (VStr i)) ∧
       dict_get d "alive"%py = Some (VBool (pid_alive && matches)) ∧
       dict_get d "stale_or_reused"%py = Some (VBool (pid_alive && negb matches)) ∧
       (∀ k, k ∉ ["alive"; "identity_matches"; "stale_or_reused"]%py → dict_get d k = dict_get r k))
    (λ e h', later h h' ∧ e ≠ OutOfFuel) h.
Proof.
  unfold status, record_path. apply wp_bind. destruct (isalnum name); cbn [negb]; [|by apply wp_raise].
  apply wp_ret. apply wp_bind. unfold read_record. apply wp_bind, wp_get, wp_bind.
  destruct (ho_files h !! name) as [text|] eqn:Ht; [|by apply wp_raise]. apply wp_ret, wp_lift.
  2: { intros e He. split; [done|]. intros ->. by apply parse_record_fuel in He. }
  intros v Hr. apply wp_bind, wp_lift.
  2: { intros e He. split; [done|]. intros ->. by apply subscript_fuel in He. }
  intros pid Hpid. destruct v as [| | | | | |r]; try done. cbn in Hpid.
  destruct (dict_get r "pid"%py) as [v|] eqn:Hv; [|done]. injection Hpid as ->.
  apply wp_bind. eapply wp_mono; [apply observes_alive|..]; [|done]. intros b h1 Hl1. apply wp_bind.
  apply (wp_mono _ (λ m h', later h h' ∧
     (m = true → b = true ∧ ∃ n i, identity n pid = inr (Some i) ∧ dict_get r "identity"%py = Some (VStr i))) _ (λ e h', later h h' ∧ e ≠ OutOfFuel)).
  - destruct b; [|by apply wp_ret]. apply wp_bind. unfold process_identity. apply wp_bind. pose proof (observes_call h1) as Hc.
    apply wp_call. unfold wp in Hc. cbn in Hc. pose proof (later_trans _ _ _ Hl1 Hc) as Hl2. apply wp_bind, wp_lift.
    2: { intros e He. split; [done|]. intros ->. by destruct (answers (ho_calls h1) 0 pid []) as (_ & _ & _ & _ & Hi & _). }
    intros [i|] Hi; [|by apply wp_raise]. apply wp_ret, wp_ret. split; [done|]. intros Heq%py_eq_str_inv. split; [done|].
    cbn in Heq. destruct (dict_get r "identity"%py) as [j|] eqn:Hj; [|done]. simpl in Heq. subst j. by exists (ho_calls h1), i.
  - intros m h2 [Hl2 Hm]. apply wp_ret. split; [done|]. exists text, r, pid, b, m. split_and!; try done.
    + by rewrite !dict_get_set, decide_False, decide_False, decide_True by done.
    + by rewrite dict_get_set, decide_True by done.
    + intros k Hk. rewrite !not_elem_of_cons in Hk. destruct Hk as (? & ? & ? & _).
      rewrite !dict_get_set, !decide_False by done. done.
  - done.
Qed.
End system.

(** ** A replica is started, found alive, and stopped *)

#[local] Existing Instance plain_floats.
#[local] Existing Instance plain_texts.
Definition demo_digest : pystr := "d1"%py.
Definition demo_start := start 10 str_isascii (λ _ _, inl ChildProcessError) (λ _ _, inr tt) (λ _ _, inr 42) (λ _ _, false)
  (λ _ _, inr (Some demo_digest)) (λ _, 1).
(** The first look after the signal finds that the process has ended. *)
Definition demo_stop := stop 10 str_isascii (λ _ _, inr true) (λ _ _, inr tt) (λ _ _, None)
  (λ _ _, inr (Some demo_digest)) (λ _ _, inr 42) (λ _, 1).
Definition demo_host : host := Host ∅ [] 0 0.

Lemma ascii_scalar s : str_isascii s = true → Forall scalar (codes s).
Proof.
  unfold str_isascii. rewrite forallb_forall. intros Hs. apply Forall_forall. intros c Hc. left.
  apply list_elem_of_In, Hs, N.ltb_lt in Hc. lia.
Qed.
Lemma demo_answers (f : nat → Z → exn + bool) : (∀ n p, f n p ≠ inl OutOfFuel) → ∀ (n : nat) (p : Z) (v : pyval) (c : list pystr),
  f n p ≠ inl OutOfFuel ∧ (inr tt : exn + unit) ≠ inl OutOfFuel ∧ (None : option exn) ≠ Some OutOfFuel ∧
  (inr 42 : exn + Z) ≠ inl OutOfFuel ∧ (inr (Some demo_digest) : exn + option pystr) ≠ inl OutOfFuel ∧
  (inr 42 : exn + Z) ≠ inl OutOfFuel.
Proof. intros Hf n p v c. split; [apply Hf|]. by split_and!. Qed.

Lemma start_records_witness :
  (demo_start "a"%py 8000 ["vllm"%py] demo_host).1 = inr tt ∧
  parse_record 10 (record_text "a"%py 42 8000 demo_digest) = inr (VDict (record_fields "a"%py 42 8000 demo_digest)).
Proof.
  pose proof (start_records 10 str_isascii (λ _ _, inl ChildProcessError) (λ _ _, inr tt) (λ _ _, None) (λ _ _, inr 42)
    (λ _ _, false) (λ _ _, inr (Some demo_digest)) (λ _ _, inr 42) (λ _, 1) ltac:(intros; lia)
    (demo_answers (λ _ _, inl ChildProcessError) ltac:(discriminate)) ascii_scalar
    ltac:(intros n c p [= <-]; lia) ltac:(intros n v i [= <-]; by apply (bool_decide_unpack _))
    "a"%py 8000 ["vllm"%py] demo_host ltac:(lia)) as Hs.
  assert (Hrun : (demo_start "a"%py 8000 ["vllm"%py] demo_host).1 = inr tt) by (vm_compute; reflexivity).
  split; [exact Hrun|]. unfold demo_start in Hrun. unfold wp in Hs. destruct (start _ _ _ _ _ _ _ _ _ _ _ _) as [[e|u] h']; [discriminate Hrun|].
  destruct Hs as (n & pid & k & m & i & Hp & _ & Hi & _ & _ & _ & Hread). injection Hp as <-. injection Hi as <-. exact Hread.
Defined.

Lemma stop_safe_witness :
  let h := (demo_start "a"%py 8000 ["vllm"%py] demo_host).2 in
  (demo_stop "a"%py 30000 h).1 = inr tt ∧ ∃ p n, ho_signals (demo_stop "a"%py 30000 h).2 = [(n, p)].
Proof.
  pose proof (stop_safe 10 str_isascii (λ _ _, inr true) (λ _ _, inr tt) (λ _ _, None) (λ _ _, inr 42)
    (λ _ _, inr (Some demo_digest)) (λ _ _, inr 42) (λ _, 1) ltac:(intros; lia)
    (demo_answers (λ _ _, inr true) ltac:(discriminate)) "a"%py 30000 (demo_start "a"%py 8000 ["vllm"%py] demo_host).2) as Hs.
  assert (Hrun : (demo_stop "a"%py 30000 (demo_start "a"%py 8000 ["vllm"%py] demo_host).2).1 = inr tt) by (vm_compute; reflexivity).
  assert (Hsig : ho_signals (demo_start "a"%py 8000 ["vllm"%py] demo_host).2 = []) by (vm_compute; reflexivity).
  cbn zeta. split; [exact Hrun|]. unfold demo_stop in *. unfold wp in Hs.
  destruct (stop _ _ _ _ _ _ _ _ _ _ _) as [[e|u] h']; [discriminate Hrun|].
  destruct Hs as (_ & p & n & _ & Hsig'). exists p, n. cbn [snd]. by rewrite Hsig', Hsig.
Defined.
