(* ===== verification/Laboratory.v ===== *)
(** infra/vast/vast_lab.py: renting and releasing the laboratory through the vastai
    command, with the contract's number in a state file.  infra/vast/validate_replacement.py:
    the check that replacing it destroys the old one first, over terraform. *)
From Stdlib Require Import SpecFloat Decimal DecimalPos DecimalN DecimalZ.
From S2P Require Import Prelude.
From S2P Require Import Python.
From S2P Require Import Errors.
From S2P Require Import Json.
From S2P Require Import JsonLoads.
From S2P Require Import Chat.
From S2P Require Import Vllm.
From S2P Require Import Topology.

(** * Integers as text *)

(** [str(z)]. *)
Definition py_str_int (z : Z) : pystr := PyStr (int_repr z).

Section parsing.
(** The value of a decimal digit, by the Unicode database. *)
Variable decimal : N → option Z.

(** Digits with single underscores between them. *)
Fixpoint int_digits (acc : Z) (after_digit : bool) (cs : list N) : option Z :=
  match cs with
  | [] => if after_digit then Some acc else None
  | c :: cs =>
      match decimal c with
      | Some d => int_digits (10 * acc + d) true cs
      | None => if after_digit && (c =? 95)%N then int_digits acc false cs else None
      end
  end.
(** [int(s)]. *)
Definition py_int (s : pystr) : exn + Z :=
  let r := match codes (str_strip s) with
           | 43%N :: cs => int_digits 0 false cs
           | 45%N :: cs => Z.opp <$> int_digits 0 false cs
           | cs => int_digits 0 false cs
           end in
  match r with Some z => inr z | None => inl ValueError end.

Hypothesis decimal_ascii : ∀ c, (c < 128)%N →
  decimal c = if digit_char c then Some (Z.of_N c - 48) else None.

Lemma int_digits_value u acc b : digits u ≠ [] ∨ b = true → int_digits acc b (digits u) = Some (uint_value acc u).
Proof.
  revert acc b. induction u; intros acc b Hne; cbn [digits int_digits uint_value]; [by destruct Hne as [?| ->]|..];
    rewrite decimal_ascii by lia; cbn; rewrite IHu by auto; f_equal; f_equal; lia.
Qed.

Lemma digits_nonempty p : digits (Pos.to_uint p) ≠ [].
Proof. pose proof (Unsigned.to_uint_nonnil p). by destruct (Pos.to_uint p). Qed.

(** A digit or a sign at either end is no white space. *)
Lemma lstrip_solid c cs : is_space c = false → lstrip (c :: cs) = c :: cs.
Proof. simpl. by intros ->. Qed.
Lemma strip_line cs : cs ≠ [] → Forall (λ c, is_space c = false) cs → str_strip (PyStr (cs ++ [10%N])) = PyStr cs.
Proof.
  intros Hne Hall. unfold str_strip. simpl. destruct cs as [|c cs]; [done|]. simpl.
  rewrite (Forall_inv Hall). change (c :: cs ++ [10%N]) with ((c :: cs) ++ [10%N]). rewrite reverse_snoc. cbn [lstrip].
  change (is_space 10) with true. cbn iota.
  assert (Hr : lstrip (reverse (c :: cs)) = reverse (c :: cs)); [|by rewrite Hr, reverse_involutive].
  assert (Hrev : Forall (λ c, is_space c = false) (reverse (c :: cs))) by by apply Forall_reverse.
  destruct (reverse (c :: cs)) as [|d ds]; [done|]. apply lstrip_solid. by apply Forall_inv in Hrev.
Qed.

Lemma int_repr_solid z : Forall (λ c, is_space c = false) (int_repr z).
Proof.
  eapply Forall_impl; [apply int_repr_chars|]. intros c [Hd| ->]; [|done].
  apply andb_true_iff in Hd as [?%N.leb_le ?%N.leb_le].
  assert (c = 48 ∨ c = 49 ∨ c = 50 ∨ c = 51 ∨ c = 52 ∨ c = 53 ∨ c = 54 ∨ c = 55 ∨ c = 56 ∨ c = 57)%N by lia.
  by destruct_or!; subst c.
Qed.
Lemma strip_repr z : str_strip (PyStr (int_repr z)) = PyStr (int_repr z).
Proof.
  pose proof (int_repr_solid z) as Hs. pose proof (int_repr_nonempty z) as Hne. unfold str_strip. cbn [codes].
  destruct (int_repr z) as [|c cs]; [done|]. rewrite lstrip_solid by (by apply Forall_inv in Hs).
  apply Forall_reverse in Hs. destruct (reverse (c :: cs)) as [|d ds] eqn:Hr.
  - apply (f_equal reverse) in Hr. by rewrite reverse_involutive in Hr.
  - rewrite lstrip_solid by (by apply Forall_inv in Hs). by rewrite <- Hr, reverse_involutive.
Qed.

(** [int(str(z))] is [z]. *)
Lemma py_int_repr z : py_int (PyStr (int_repr z)) = inr z.
Proof.
  unfold py_int. rewrite strip_repr. cbn [codes].
  unfold int_repr, Z.to_int. destruct z as [|p|p].
  - cbn. by rewrite decimal_ascii.
  - pose proof (digits_nonempty p) as Hne. pose proof (digits_chars (Pos.to_uint p)) as Hd.
    pose proof (int_digits_value (Pos.to_uint p) 0 false (or_introl Hne)) as Hv.
    destruct (digits (Pos.to_uint p)) as [|c cs]; [done|]. apply Forall_inv in Hd.
    assert (Hc : c ≠ 43%N ∧ c ≠ 45%N) by (split; by intros ->).
    replace (match c with 43%N => _ | _ => _ end) with (int_digits 0 false (c :: cs)).
    + rewrite Hv, uint_value_of. f_equal. exact (DecimalZ.of_to (Z.pos p)).
    + destruct Hc. clear -H H0. by repeat (case_match; try done).
  - cbn [app]. rewrite int_digits_value by (left; apply digits_nonempty). cbn. rewrite uint_value_of. f_equal.
    exact (DecimalZ.of_to (Z.neg p)).
Qed.
End parsing.

(** * The laboratory *)

Definition CalledProcessError : exn := OtherException 2.

(** The state file, if it exists, and the commands that were run. *)
Record lab := Lab {
  lb_state : option pystr;
  lb_commands : list (list pystr);
}.
Abbreviation laboratory := (sem lab exn).

Inductive action := Create | Destroy.

Section laboratory.
(** The environment; what a command prints, or how it fails; the recursion limit; how making
    the state file's directory, writing the file and unlinking it fail, if they do; and
    the digits of [int]. *)
Variable environ : pystr → option pystr.
Variable run : list pystr → exn + pystr.
Context `{FloatText} (depth : nat).
Variables mkdir write unlink : option exn.
Variable decimal : N → option Z.

(** The number of the contract: an [int], and so possibly a [bool]. *)
Inductive contract := ContractInt (z : Z) | ContractBool (b : bool).
Definition contract_text (c : contract) : pystr :=
  match c with
  | ContractInt z => py_str_int z
  | ContractBool b => (if b then "True" else "False")%py
  end.

Definition parse_instance_id (output : pystr) : exn + contract :=
  let? result := match loads float_parse depth output with inl e => inl (json_exn e) | inr v => inr v end in
  match result with
  | VDict d =>
      match dict_get d "success", dict_get d "new_contract" with
      | Some (VBool true), Some (VInt z) => inr (ContractInt z)
      | Some (VBool true), Some (VBool b) => inr (ContractBool b)
      | _, _ => inl ValueError
      end
  | _ => inl AttributeError
  end.

Definition command (c : list pystr) : laboratory pystr :=
  do! modify (λ l, Lab (lb_state l) (lb_commands l ++ [c])) in lift (run c).
Definition write_state (text : pystr) : laboratory unit :=
  match write with Some e => raise e | None => modify (λ l, Lab (Some text) (lb_commands l)) end.
Definition remove_state : laboratory unit :=
  match unlink with Some e => raise e | None => modify (λ l, Lab None (lb_commands l)) end.

Definition getenv (name : pystr) : laboratory pystr := unwrap KeyError (environ name).
(** [if value := os.environ.get(name)]. *)
Definition env_set (name : pystr) : option pystr :=
  match environ name with Some v => if str_truthy v then Some v else None | None => None end.

Definition create_command : laboratory (list pystr) :=
  let! offer := getenv "VAST_OFFER_ID" in
  let! image := getenv "VAST_IMAGE" in
  let! disk_gb := getenv "VAST_DISK_GB" in
  let base := ["vastai"; "create"; "instance"; offer; "--raw"; "--image"; image; "--disk"; disk_gb; "--ssh";
               "--direct"; "--cancel-unavail"]%py in
  let base := base ++ match env_set "VAST_ONSTART" with Some o => ["--onstart-cmd"%py; o] | None => [] end in
  match env_set "VAST_VOLUME_ID" with
  | Some v => let! mount := getenv "VAST_MOUNT_PATH" in ret (base ++ ["--link-volume"%py; v; "--mount-path"%py; mount])
  | None => ret base
  end.

Definition create : laboratory unit :=
  let! c := create_command in
  let! output := command c in
  do! match mkdir with Some e => raise e | None => ret tt end in
  let! instance := lift (parse_instance_id output) in
  write_state (PyStr (codes (contract_text instance) ++ [10%N])).

Definition destroy_command (instance : Z) : list pystr :=
  ["vastai"; "destroy"; "instance"; py_str_int instance; "--raw"]%py.
(** A missing state file is a [FileNotFoundError]. *)
Definition destroy : laboratory unit :=
  let! l := get in
  let! text := unwrap (FileNotFoundError) (lb_state l) in
  let! instance := lift (py_int decimal (str_strip text)) in
  do! command (destroy_command instance) in remove_state.

(** [main]: the listed exceptions become [SystemExit]; others are raised. *)
Inductive exit := ExitOk | ExitFailed (e : exn) | Raised (e : exn).
Definition lab_main (a : action) (l : lab) : exit * lab :=
  match (match a with Create => create | Destroy => destroy end) l with
  | (inr _, l) => (ExitOk, l)
  | (inl e, l) =>
      if is_os_error e || bool_decide (e = KeyError) || bool_decide (e = ValueError) || bool_decide (e = CalledProcessError)
      then (ExitFailed e, l) else (Raised e, l)
  end.

(** * What they do *)

Hypothesis decimal_ascii : ∀ c, (c < 128)%N →
  decimal c = if digit_char c then Some (Z.of_N c - 48) else None.

(** [create] runs at most one command, and the state file changes only when the whole
    of it succeeds: then it holds the number that the command printed. *)
Theorem create_records l :
  wp create
    (λ _ l', ∃ c output instance, lb_commands l' = lb_commands l ++ [c] ∧ run c = inr output ∧
       parse_instance_id output = inr instance ∧ lb_state l' = Some (PyStr (codes (contract_text instance) ++ [10%N])))
    (λ _ l', lb_state l' = lb_state l ∧ (lb_commands l' = lb_commands l ∨ ∃ c, lb_commands l' = lb_commands l ++ [c])) l.
Proof.
  unfold create. apply wp_bind. set (X := λ (e : exn) (l' : lab), _).
  assert (Henv : ∀ n, wp (getenv n) (λ _ l', l' = l) (λ _ l', l' = l) l).
  { intros n. unfold getenv. by destruct (environ n). }
  assert (Hcmd : wp create_command (λ _ l', l' = l) X l).
  { assert (HX : ∀ e l', l' = l → X e l') by (intros e l' ->; split; [done|by left]).
    unfold create_command. do 3 (apply wp_bind; eapply wp_mono; [apply Henv| |apply HX]; intros ? ? ->).
    destruct (env_set "VAST_VOLUME_ID"); [|by apply wp_ret].
    apply wp_bind. eapply wp_mono; [apply Henv| |apply HX]. intros ? ? ->. by apply wp_ret. }
  eapply wp_mono; [apply Hcmd| |done]. intros c l1 ->. apply wp_bind. unfold command. apply wp_bind, wp_modify.
  apply wp_lift; [|intros e He; split; [done|right; by exists c]]. intros output Hout. apply wp_bind.
  destruct mkdir as [e|]; [apply wp_raise; split; [done|right; by exists c]|]. apply wp_ret, wp_bind, wp_lift.
  - intros instance Hi. unfold write_state. destruct write as [e|]; [apply wp_raise; split; [done|right; by exists c]|].
    apply wp_modify. by exists c, output, instance.
  - intros e _. split; [done|right; by exists c].
Qed.

(** What [create] records is what [destroy] releases, and then forgets. *)
Theorem create_destroy z c output l l1 output2 :
  create l = (inr (), l1) → lb_commands l1 = lb_commands l ++ [c] → run c = inr output →
  parse_instance_id output = inr (ContractInt z) → run (destroy_command z) = inr output2 → unlink = None →
  destroy l1 = (inr (), Lab None (lb_commands l1 ++ [destroy_command z])).
Proof.
  intros Hc Hcmd Hrun Hz Hdes Hun. pose proof (create_records l) as Hrec. unfold wp in Hrec. rewrite Hc in Hrec.
  destruct Hrec as (c' & output' & instance & Hc' & Hrun' & Hi & Hst).
  assert (c' = c) as ->. { rewrite Hcmd in Hc'. by apply (inj (app _)) in Hc' as [= ->]. }
  assert (output' = output) as -> by congruence. assert (instance = ContractInt z) as -> by congruence.
  unfold destroy, bind, get, unwrap. rewrite Hst. unfold ret.
  assert (Hstrip : py_int decimal (str_strip (PyStr (codes (contract_text (ContractInt z)) ++ [10%N]))) = inr z).
  { rewrite strip_line; [|apply int_repr_nonempty|apply int_repr_solid]. exact (py_int_repr _ decimal_ascii z). }
  rewrite Hstrip. unfold lift, ret, command, bind, modify. rewrite Hdes. unfold remove_state. by rewrite Hun.
Qed.

(** A [bool] is an [int]: an answer whose contract is [true] is recorded as [True],
    which no later [destroy] can read. *)
Theorem bool_contract d l :
  dict_get d "success"%py = Some (VBool true) → dict_get d "new_contract"%py = Some (VBool true) →
  (∀ output, loads float_parse depth output = inr (VDict d) → parse_instance_id output = inr (ContractBool true)) ∧
  let l' := Lab (Some (PyStr (codes (contract_text (ContractBool true)) ++ [10%N]))) (lb_commands l) in
  destroy l' = (inl ValueError, l').
Proof.
  intros Hs Hn. split; [intros output Ho; unfold parse_instance_id; rewrite Ho; cbn; by rewrite Hs, Hn|].
  unfold destroy, bind, get, unwrap, lift. simpl.
  replace (str_strip _) with ("True"%py) by done. unfold py_int. simpl. by rewrite decimal_ascii.
Qed.
End laboratory.

(** * Validating that a replacement destroys before it creates *)

(** The files of the temporary directory: texts, and the adapter [FAKE_ADAPTER], which is a
    program. *)
Inductive file := Text (t : pystr) | FakeAdapter.
Abbreviation directory := (gmap pystr file).

(** What the adapter does when it is run: it notes the action, and writes or removes the
    state file. *)
Definition fake_adapter (a : pystr) (state : pystr) (d : directory) : exn + directory :=
  let events := match d !! "events"%py with Some (Text t) => codes t | _ => [] end in
  let d := <["events"%py := Text (PyStr (events ++ codes a ++ [10%N]))]> d in
  if bool_decide (a = "create"%py) then inr (<[state := Text (PyStr (codes "123"%py ++ [10%N]))]> d)
  else match d !! state with Some _ => inr (delete state d) | None => inl (FileNotFoundError) end.

(** [str.splitlines]: the ends of lines. *)
Definition line_end (c : N) : bool :=
  ((10 <=? c) && (c <=? 13) || (28 <=? c) && (c <=? 30) || (c =? 133) || (c =? 8232) || (c =? 8233))%N.
Fixpoint str_splitlines (line : list N) (after_cr : bool) (l : list N) : list pystr :=
  match l with
  | [] => match line with [] => [] | _ => [PyStr line] end
  | c :: l =>
      if after_cr && (c =? 10)%N then str_splitlines line false l
      else if line_end c then PyStr line :: str_splitlines [] (c =? 13)%N l
      else str_splitlines (line ++ [c]) false l
  end.

Lemma splitlines_line line cs r : Forall (λ c, line_end c = false) cs →
  str_splitlines line false (cs ++ 10%N :: r) = PyStr (line ++ cs) :: str_splitlines [] false r.
Proof.
  revert line. induction cs as [|c cs IH]; intros line Hcs; cbn [app str_splitlines andb].
  - by rewrite app_nil_r.
  - apply Forall_cons in Hcs as [-> Hcs]. rewrite IH by done. by rewrite <- app_assoc.
Qed.

(** The directory, and the commands that were run in it. *)
Record workdir := Workdir { wd_files : directory; wd_commands : list (list pystr) }.
Definition AssertionError : exn := OtherException 3.

Section replacement.
Context `{FloatText} (depth : nat).
(** What a command of terraform prints and leaves in the directory, or how it fails. *)
Variable terraform : list pystr → directory → exn + (pystr * directory).

Definition run_terraform (arguments : list pystr) : sem workdir exn pystr :=
  let! w := get in
  let! r := lift (terraform arguments (wd_files w)) in
  do! modify (λ w, Workdir r.2 (wd_commands w ++ [arguments])) in ret r.1.

(** [next(...)]: the first change of the laboratory. *)
Fixpoint find_lab (changes : list pyval) : exn + pyval :=
  match changes with
  | [] => inl StopIteration
  | change :: changes =>
      let? address := subscript change "address"%py in
      if py_eq address (VStr "terraform_data.h100_lab"%py) then inr change else find_lab changes
  end.
Definition replacement_actions (plan : pyval) : exn + pyval :=
  let? changes := subscript plan "resource_changes"%py in
  let? changes := items_of changes in
  let? lab := find_lab changes in
  let? change := subscript lab "change"%py in
  subscript change "actions"%py.

Definition common : list pystr := ["-input=false"; "-var=confirm_billable_resource=true"; "-var=offer_id=1"]%py.
Definition init_arguments : list pystr := ["init"; "-backend=false"; "-input=false"]%py.
Definition apply_arguments : list pystr := ["apply"; "-auto-approve"]%py ++ common ++ ["-var=image=image:a"]%py.
Definition plan_arguments : list pystr := ["plan"; "-out=replacement.tfplan"]%py ++ common ++ ["-var=image=image:b"]%py.
Definition show_arguments : list pystr := ["show"; "-json"; "replacement.tfplan"]%py.
Definition replace_arguments : list pystr := ["apply"; "-auto-approve"; "replacement.tfplan"]%py.

(** [source]: the files with the suffix [.tf], by name. *)
Definition validate_replacement (source : list (pystr * pystr)) : sem workdir exn unit :=
  do! modify (λ w, Workdir (foldl (λ d kt, <[kt.1 := Text kt.2]> d) (wd_files w) source) (wd_commands w)) in
  do! modify (λ w, Workdir (<["vast_lab.py"%py := FakeAdapter]> (wd_files w)) (wd_commands w)) in
  do! run_terraform init_arguments in
  do! run_terraform apply_arguments in
  do! run_terraform plan_arguments in
  let! stdout := run_terraform show_arguments in
  let! plan := lift (match loads float_parse depth stdout with inl e => inl (json_exn e) | inr v => inr v end) in
  let! actions := lift (replacement_actions plan) in
  if negb (py_eq actions (VList [VStr "delete"; VStr "create"]%py)) then raise AssertionError else
  do! run_terraform replace_arguments in
  let! w := get in
  let! events := match wd_files w !! "events"%py with
                 | Some (Text t) => ret (str_splitlines [] false (codes t))
                 | _ => raise (FileNotFoundError)
                 end in
  if bool_decide (events ≠ ["create"; "destroy"; "create"]%py) then raise AssertionError else ret tt.

Lemma wp_terraform arguments w Q X :
  (∀ r, terraform arguments (wd_files w) = inr r → Q r.1 (Workdir r.2 (wd_commands w ++ [arguments]))) →
  (∀ e, X e w) → wp (run_terraform arguments) Q X w.
Proof. intros HQ HX. unfold run_terraform. apply wp_bind, wp_get, wp_bind, wp_lift; [|auto]. intros r Hr. apply wp_bind, wp_modify, wp_ret. auto. Qed.

(** The validation succeeds only when the plan for another image deletes the laboratory
    and then creates it, and when applying exactly this plan ran the adapter so. *)
Theorem replacement_validated source :
  wp (validate_replacement source)
    (λ _ w, wd_commands w = [init_arguments; apply_arguments; plan_arguments; show_arguments; replace_arguments] ∧
       ∃ d stdout d' plan actions r t, terraform show_arguments d = inr (stdout, d') ∧ loads float_parse depth stdout = inr plan ∧
         replacement_actions plan = inr actions ∧ py_eq actions (VList [VStr "delete"; VStr "create"]%py) = true ∧
         terraform replace_arguments d' = inr r ∧ r.2 !! "events"%py = Some (Text t) ∧
         str_splitlines [] false (codes t) = ["create"; "destroy"; "create"]%py)
    (λ _ _, True) (Workdir ∅ []).
Proof.
  unfold validate_replacement. apply wp_bind, wp_modify, wp_bind, wp_modify.
  do 3 (apply wp_bind, wp_terraform; [intros ? _|done]). apply wp_bind, wp_terraform; [|done]. intros [stdout d'] Hshow.
  apply wp_bind, wp_lift; [|done]. intros plan Hplan. apply wp_bind, wp_lift; [|done]. intros actions Hact.
  destruct (py_eq actions _) eqn:Heq; cbn [negb]; [|by apply wp_raise]. apply wp_bind, wp_terraform; [|done]. intros r2 Hr2.
  apply wp_bind, wp_get, wp_bind. cbn [wd_files wd_commands snd] in *.
  destruct (r2.2 !! "events"%py) as [[t|]|] eqn:Ht; try by apply wp_raise. apply wp_ret.
  case_bool_decide as Hev; [by apply wp_raise|]. apply wp_ret. cbn [wd_commands].
  split; [done|]. eexists _, stdout, d', plan, actions, r2, t. split_and!; try done.
  cbn [fst] in Hplan. destruct (loads float_parse depth stdout); by simplify_eq.
Qed.
End replacement.

(** The adapter's own record of a replacement in this order. *)
Example adapter_events d0 d1 d2 d3 : d0 !! "events"%py = None →
  fake_adapter "create"%py "s"%py d0 = inr d1 → fake_adapter "destroy"%py "s"%py d1 = inr d2 →
  fake_adapter "create"%py "s"%py d2 = inr d3 →
  ∃ t, d3 !! "events"%py = Some (Text t) ∧ str_splitlines [] false (codes t) = ["create"; "destroy"; "create"]%py.
Proof.
  unfold fake_adapter. intros H0 H1 H2 H3. rewrite H0 in H1. cbn in H1. injection H1 as <-.
  rewrite lookup_insert_ne, lookup_insert_eq in H2 by done. cbn in H2. rewrite lookup_insert_ne, lookup_insert_eq in H2 by done.
  injection H2 as <-. rewrite lookup_delete_ne, lookup_insert_eq in H3 by done. cbn in H3. injection H3 as <-.
  eexists. split; [by rewrite lookup_insert_ne, lookup_insert_eq by done|]. reflexivity.
Qed.
