(* ===== verification/Preflight.v ===== *)
(** deploy/preflight.py: the fingerprint of the environment of an experiment, from the
    programs that are installed. *)
From S2P Require Import Prelude.
From S2P Require Import Python.
From S2P Require Import Errors.
From S2P Require Import Json.
From S2P Require Import JsonLoads.

Section preflight.
(** [shutil.which]; and the exit code, the output and the errors of a command, or how
    running it fails, such as after 15 seconds. *)
Variable which : pystr → bool.
Variable execute : list pystr → exn + (Z * pystr * pystr).

Definition run (command : list pystr) : exn + option pystr :=
  match command with
  | [] => inl IndexError
  | program :: _ =>
      if negb (which program) then inr None else
      let? result := execute command in
      let '(returncode, stdout, stderr) := result in
      inr (if returncode =? 0 then Some (str_strip (if str_truthy stdout then stdout else stderr)) else None)
  end.

Definition probes : list (pystr * list pystr) :=
  [("git_sha", ["git"; "rev-parse"; "HEAD"]);
   ("go", ["go"; "version"]);
   ("gpu", ["nvidia-smi"; "--query-gpu=name,uuid,driver_version,memory.total,memory.used"; "--format=csv,noheader"]);
   ("gpu_processes", ["nvidia-smi"; "--query-compute-apps=gpu_uuid,pid,process_name,used_memory"; "--format=csv,noheader"]);
   ("python", ["python"; "--version"]);
   ("pytorch", ["python"; "-c"; "import torch; print(torch.__version__)"]);
   ("transformers", ["python"; "-c"; "import transformers; print(transformers.__version__)"]);
   ("vllm", ["vllm"; "--version"]);
   ("ports", ["ss"; "-lntp"])]%py.

(** [fingerprint], evaluated in the order of its keys. *)
Fixpoint collect (probes : list (pystr * list pystr)) : exn + pydict :=
  match probes with
  | [] => inr []
  | (key, command) :: probes =>
      let? value := run command in
      let? rest := collect probes in
      inr ((key, match value with Some text => VStr text | None => VNone end) :: rest)
  end.
Definition fingerprint : exn + pydict := collect probes.
(** [main]: what it prints. *)
Definition preflight_main `{FloatRepr} : exn + pystr :=
  let? d := fingerprint in inr (PyStr (json_indented 0 (sort_keys (VDict d)))).

Lemma collect_entries l d : collect l = inr d →
  d.*1 = l.*1 ∧ Forall (λ kv, ∃ c, (kv.1, c) ∈ l ∧ ∃ v, run c = inr v ∧ kv.2 = match v with Some text => VStr text | None => VNone end) d.
Proof.
  revert d. induction l as [|[k c] l IH]; intros d; cbn [collect]; [intros [= <-]; by split|].
  intros (v & Hv & (rest & Hrest & [= <-])%sum_bind_inr)%sum_bind_inr. destruct (IH rest Hrest) as [Hk Hall].
  split; [cbn; by rewrite Hk|]. constructor; [exists c; split; [left|by exists v]|].
  eapply Forall_impl; [exact Hall|]. intros kv (c' & Hc' & Hr). exists c'. split; [by right|done].
Qed.

(** The fingerprint always has the same nine keys; an entry is the trimmed output of its
    command, or null when the program is missing or fails. *)
Theorem fingerprint_entries d : fingerprint = inr d →
  d.*1 = probes.*1 ∧
  ∀ key command, (key, command) ∈ probes → ∃ v, run command = inr v ∧
    dict_get d key = Some (match v with Some text => VStr text | None => VNone end).
Proof.
  intros Hd. destruct (collect_entries probes d Hd) as [Hk Hall]. split; [done|]. intros key command Hin.
  assert (Hnd : NoDup probes.*1) by by apply (bool_decide_unpack _).
  assert (Hkey : key ∈ d.*1) by (rewrite Hk; apply list_elem_of_fmap; by exists (key, command)).
  apply list_elem_of_fmap in Hkey as ([k v] & -> & Hkv). rewrite Forall_forall in Hall.
  destruct (Hall _ Hkv) as (c & Hc & w & Hw & Hv). cbn [fst snd] in *.
  assert (c = command) as ->.
  { apply list_elem_of_lookup in Hc as [i Hi], Hin as [j Hj]. assert (i = j) as ->; [|congruence].
    eapply (NoDup_lookup _ i j k Hnd); rewrite list_lookup_fmap; [by rewrite Hi|by rewrite Hj]. }
  exists w. split; [done|]. apply dict_get_in; [by rewrite Hk|]. by rewrite <- Hv.
Qed.
End preflight.
