(* ===== verification/Results.v ===== *)
(** benchmark/scripts/validate_result.py and the first half of
    benchmark/scripts/summarize.py: which result documents are valid, the row of a result,
    and which runs may be compared, on JSON values. *)
From Stdlib Require Import SpecFloat.
From S2P Require Import Prelude.
From S2P Require Import Python.
From S2P Require Import Errors.
From S2P Require Import Json.
From S2P Require Import Chat.
From S2P Require Import Vllm.
From S2P Require Import Topology.

(** * Helpers *)

Definition cat (ss : list pystr) : pystr := PyStr (ss ≫= codes).
(** [bool(v)]. *)
Definition py_truthy (v : pyval) : bool :=
  match v with
  | VNone => false
  | VBool b => b
  | VInt z => negb (z =? 0)
  | VFloat f => match f with S754_zero _ => false | _ => true end
  | VStr s => str_truthy s
  | VList l => match l with [] => false | _ => true end
  | VDict d => match d with [] => false | _ => true end
  end.
(** [d.get(k)] and [d.get(k, {})]. *)
Definition get_none (d : pydict) (k : pystr) : pyval := default VNone (dict_get d k).
Definition get_dict (d : pydict) (k : pystr) : pyval := default (VDict []) (dict_get d k).
Definition as_dict (v : pyval) : exn + pydict := match v with VDict d => inr d | _ => inl AttributeError end.
Definition is_dict (v : pyval) : bool := match v with VDict _ => true | _ => false end.

(** * validate *)

Definition missing (before : pystr) (fields : list pystr) (d : pydict) : list pystr :=
  omap (λ f, if dict_has d f then None else Some (cat [before; f])) fields.

Definition root_fields : list pystr :=
  ["metadata"; "configuration"; "timing"; "warmup"; "summary"; "per_request"; "metrics"; "metric_artifacts";
   "environment"; "validity"]%py.
Definition required_object_fields : list (pystr * list pystr) :=
  [("metadata", ["run_id"; "timestamp_utc"; "label"; "repeat"; "execution_order"]);
   ("timing", ["measured_start_utc"; "measured_end_utc"; "duration_seconds"]);
   ("warmup", ["attempted"; "success"; "failed"]);
   ("summary", ["attempted"; "successful"; "failed"; "error_rate"; "errors_by_category"; "e2e"; "ttft";
                "request_throughput_rps"; "output_throughput_tps"; "authoritative_token_coverage"]);
   ("validity", ["valid"; "reasons"])]%py.
Definition object_sections : list pystr := ["metrics"; "metric_artifacts"; "environment"]%py.
Definition configuration_fields : list pystr :=
  ["base_url"; "endpoint"; "model"; "mode"; "concurrency"; "requests"; "warmup"; "timeout_seconds"; "dataset_sha256";
   "temperature"; "top_p"; "max_tokens"; "seed"; "n"; "stream"; "stream_include_usage"; "batching_enabled";
   "prefix_caching"; "workload_fingerprint"; "gateway_config_fingerprint"; "vllm_config_fingerprint"]%py.

(** The loop over the sections with required fields. *)
Definition section_errors (result : pydict) (sf : pystr * list pystr) : list pystr :=
  match get_dict result sf.1 with
  | VDict d => missing (cat [sf.1; " missing "%py]) sf.2 d
  | _ => [cat [sf.1; " must be an object"%py]]
  end.
Definition object_errors (result : pydict) (section : pystr) : list pystr :=
  if is_dict (get_dict result section) then [] else [cat [section; " must be an object"%py]].

(** [configuration.get("mode") not in {...}]. *)
Definition mode_invalid (mode : pyval) : exn + bool :=
  if hashable mode then inr (negb (py_eq mode (VStr "streaming"%py) || py_eq mode (VStr "non_streaming"%py))) else inl TypeError.

(** The loop over the requests of a run that does not stream. *)
Fixpoint ttft_errors (index : Z) (per_request : list pyval) : list pystr :=
  match per_request with
  | [] => []
  | request :: per_request =>
      let at_index := cat ["per_request["%py; PyStr (int_repr index); "]"%py] in
      match request with
      | VDict d => match get_none d "ttft_ms"%py with
                   | VNone => []
                   | _ => [cat [at_index; " has TTFT in non-streaming mode"%py]]
                   end
      | _ => [cat [at_index; " must be an object"%py]]
      end ++ ttft_errors (index + 1) per_request
  end.

(** [re.fullmatch("[0-9a-f]{64}", str(v))]; the [str] of other values has other characters
    or is shorter. *)
Definition hex_char (c : N) : bool := (digit_char c || ((97 <=? c) && (c <=? 102)))%N.
Definition hex_digest (v : pyval) : bool :=
  let text := match v with VStr s => codes s | VInt z => int_repr z | _ => [] end in
  bool_decide (length text = 64%nat) && forallb hex_char text.

(** The errors up to the configuration, and those of the configuration and the requests. *)
Definition document_errors (result : pydict) : list pystr :=
  (if py_eq (get_none result "schema_version"%py) (VInt 1) then [] else ["schema_version must equal 1"%py]) ++
  missing "missing "%py root_fields result ++
  (required_object_fields ≫= section_errors result) ++
  (object_sections ≫= object_errors result).
Definition configuration_errors (configuration : pydict) (invalid : bool) (per_request : pyval) : list pystr :=
  missing "configuration missing "%py configuration_fields configuration ++
  (if invalid then ["configuration.mode is invalid"%py] else []) ++
  match per_request with VList _ => [] | _ => ["per_request must be an array"%py] end ++
  (if py_eq (get_none configuration "mode"%py) (VStr "non_streaming"%py)
   then ttft_errors 0 (match per_request with VList l => l | _ => [] end) else []) ++
  (if hex_digest (default (VStr ""%py) (dict_get configuration "dataset_sha256"%py)) then []
   else ["dataset_sha256 must be a 64-character hex digest"%py]).
(** [summary.attempted] against the number of requests. *)
Definition attempted_errors (summary : pydict) (per_request : pyval) : list pystr :=
  match as_int (get_none summary "attempted"%py) with
  | inr n => if n =? Z.of_nat (length (match per_request with VList l => l | _ => [] end)) then []
             else ["summary.attempted does not match per_request length"%py]
  | inl _ => []
  end.

Definition validate_dict (result : pydict) : exn + list pystr :=
  match get_dict result "configuration"%py with
  | VDict configuration =>
      let? invalid := mode_invalid (get_none configuration "mode"%py) in
      let per_request := default (VList []) (dict_get result "per_request"%py) in
      let errors := document_errors result ++ configuration_errors configuration invalid per_request in
      match get_dict result "summary"%py with
      | VDict summary => inr (errors ++ attempted_errors summary per_request)
      | _ => inr (errors ++ ["summary must be an object"%py])
      end
  | _ => inr (document_errors result ++ ["configuration must be an object"%py])
  end.
Definition validate (result : pyval) : exn + list pystr :=
  match result with VDict d => validate_dict d | _ => inr ["root must be an object"%py] end.

(** * flatten *)

Fixpoint optional (value : pyval) (names : list pystr) : pyval :=
  match names with
  | [] => value
  | name :: names => match value with VDict d => optional (get_none d name) names | _ => VNone end
  end.
(** [";".join(v)]. *)
Fixpoint join_strings (l : list pyval) : exn + list pystr :=
  match l with
  | [] => inr []
  | VStr s :: l => let? rest := join_strings l in inr (s :: rest)
  | _ => inl TypeError
  end.
Fixpoint semicolons (ss : list pystr) : pystr :=
  match ss with [] => ""%py | [s] => s | s :: ss => cat [s; ";"%py; semicolons ss] end.

Definition flatten (result : pyval) : exn + pydict :=
  let? summary := subscript result "summary"%py in
  let? config := subscript result "configuration"%py in
  let? metadata := subscript result "metadata"%py in
  let batch := optional result ["metrics"; "batch"]%py in
  let batch := if py_truthy batch then batch else VDict [] in
  let? fields := as_dict result in
  let validity := get_dict fields "validity"%py in
  let? run_id := subscript metadata "run_id"%py in
  let? repeat := subscript metadata "repeat"%py in
  let? label := subscript metadata "label"%py in
  let? mode := subscript config "mode"%py in
  let? concurrency := subscript config "concurrency"%py in
  let? attempted := subscript summary "attempted"%py in
  let? successful := subscript summary "successful"%py in
  let? error_rate := subscript summary "error_rate"%py in
  let? rps := subscript summary "request_throughput_rps"%py in
  let? summary_d := as_dict summary in
  let? batch := as_dict batch in
  let? validity := as_dict validity in
  let reasons := get_none validity "reasons"%py in
  let? reasons := (if py_truthy reasons then items_of reasons else inr []) in
  let? reasons := join_strings reasons in
  inr [("run_id", run_id); ("repeat", repeat); ("target", label); ("mode", mode); ("concurrency", concurrency);
       ("requests", attempted); ("success", successful); ("error_rate", error_rate);
       ("e2e_p50_ms", optional summary ["e2e"; "p50_ms"]); ("e2e_p95_ms", optional summary ["e2e"; "p95_ms"]);
       ("e2e_p99_ms", optional summary ["e2e"; "p99_ms"]); ("ttft_p50_ms", optional summary ["ttft"; "p50_ms"]);
       ("ttft_p95_ms", optional summary ["ttft"; "p95_ms"]); ("ttft_p99_ms", optional summary ["ttft"; "p99_ms"]);
       ("request_throughput_rps", rps); ("output_throughput_tps", get_none summary_d "output_throughput_tps"%py);
       ("mean_batch_size", get_none batch "mean_size"%py); ("batch_wait_p95_ms", get_none batch "wait_p95_ms"%py);
       ("queue_wait_p95_ms", get_none batch "queue_wait_p95_ms"%py);
       ("valid", default (VBool false) (dict_get validity "valid"%py)); ("invalid_reasons", VStr (semicolons reasons))]%py.
Definition CSV_FIELDS : list pystr :=
  ["run_id"; "repeat"; "target"; "mode"; "concurrency"; "requests"; "success"; "error_rate"; "e2e_p50_ms"; "e2e_p95_ms";
   "e2e_p99_ms"; "ttft_p50_ms"; "ttft_p95_ms"; "ttft_p99_ms"; "request_throughput_rps"; "output_throughput_tps";
   "mean_batch_size"; "batch_wait_p95_ms"; "queue_wait_p95_ms"; "valid"; "invalid_reasons"]%py.

(** [main] up to the rows: the errors of every loaded result, and the rows of all of them. *)
Fixpoint validate_all (results : list pyval) : exn + list pystr :=
  match results with
  | [] => inr []
  | r :: results => let? errors := validate r in let? rest := validate_all results in inr (errors ++ rest)
  end.
Fixpoint flatten_all (results : list pyval) : exn + list pydict :=
  match results with
  | [] => inr []
  | r :: results => let? row := flatten r in let? rest := flatten_all results in inr (row :: rest)
  end.
Definition summary_rows (results : list pyval) : exn + (list pystr * list pydict) :=
  let? errors := validate_all results in
  let? rows := flatten_all results in
  inr (errors, rows).

(** * comparison_errors *)

Definition ARMS : list pystr := ["direct"; "gateway_no_batch"; "gateway_batch"]%py.
Definition compared_fields : list pystr := ["dataset_sha256"; "model"; "workload_fingerprint"; "vllm_config_fingerprint"]%py.
(** [result.get(section, {}).get(k)], with a default. *)
Definition get_in (result : pyval) (section k : pystr) (d : pyval) : exn + pyval :=
  let? result := as_dict result in
  let? section := as_dict (get_dict result section) in
  inr (default d (dict_get section k)).

(** The loop over the arms. *)
Fixpoint arm_errors (arms : list (pystr * pyval)) : exn + list pystr :=
  match arms with
  | [] => inr []
  | (label, result) :: arms =>
      let? valid := get_in result "validity"%py "valid"%py VNone in
      let? attempted := get_in result "summary"%py "attempted"%py (VInt 0) in
      let? target := get_in result "metadata"%py "label"%py VNone in
      let? rest := arm_errors arms in
      inr ((if py_truthy valid then [] else [cat [label; " run is invalid"%py]]) ++
           (if py_eq attempted (VInt 0) then [cat [label; " has zero measured requests"%py]] else []) ++
           (if py_truthy target then [] else [cat [label; " is missing target metadata"%py]]) ++ rest)
  end.
(** The values of a field in the configurations, as a set. *)
Fixpoint field_values (field : pystr) (configs : list pyval) : exn + list pyval :=
  match configs with
  | [] => inr []
  | config :: configs =>
      let? config := as_dict config in
      let v := get_none config field in
      if negb (hashable v) then inl TypeError else let? vs := field_values field configs in inr (v :: vs)
  end.
Fixpoint drift_errors (fields : list pystr) (configs : list pyval) : exn + list pystr :=
  match fields with
  | [] => inr []
  | field :: fields =>
      let? vs := field_values field configs in
      let? rest := drift_errors fields configs in
      inr ((if (length (distinct [] vs) =? 1)%nat then [] else [cat ["different "%py; field; " across compared arms"%py]]) ++ rest)
  end.
Definition comparison_errors (arms : list (pystr * pyval)) : exn + list pystr :=
  if negb (forallb (λ l, dict_has arms l) ARMS && forallb (λ a, bool_decide (a.1 ∈ ARMS)) arms)
  then inr ["comparison requires direct, gateway_no_batch, gateway_batch"%py] else
  let? errors := arm_errors arms in
  let arm label := default VNone (dict_get arms label) in
  let? c0 := subscript (arm "direct"%py) "configuration"%py in
  let? c1 := subscript (arm "gateway_no_batch"%py) "configuration"%py in
  let? c2 := subscript (arm "gateway_batch"%py) "configuration"%py in
  let? drift := drift_errors compared_fields [c0; c1; c2] in
  let? off_sha := get_in (arm "gateway_no_batch"%py) "environment"%py "gateway_git_sha"%py VNone in
  let? on_sha := get_in (arm "gateway_batch"%py) "environment"%py "gateway_git_sha"%py VNone in
  let? off := as_dict c1 in
  let? on := as_dict c2 in
  inr (errors ++ drift ++
       (if negb (py_truthy off_sha) || py_eq off_sha (VStr "unknown"%py) || negb (py_eq off_sha on_sha)
        then ["gateway OFF/ON Git SHA is missing or different"%py] else []) ++
       (if py_eq (get_none off "batching_enabled"%py) (VStr "false"%py) then []
        else ["gateway_no_batch does not record batching_enabled=false"%py]) ++
       (if py_eq (get_none on "batching_enabled"%py) (VStr "true"%py) then []
        else ["gateway_batch does not record batching_enabled=true"%py])).

(** * counter_delta *)

(** The series of a metrics text: names and labels with their values, in the order of the
    dictionary. *)
Abbreviation labels := (list (pystr * pystr)).
Abbreviation series := (list ((pystr * labels) * spec_float)).
Record counter_change := Delta { de_missing : bool; de_reset : bool; de_value : option spec_float }.

Definition float_zero : spec_float := S754_zero false.
Definition float_sub : spec_float → spec_float → spec_float := SFsub 53 1024.
Definition named (name : pystr) (s : series) : list (labels * spec_float) :=
  omap (λ kv, if bool_decide (kv.1.1 = name) then Some (kv.1.2, kv.2) else None) s.
Fixpoint labels_get (vs : list (labels * spec_float)) (k : labels) : option spec_float :=
  match vs with [] => None | (k', v) :: vs => if bool_decide (k' = k) then Some v else labels_get vs k end.

Section delta.
(** [sum] of floats, whose rounding depends on the version of the interpreter. *)
Variable float_sum : list spec_float → spec_float.

Definition counter_delta (before after : series) (name : pystr) : counter_change :=
  let before_values := named name before in
  let after_values := named name after in
  match after_values with
  | [] => Delta true false None
  | _ =>
      let old k := default float_zero (labels_get before_values k) in
      let reset := existsb (λ kv, SFltb kv.2 (old kv.1)) after_values in
      let missing := existsb (λ kv, negb (bool_decide (is_Some (labels_get after_values kv.1)))) before_values in
      Delta missing reset
        (if reset || missing then None else Some (float_sum ((λ kv, float_sub kv.2 (old kv.1)) <$> after_values)))
  end.

Lemma existsb_none {A B} (f : A * B → bool) l : existsb f l = false ↔ ∀ k x, (k, x) ∈ l → f (k, x) = false.
Proof.
  induction l as [|[k x] l IH]; cbn [existsb]; [split; [by intros _ k x H%not_elem_of_nil|done]|].
  rewrite orb_false_iff, IH. split.
  - intros [Hk Hl] k' x' [[= -> ->]|Hin]%elem_of_cons; [done|by apply Hl].
  - intros H. split; [apply H; left|intros k' x' Hin; apply H; by right].
Qed.

(** A delta has a value exactly when the counter is there afterwards, no series of it has
    vanished and none has decreased; then it is the sum of the increases. *)
Theorem counter_delta_value before after name v :
  de_value (counter_delta before after name) = Some v ↔
  named name after ≠ [] ∧
  (∀ k x, (k, x) ∈ named name before → is_Some (labels_get (named name after) k)) ∧
  (∀ k x, (k, x) ∈ named name after → SFltb x (default float_zero (labels_get (named name before) k)) = false) ∧
  v = float_sum ((λ kv, float_sub kv.2 (default float_zero (labels_get (named name before) kv.1))) <$> named name after).
Proof.
  destruct (decide (named name after = [])) as [E|E].
  { unfold counter_delta. rewrite E. split; [done|by intros [? _]]. }
  set (old := λ k, default float_zero (labels_get (named name before) k)).
  assert (Hd : de_value (counter_delta before after name) =
    if existsb (λ kv, SFltb kv.2 (old kv.1)) (named name after) ||
       existsb (λ kv, negb (bool_decide (is_Some (labels_get (named name after) kv.1)))) (named name before)
    then None else Some (float_sum ((λ kv, float_sub kv.2 (old kv.1)) <$> named name after))).
  { unfold counter_delta. by destruct (named name after). }
  rewrite Hd. clear Hd. change (default float_zero (labels_get (named name before) ?k)) with (old k).
  assert (Hres : existsb (λ kv, SFltb kv.2 (old kv.1)) (named name after) = false ↔
    ∀ k x, (k, x) ∈ named name after → SFltb x (old k) = false) by apply existsb_none.
  assert (Hmis : existsb (λ kv, negb (bool_decide (is_Some (labels_get (named name after) kv.1)))) (named name before) = false ↔
    ∀ k x, (k, x) ∈ named name before → negb (bool_decide (is_Some (labels_get (named name after) k))) = false) by apply existsb_none.
  destruct (existsb _ (named name after)); cbn [orb].
  { split; [done|]. intros (_ & _ & Hno & _). by apply Hres in Hno. }
  destruct (existsb _ (named name before)).
  { split; [done|]. intros (_ & Hno & _). assert (Hf : true = false); [|done]. apply Hmis. intros k x Hin.
    rewrite bool_decide_true; [done|by eapply Hno]. }
  split.
  - intros [= <-]. split_and!; [done| |by apply Hres|done]. intros k x Hin. destruct Hmis as [Hmis _].
    specialize (Hmis eq_refl k x Hin). by apply negb_false_iff, bool_decide_eq_true in Hmis.
  - intros (_ & _ & _ & ->). done.
Qed.
End delta.

(** * What is valid *)

Definition has_all (fields : list pystr) (d : pydict) : Prop := ∀ f, f ∈ fields → is_Some (dict_get d f).
Definition section_of (result : pydict) (s : pystr) (d : pydict) : Prop := dict_get result s = Some (VDict d).
(** A request of a run that does not stream. *)
Definition no_ttft (request : pyval) : Prop := ∃ d, request = VDict d ∧ get_none d "ttft_ms"%py = VNone.

(** The schema, as one would write it down. *)
Definition valid_result (result : pydict) : Prop :=
  py_eq (get_none result "schema_version"%py) (VInt 1) = true ∧
  has_all root_fields result ∧
  (∀ s fs, (s, fs) ∈ required_object_fields → ∃ d, section_of result s d ∧ has_all fs d) ∧
  (∀ s, s ∈ object_sections → ∃ d, section_of result s d) ∧
  ∃ configuration summary per_request mode,
    section_of result "configuration"%py configuration ∧ has_all configuration_fields configuration ∧
    get_none configuration "mode"%py = VStr mode ∧ mode ∈ ["streaming"; "non_streaming"]%py ∧
    dict_get result "per_request"%py = Some (VList per_request) ∧
    (mode = "non_streaming"%py → Forall no_ttft per_request) ∧
    (∃ digest, dict_get configuration "dataset_sha256"%py = Some digest ∧ hex_digest digest = true) ∧
    section_of result "summary"%py summary ∧
    (∀ n, as_int (get_none summary "attempted"%py) = inr n → n = Z.of_nat (length per_request)).

Lemma missing_nil before fields d : missing before fields d = [] ↔ has_all fields d.
Proof.
  unfold missing, has_all. induction fields as [|f fs IH]; cbn [omap list_omap].
  - split; [by intros _ f Hf%not_elem_of_nil|done].
  - unfold dict_has. destruct (dict_get d f) as [v|] eqn:Hf.
    + rewrite IH. split; [intros H g [->|Hg]%elem_of_cons; [by eexists|by apply H]|intros H g Hg; apply H; by right].
    + split; [done|]. intros H. destruct (H f ltac:(left)) as [v Hv]. congruence.
Qed.
Lemma bind_nil {A B} (f : A → list B) l : l ≫= f = [] ↔ ∀ x, x ∈ l → f x = [].
Proof.
  induction l as [|x l IH]; [split; [by intros _ x Hx%not_elem_of_nil|done]|]. rewrite bind_cons. split.
  - intros [Hx Hl]%app_eq_nil y [->|Hy]%elem_of_cons; [done|]. by apply IH.
  - intros H. rewrite (H x) by left. apply IH. intros y Hy. apply H. by right.
Qed.

Lemma app_empty {A} (l k : list A) : l = [] → k = [] → l ++ k = [].
Proof. by intros -> ->. Qed.

Lemma section_errors_nil result s fs : is_Some (dict_get result s) →
  section_errors result (s, fs) = [] ↔ ∃ d, section_of result s d ∧ has_all fs d.
Proof.
  intros [v Hv]. unfold section_errors, get_dict, section_of. cbn [fst snd]. rewrite Hv. cbn [from_option id].
  destruct v as [| | | | | |d]; cbv iota beta; try (split; [done|by intros (? & ? & _)]).
  rewrite missing_nil. naive_solver.
Qed.
Lemma object_errors_nil result s : is_Some (dict_get result s) → object_errors result s = [] ↔ ∃ d, section_of result s d.
Proof.
  intros [v Hv]. unfold object_errors, get_dict, section_of. rewrite Hv. cbn [from_option id].
  destruct v as [| | | | | |d]; cbn [is_dict]; split; try done; try (by intros [? ?]). by exists d.
Qed.
Lemma mode_invalid_ok mode : mode_invalid mode = inr false ↔ ∃ m, mode = VStr m ∧ m ∈ ["streaming"; "non_streaming"]%py.
Proof.
  unfold mode_invalid. destruct mode as [| | | |s| |]; cbn; try (split; [done|by intros (? & ? & _)]).
  split.
  - intros [= He%negb_false_iff]. apply orb_true_iff in He as [He|He]; apply bool_decide_eq_true in He; exists s; (split; [done|]); subst s; by apply (bool_decide_unpack _).
  - intros (m & [= ->] & Hm). by repeat (apply elem_of_cons in Hm as [->|Hm]; [done|]); apply not_elem_of_nil in Hm.
Qed.
Lemma ttft_errors_nil i l : ttft_errors i l = [] ↔ Forall no_ttft l.
Proof.
  revert i. induction l as [|r l IH]; intros i; cbn [ttft_errors]; [by split|]. rewrite Forall_cons, <- (IH (i + 1)). unfold no_ttft.
  split.
  - intros [Hr Hl]%app_eq_nil. split; [|done]. destruct r as [| | | | | |d]; try done. exists d. split; [done|].
    by destruct (get_none d "ttft_ms"%py).
  - intros [(d & -> & ->) ->]. done.
Qed.

Lemma document_errors_nil d : document_errors d = [] ↔
  py_eq (get_none d "schema_version"%py) (VInt 1) = true ∧ has_all root_fields d ∧
  (∀ s fs, (s, fs) ∈ required_object_fields → ∃ e, section_of d s e ∧ has_all fs e) ∧
  (∀ s, s ∈ object_sections → ∃ e, section_of d s e).
Proof.
  unfold document_errors. split.
  - intros [H1 [H2 [H3 H4]%app_eq_nil]%app_eq_nil]%app_eq_nil. apply missing_nil in H2.
    rewrite bind_nil in H3. rewrite bind_nil in H4. split_and!; [by destruct (py_eq _ _)|done|..].
    + intros s fs Hs. apply section_errors_nil; [|by apply H3]. apply H2. clear -Hs. revert Hs.
      unfold required_object_fields. rewrite !elem_of_cons, elem_of_nil. intros Hs. destruct_or!; simplify_eq; by apply (bool_decide_unpack _).
    + intros s Hs. apply object_errors_nil; [|by apply H4]. apply H2. clear -Hs. revert Hs.
      unfold object_sections. rewrite !elem_of_cons, elem_of_nil. intros Hs. destruct_or!; simplify_eq; by apply (bool_decide_unpack _).
  - intros (-> & H2 & H3 & H4). apply app_empty; [done|]. apply app_empty; [by apply missing_nil|].
    apply app_empty; apply bind_nil.
    + intros [s fs] Hs. destruct (H3 s fs Hs) as (e & He & Hf). apply section_errors_nil; [by eexists|by exists e].
    + intros s Hs. destruct (H4 s Hs) as (e & He). apply object_errors_nil; [by eexists|by exists e].
Qed.
Lemma configuration_errors_nil cfg invalid pr : configuration_errors cfg invalid pr = [] ↔
  has_all configuration_fields cfg ∧ invalid = false ∧
  (∃ l, pr = VList l ∧ (py_eq (get_none cfg "mode"%py) (VStr "non_streaming"%py) = true → Forall no_ttft l)) ∧
  hex_digest (default (VStr ""%py) (dict_get cfg "dataset_sha256"%py)) = true.
Proof.
  unfold configuration_errors. split.
  - intros [H1 [H2 [H3 [H4 H5]%app_eq_nil]%app_eq_nil]%app_eq_nil]%app_eq_nil. apply missing_nil in H1.
    split_and!; [done|by destruct invalid| |by destruct (hex_digest _)]. destruct pr as [| | | | |l|]; try done. exists l. split; [done|].
    intros Hm. rewrite Hm in H4. by apply ttft_errors_nil in H4.
  - intros (H1 & -> & (l & -> & Hl) & ->). apply app_empty; [by apply missing_nil|]. cbn [app].
    destruct (py_eq _ _); [|done]. rewrite (proj2 (ttft_errors_nil 0 l)) by auto. done.
Qed.
Lemma attempted_errors_nil summary l : attempted_errors summary (VList l) = [] ↔
  ∀ n, as_int (get_none summary "attempted"%py) = inr n → n = Z.of_nat (length l).
Proof.
  unfold attempted_errors. destruct (as_int _) as [e|n]; [by split|]. destruct (Z.eqb_spec n (Z.of_nat (length l))) as [->|Hne].
  - split; [by intros _ m [= <-]|done].
  - split; [done|]. intros H. by destruct Hne; apply H.
Qed.
Lemma get_dict_section d s e : is_Some (dict_get d s) → get_dict d s = VDict e ↔ section_of d s e.
Proof. intros [v Hv]. unfold get_dict, section_of. rewrite Hv. cbn [from_option id]. split; [by intros ->|by intros [= ->]]. Qed.

(** [validate] accepts exactly the documents of the schema. *)
Theorem validate_ok v : validate v = inr [] ↔ ∃ d, v = VDict d ∧ valid_result d.
Proof.
  assert (Hroot : ∀ d f, has_all root_fields d → f ∈ root_fields → is_Some (dict_get d f)) by auto.
  split.
  - destruct v as [| | | | | |d]; try done. intros Hd. exists d. split; [done|]. cbn [validate] in Hd. unfold validate_dict in Hd.
    destruct (get_dict d "configuration"%py) as [| | | | | |cfg] eqn:Hcfg; try (injection Hd as Hd; apply app_eq_nil in Hd as [_ Hd]; discriminate Hd).
    apply sum_bind_inr in Hd as (invalid & Hm & Hd).
    destruct (get_dict d "summary"%py) as [| | | | | |summary] eqn:Hsum; try (injection Hd as Hd; apply app_eq_nil in Hd as [_ Hd]; discriminate Hd).
    injection Hd as Hd. apply app_eq_nil in Hd as [Hd Hatt]. apply app_eq_nil in Hd as [Hdoc Hconf].
    apply document_errors_nil in Hdoc as (H1 & H2 & H3 & H4). apply configuration_errors_nil in Hconf as (H5 & -> & (l & Hl & Ht) & Hx).
    rewrite Hl in Hatt. pose proof (proj1 (attempted_errors_nil summary l) Hatt) as Hn. apply mode_invalid_ok in Hm as (m & Hm & Hin).
    destruct (H2 "per_request"%py) as [pr Hpr]; [by apply (bool_decide_unpack _)|]. rewrite Hpr in Hl. cbn [from_option id] in Hl. subst pr.
    destruct (H5 "dataset_sha256"%py) as [digest Hdig]; [by apply (bool_decide_unpack _)|]. rewrite Hdig in Hx. cbn [from_option id] in Hx.
    split_and!; try done. exists cfg, summary, l, m. split_and!; try done.
    + apply get_dict_section; [apply Hroot; [done|by apply (bool_decide_unpack _)]|done].
    + intros ->. apply Ht. by rewrite Hm.
    + by exists digest.
    + apply get_dict_section; [apply Hroot; [done|by apply (bool_decide_unpack _)]|done].
  - intros (d & -> & H1 & H2 & H3 & H4 & cfg & summary & l & m & Hc & H5 & Hm & Hin & Hpr & Ht & (digest & Hdig & Hx) & Hsum & Hatt).
    cbn [validate]. unfold validate_dict. rewrite (proj2 (get_dict_section _ _ _ (mk_is_Some _ _ Hc)) Hc).
    rewrite (proj2 (mode_invalid_ok _)) by by exists m. cbn [sum_bind].
    rewrite (proj2 (get_dict_section _ _ _ (mk_is_Some _ _ Hsum)) Hsum), Hpr. cbn [from_option id].
    rewrite (proj2 (document_errors_nil d)) by done. rewrite (proj2 (attempted_errors_nil summary l)) by done.
    rewrite (proj2 (configuration_errors_nil cfg false (VList l))); [done|]. split_and!; try done.
    + exists l. split; [done|]. rewrite Hm. cbn. intros Heq%bool_decide_eq_true. by apply Ht.
    + by rewrite Hdig.
Qed.

(** A mode that cannot be hashed is not reported: [validate] raises. *)
Theorem validate_raises d cfg : section_of d "configuration"%py cfg → hashable (get_none cfg "mode"%py) = false →
  validate (VDict d) = inl TypeError.
Proof.
  intros Hc Hm. cbn [validate]. unfold validate_dict. rewrite (proj2 (get_dict_section _ _ _ (mk_is_Some _ _ Hc)) Hc).
  unfold mode_invalid. by rewrite Hm.
Qed.

(** * What summarising does with it *)

(** A valid result has a row, with the columns of the file, when its optional batch metrics
    are an object and its reasons are strings. *)
Theorem valid_flattens d reasons : valid_result d →
  (py_truthy (optional (VDict d) ["metrics"; "batch"]%py) = true → is_dict (optional (VDict d) ["metrics"; "batch"]%py) = true) →
  (∀ e, section_of d "validity"%py e → get_none e "reasons"%py = VList (VStr <$> reasons)) →
  ∃ row, flatten (VDict d) = inr row ∧ row.*1 = CSV_FIELDS ∧ dict_get row "invalid_reasons"%py = Some (VStr (semicolons reasons)).
Proof.
  intros (_ & _ & H3 & _ & cfg & summary & l & m & Hcfg & H5 & Hm & _ & _ & _ & _ & Hsum & _) Hb Hr.
  assert (Hin : ∀ s fs, (s, fs) ∈ required_object_fields → ∃ e, dict_get d s = Some (VDict e) ∧ has_all fs e) by exact H3.
  destruct (Hin "metadata"%py _ ltac:(left)) as (md & Emd & Hmd).
  destruct (Hin "summary"%py _ ltac:(by do 3 right; left)) as (sm & Esm & Hsm).
  destruct (Hin "validity"%py _ ltac:(by do 4 right; left)) as (vd & Evd & Hvd).
  assert (Hget : ∀ e fs f, has_all fs e → bool_decide (f ∈ fs) = true → ∃ v, subscript (VDict e) f = inr v).
  { intros e fs f He Hf%bool_decide_eq_true. destruct (He f Hf) as [v Hv]. exists v. cbn. by rewrite Hv. }
  destruct (Hget _ _ "run_id"%py Hmd eq_refl) as [v1 E1]. destruct (Hget _ _ "repeat"%py Hmd eq_refl) as [v2 E2].
  destruct (Hget _ _ "label"%py Hmd eq_refl) as [v3 E3]. destruct (Hget _ _ "mode"%py H5 eq_refl) as [v4 E4].
  destruct (Hget _ _ "concurrency"%py H5 eq_refl) as [v5 E5]. destruct (Hget _ _ "attempted"%py Hsm eq_refl) as [v6 E6].
  destruct (Hget _ _ "successful"%py Hsm eq_refl) as [v7 E7]. destruct (Hget _ _ "error_rate"%py Hsm eq_refl) as [v8 E8].
  destruct (Hget _ _ "request_throughput_rps"%py Hsm eq_refl) as [v9 E9].
  assert (Hbatch : ∃ b, as_dict (if py_truthy (optional (VDict d) ["metrics"; "batch"]%py)
                                 then optional (VDict d) ["metrics"; "batch"]%py else VDict []) = inr b).
  { destruct (py_truthy _); [|by eexists]. specialize (Hb eq_refl). destruct (optional (VDict d) _); try done. by eexists. }
  destruct Hbatch as [b Eb].
  assert (Hs : ∀ s e, dict_get d s = Some (VDict e) → subscript (VDict d) s = inr (VDict e)) by (intros s e E; cbn; by rewrite E).
  assert (Hjoin : ∀ ss, join_strings (VStr <$> ss) = inr ss) by (induction ss as [|s ss IH]; [done|]; cbn in *; by rewrite IH).
  unfold flatten. rewrite (Hs _ _ Esm), (Hs _ _ Hcfg), (Hs _ _ Emd). cbn [sum_bind as_dict].
  rewrite E1, E2, E3, E4, E5, E6, E7, E8, E9. cbn [sum_bind as_dict]. rewrite Eb. cbn [sum_bind].
  unfold get_dict. rewrite Evd. cbn [from_option id as_dict sum_bind]. rewrite (Hr vd Evd).
  replace (if py_truthy (VList (VStr <$> reasons)) then items_of (VList (VStr <$> reasons)) else inr []) with
    (inr (VStr <$> reasons) : exn + list pyval) by by destruct reasons.
  cbn [sum_bind]. rewrite Hjoin. cbn [sum_bind]. by eexists.
Qed.

(** A result without a summary is invalid; but its errors are never reported, because
    making the rows of all results fails first. *)
Theorem invalid_aborts d errors before after :
  validate (VDict d) = inr errors → dict_get d "summary"%py = None →
  errors ≠ [] ∧ ∀ r, summary_rows (before ++ VDict d :: after) ≠ inr r.
Proof.
  intros Hv Hs. split.
  - intros ->. apply validate_ok in Hv as (e & [= <-] & _ & H2 & _). destruct (H2 "summary"%py); [by apply (bool_decide_unpack _)|congruence].
  - intros r (errs & _ & (rows & Hrows & _)%sum_bind_inr)%sum_bind_inr. revert rows Hrows.
    assert (Hf : ∀ row, flatten (VDict d) ≠ inr row) by (intros row; unfold flatten, subscript at 1; by rewrite Hs).
    induction before as [|x before IH]; intros rows; cbn [app flatten_all].
    + intros (row & Hrow & _)%sum_bind_inr. by apply Hf in Hrow.
    + intros (row & _ & (rest & Hrest & _)%sum_bind_inr)%sum_bind_inr. by apply IH in Hrest.
Qed.

(** ** Comparisons *)

Definition all_equal (l : list pyval) : Prop := match l with [] => True | x :: l => Forall (λ y, py_eq y x = true) l end.
Lemma distinct_one l : length (distinct [] l) = 1%nat → all_equal l.
Proof.
  destruct l as [|x l]; [done|]. cbn [distinct existsb all_equal]. intros [= Hl].
  assert (Hseen : ∀ l, length (distinct [x] l) = O → Forall (λ y, py_eq y x = true) l).
  { clear. induction l as [|y l IH]; intros Hl; constructor; cbn [distinct existsb] in Hl; rewrite orb_false_r in Hl;
      destruct (py_eq y x); try done. by apply IH. }
  by apply Hseen.
Qed.

Lemma arm_errors_nil arms : arm_errors arms = inr [] →
  Forall (λ a, (∃ v, get_in a.2 "validity"%py "valid"%py VNone = inr v ∧ py_truthy v = true) ∧
               ∃ n, get_in a.2 "summary"%py "attempted"%py (VInt 0) = inr n ∧ py_eq n (VInt 0) = false) arms.
Proof.
  induction arms as [|[label r] arms IH]; cbn [arm_errors]; [constructor|].
  intros (v & Hv & (n & Hn & (t & _ & (rest & Hrest & Hall)%sum_bind_inr)%sum_bind_inr)%sum_bind_inr)%sum_bind_inr.
  injection Hall as [H1 [H2 [_ ->]%app_eq_nil]%app_eq_nil]%app_eq_nil. constructor; [|by apply IH].
  split; [exists v; by destruct (py_truthy v)|exists n; by destruct (py_eq n _)].
Qed.
Lemma field_values_dicts f configs vs : field_values f configs = inr vs → Forall (λ c, ∃ d, c = VDict d) configs.
Proof.
  revert vs. induction configs as [|c configs IH]; intros vs; cbn [field_values]; [constructor|].
  intros (d & Hd & Hrest)%sum_bind_inr. destruct (negb _); [done|]. apply sum_bind_inr in Hrest as (rest & Hrest & _).
  constructor; [|by eapply IH]. destruct c; try done. by eexists.
Qed.
Lemma drift_nil fields configs : fields ≠ [] → drift_errors fields configs = inr [] →
  Forall (λ c, ∃ d, c = VDict d) configs ∧ ∀ f, f ∈ fields → ∃ vs, field_values f configs = inr vs ∧ all_equal vs.
Proof.
  intros Hne Hd. assert (Hall : ∀ f, f ∈ fields → ∃ vs, field_values f configs = inr vs ∧ all_equal vs).
  { clear Hne. induction fields as [|g fields IH]; [by intros f Hf%not_elem_of_nil|]. cbn [drift_errors] in Hd.
    apply sum_bind_inr in Hd as (vs & Hvs & (rest & Hrest & Hd)%sum_bind_inr). injection Hd as [H1 ->]%app_eq_nil.
    intros f [->|Hf]%elem_of_cons; [|by apply IH]. exists vs. split; [done|]. apply distinct_one.
    by destruct (Nat.eqb_spec (length (distinct [] vs)) 1). }
  split; [|done]. destruct fields as [|f fields]; [done|]. destruct (Hall f ltac:(left)) as (vs & Hvs & _). by eapply field_values_dicts.
Qed.
Lemma py_eq_string v t : py_eq v (VStr t) = true → v = VStr t.
Proof. destruct v; cbn [py_eq]; try done. by intros ->%bool_decide_eq_true. Qed.

(** Runs that are compared are the three arms; each of them is valid and measured
    something, their inputs agree, and the two runs of the gateway differ in batching only:
    they have the same known commit. *)
Theorem comparison_sound arms : comparison_errors arms = inr [] →
  (∀ l, l ∈ ARMS ↔ l ∈ arms.*1) ∧
  Forall (λ a, (∃ v, get_in a.2 "validity"%py "valid"%py VNone = inr v ∧ py_truthy v = true) ∧
               ∃ n, get_in a.2 "summary"%py "attempted"%py (VInt 0) = inr n ∧ py_eq n (VInt 0) = false) arms ∧
  ∃ c0 c1 c2, subscript (default VNone (dict_get arms "direct"%py)) "configuration"%py = inr (VDict c0) ∧
    subscript (default VNone (dict_get arms "gateway_no_batch"%py)) "configuration"%py = inr (VDict c1) ∧
    subscript (default VNone (dict_get arms "gateway_batch"%py)) "configuration"%py = inr (VDict c2) ∧
    (∀ f, f ∈ compared_fields → all_equal [get_none c0 f; get_none c1 f; get_none c2 f]) ∧
    get_none c1 "batching_enabled"%py = VStr "false"%py ∧ get_none c2 "batching_enabled"%py = VStr "true"%py ∧
    ∃ off_sha on_sha, get_in (default VNone (dict_get arms "gateway_no_batch"%py)) "environment"%py "gateway_git_sha"%py VNone = inr off_sha ∧
      get_in (default VNone (dict_get arms "gateway_batch"%py)) "environment"%py "gateway_git_sha"%py VNone = inr on_sha ∧
      py_truthy off_sha = true ∧ py_eq off_sha (VStr "unknown"%py) = false ∧ py_eq off_sha on_sha = true.
Proof.
  unfold comparison_errors. destruct (negb _) eqn:Hlabels; [done|]. apply negb_false_iff, andb_true_iff in Hlabels as [Hl1 Hl2].
  intros (errors & Harms & (c0 & E0 & (c1 & E1 & (c2 & E2 & (drift & Hdrift & (off_sha & Eoff & (on_sha & Eon & (off & Doff & (on & Don & Hall)
    %sum_bind_inr)%sum_bind_inr)%sum_bind_inr)%sum_bind_inr)%sum_bind_inr)%sum_bind_inr)%sum_bind_inr)%sum_bind_inr)%sum_bind_inr.
  injection Hall as [-> [-> [Hsha [Hoff Hon]%app_eq_nil]%app_eq_nil]%app_eq_nil]%app_eq_nil.
  destruct c1 as [| | | | | |c1]; try done. injection Doff as ->. destruct c2 as [| | | | | |c2]; try done. injection Don as ->.
  destruct (drift_nil compared_fields _ ltac:(discriminate) Hdrift) as [Hdicts Hfields]. apply Forall_inv in Hdicts as [c0' ->]. split_and!.
  - intros l. rewrite forallb_forall in Hl1, Hl2. split.
    + intros Hl%list_elem_of_In%Hl1. unfold dict_has in Hl. destruct (dict_get arms l) eqn:E; [|done].
      destruct (decide (l ∈ arms.*1)) as [|Hn]; [done|]. by apply dict_get_None in Hn; congruence.
    + intros ([l' r] & -> & Hlr)%list_elem_of_fmap. apply list_elem_of_In, Hl2 in Hlr. by apply bool_decide_eq_true in Hlr.
  - by apply arm_errors_nil.
  - exists c0', off, on. split_and!; try done.
    + intros f Hf. destruct (Hfields f Hf) as (vs & Hvs & Heq). cbn in Hvs.
      repeat (destruct (negb (hashable _)); [done|]; cbn [sum_bind] in Hvs). by injection Hvs as <-.
    + apply py_eq_string. by destruct (py_eq (get_none off _) _).
    + apply py_eq_string. by destruct (py_eq (get_none on _) _).
    + exists off_sha, on_sha. destruct (negb (py_truthy off_sha)) eqn:Ht, (py_eq off_sha (VStr "unknown"%py)) eqn:Hu,
        (py_eq off_sha on_sha) eqn:He; try done. apply negb_false_iff in Ht. done.
Qed.
