(* ===== verification/Conversions.v ===== *)
(** What the benchmark scripts use of Python's standard library: conversions of JSON values
    to [str], [int] and [float], [os.path.expandvars], POSIX paths as texts, and the
    quoting of shell words. *)
From Stdlib Require Import SpecFloat.
From S2P Require Import Prelude.
From S2P Require Import Python.
From S2P Require Import Errors.
From S2P Require Import Json.
From S2P Require Import Laboratory.

Definition OverflowError : exn := OtherException 4.

(** * str, int and float *)

Section conversions.
Context `{FloatRepr}.
(** [repr] of a list or dictionary, the digits of [int], and [float] of a text. *)
Variable container_repr : pyval → pystr.
Variable decimal : N → option Z.
Variable float_of_text : pystr → exn + spec_float.

Definition float_str (f : spec_float) : pystr :=
  match f with
  | S754_nan => "nan"%py
  | S754_infinity false => "inf"%py
  | S754_infinity true => "-inf"%py
  | f => PyStr (float_repr f)
  end.
(** [str(v)]. *)
Definition py_str (v : pyval) : pystr :=
  match v with
  | VNone => "None"%py
  | VBool b => if b then "True"%py else "False"%py
  | VInt z => py_str_int z
  | VFloat f => float_str f
  | VStr s => s
  | VList _ | VDict _ => container_repr v
  end.

(** [int(v)]: a float is cut towards zero. *)
Definition int_of_float (f : spec_float) : exn + Z :=
  match f with
  | S754_zero _ => inr 0
  | S754_nan => inl ValueError
  | S754_infinity _ => inl OverflowError
  | S754_finite s m e =>
      let n := if 0 <=? e then Z.pos m * 2 ^ e else Z.pos m / 2 ^ (- e) in inr (if s then - n else n)
  end.
Definition int_of (v : pyval) : exn + Z :=
  match v with
  | VBool b => inr (if b then 1 else 0)
  | VInt z => inr z
  | VFloat f => int_of_float f
  | VStr s => py_int decimal s
  | _ => inl TypeError
  end.

(** [float(v)]: an int is rounded to 53 bits. *)
Definition float_of_int (z : Z) : exn + spec_float :=
  match binary_normalize 53 1024 z 0 false with S754_infinity _ => inl OverflowError | f => inr f end.
Definition float_of (v : pyval) : exn + spec_float :=
  match v with
  | VBool b => float_of_int (if b then 1 else 0)
  | VInt z => float_of_int z
  | VFloat f => inr f
  | VStr s => float_of_text s
  | _ => inl TypeError
  end.
End conversions.

(** * os.path.expandvars *)

Definition word_char (c : N) : bool :=
  (digit_char c || ((65 <=? c) && (c <=? 90)) || ((97 <=? c) && (c <=? 122)) || (c =? 95))%N.

Fixpoint span_word (cs : list N) : list N * list N :=
  match cs with
  | c :: cs' => if word_char c then let '(w, r) := span_word cs' in (c :: w, r) else ([], cs)
  | [] => ([], [])
  end.
Fixpoint span_brace (cs : list N) : option (list N * list N) :=
  match cs with
  | [] => None
  | c :: cs => if (c =? 125)%N then Some ([], cs) else
               match span_brace cs with Some (w, r) => Some (c :: w, r) | None => None end
  end.
(** What follows a dollar sign: a variable, its text after the sign, and the rest. *)
Definition variable_at (cs : list N) : option (pystr * list N * list N) :=
  match cs with
  | [] => None
  | c :: cs' =>
      if (c =? 123)%N then
        match span_brace cs' with Some (w, r) => Some (PyStr w, 123%N :: w ++ [125%N], r) | None => None end
      else match span_word cs with ([], _) => None | (w, r) => Some (PyStr w, w, r) end
  end.

Section expandvars.
Variable environ : pystr → option pystr.

(** Unknown variables stay, and values are not expanded again; every turn takes a
    character. *)
Fixpoint expand_codes (fuel : nat) (cs : list N) : list N :=
  match fuel, cs with
  | S fuel, c :: cs =>
      if (c =? 36)%N then
        match variable_at cs with
        | Some (name, text, r) =>
            match environ name with Some v => codes v | None => 36%N :: text end ++ expand_codes fuel r
        | None => 36%N :: expand_codes fuel cs
        end
      else c :: expand_codes fuel cs
  | _, _ => []
  end.
Definition expandvars (s : pystr) : pystr := PyStr (expand_codes (length (codes s)) (codes s)).
End expandvars.

(** * Paths *)

Fixpoint join_codes (sep : N) (ls : list (list N)) : list N :=
  match ls with [] => [] | [l] => l | l :: ls => l ++ sep :: join_codes sep ls end.
Definition is_absolute (s : pystr) : bool := match codes s with 47%N :: _ => true | _ => false end.
(** The root of a path, two leading slashes being kept, and its parts, without empty and
    single-dot ones. *)
Definition path_root (cs : list N) : list N :=
  match cs with
  | 47%N :: 47%N :: 47%N :: _ => [47%N]
  | 47%N :: 47%N :: _ => [47%N; 47%N]
  | 47%N :: _ => [47%N]
  | _ => []
  end.
Definition path_parts (cs : list N) : list (list N) := filter (λ p, p ≠ [] ∧ p ≠ [46%N]) (split_on 47 cs).
Definition path_of (root : list N) (parts : list (list N)) : pystr :=
  match root ++ join_codes 47 parts with [] => "."%py | cs => PyStr cs end.
(** [str(Path(s))], [a / b] and [path.parent]. *)
Definition path_text (s : pystr) : pystr := path_of (path_root (codes s)) (path_parts (codes s)).
Definition path_join (a b : pystr) : pystr :=
  if is_absolute b then path_text b else path_text (PyStr (codes a ++ 47%N :: codes b)).
Definition path_parent (p : pystr) : pystr := path_of (path_root (codes p)) (removelast (path_parts (codes p))).

(** * shlex *)

Definition shell_safe (c : N) : bool :=
  (word_char c || existsb (N.eqb c) [64; 37; 43; 61; 58; 44; 46; 47; 45])%N.
Definition shell_quote (s : pystr) : list N :=
  match codes s with
  | [] => [39; 39]%N
  | cs => if forallb shell_safe cs then cs
          else (39%N :: (cs ≫= λ c, if (c =? 39)%N then [39; 34; 39; 34; 39]%N else [c])) ++ [39%N]
  end.
Definition shell_join (command : list pystr) : pystr := PyStr (join_codes 32 (shell_quote <$> command)).

(** * Laws *)

Lemma span_word_length cs : (length (span_word cs).2 + length (span_word cs).1 = length cs)%nat.
Proof. induction cs as [|c cs IH]; simpl; [done|]. destruct (word_char c); [|simpl; lia]. destruct (span_word cs). simpl in *. lia. Qed.
Lemma span_brace_length cs w r : span_brace cs = Some (w, r) → (length r < length cs)%nat.
Proof.
  revert w. induction cs as [|c cs IH]; intros w; simpl; [done|]. destruct (c =? 125)%N; [intros [= _ <-]; lia|].
  destruct (span_brace cs) as [[w' r']|]; [|done]. intros [= _ <-]. specialize (IH _ eq_refl). lia.
Qed.
Lemma variable_at_length cs name text r : variable_at cs = Some (name, text, r) → (length r < length cs)%nat.
Proof.
  unfold variable_at. destruct cs as [|c cs]; [done|]. destruct (c =? 123)%N.
  - destruct (span_brace cs) as [[w r']|] eqn:Hs; [|done]. intros [= _ _ <-]. apply span_brace_length in Hs. simpl. lia.
  - pose proof (span_word_length (c :: cs)) as Hl. destruct (span_word (c :: cs)) as [[|x w] r']; [done|].
    intros [= _ _ <-]. simpl in *. lia.
Qed.

(** Expanding needs a turn for each character only. *)
Lemma expand_codes_fuel environ fuel fuel' cs :
  (length cs ≤ fuel)%nat → (length cs ≤ fuel')%nat → expand_codes environ fuel cs = expand_codes environ fuel' cs.
Proof.
  revert fuel' cs. induction fuel as [|fuel IH]; intros fuel' [|c cs] H1 H2; simpl in H1; try lia.
  - by destruct fuel'.
  - by destruct fuel'.
  - destruct fuel' as [|fuel']; simpl in H2; [lia|]. cbn [expand_codes]. destruct (c =? 36)%N; [|f_equal; apply IH; lia].
    destruct (variable_at cs) as [[[name text] r]|] eqn:Hv; [|f_equal; apply IH; lia].
    f_equal. apply variable_at_length in Hv. apply IH; lia.
Qed.

(** A text without a dollar sign stays. *)
Lemma expandvars_plain environ s : 36%N ∉ codes s → expandvars environ s = s.
Proof.
  destruct s as [cs]. unfold expandvars. cbn [codes]. intros Hn. f_equal. induction cs as [|c cs IH]; [done|].
  apply not_elem_of_cons in Hn as [Hc Hn]. cbn [length expand_codes]. rewrite (proj2 (N.eqb_neq c 36)) by congruence.
  f_equal. by apply IH.
Qed.

Example expandvars_braced :
  expandvars (λ n, if decide (n = "HOST"%py) then Some "gateway:8000"%py else None) "http://${HOST}/$PATH/v1"%py =
    "http://gateway:8000/$PATH/v1"%py.
Proof. vm_compute. reflexivity. Qed.
Example path_join_normal :
  path_join "/srv/bench"%py "./configs//a.json"%py = "/srv/bench/configs/a.json"%py ∧
  path_join "/srv/bench"%py "/etc/a"%py = "/etc/a"%py ∧ path_parent "/srv/bench/a.json"%py = "/srv/bench"%py ∧
  path_parent "out/m/a.json"%py = "out/m"%py.
Proof. vm_compute. done. Qed.
Example shell_join_quotes : shell_join ["go"; "run"; "a b"; "it's"]%py = PyStr (codes "go run 'a b' 'it'"%py ++ [34; 39; 34]%N ++ codes "'s'"%py).
Proof. vm_compute. reflexivity. Qed.
