(* ===== verification/Matrix.v ===== *)
(** benchmark/scripts/run_matrix.py: expanding and checking a matrix of benchmark runs, the
    command and fingerprint of every run, which results count as completed, and running
    the matrix over a file system and the benchmark program, which are parameters. *)
From Stdlib Require Import SpecFloat.
From S2P Require Import Prelude.
From S2P Require Import Python.
From S2P Require Import Errors.
From S2P Require Import Json.
From S2P Require Import JsonLoads.
From S2P Require Import Chat.
From S2P Require Import Vllm.
From S2P Require Import Topology.
From S2P Require Import Laboratory.
From S2P Require Import Results.
From S2P Require Import Conversions.

(** * The configuration *)

Section expand.
Variable environ : pystr → option pystr.

(** [sub in s] for a text of two characters. *)
Fixpoint has_pair (x y : N) (cs : list N) : bool :=
  match cs with
  | [] => false
  | c :: cs => ((c =? x)%N && match cs with d :: _ => (d =? y)%N | [] => false end) || has_pair x y cs
  end.
Definition unresolved (s : pystr) : bool := has_pair 36 123 (codes s).

(** [expand]: the values of dictionaries, the items of lists, and texts. *)
Fixpoint expand (v : pyval) : exn + pyval :=
  match v with
  | VStr s => let s := expandvars environ s in if unresolved s then inl ValueError else inr (VStr s)
  | VList l =>
      let? l := (fix items l := match l with
                                | [] => inr []
                                | v :: l => let? v := expand v in let? l := items l in inr (v :: l)
                                end) l in
      inr (VList l)
  | VDict d =>
      let? d := (fix fields d := match d with
                                 | [] => inr []
                                 | (k, v) :: d => let? v := expand v in let? d := fields d in inr ((k, v) :: d)
                                 end) d in
      inr (VDict d)
  | v => inr v
  end.
End expand.

(** [d.get(k, v)] and [d[k]]. *)
Definition get_or (d : pydict) (k : pystr) (v : pyval) : pyval := default v (dict_get d k).
Definition config_item (d : pydict) (k : pystr) : exn + pyval := subscript (VDict d) k.

Definition is_none (v : pyval) : bool := match v with VNone => true | _ => false end.

(** The files, by path. *)
Abbreviation files := (gmap pystr pystr).

(** * The plan of a run *)

(** [RunCoordinate]. *)
Record run_coordinate := RunCoordinate {
  rc_run_id : pystr;
  rc_label : pystr;
  rc_mode : pystr;
  rc_concurrency : Z;
  rc_repeat : Z;
  rc_execution_order : Z;
  rc_requests : Z;
}.
(** [asdict]. *)
Definition coordinate_dict (c : run_coordinate) : pydict :=
  [("run_id", VStr (rc_run_id c)); ("label", VStr (rc_label c)); ("mode", VStr (rc_mode c));
   ("concurrency", VInt (rc_concurrency c)); ("repeat", VInt (rc_repeat c));
   ("execution_order", VInt (rc_execution_order c)); ("requests", VInt (rc_requests c))]%py.

Definition rotated {A} (targets : list A) (repeat : Z) : list A :=
  let offset := Z.to_nat ((repeat - 1) mod Z.of_nat (length targets)) in drop offset targets ++ take offset targets.

(** [MATRIX_ID_PATTERN] of the whole text, without two dots in a row, and no single dot. *)
Definition id_char (c : N) : bool :=
  (digit_char c || ((65 <=? c) && (c <=? 90)) || ((97 <=? c) && (c <=? 122)) || (c =? 46) || (c =? 95) || (c =? 45))%N.
Definition matrix_id_ok (s : pystr) : bool :=
  str_truthy s && forallb id_char (codes s) && negb (has_pair 46 46 (codes s)) && negb (bool_decide (s = "."%py)).

(** [resolve_matrix_id]; [now] is the current time as it writes it. *)
Definition resolve_matrix_id (config_id : pyval) (cli_id : option pystr) (resume : bool) (now : pystr) : exn + pystr :=
  let differs := match cli_id, config_id with
                 | Some _, VNone | None, _ => false
                 | Some c, v => negb (py_eq (VStr c) v)
                 end in
  if differs then inl ValueError else
  let matrix_id := match cli_id with Some c => VStr c | None => config_id end in
  let? matrix_id := match matrix_id with
                    | VNone => if resume then inl ValueError else inr (VStr now)
                    | v => inr v
                    end in
  match matrix_id with
  | VStr s => if matrix_id_ok s then inr s else inl ValueError
  | _ => inl ValueError
  end.

Section plan.
Context `{FloatText}.
Variable container_repr : pyval → pystr.
Variable decimal : N → option Z.
Variable float_of_text : pystr → exn + spec_float.
(** [BENCHMARK_ROOT]; the contents digests of files, and of texts; the recursion limit. *)
Variable root : pystr.
Variable sha256_file : pystr → exn + pystr.
Variable sha256 : list N → pystr.
Variable depth : nat.
Abbreviation str := (py_str container_repr).
Abbreviation int := (int_of decimal).

Definition validate_admission (target : pydict) : exn + unit :=
  if negb (bool_decide (str (get_or target "batching_enabled"%py (VStr "not_applicable"%py)) = "true"%py)) then inr () else
  let? size := int (get_or target "batch_max_size"%py (VInt 0)) in
  let? tenant := int (get_or target "tenant_max_inflight"%py (VInt 0)) in
  let? global_limit := int (get_or target "global_max_inflight"%py (VInt 0)) in
  if (size <? 2) || (tenant <? size) || (global_limit <? size) then inl ValueError else inr ().

(** [load_config] on the text of the file. *)
Definition matrix_fields : list pystr := ["model"; "dataset"; "targets"; "concurrency"; "repetitions"]%py.
Definition load_config (environ : pystr → option pystr) (file : exn + pystr) : exn + pydict :=
  let? text := file in
  let? document := match loads float_parse depth text with inl e => inl (json_exn e) | inr v => inr v end in
  let? config := expand environ document in
  let? config := as_dict config in
  if negb (py_eq (get_none config "schema_version"%py) (VInt 1)) then inl ValueError else
  if negb (forallb (dict_has config) matrix_fields) then inl ValueError else
  let? targets := config_item config "targets"%py in
  let? targets := items_of targets in
  let? targets := map_exn as_dict targets in
  let labels := (λ t, get_none t "label"%py) <$> targets in
  let? distinct_labels := py_set (VList labels) in
  if negb (length labels =? length distinct_labels)%nat || existsb (λ l, negb (py_truthy l)) labels then inl ValueError else
  do? map_exn validate_admission targets in
  inr config.

Definition requests_for (config : pydict) (concurrency : Z) : exn + Z :=
  let configured := get_or config "requests"%py (VStr "auto"%py) in
  if py_eq configured (VStr "auto"%py) then inr (Z.max 200 (concurrency * 20)) else int configured.

Definition resolve_path (value : pystr) : pystr := path_join root value.

Definition add_optional (command : list pystr) (flag : pystr) (value : pyval) : list pystr :=
  match value with
  | VNone => command
  | _ => if py_eq value (VStr ""%py) then command else command ++ [flag; str value]
  end.

(** The options of the target or else of the configuration, and those of the configuration. *)
Definition target_flags : list (pystr * pystr) :=
  [("--gateway-metrics-url", "gateway_metrics_url"); ("--vllm-metrics-url", "vllm_metrics_url");
   ("--output-token-counter", "output_token_counter"); ("--batch-max-size", "batch_max_size");
   ("--batch-max-wait-seconds", "batch_max_wait_seconds"); ("--tenant-max-inflight", "tenant_max_inflight");
   ("--global-max-inflight", "global_max_inflight"); ("--gateway-git-sha", "gateway_git_sha")]%py.
Definition config_flags : list (pystr * pystr) :=
  [("--sample-interval", "sample_interval"); ("--gpu-sample-interval", "gpu_sample_interval");
   ("--vllm-config", "vllm_config"); ("--environment", "environment")]%py.
Definition config_flag_value (config : pydict) (key : pystr) : pyval :=
  let value := get_none config key in
  if bool_decide (key = "vllm_config"%py ∨ key = "environment"%py) && py_truthy value
  then VStr (resolve_path (str value)) else value.

Definition build_command (config target : pydict) (mode : pystr) (concurrency repeat order : Z) (output run_id : pystr)
    : exn + list pystr :=
  let generation := get_dict config "generation"%py in
  let? base_url := config_item target "base_url"%py in
  let? model := config_item config "model"%py in
  let? dataset := config_item config "dataset"%py in
  let? requests := requests_for config concurrency in
  let? label := config_item target "label"%py in
  let? generation := as_dict generation in
  let command :=
    ["go"; "run"; "./cmd/gateway-bench"; "--base-url"; str base_url;
     "--endpoint"; str (get_or config "endpoint" (VStr "/v1/chat/completions"));
     "--model"; str model; "--dataset"; resolve_path (str dataset); "--mode"; mode;
     "--concurrency"; py_str_int concurrency; "--requests"; py_str_int requests;
     "--warmup"; str (get_or config "warmup" (VInt 20)); "--timeout"; str (get_or config "timeout" (VStr "120s"));
     "--label"; str label; "--output"; output;
     "--temperature"; str (get_or generation "temperature" (VInt 0)); "--top-p"; str (get_or generation "top_p" (VInt 1));
     "--max-tokens"; str (get_or generation "max_tokens" (VInt 128)); "--seed"; str (get_or generation "seed" (VInt 1));
     "--run-id"; run_id; "--repeat"; py_str_int repeat; "--execution-order"; py_str_int order;
     "--batching-enabled"; str (get_or target "batching_enabled" (VStr "not_applicable"));
     "--prefix-caching"; str (get_or config "prefix_caching" (VStr "unknown"));
     "--vllm-version"; str (get_or config "vllm_version" (VStr "unknown"))]%py in
  let command := foldl (λ c fk, add_optional c fk.1 (get_or target fk.2 (get_none config fk.2))) command target_flags in
  let command := foldl (λ c fk, add_optional c fk.1 (config_flag_value config fk.2)) command config_flags in
  let gateway_config := get_none target "gateway_config"%py in
  inr (if py_truthy gateway_config
       then add_optional command "--gateway-config"%py (VStr (resolve_path (str gateway_config))) else command).

(** [referenced_input_hashes]: of the files that are named. *)
Definition references (config target : pydict) : list (pystr * pyval) :=
  [("dataset", get_none config "dataset"); ("environment", get_none config "environment");
   ("gateway_config", get_none target "gateway_config"); ("vllm_config", get_none config "vllm_config")]%py.
Definition referenced_input_hashes (config target : pydict) : exn + list (pystr * pystr) :=
  map_exn (λ nv, let? h := sha256_file (resolve_path (str nv.2)) in inr (nv.1, h))
    (filter (λ nv, py_truthy nv.2 = true) (references config target)).

(** [resume_plan_sha256]. *)
Definition plan_dict (command : list pystr) (expected : run_coordinate) (input_hashes : list (pystr * pystr))
    (credential_env_name : pyval) : pydict :=
  [("schema_version", VInt 1); ("command", VList (VStr <$> command)); ("coordinate", VDict (coordinate_dict expected));
   ("input_sha256", VDict (prod_map id VStr <$> input_hashes)); ("credential_env_name", credential_env_name)]%py.
Definition plan_text (command : list pystr) (expected : run_coordinate) (input_hashes : list (pystr * pystr))
    (credential_env_name : pyval) : list N :=
  json_text [44%N] [58%N] json_ascii_string (sort_keys (VDict (plan_dict command expected input_hashes credential_env_name))).
Definition resume_plan_sha256 (command : list pystr) (expected : run_coordinate) (input_hashes : list (pystr * pystr))
    (credential_env_name : pyval) : pystr :=
  sha256 (plan_text command expected input_hashes credential_env_name).

(** [planned_result_configuration]. *)
Definition converted : list (pystr * (pyval → exn + pyval)) :=
  let as_int v := let? n := int v in inr (VInt n) in
  let as_float v := let? f := float_of float_of_text v in inr (VFloat f) in
  [("batch_max_size", as_int); ("batch_max_wait_seconds", as_float); ("tenant_max_inflight", as_int);
   ("global_max_inflight", as_int)]%py.
Fixpoint add_converted (config target : pydict) (fields : list (pystr * (pyval → exn + pyval))) (expected : pydict) : exn + pydict :=
  match fields with
  | [] => inr expected
  | (field, convert) :: fields =>
      let value := get_or target field (get_none config field) in
      let? expected := (if negb (is_none value) && negb (py_eq value (VStr ""%py))
                        then let? v := convert value in inr (dict_set expected field v) else inr expected) in
      add_converted config target fields expected
  end.
Definition planned_result_configuration (config target : pydict) (mode : pystr) (concurrency : Z)
    (input_hashes : list (pystr * pystr)) : exn + pydict :=
  let generation := get_dict config "generation"%py in
  let? base_url := config_item target "base_url"%py in
  let? model := config_item config "model"%py in
  let? requests := requests_for config concurrency in
  let? warmup := int (get_or config "warmup"%py (VInt 20)) in
  let? dataset := config_item (prod_map id VStr <$> input_hashes) "dataset"%py in
  let? generation := as_dict generation in
  let? max_tokens := int (get_or generation "max_tokens"%py (VInt 128)) in
  let? seed := int (get_or generation "seed"%py (VInt 1)) in
  let streaming := VBool (bool_decide (mode = "streaming"%py)) in
  add_converted config target converted
    [("base_url", VStr (str base_url)); ("endpoint", VStr (str (get_or config "endpoint" (VStr "/v1/chat/completions"))));
     ("model", VStr (str model)); ("mode", VStr mode); ("concurrency", VInt concurrency); ("requests", VInt requests);
     ("warmup", VInt warmup); ("dataset_sha256", dataset); ("temperature", get_or generation "temperature" (VInt 0));
     ("top_p", get_or generation "top_p" (VInt 1)); ("max_tokens", VInt max_tokens); ("seed", VInt seed); ("n", VInt 1);
     ("stream", streaming); ("stream_include_usage", streaming);
     ("batching_enabled", VStr (str (get_or target "batching_enabled" (VStr "not_applicable"))));
     ("prefix_caching", VStr (str (get_or config "prefix_caching" (VStr "unknown"))))]%py.

(** ** A completed run *)

Definition optional_json (text : pystr) : exn + option pyval :=
  match loads float_parse depth text with
  | inr v => inr (Some v)
  | inl JSONDecodeError => inr None
  | inl e => inl (json_exn e)
  end.
(** The comparison of the values, the sections being objects as [validate] demands. *)
Definition same (d : pydict) (k : pystr) (v : pyval) : bool := py_eq (get_none d k) v.
Definition matches (expected : run_coordinate) (expected_configuration : pydict) (command : list pystr) (plan : pystr)
    (process metadata configuration summary validity : pydict) (per_request : pyval) : bool :=
  same process "exit_code"%py (VInt 0) && same process "command"%py (VList (VStr <$> command)) &&
  same process "resume_plan_sha256"%py (VStr plan) &&
  same metadata "run_id"%py (VStr (rc_run_id expected)) && same metadata "label"%py (VStr (rc_label expected)) &&
  same metadata "repeat"%py (VInt (rc_repeat expected)) &&
  same metadata "execution_order"%py (VInt (rc_execution_order expected)) &&
  same configuration "mode"%py (VStr (rc_mode expected)) &&
  same configuration "concurrency"%py (VInt (rc_concurrency expected)) &&
  same configuration "requests"%py (VInt (rc_requests expected)) &&
  forallb (λ fv, same configuration fv.1 fv.2) expected_configuration &&
  same summary "attempted"%py (VInt (rc_requests expected)) && same summary "successful"%py (VInt (rc_requests expected)) &&
  same summary "failed"%py (VInt 0) &&
  match per_request with VList l => Z.of_nat (length l) =? rc_requests expected | _ => false end &&
  match get_none validity "valid"%py with VBool b => b | _ => false end.

Definition process_path (output : pystr) : pystr := path_join (path_parent output) "process.json"%py.
Definition completed_run (fs : files) (output : pystr) (command : list pystr) (expected : run_coordinate)
    (expected_configuration : pydict) (plan : pystr) : exn + bool :=
  match fs !! output, fs !! process_path output with
  | Some result_text, Some process_text =>
      let? result := optional_json result_text in
      match result with
      | None => inr false
      | Some result =>
          let? process := optional_json process_text in
          match result, process with
          | VDict d, Some (VDict process) =>
              let? errors := validate (VDict d) in
              if bool_decide (errors ≠ []) then inr false else
              let? metadata := as_dict (get_dict d "metadata"%py) in
              let? configuration := as_dict (get_dict d "configuration"%py) in
              let? summary := as_dict (get_dict d "summary"%py) in
              let? validity := as_dict (get_dict d "validity"%py) in
              inr (matches expected expected_configuration command plan process metadata configuration summary validity
                     (get_or d "per_request"%py (VList [])))
          | _, _ => inr false
          end
      end
  | _, _ => inr false
  end.
End plan.

(** * What is guaranteed *)

(** ** Expansion *)

(** No text of the value, at any depth, satisfies [p]; keys do not count. *)
Fixpoint texts (p : pystr → Prop) (v : pyval) : Prop :=
  match v with
  | VStr s => p s
  | VList l => fold_right (λ v P, texts p v ∧ P) True l
  | VDict d => fold_right (λ kv P, texts p kv.2 ∧ P) True d
  | _ => True
  end.

(** What [expand] returns has no braced variable left in any of its texts. *)
Theorem expand_resolved environ v w : expand environ v = inr w → texts (λ s, unresolved s = false) w.
Proof.
  revert w. induction v as [| | | |s|l IH|d IH] using pyval_ind'; intros w; cbn [expand]; try by intros [= <-].
  - destruct (unresolved _) eqn:Hu; [done|]. by intros [= <-].
  - intros (l' & Hl & [= <-])%sum_bind_inr. cbn [texts]. revert l' Hl.
    induction IH as [|v l Hv _ IHl]; intros l'; [by intros [= <-]|].
    intros (v' & Ev & (rest & Er & [= <-])%sum_bind_inr)%sum_bind_inr. split; [by apply Hv|by apply IHl].
  - intros (d' & Hd & [= <-])%sum_bind_inr. cbn [texts]. revert d' Hd.
    induction IH as [|[k v] d Hv _ IHd]; intros d'; [by intros [= <-]|].
    intros (v' & Ev & (rest & Er & [= <-])%sum_bind_inr)%sum_bind_inr. split; [by apply Hv|by apply IHd].
Qed.

(** A value without dollar signs is what [expand] makes of it. *)
Theorem expand_plain environ v : texts (λ s, 36%N ∉ codes s) v → expand environ v = inr v.
Proof.
  assert (Hun : ∀ s, 36%N ∉ codes s → unresolved s = false).
  { intros [cs]. unfold unresolved. cbn [codes]. induction cs as [|c cs IH]; [done|]. intros [Hc Hn]%not_elem_of_cons.
    cbn [has_pair]. rewrite (proj2 (N.eqb_neq c 36)) by congruence. by apply IH. }
  induction v as [| | | |s|l IH|d IH] using pyval_ind'; intros Hv; try done; cbn [expand texts] in *.
  - rewrite expandvars_plain by done. by rewrite (Hun s Hv).
  - assert (Hl : (fix items l := match l with [] => inr [] | v :: l => let? v := expand environ v in let? l := items l in inr (v :: l) end) l
                 = inr l); [|by rewrite Hl].
    induction IH as [|v l Hv' _ IHl]; [done|]. destruct Hv as [H1 H2]. rewrite (Hv' H1). cbn [sum_bind]. by rewrite (IHl H2).
  - assert (Hd : (fix fields d := match d with [] => inr [] | (k, v) :: d => let? v := expand environ v in let? d := fields d in inr ((k, v) :: d) end) d
                 = inr d); [|by rewrite Hd].
    induction IH as [|[k v] d Hv' _ IHd]; [done|]. destruct Hv as [H1 H2]. cbn [snd] in *. rewrite (Hv' H1). cbn [sum_bind]. by rewrite (IHd H2).
Qed.

(** ** The configuration *)


Section configuration.
Context `{FloatText}.
Variable container_repr : pyval → pystr.
Variable decimal : N → option Z.
Abbreviation str := (py_str container_repr).
Abbreviation int := (int_of decimal).

(** The limits of admission must let a whole batch in. *)
Definition admission_fits (target : pydict) : Prop :=
  str (get_or target "batching_enabled"%py (VStr "not_applicable"%py)) = "true"%py →
  ∃ size tenant global_limit,
    int (get_or target "batch_max_size"%py (VInt 0)) = inr size ∧
    int (get_or target "tenant_max_inflight"%py (VInt 0)) = inr tenant ∧
    int (get_or target "global_max_inflight"%py (VInt 0)) = inr global_limit ∧
    2 ≤ size ≤ tenant ∧ size ≤ global_limit.
Lemma validate_admission_ok target u : validate_admission container_repr decimal target = inr u ↔ admission_fits target.
Proof.
  unfold validate_admission, admission_fits. case_bool_decide as Hs; cbn [negb]; [|destruct u; by split].
  split.
  - intros (size & E1 & (tenant & E2 & (gl & E3 & Hc)%sum_bind_inr)%sum_bind_inr)%sum_bind_inr _.
    destruct (_ || _ || _) eqn:Hb; [done|]. rewrite !orb_false_iff, !Z.ltb_ge in Hb. exists size, tenant, gl. split_and!; (done || lia).
  - intros Hf. destruct (Hf Hs) as (size & tenant & gl & -> & -> & -> & H1 & H2). cbn [sum_bind].
    destruct (_ || _ || _) eqn:Hb; [|by destruct u]. rewrite !orb_true_iff, !Z.ltb_lt in Hb. lia.
Qed.

(** An accepted configuration has the supported schema and all required fields, no
    unresolved variable, and targets with pairwise different labels whose admission
    limits fit their batches. *)
Theorem load_config_sound depth environ file config :
  load_config container_repr decimal depth environ file = inr config →
  py_eq (get_none config "schema_version"%py) (VInt 1) = true ∧
  (∀ f, f ∈ matrix_fields → is_Some (dict_get config f)) ∧
  texts (λ s, unresolved s = false) (VDict config) ∧
  ∃ v targets, dict_get config "targets"%py = Some v ∧ items_of v = inr (VDict <$> targets) ∧ Forall admission_fits targets ∧
    let labels := (λ t, get_none t "label"%py) <$> targets in
    Forall (λ l, py_truthy l = true ∧ hashable l = true) labels ∧ length (distinct [] labels) = length labels.
Proof.
  intros (text & _ & (doc & _ & (w & Hw & (c & Hc & Hr)%sum_bind_inr)%sum_bind_inr)%sum_bind_inr)%sum_bind_inr.
  destruct w as [| | | | | |d]; try done. injection Hc as <-. apply expand_resolved in Hw.
  destruct (py_eq _ _) eqn:Hschema; [|done]. destruct (forallb _ _) eqn:Hfields; [|done]. cbn [negb] in Hr.
  apply sum_bind_inr in Hr as (v & Hv & (items & Hi & (targets & Ht & (dl & Hdl & Hr)%sum_bind_inr)%sum_bind_inr)%sum_bind_inr).
  destruct (_ || _) eqn:Hlab; [done|]. apply orb_false_iff in Hlab as [Hlen Htruthy].
  apply sum_bind_inr in Hr as (us & Hus & [= <-]). split_and!; try done.
  { intros f Hf%list_elem_of_In. rewrite forallb_forall in Hfields. apply Hfields in Hf. unfold dict_has in Hf.
    destruct (dict_get d f); [by eexists|done]. }
  unfold config_item, subscript in Hv. destruct (dict_get d "targets"%py) as [v'|] eqn:Hget; [|done]. injection Hv as ->.
  exists v, targets. split; [done|]. unfold py_set in Hdl. cbn [items_of sum_bind] in Hdl.
  destruct (forallb hashable _) eqn:Hh; [|done]. injection Hdl as <-. cbv zeta. split_and!.
  - rewrite Hi. f_equal. apply map_exn_inr in Ht. clear -Ht. induction Ht as [|x y l k Hxy _ IH]; [done|].
    destruct x; try done. injection Hxy as ->. cbn. by rewrite IH.
  - apply map_exn_inr in Hus. clear -Hus. induction Hus as [|t u l k Htu _ IH]; constructor; [|done].
    by eapply validate_admission_ok.
  - apply Forall_forall. intros l Hl%list_elem_of_In. split; [|by rewrite forallb_forall in Hh; apply Hh].
    destruct (py_truthy l) eqn:Hp; [done|]. exfalso. apply not_true_iff_false in Htruthy. apply Htruthy, existsb_exists.
    exists l. by rewrite Hp.
  - apply negb_false_iff, Nat.eqb_eq in Hlen. done.
Qed.

(** A boolean is not the text the check looks for: batching that is enabled with the JSON
    value true is accepted whatever the limits are. *)
Theorem boolean_batching_unchecked target :
  dict_get target "batching_enabled"%py = Some (VBool true) → validate_admission container_repr decimal target = inr ().
Proof. intros Hb. unfold validate_admission, get_or. by rewrite Hb. Qed.
End configuration.

(** ** The order of the targets *)

Lemma rotated_Permutation {A} (l : list A) repeat : rotated l repeat ≡ₚ l.
Proof. unfold rotated. rewrite Permutation_app_comm. by rewrite take_drop. Qed.

Lemma rotated_lookup {A} (l : list A) repeat k : (k < length l)%nat →
  rotated l repeat !! k = l !! Z.to_nat ((Z.of_nat k + (repeat - 1)) mod Z.of_nat (length l)).
Proof.
  intros Hk. unfold rotated. set (n := length l) in *. set (o := (repeat - 1) mod Z.of_nat n).
  assert (Ho : 0 ≤ o < Z.of_nat n) by (apply Z.mod_pos_bound; lia).
  rewrite <- Zplus_mod_idemp_r. fold o. rewrite lookup_app, lookup_drop, length_drop. fold n.
  destruct (decide (k + Z.to_nat o < n)%nat) as [Hlt|Hge].
  - rewrite Z.mod_small by lia. destruct (lookup_lt_is_Some_2 l (Z.to_nat o + k)) as [x Hx]; [fold n; lia|].
    rewrite Hx. replace (Z.to_nat (Z.of_nat k + o)) with (Z.to_nat o + k)%nat by lia. by rewrite Hx.
  - rewrite (lookup_ge_None_2 l) by (fold n; lia). rewrite lookup_take_lt by lia. f_equal.
    rewrite <- (Z.mod_unique (Z.of_nat k + o) (Z.of_nat n) 1 (Z.of_nat k + o - Z.of_nat n)); lia.
Qed.

(** Rotating is fair: among any [n] successive repetitions with [n] targets, each target is
    executed exactly once at each position. *)
Theorem rotated_fair {A} (l : list A) start k x : NoDup l → x ∈ l → (k < length l)%nat →
  ∃ repeat, start ≤ repeat < start + Z.of_nat (length l) ∧ rotated l repeat !! k = Some x ∧
    ∀ repeat', start ≤ repeat' < start + Z.of_nat (length l) → rotated l repeat' !! k = Some x → repeat' = repeat.
Proof.
  intros Hnd Hx Hk. apply list_elem_of_lookup in Hx as [j Hj]. pose proof (lookup_lt_Some _ _ _ Hj) as Hjn.
  set (n := Z.of_nat (length l)). assert (Hn : 0 < n) by lia.
  set (r := start + (Z.of_nat j - Z.of_nat k + 1 - start) mod n).
  pose proof (Z.mod_pos_bound (Z.of_nat j - Z.of_nat k + 1 - start) n Hn) as Hr. exists r.
  assert (Hat : ∀ r', rotated l r' !! k = Some x ↔ (Z.of_nat k + (r' - 1)) mod n = Z.of_nat j).
  { intros r'. rewrite rotated_lookup by done. fold n. pose proof (Z.mod_pos_bound (Z.of_nat k + (r' - 1)) n Hn) as Hb. split.
    - intros Hl. pose proof (NoDup_lookup _ _ _ _ Hnd Hl Hj). lia.
    - intros ->. by rewrite Nat2Z.id. }
  split; [unfold r; lia|]. split.
  - apply Hat. unfold r. rewrite <- (Z.mod_small (Z.of_nat j) n) at 2 by lia.
    replace (Z.of_nat k + (start + (Z.of_nat j - Z.of_nat k + 1 - start) mod n - 1)) with
      ((Z.of_nat k + start - 1) + (Z.of_nat j - Z.of_nat k + 1 - start) mod n) by lia.
    rewrite Zplus_mod_idemp_r. f_equal. lia.
  - intros r' Hr' Hrot. apply Hat in Hrot. unfold r.
    assert (Hm : (Z.of_nat j - Z.of_nat k + 1 - start) mod n = r' - start); [|lia].
    rewrite <- Hrot. pose proof (Z.div_mod (Z.of_nat k + (r' - 1)) n ltac:(lia)) as Hdm.
    symmetry. apply (Z.mod_unique _ _ (- ((Z.of_nat k + (r' - 1)) / n))); lia.
Qed.

(** ** Identifiers *)

Lemma resolve_matrix_id_ok config_id cli resume now s :
  resolve_matrix_id config_id cli resume now = inr s → matrix_id_ok s = true.
Proof.
  unfold resolve_matrix_id. case_match; [done|]. intros (v & Hv & Hs)%sum_bind_inr. destruct v; try done.
  destruct (matrix_id_ok s0) eqn:Hok; [|done]. by injection Hs as <-.
Qed.

(** The identifier of a matrix is one component of a path: it is not empty, has no
    separator and is neither the current nor the parent directory. *)
Theorem matrix_id_safe config_id cli resume now s :
  resolve_matrix_id config_id cli resume now = inr s →
  codes s ≠ [] ∧ (47%N ∉ codes s) ∧ s ≠ "."%py ∧ s ≠ ".."%py ∧ (path_parts (codes s) = [codes s]).
Proof.
  intros Hok%resolve_matrix_id_ok. unfold matrix_id_ok in Hok. rewrite !andb_true_iff, !negb_true_iff in Hok.
  destruct Hok as (((Ht & Hall) & Hdd) & Hdot%bool_decide_eq_false).
  assert (Hs : 47%N ∉ codes s).
  { intros Hin. rewrite forallb_forall in Hall. apply list_elem_of_In, Hall in Hin. done. }
  assert (Hne : codes s ≠ []) by (unfold str_truthy in Ht; by destruct (codes s)).
  assert (Hsplit : ∀ cs, 47%N ∉ cs → split_on 47 cs = [cs]).
  { induction cs as [|c cs IH]; [done|]. intros [Hc Hn]%not_elem_of_cons. cbn [split_on].
    rewrite (proj2 (N.eqb_neq c 47)) by congruence. by rewrite IH. }
  split_and!; try done; [by intros ->|]. unfold path_parts. rewrite Hsplit by done. rewrite filter_cons, decide_True, filter_nil; [done|].
  split; [done|]. intros Hd. destruct Hdot. destruct s as [cs]. cbn in Hd. by subst cs.
Qed.

(** Resuming needs a stable identifier, from the command line or the configuration, and the
    two must not differ. *)
Theorem matrix_id_resumes config_id cli now s :
  resolve_matrix_id config_id cli true now = inr s → cli = Some s ∨ config_id = VStr s.
Proof.
  unfold resolve_matrix_id. case_match; [done|]. intros (v & Hv & Hs)%sum_bind_inr. destruct v; try done.
  destruct (matrix_id_ok s0); [|done]. injection Hs as ->. destruct cli as [c|]; [left|right]; [by injection Hv as ->|].
  destruct config_id; try done. by injection Hv as ->.
Qed.

(** ** Fingerprints *)

Section guarantees.
Context `{FloatText}.
Variable sha256 : list N → pystr.
Variable depth : nat.

Definition text_ok (s : pystr) : Prop := Forall scalar (codes s).
Definition int_ok (z : Z) : Prop := (int_length z ≤ max_str_digits)%nat.
Definition plan_good (command : list pystr) (e : run_coordinate) (input_hashes : list (pystr * pystr)) (name : pyval) : Prop :=
  Forall text_ok command ∧ text_ok (rc_run_id e) ∧ text_ok (rc_label e) ∧ text_ok (rc_mode e) ∧
  int_ok (rc_concurrency e) ∧ int_ok (rc_repeat e) ∧ int_ok (rc_execution_order e) ∧ int_ok (rc_requests e) ∧
  NoDup input_hashes.*1 ∧ Forall (λ nh, text_ok nh.1 ∧ text_ok nh.2) input_hashes ∧
  match name with VNone => True | VStr s => text_ok s | _ => False end.

(** The plan with its keys sorted. *)
Lemma plan_sorted command e input_hashes name :
  match name with VNone | VStr _ => True | _ => False end →
  sort_keys (VDict (plan_dict command e input_hashes name)) =
    VDict [("command", VList (VStr <$> command));
           ("coordinate", VDict [("concurrency", VInt (rc_concurrency e)); ("execution_order", VInt (rc_execution_order e));
              ("label", VStr (rc_label e)); ("mode", VStr (rc_mode e)); ("repeat", VInt (rc_repeat e));
              ("requests", VInt (rc_requests e)); ("run_id", VStr (rc_run_id e))]);
           ("credential_env_name", name);
           ("input_sha256", VDict (merge_sort item_le (prod_map id VStr <$> input_hashes)));
           ("schema_version", VInt 1)]%py.
Proof.
  intros Hname. assert (Hc : map sort_keys (VStr <$> command) = VStr <$> command).
  { induction command as [|c command IH]; [done|]. cbn. by rewrite IH. }
  assert (Hh : map (λ kv, (kv.1, sort_keys kv.2)) (prod_map id VStr <$> input_hashes) = prod_map id VStr <$> input_hashes).
  { induction input_hashes as [|[n h] ih IH]; [done|]. cbn. by rewrite IH. }
  assert (Hn : sort_keys name = name) by by destruct name.
  unfold plan_dict. cbn [sort_keys map fst snd coordinate_dict]. rewrite Hc, Hh, Hn.
  generalize (merge_sort item_le (prod_map id VStr <$> input_hashes)), (VStr <$> command). intros hs cs.
  vm_compute. reflexivity.
Qed.

Lemma plan_readable command e input_hashes name : plan_good command e input_hashes name →
  readable text_ok (sort_keys (VDict (plan_dict command e input_hashes name))) ∧
  (nesting (sort_keys (VDict (plan_dict command e input_hashes name))) ≤ 2)%nat.
Proof.
  intros (Hc & H1 & H2 & H3 & H4 & H5 & H6 & H7 & Hnd & Hh & Hn). rewrite plan_sorted by by destruct name.
  set (hs := merge_sort item_le (prod_map id VStr <$> input_hashes)).
  assert (Hp : hs ≡ₚ prod_map id VStr <$> input_hashes) by apply merge_sort_Permutation.
  assert (Hhs : readable text_ok (VDict hs)).
  { apply readable_dict. split.
    - rewrite Hp. rewrite <- list_fmap_compose. exact Hnd.
    - rewrite Hp. rewrite Forall_fmap. eapply Forall_impl; [exact Hh|]. by intros [n h] [??]. }
  assert (Hns : (nesting (VDict hs) ≤ 1)%nat).
  { cbn [nesting]. apply le_n_S, (nesting_Forall (λ kv : pystr * pyval, nesting kv.2)). rewrite Hp, Forall_fmap. apply Forall_true. intros [n h]. cbn. lia. }
  assert (Hcs : readable text_ok (VList (VStr <$> command))) by (apply readable_list; by rewrite Forall_fmap).
  assert (Hnc : (nesting (VList (VStr <$> command)) ≤ 1)%nat).
  { cbn [nesting]. apply le_n_S, (nesting_Forall nesting). rewrite Forall_fmap. apply Forall_true. intros c. cbn. lia. }
  assert (Hname : readable text_ok name ∧ nesting name = O) by by destruct name. destruct Hname as [Hname Hn0].
  assert (Hkey : ∀ s, forallb (λ c, (c <? 55296)%N) (codes s) = true → text_ok s).
  { intros s Hs. apply Forall_forall. intros c Hc'%list_elem_of_In. rewrite forallb_forall in Hs. left. apply N.ltb_lt, Hs, Hc'. }
  split.
  - apply readable_dict. split; [apply (bool_decide_unpack _); vm_compute; exact I|].
    assert (Hk : ∀ k v, forallb (λ c, (c <? 55296)%N) (codes k) = true → readable text_ok v → text_ok k ∧ readable text_ok v)
      by (intros k v Hk Hv; split; [by apply Hkey|done]).
    apply Forall_cons; split; [by apply Hk|]. apply Forall_cons; split; [apply Hk; [done|]|].
    { apply readable_dict. split; [apply (bool_decide_unpack _); vm_compute; exact I|]. repeat (apply Forall_cons; split; [apply Hk; [done|assumption]|]). done. }
    do 2 (apply Forall_cons; split; [by apply Hk|]). apply Forall_singleton.
    apply Hk; [done|]. apply Nat.leb_le. vm_compute. reflexivity.
  - cbn [nesting fold_right snd] in *. rewrite Hn0. lia.
Qed.

Hypothesis sha256_injective : ∀ a b, sha256 a = sha256 b → a = b.

(** The fingerprint tells every part of a plan: runs with the same one have the same
    command, coordinate, inputs and name of the credential's variable. *)
Theorem plan_identifies c1 e1 h1 n1 c2 e2 h2 n2 : plan_good c1 e1 h1 n1 → plan_good c2 e2 h2 n2 →
  resume_plan_sha256 sha256 c1 e1 h1 n1 = resume_plan_sha256 sha256 c2 e2 h2 n2 →
  c1 = c2 ∧ e1 = e2 ∧ h1 ≡ₚ h2 ∧ n1 = n2.
Proof.
  assert (Hl : ∀ c e h n, plan_good c e h n → loads float_parse 2 (PyStr (plan_text c e h n)) =
    inr (sort_keys (VDict (plan_dict c e h n)))).
  { intros c e h n G. destruct (plan_readable _ _ _ _ G) as [R N]. unfold plan_text.
    rewrite <- (app_nil_r (json_text _ _ _ _)).
    apply (loads_text [] [] text_ok); [by constructor..|apply json_ascii_reads|exact R|exact N|by constructor]. }
  intros G1 G2 Heq%sha256_injective. pose proof (Hl _ _ _ _ G1) as L1. rewrite Heq, (Hl _ _ _ _ G2) in L1.
  destruct G1 as (_ & _ & _ & _ & _ & _ & _ & _ & _ & _ & K1), G2 as (_ & _ & _ & _ & _ & _ & _ & _ & _ & _ & K2).
  assert (Hinj : ∀ a b : pyval, inr (A := json_error) a = inr b → a = b) by congruence. apply Hinj in L1.
  rewrite (plan_sorted _ _ _ n1), (plan_sorted _ _ _ n2) in L1 by first [by destruct n1|by destruct n2].
  injection L1 as Lc Lcc Leo Lla Lmo Lre Lrq Lid Lna Lhs. split_and!.
  - assert (Inj (=) (=) VStr) by (intros ?? [=]; done). by apply (inj (fmap VStr)) in Lc.
  - destruct e1, e2; cbn in *. congruence.
  - assert (Hp : prod_map id VStr <$> h1 ≡ₚ prod_map id VStr <$> h2).
    { rewrite <- (merge_sort_Permutation item_le (prod_map id VStr <$> h1)), <- Lhs. apply merge_sort_Permutation. }
    apply (fmap_Permutation (prod_map id (λ v, match v with VStr s => s | _ => ""%py end))) in Hp.
    rewrite <- !list_fmap_compose in Hp. assert (Hid : ∀ h : list (pystr * pystr),
      (prod_map id (λ v, match v with VStr s => s | _ => ""%py end) ∘ prod_map id VStr) <$> h = h).
    { induction h as [|[n h] hs IH]; [done|]. cbn. by rewrite IH. }
    by rewrite !Hid in Hp.
  - done.
Qed.

(** ** Completed runs *)

(** A run is taken for completed only when its files hold a valid result document and the
    record of a process that exited with 0 after running exactly the planned command with
    the planned fingerprint; the document has the planned coordinate and configuration,
    and every requested answer succeeded. *)
Theorem completed_run_sound fs output command e configuration plan :
  completed_run depth fs output command e configuration plan = inr true →
  ∃ d process metadata cfg summary validity requests,
    (∃ text, fs !! output = Some text ∧ loads float_parse depth text = inr (VDict d)) ∧
    (∃ text, fs !! process_path output = Some text ∧ loads float_parse depth text = inr (VDict process)) ∧
    valid_result d ∧ section_of d "metadata"%py metadata ∧ section_of d "configuration"%py cfg ∧
    section_of d "summary"%py summary ∧ section_of d "validity"%py validity ∧
    dict_get d "per_request"%py = Some (VList requests) ∧ Z.of_nat (length requests) = rc_requests e ∧
    same process "exit_code"%py (VInt 0) = true ∧ same process "command"%py (VList (VStr <$> command)) = true ∧
    same process "resume_plan_sha256"%py (VStr plan) = true ∧
    get_none metadata "run_id"%py = VStr (rc_run_id e) ∧ get_none metadata "label"%py = VStr (rc_label e) ∧
    Forall (λ fv, same cfg fv.1 fv.2 = true) configuration ∧
    same summary "successful"%py (VInt (rc_requests e)) = true ∧ same summary "failed"%py (VInt 0) = true ∧
    get_none validity "valid"%py = VBool true.
Proof.
  unfold completed_run. destruct (fs !! output) as [t1|]; [|done]. destruct (fs !! process_path output) as [t2|]; [|done].
  assert (Hjson : ∀ t r, optional_json depth t = inr (Some r) → loads float_parse depth t = inr r).
  { intros t r. unfold optional_json. destruct (loads _ _ _) as [[]|]; try done. by intros [= ->]. }
  intros (r & H1 & Hr)%sum_bind_inr. destruct r as [r|]; [|done]. apply sum_bind_inr in Hr as (p & H2 & Hr).
  apply Hjson in H1. destruct r as [| | | | | |d]; try done. destruct p as [[| | | | | |process]|]; try done. apply Hjson in H2.
  apply sum_bind_inr in Hr as (errors & Hv & Hr). case_bool_decide as He; [done|]. subst errors.
  apply validate_ok in Hv as (d' & [= <-] & Hvalid).
  apply sum_bind_inr in Hr as (metadata & Em & (cfg & Ec & (summary & Es & (validity & Ev & Hm)%sum_bind_inr)%sum_bind_inr)%sum_bind_inr).
  assert (Hsec : ∀ s e, as_dict (get_dict d s) = inr e → is_Some (dict_get d s) → section_of d s e).
  { intros s e' Hs Hi. apply get_dict_section; [done|]. destruct (get_dict d s); try done. by injection Hs as ->. }
  destruct Hvalid as (V1 & V2 & V3). assert (Hroot : ∀ f, bool_decide (f ∈ root_fields) = true → is_Some (dict_get d f)).
  { intros f Hf%bool_decide_eq_true. by apply V2. }
  injection Hm as Hm. unfold matches in Hm. rewrite !andb_true_iff in Hm.
  destruct Hm as (((((((((((((((P1 & P2) & P3) & M1) & M2) & M3) & M4) & C1) & C2) & C3) & C4) & S1) & S2) & S3) & Q) & W).
  destruct (Hroot "per_request"%py eq_refl) as [pr Hpr]. unfold get_or in Q. rewrite Hpr in Q. cbn [from_option id] in Q.
  destruct pr as [| | | | |requests|]; try done. apply Z.eqb_eq in Q.
  exists d, process, metadata, cfg, summary, validity, requests. split_and!; try done; try (by eexists); try (by apply Hsec; [|apply Hroot]).
  - by apply py_eq_string.
  - by apply py_eq_string.
  - apply Forall_forall. intros fv Hfv%list_elem_of_In. rewrite forallb_forall in C4. by apply C4.
  - destruct (get_none validity _) as [|b| | | | |]; try done. by rewrite W.
Qed.
End guarantees.
