(* ===== verification/MatrixRun.v ===== *)
(** benchmark/scripts/run_matrix.py: executing the runs of a matrix, skipping completed
    ones, and what the whole script guarantees. *)
From Stdlib Require Import SpecFloat.
From S2P Require Import Prelude.
From S2P Require Import Python.
From S2P Require Import Errors.
From S2P Require Import Json.
From S2P Require Import JsonLoads.
From S2P Require Import PlainFloats.
From S2P Require Import Chat.
From S2P Require Import Vllm.
From S2P Require Import Topology.
From S2P Require Import Laboratory.
From S2P Require Import Results.
From S2P Require Import Conversions.
From S2P Require Import Matrix.

(** * State *)

(** A run of the benchmark: its command and environment, and how it exited. *)
Record invocation := Invocation {
  iv_command : list pystr;
  iv_environment : pystr → option pystr;
  iv_exit_code : Z;
}.
Record bench := Bench {
  bn_files : files;
  bn_printed : list pystr;
  bn_invocations : list invocation;
  bn_slept : list spec_float;
}.
Abbreviation bm := (sem bench exn).

Definition print_line (line : pystr) : bm unit :=
  modify (λ b, Bench (bn_files b) (bn_printed b ++ [line]) (bn_invocations b) (bn_slept b)).
Definition set_files (fs : files) : bm unit :=
  modify (λ b, Bench fs (bn_printed b) (bn_invocations b) (bn_slept b)).
Definition log_invocation (i : invocation) : bm unit :=
  modify (λ b, Bench (bn_files b) (bn_printed b) (bn_invocations b ++ [i]) (bn_slept b)).

Fixpoint foldM {A B} (f : B → A → bm B) (acc : B) (l : list A) : bm B :=
  match l with [] => ret acc | x :: l => let! acc := f acc x in foldM f acc l end.

(** [enumerate(l, start)]. *)
Fixpoint enumerate {A} (start : Z) (l : list A) : list (Z * A) :=
  match l with [] => [] | x :: l => (start, x) :: enumerate (start + 1) l end.
Definition concat_exn {A B} (f : A → exn + list B) (l : list A) : exn + list B :=
  let? ls := map_exn f l in inr (concat ls).

(** What the loops compute of a run before they decide whether to execute it. *)
Record job := Job {
  jb_target : pydict;
  jb_output : pystr;
  jb_command : list pystr;
  jb_expected : run_coordinate;
  jb_configuration : pydict;
  jb_plan : pystr;
}.

(** What became of a planned run: it was skipped, when resuming, because its files were
    those of a completed run; or it was executed, with its credential as the token, and
    exited with 0; or it was only printed. *)
Inductive fate := Skipped | Ran | Printed.
#[export] Instance fate_eq_dec : EqDecision fate.
Proof. solve_decision. Defined.

Section runner.
Context `{FloatText}.
Variable container_repr : pyval → pystr.
Variable decimal : N → option Z.
Variable float_of_text : pystr → exn + spec_float.
Variable root : pystr.
Variable sha256_file : pystr → exn + pystr.
Variable sha256 : list N → pystr.
Variable depth : nat.
(** The environment of the script. *)
Variable environ : pystr → option pystr.
(** The benchmark program: its exit code, output and errors, and the files it leaves; the
    times before and after its [n]-th run. *)
Variable run : nat → list pystr → (pystr → option pystr) → files → exn + (Z * pystr * pystr * files).
Variable started ended : nat → pystr.
(** How making a directory, writing a file and sleeping fail, if they do. *)
Variable mkdir write_error : pystr → option exn.
Variable sleep_error : spec_float → option exn.
Abbreviation str := (py_str container_repr).
Abbreviation int := (int_of decimal).

Definition attempt_io (e : option exn) : bm unit := match e with Some e => raise e | None => ret () end.
Definition write_text (path text : pystr) : bm unit :=
  do! attempt_io (write_error path) in
  let! b := get in set_files (<[path := text]> (bn_files b)).
Definition sleep (d : spec_float) : bm unit :=
  do! attempt_io (sleep_error d) in
  modify (λ b, Bench (bn_files b) (bn_printed b) (bn_invocations b) (bn_slept b ++ [d])).

(** The credential that a target names, if it names one, and the environment of its run. *)
Definition credential (target : pydict) : exn + option pystr :=
  match get_none target "auth_token_env"%py with
  | VStr name => if str_truthy name then match environ name with Some c => inr (Some c) | None => inl ValueError end else inr None
  | v => if py_truthy v then inl TypeError else inr None
  end.
Definition run_environment (token : option pystr) : pystr → option pystr :=
  λ name, if decide (name = "BENCH_AUTH_TOKEN"%py) then token else environ name.

Definition process_metadata (n : nat) (code : Z) (command : list pystr) (plan : pystr) (target : pydict) : pydict :=
  [("started_utc", VStr (started n)); ("ended_utc", VStr (ended n)); ("exit_code", VInt code);
   ("command", VList (VStr <$> command)); ("resume_plan_sha256", VStr plan);
   ("credential_source", VStr (if py_truthy (get_none target "auth_token_env") then "environment" else "none"))]%py.

(** [execute]. *)
Definition execute (command : list pystr) (target : pydict) (output : pystr) (dry_run : bool) (plan : pystr) : bm unit :=
  do! print_line (shell_join command) in
  if dry_run then ret () else
  do! attempt_io (mkdir (path_parent output)) in
  let! token := lift (credential target) in
  let! b := get in
  let n := length (bn_invocations b) in
  let! result := lift (run n command (run_environment token) (bn_files b)) in
  let '(code, out, err, fs) := result in
  do! log_invocation (Invocation command (run_environment token) code) in
  do! set_files fs in
  do! write_text (path_join (path_parent output) "stdout.log"%py) out in
  do! write_text (path_join (path_parent output) "stderr.log"%py) err in
  do! write_text (process_path output)
        (PyStr (json_indented 0 (VDict (process_metadata n code command plan target)) ++ [10%N])) in
  if code =? 0 then ret () else raise RuntimeError.

(** ** The loops *)

Definition selected_targets (config : pydict) (selected : list pystr) : exn + list pyval :=
  let? targets := config_item config "targets"%py in
  let? targets := items_of targets in
  let? chosen := map_exn (λ t, if bool_decide (selected = []) then inr [t] else
    let? label := subscript t "label"%py in
    if negb (hashable label) then inl TypeError else
    inr (if existsb (λ s, py_eq label (VStr s)) selected then [t] else [])) targets in
  inr (concat chosen).

(** The identifier of a run and the path of its result. *)
Definition run_id_of (matrix_id mode : pystr) (concurrency : pyval) (repeat : Z) (label : pyval) : pystr :=
  cat [matrix_id; "-"; mode; "-c"; str concurrency; "-r"; py_str_int repeat; "-"; str label]%py.
Definition output_of (output_root matrix_id mode : pystr) (concurrency : pyval) (repeat : Z) (label : pystr) : pystr :=
  foldl path_join output_root
    [matrix_id; mode; cat ["c"; str concurrency]; cat ["repeat-"; py_str_int repeat]; label; "client-result.json"]%py.
Definition as_text (v : pyval) : exn + pystr := match v with VStr s => inr s | _ => inl TypeError end.

Definition plan_run (config : pydict) (output_root matrix_id mode : pystr) (concurrency : pyval) (repeat order : Z)
    (target : pyval) : exn + job :=
  let? label := subscript target "label"%py in
  let run_id := run_id_of matrix_id mode concurrency repeat label in
  let? c := int concurrency in
  let? request_count := requests_for decimal config c in
  let? directory := as_text label in
  let output := output_of output_root matrix_id mode concurrency repeat directory in
  let? target := as_dict target in
  let? command := build_command container_repr decimal root config target mode c repeat order output run_id in
  let expected := RunCoordinate run_id (str label) mode c repeat order request_count in
  let? input_hashes := referenced_input_hashes container_repr root sha256_file config target in
  let? expected_configuration :=
    planned_result_configuration container_repr decimal float_of_text config target mode c input_hashes in
  let plan := resume_plan_sha256 sha256 command expected input_hashes (get_none target "auth_token_env"%py) in
  inr (Job target output command expected expected_configuration plan).

Definition completed (fs : files) (j : job) : exn + bool :=
  completed_run depth fs (jb_output j) (jb_command j) (jb_expected j) (jb_configuration j) (jb_plan j).
Definition skip_line (j : job) : pystr := cat ["skipping completed run: "; jb_output j]%py.

(** The body of the innermost loop; the result is the new value of [first]. *)
Definition run_job (settling : spec_float) (dry_run resume first : bool) (j : job) : bm bool :=
  let! b := get in
  let! done := if resume then lift (completed (bn_files b) j) else ret false in
  if (done : bool) then do! print_line (skip_line j) in ret first else
  do! if negb first && SFltb float_zero settling && negb dry_run then sleep settling else ret () in
  do! execute (jb_command j) (jb_target j) (jb_output j) dry_run (jb_plan j) in
  ret false.

Definition check_mode (mode : pyval) : exn + pystr :=
  let? invalid := mode_invalid mode in
  if invalid then inl ValueError else as_text mode.
Definition repeats (config : pydict) : exn + list Z :=
  let? v := config_item config "repetitions"%py in
  let? n := int v in inr (seqZ 1 n).
Definition concurrencies (config : pydict) : exn + list pyval :=
  let? v := config_item config "concurrency"%py in items_of v.

(** [run_matrix]; [now] is the time it starts. *)
Definition run_matrix (config : pydict) (output_root : pystr) (selected : list pystr) (dry_run resume : bool)
    (cli_id : option pystr) (now : pystr) : bm unit :=
  let! matrix_id := lift (resolve_matrix_id (get_none config "run_id"%py) cli_id resume now) in
  let! targets := lift (selected_targets config selected) in
  if match targets with [] => true | _ => false end then raise ValueError else
  let! modes := lift (items_of (get_or config "modes"%py (VList [VStr "non_streaming"%py]))) in
  let! settling := lift (float_of float_of_text (get_or config "settle_seconds"%py (VInt 5))) in
  do! foldM (λ first mode,
        let! mode := lift (check_mode mode) in
        let! cs := lift (concurrencies config) in
        foldM (λ first concurrency,
          let! rs := lift (repeats config) in
          foldM (λ first repeat,
            foldM (λ first ot,
              let! j := lift (plan_run config output_root matrix_id mode concurrency repeat ot.1 ot.2) in
              run_job settling dry_run resume first j)
              first (enumerate 1 (rotated targets repeat)))
            first rs)
          first cs)
        true modes in
  ret ().

(** [main] after the parsing of the arguments: the exit code. *)
Inductive exit := ExitCode (code : Z) | Failed (e : exn) | Uncaught (e : exn).
Definition matrix_main (file : exn + pystr) (output_root : pystr) (selected : list pystr) (dry_run resume : bool)
    (cli_id : option pystr) (now : pystr) (b : bench) : exit * bench :=
  let caught e := is_os_error e || bool_decide (e = ValueError) || bool_decide (e = RuntimeError) in
  match (let! config := lift (load_config container_repr decimal depth environ file) in
         run_matrix config output_root selected dry_run resume cli_id now) b with
  | (inr _, b) => (ExitCode 0, b)
  | (inl e, b) => (if caught e then Failed e else Uncaught e, b)
  end.

(** * What running a matrix guarantees *)

(** The runs of the whole matrix, in the order of the loops. *)
Definition plan_matrix (config : pydict) (output_root matrix_id : pystr) (targets modes : list pyval) : exn + list job :=
  concat_exn (λ mode,
    let? mode := check_mode mode in
    let? cs := concurrencies config in
    concat_exn (λ concurrency,
      let? rs := repeats config in
      concat_exn (λ repeat,
        concat_exn (λ ot, let? j := plan_run config output_root matrix_id mode concurrency repeat ot.1 ot.2 in inr [j])
          (enumerate 1 (rotated targets repeat)))
        rs)
      cs)
    modes.

Definition fate_ok (dry_run resume : bool) (j : job) (f : fate) : Prop :=
  match f with
  | Skipped => resume = true ∧ ∃ fs, completed fs j = inr true
  | Ran => dry_run = false ∧ ∃ token, credential (jb_target j) = inr token
  | Printed => dry_run = true
  end.
Definition fate_line (j : job) (f : fate) : pystr := match f with Skipped => skip_line j | _ => shell_join (jb_command j) end.
Definition invoked (j : job) (f : fate) (i : invocation) : Prop :=
  f = Ran ∧ iv_command i = jb_command j ∧ iv_exit_code i = 0 ∧
  ∃ token, credential (jb_target j) = inr token ∧ iv_environment i = run_environment token.

(** The runs [js] had the fates [fs], and nothing else was printed or invoked. *)
Definition performed (dry_run resume : bool) (js : list job) (b b' : bench) : Prop :=
  ∃ fates invocations,
    Forall2 (fate_ok dry_run resume) js fates ∧
    bn_printed b' = bn_printed b ++ zip_with fate_line js fates ∧
    bn_invocations b' = bn_invocations b ++ invocations ∧
    Forall2 (λ jf i, invoked jf.1 jf.2 i) (filter (λ jf, jf.2 = Ran) (zip js fates)) invocations ∧
    (dry_run = true → bn_files b' = bn_files b).

Lemma performed_nil dry_run resume b : performed dry_run resume [] b b.
Proof. exists [], []. rewrite !app_nil_r. split_and!; (done || constructor). Qed.
Lemma performed_app dry_run resume js1 js2 b1 b2 b3 :
  performed dry_run resume js1 b1 b2 → performed dry_run resume js2 b2 b3 → performed dry_run resume (js1 ++ js2) b1 b3.
Proof.
  intros (f1 & i1 & F1 & P1 & I1 & V1 & D1) (f2 & i2 & F2 & P2 & I2 & V2 & D2).
  pose proof (Forall2_length _ _ _ F1) as Hlen. exists (f1 ++ f2), (i1 ++ i2). split_and!.
  - by apply Forall2_app.
  - by rewrite P2, P1, zip_with_app, app_assoc.
  - by rewrite I2, I1, app_assoc.
  - rewrite zip_with_app, filter_app by done. by apply Forall2_app.
  - intros Hd. by rewrite D2, D1.
Qed.

(** A loop whose body performs what [g] plans of an item performs the plan of the list. *)
Lemma foldM_performs {A B} (f : B → A → bm B) (g : A → exn + list job) dry_run resume l :
  (∀ acc x b, wp (f acc x) (λ _ b', ∃ js, g x = inr js ∧ performed dry_run resume js b b') (λ _ _, True) b) →
  ∀ acc b, wp (foldM f acc l) (λ _ b', ∃ js, concat_exn g l = inr js ∧ performed dry_run resume js b b') (λ _ _, True) b.
Proof.
  intros Hf. induction l as [|x l IH]; intros acc b; cbn [foldM].
  - apply wp_ret. exists []. split; [done|apply performed_nil].
  - apply wp_bind. eapply wp_mono; [apply Hf| |done]. intros acc' b1 (js1 & G1 & R1). cbv beta.
    eapply wp_mono; [apply IH| |done]. intros acc'' b2 (js2 & G2 & R2). cbv beta. exists (js1 ++ js2).
    split; [|by eapply performed_app]. unfold concat_exn in *. cbn [map_exn]. rewrite G1. cbn [sum_bind].
    apply sum_bind_inr in G2 as (ls & -> & [= <-]). done.
Qed.

(** The computations that only read and write files, and sleep. *)
Definition quiet {A} (m : bm A) : Prop := ∀ b,
  wp m (λ _ b', bn_printed b' = bn_printed b ∧ bn_invocations b' = bn_invocations b) (λ _ _, True) b.
Lemma quiet_io e : quiet (attempt_io e).
Proof. intros b. by destruct e. Qed.
Lemma quiet_write path text : quiet (write_text path text).
Proof. intros b. unfold write_text. apply wp_bind. by destruct (write_error path). Qed.
Lemma quiet_bind {A B} (m : bm A) (k : A → bm B) : quiet m → (∀ a, quiet (k a)) → quiet (bind m k).
Proof.
  intros Hm Hk b. apply wp_bind. eapply wp_mono; [apply Hm| |done]. intros a b1 [E1 E2]. cbv beta.
  eapply wp_mono; [apply Hk| |done]. intros a' b2 [E3 E4]. cbv beta. split; congruence.
Qed.

Lemma execute_performs dry_run resume j b :
  wp (execute (jb_command j) (jb_target j) (jb_output j) dry_run (jb_plan j))
    (λ _ b', performed dry_run resume [j] b b') (λ _ _, True) b.
Proof.
  unfold execute. apply wp_bind, wp_modify. destruct dry_run.
  { apply wp_ret. exists [Printed], []. split_and!; [by constructor; [|constructor]|done|by rewrite app_nil_r|constructor|done]. }
  apply wp_bind. eapply wp_mono; [apply quiet_io| |done]. intros [] b1 [P1 I1]. cbv beta.
  apply wp_bind, wp_lift; [|done]. intros token Htoken. apply wp_bind, wp_get, wp_bind, wp_lift; [|done].
  intros [[[code out] err] fs] _. apply wp_bind, wp_modify, wp_bind, wp_modify.
  do 3 (apply wp_bind; eapply wp_mono; [apply quiet_write| |done]; intros [] ? [?P ?I]; cbv beta).
  destruct (Z.eqb_spec code 0) as [->|]; [|by apply wp_raise]. apply wp_ret.
  exists [Ran], [Invocation (jb_command j) (run_environment token) 0].
  cbn [bn_printed bn_invocations zip_with fate_line] in *. split_and!; [|congruence|congruence| |done].
  - constructor; [|constructor]. split; [done|by exists token].
  - constructor; [|constructor]. split_and!; try done. by exists token.
Qed.

Lemma run_job_performs settling dry_run resume first j b :
  wp (run_job settling dry_run resume first j) (λ _ b', performed dry_run resume [j] b b') (λ _ _, True) b.
Proof.
  unfold run_job. apply wp_bind, wp_get, wp_bind.
  apply (wp_mono _ (λ r b', b' = b ∧ (r = true → resume = true ∧ completed (bn_files b) j = inr true)) _ (λ _ _, True)); [| |done].
  { destruct resume; [|by apply wp_ret]. apply wp_lift; [|done]. intros r Hr. split; [done|]. by intros ->. }
  intros skip b' [-> Hskip]. cbv beta. destruct skip.
  - destruct (Hskip eq_refl) as [-> Hc]. apply wp_bind, wp_modify, wp_ret. exists [Skipped], []. split_and!; try done.
    + constructor; [|constructor]. split; [done|by exists (bn_files b)].
    + by rewrite app_nil_r.
  - apply wp_bind. set (wait := (_ && _ && _)).
    apply (wp_mono _ (λ _ b', bn_printed b' = bn_printed b ∧ bn_invocations b' = bn_invocations b ∧ bn_files b' = bn_files b)
             _ (λ _ _, True)); [| |done].
    { destruct wait; [|by apply wp_ret]. unfold sleep. apply wp_bind. by destruct (sleep_error settling). }
    intros [] b1 (P & I & F). cbv beta. apply wp_bind. eapply wp_mono; [apply execute_performs| |done]. intros [] b2 Hp. cbv beta.
    apply wp_ret. destruct Hp as (fs & ivs & ? & ? & ? & ? & Hdry). exists fs, ivs. split_and!; (done || congruence || intros Hd; rewrite <- F; by apply Hdry).
Qed.

(** Running a matrix to its end: every run of the plan, in the order of the plan, was
    executed and exited with 0, or was skipped as completed when resuming, or was printed
    only, in a dry run, which leaves every file as it was; the benchmark program was run
    for nothing else, and each time with the credential its target names, if any. *)
Theorem matrix_performed config output_root selected dry_run resume cli_id now b b' :
  run_matrix config output_root selected dry_run resume cli_id now b = (inr (), b') →
  ∃ matrix_id targets modes js,
    resolve_matrix_id (get_none config "run_id"%py) cli_id resume now = inr matrix_id ∧
    selected_targets config selected = inr targets ∧ targets ≠ [] ∧
    items_of (get_or config "modes"%py (VList [VStr "non_streaming"%py])) = inr modes ∧
    plan_matrix config output_root matrix_id targets modes = inr js ∧ performed dry_run resume js b b'.
Proof.
  intros Hrun. assert (Hwp : wp (run_matrix config output_root selected dry_run resume cli_id now)
    (λ _ b', ∃ matrix_id targets modes js,
      resolve_matrix_id (get_none config "run_id"%py) cli_id resume now = inr matrix_id ∧
      selected_targets config selected = inr targets ∧ targets ≠ [] ∧
      items_of (get_or config "modes"%py (VList [VStr "non_streaming"%py])) = inr modes ∧
      plan_matrix config output_root matrix_id targets modes = inr js ∧ performed dry_run resume js b b') (λ _ _, True) b).
  2: { unfold wp in Hwp. by rewrite Hrun in Hwp. }
  unfold run_matrix. apply wp_bind, wp_lift; [|done]. intros matrix_id Hid. apply wp_bind, wp_lift; [|done]. intros targets Ht.
  destruct (match targets with [] => true | _ => false end) eqn:Hne; [by apply wp_raise|].
  apply wp_bind, wp_lift; [|done]. intros modes Hm. apply wp_bind, wp_lift; [|done]. intros settling _.
  apply wp_bind. apply (wp_mono _ (λ _ b1, ∃ js, plan_matrix config output_root matrix_id targets modes = inr js ∧
    performed dry_run resume js b b1) _ (λ _ _, True)); [| |done].
  2: { intros first b1 (js & Hp & Hperf). cbv beta. apply wp_ret. exists matrix_id, targets, modes, js.
       split_and!; try done. by destruct targets. }
  apply foldM_performs. intros first1 mode b1. apply wp_bind, wp_lift; [|done]. intros m ->. cbn [sum_bind].
  apply wp_bind, wp_lift; [|done]. intros cs ->. cbn [sum_bind].
  apply foldM_performs. intros first2 c b2. apply wp_bind, wp_lift; [|done]. intros rs ->. cbn [sum_bind].
  apply foldM_performs. intros first3 r b3. apply foldM_performs. intros first4 ot b4.
  apply wp_bind, wp_lift; [|done]. intros j ->. cbn [sum_bind].
  eapply wp_mono; [apply run_job_performs| |done]. intros first5 b5 Hj. by exists [j].
Qed.

(** The coordinates of the planned runs, in order: for every mode, every concurrency and
    every repetition, the targets as they are rotated. *)
Lemma concat_exn_keys {A B} (g : A → exn + list job) (key : job → B) (h : A → list B) l js :
  (∀ x js, g x = inr js → key <$> js = h x) → concat_exn g l = inr js → key <$> js = l ≫= h.
Proof.
  intros Hg (ls & Hls & [= <-])%sum_bind_inr. apply map_exn_inr in Hls.
  induction Hls as [|x js l ls Hx _ IH]; [done|]. cbn [concat]. by rewrite fmap_app, bind_cons, (Hg _ _ Hx), IH.
Qed.
Lemma plan_run_coordinate config output_root matrix_id mode c repeat order target j :
  plan_run config output_root matrix_id mode c repeat order target = inr j →
  int c = inr (rc_concurrency (jb_expected j)) ∧ rc_mode (jb_expected j) = mode ∧ rc_repeat (jb_expected j) = repeat ∧
  rc_execution_order (jb_expected j) = order ∧ VDict (jb_target j) = target ∧
  ∃ label, dict_get (jb_target j) "label"%py = Some (VStr label) ∧ rc_label (jb_expected j) = label.
Proof.
  intros (label & Hl & (n & Hn & (rq & _ & (dir & Hd & (t & Ht & (cmd & _ & (ih & _ & (cfg & _ & [= <-])
    %sum_bind_inr)%sum_bind_inr)%sum_bind_inr)%sum_bind_inr)%sum_bind_inr)%sum_bind_inr)%sum_bind_inr)%sum_bind_inr.
  cbn. destruct target as [| | | | | |d]; try done. injection Ht as ->. split_and!; try done.
  destruct label as [| | | |s| |]; try done. cbn in Hl. destruct (dict_get t "label"%py) as [v|]; [|done]. injection Hl as ->.
  by exists s.
Qed.
Theorem matrix_planned config output_root matrix_id targets modes cs rs js :
  concurrencies config = inr cs → repeats config = inr rs →
  plan_matrix config output_root matrix_id targets modes = inr js →
  (λ j, let e := jb_expected j in
        (VStr (rc_mode e), inr (rc_concurrency e), rc_repeat e, rc_execution_order e, VDict (jb_target j))) <$> js =
  modes ≫= λ m, cs ≫= λ c, rs ≫= λ r, (λ ot, (m, int c, r, ot.1, ot.2)) <$> enumerate 1 (rotated targets r).
Proof.
  intros Hcs Hrs. apply concat_exn_keys. intros m js1 (mode & Hm & H1)%sum_bind_inr. rewrite Hcs in H1. cbn [sum_bind] in H1.
  assert (m = VStr mode) as ->.
  { unfold check_mode in Hm. apply sum_bind_inr in Hm as ([] & _ & Hm); [done|]. destruct m; try done. by injection Hm as ->. }
  revert H1. apply concat_exn_keys. intros c js2 H2. rewrite Hrs in H2. cbn [sum_bind] in H2.
  revert H2. apply concat_exn_keys. intros r js3 H3.
  rewrite (λ Hg, concat_exn_keys _ _ (λ ot, [(VStr mode, int c, r, ot.1, ot.2)]) _ _ Hg H3).
  - generalize (enumerate 1 (rotated targets r)). intros l. induction l as [|x l IH]; [done|]. by rewrite bind_cons, IH.
  - intros [o t] js4 (j & Hj & [= <-])%sum_bind_inr. apply plan_run_coordinate in Hj as (E1 & E2 & E3 & E4 & E5 & _). cbn.
    by rewrite E1, E2, E3, E4, E5.
Qed.
End runner.

(** * Credentials leave no trace *)

(** States that differ in the environments of the invocations only. *)
Definition same_traces (b1 b2 : bench) : Prop :=
  bn_files b1 = bn_files b2 ∧ bn_printed b1 = bn_printed b2 ∧ bn_slept b1 = bn_slept b2 ∧
  iv_command <$> bn_invocations b1 = iv_command <$> bn_invocations b2 ∧
  iv_exit_code <$> bn_invocations b1 = iv_exit_code <$> bn_invocations b2.
#[export] Instance same_traces_refl : Reflexive same_traces.
Proof. by intros b. Qed.

(** Computations that cannot tell such states apart. *)
Definition agree {A} (m1 m2 : bm A) : Prop :=
  ∀ b1 b2, same_traces b1 b2 → (m1 b1).1 = (m2 b2).1 ∧ same_traces (m1 b1).2 (m2 b2).2.

Lemma agree_ret {A} (a : A) : agree (ret a) (ret a).
Proof. by intros b1 b2 Hb. Qed.
Lemma agree_lift {A} (r : exn + A) : agree (lift r) (lift r).
Proof. intros b1 b2 Hb. by destruct r. Qed.
Lemma agree_raise {A} e : agree (raise e : bm A) (raise e).
Proof. by intros b1 b2 Hb. Qed.
Lemma agree_bind {A B} (m1 m2 : bm A) (k1 k2 : A → bm B) :
  agree m1 m2 → (∀ a, agree (k1 a) (k2 a)) → agree (bind m1 k1) (bind m2 k2).
Proof.
  intros Hm Hk b1 b2 Hb. destruct (Hm b1 b2 Hb) as [Hr Hs]. unfold bind.
  destruct (m1 b1) as [[e|a] c1], (m2 b2) as [[e'|a'] c2]; cbn in Hr, Hs; try done; injection Hr as ->; [done|by apply Hk].
Qed.
Lemma agree_get {A} (k1 k2 : bench → bm A) : (∀ b1 b2, same_traces b1 b2 → agree (k1 b1) (k2 b2)) →
  agree (bind get k1) (bind get k2).
Proof. intros Hk b1 b2 Hb. exact (Hk b1 b2 Hb b1 b2 Hb). Qed.
Lemma agree_modify f1 f2 : (∀ b1 b2, same_traces b1 b2 → same_traces (f1 b1) (f2 b2)) → agree (modify f1) (modify f2).
Proof. intros Hf b1 b2 Hb. split; [done|by apply Hf]. Qed.
Lemma agree_foldM {A B} (f1 f2 : B → A → bm B) acc l : (∀ acc x, agree (f1 acc x) (f2 acc x)) →
  agree (foldM f1 acc l) (foldM f2 acc l).
Proof.
  intros Hf. revert acc. induction l as [|x l IH]; intros acc; cbn [foldM]; [apply agree_ret|]. by apply agree_bind.
Qed.
Lemma agree_io e : agree (attempt_io e) (attempt_io e).
Proof. destruct e; [apply agree_raise|apply agree_ret]. Qed.
Lemma agree_print line : agree (print_line line) (print_line line).
Proof. apply agree_modify. intros b1 b2 (? & E & ? & ? & ?). by split_and!; cbn; rewrite ?E. Qed.
Lemma agree_write write_error path text : agree (write_text write_error path text) (write_text write_error path text).
Proof.
  apply agree_bind; [apply agree_io|intros []]. apply agree_get. intros c1 c2 (E & _). rewrite E.
  apply agree_modify. by intros b1 b2 (? & ? & ? & ? & ?).
Qed.

Section secrets.
Context `{FloatText}.
Context (container_repr : pyval → pystr) (decimal : N → option Z) (float_of_text : pystr → exn + spec_float).
Context (root : pystr) (sha256_file : pystr → exn + pystr) (sha256 : list N → pystr) (depth : nat).
Context (run : nat → list pystr → (pystr → option pystr) → files → exn + (Z * pystr * pystr * files)).
Context (started ended : nat → pystr) (mkdir write_error : pystr → option exn) (sleep_error : spec_float → option exn).

(** Two environments with the same variables, and a benchmark that does not write what its
    environment holds. *)
Context (environ1 environ2 : pystr → option pystr).
Hypothesis same_variables : ∀ name, is_Some (environ1 name) ↔ is_Some (environ2 name).
Hypothesis run_discreet : ∀ n command e1 e2 fs, run n command e1 fs = run n command e2 fs.

Lemma agree_execute command target output dry_run plan :
  agree (execute environ1 run started ended mkdir write_error command target output dry_run plan)
        (execute environ2 run started ended mkdir write_error command target output dry_run plan).
Proof.
  unfold execute. apply agree_bind; [apply agree_print|intros []]. destruct dry_run; [apply agree_ret|].
  apply agree_bind; [apply agree_io|intros []].
  assert (Hc : (∃ e, credential environ1 target = inl e ∧ credential environ2 target = inl e) ∨
               ∃ t1 t2, credential environ1 target = inr t1 ∧ credential environ2 target = inr t2).
  { unfold credential. destruct (get_none target _) as [| | | |name| |]; try (case_match; by eauto).
    destruct (str_truthy name); [|by eauto]. pose proof (same_variables name) as Hv.
    destruct (environ1 name), (environ2 name); [by eauto 6|..|by eauto]; exfalso; rewrite <- !not_eq_None_Some in Hv; naive_solver. }
  destruct Hc as [(e & -> & ->)|(t1 & t2 & -> & ->)]; [apply agree_raise|].
  apply (agree_get (λ b, let! result := lift (run (length (bn_invocations b)) command (run_environment environ1 t1) (bn_files b)) in _)
                   (λ b, let! result := lift (run (length (bn_invocations b)) command (run_environment environ2 t2) (bn_files b)) in _)).
  intros c1 c2 (Ef & Ep & Es & Ec & Ex). rewrite Ef, (run_discreet _ _ (run_environment environ1 t1) (run_environment environ2 t2)).
  assert (En : length (bn_invocations c1) = length (bn_invocations c2))
    by (rewrite <- (length_fmap iv_command (bn_invocations c1)), Ec; apply length_fmap).
  rewrite En. apply agree_bind; [apply agree_lift|intros [[[code out] err] fs]].
  apply agree_bind; [|intros []].
  { apply agree_modify. intros b1 b2 (? & ? & ? & Ec' & Ex'). split_and!; cbn; rewrite ?fmap_app, ?Ec', ?Ex'; done. }
  apply agree_bind; [apply agree_modify; by intros b1 b2 (? & ? & ? & ? & ?)|intros []].
  do 3 (apply agree_bind; [apply agree_write|intros []]). destruct (code =? 0); [apply agree_ret|apply agree_raise].
Qed.

(** What a matrix prints, leaves in files and answers is the same whatever the values of
    the environment's variables are: no credential is printed or recorded. *)
Theorem matrix_keeps_secrets config output_root selected dry_run resume cli_id now b :
  let run_with environ := run_matrix container_repr decimal float_of_text root sha256_file sha256 depth environ run started ended
    mkdir write_error sleep_error config output_root selected dry_run resume cli_id now b in
  (run_with environ1).1 = (run_with environ2).1 ∧ same_traces (run_with environ1).2 (run_with environ2).2.
Proof.
  cbv zeta. revert b. assert (Hag : agree
    (run_matrix container_repr decimal float_of_text root sha256_file sha256 depth environ1 run started ended
       mkdir write_error sleep_error config output_root selected dry_run resume cli_id now)
    (run_matrix container_repr decimal float_of_text root sha256_file sha256 depth environ2 run started ended
       mkdir write_error sleep_error config output_root selected dry_run resume cli_id now)); [|intros b; exact (Hag b b (same_traces_refl b))].
  unfold run_matrix. apply agree_bind; [apply agree_lift|intros matrix_id]. apply agree_bind; [apply agree_lift|intros targets].
  destruct targets; [apply agree_raise|]. apply agree_bind; [apply agree_lift|intros modes].
  apply agree_bind; [apply agree_lift|intros settling]. apply agree_bind; [|intros _; apply agree_ret].
  apply agree_foldM. intros f1 mode. apply agree_bind; [apply agree_lift|intros m]. apply agree_bind; [apply agree_lift|intros cs].
  apply agree_foldM. intros f2 c. apply agree_bind; [apply agree_lift|intros rs].
  apply agree_foldM. intros f3 r. apply agree_foldM. intros f4 ot. apply agree_bind; [apply agree_lift|intros j].
  unfold run_job. apply agree_get. intros b1 b2 Hb. apply agree_bind.
  { destruct Hb as [-> _]. destruct resume; [apply agree_lift|apply agree_ret]. }
  intros []; [apply agree_bind; [apply agree_print|intros _; apply agree_ret]|].
  apply agree_bind; [|intros _; apply agree_bind; [apply agree_execute|intros _; apply agree_ret]].
  case_match; [|apply agree_ret]. apply agree_bind; [apply agree_io|intros []]. apply agree_modify.
  intros c1 c2 (? & ? & E & ? & ?). by split_and!; cbn; rewrite ?E.
Qed.
End secrets.

(** * A run of a small matrix

    Two targets, two repetitions: the order is rotated; resuming then skips every run. *)
Section demo.
#[local] Existing Instances plain_floats plain_texts.

Definition demo_environ (name : pystr) : option pystr := if decide (name = "TOKEN_A"%py) then Some "secret"%py else None.
Fixpoint flag (name : pystr) (command : list pystr) : pystr :=
  match command with
  | n :: (v :: _) as rest => if decide (n = name) then v else flag name rest
  | _ => ""%py
  end.
Definition demo_digest : pystr := PyStr (replicate 64 97%N).
(** What the benchmark program writes. *)
Definition demo_result (command : list pystr) : pydict :=
  let number name := match py_int (λ c, if digit_char c then Some (Z.of_N c - 48) else None) (flag name command) with inr n => VInt n | _ => VNone end in
  [("schema_version", VInt 1);
   ("metadata", VDict [("run_id", VStr (flag "--run-id" command)); ("timestamp_utc", VStr ""); ("label", VStr (flag "--label" command));
                       ("repeat", number "--repeat"); ("execution_order", number "--execution-order")]);
   ("configuration", VDict ([("base_url", VStr (flag "--base-url" command)); ("endpoint", VStr "/v1/chat/completions"); ("model", VStr "m");
      ("mode", VStr "non_streaming"); ("concurrency", number "--concurrency"); ("requests", number "--requests"); ("warmup", VInt 20);
      ("timeout_seconds", VInt 120); ("dataset_sha256", VStr demo_digest); ("temperature", VInt 0); ("top_p", VInt 1);
      ("max_tokens", VInt 128); ("seed", VInt 1); ("n", VInt 1); ("stream", VBool false); ("stream_include_usage", VBool false);
      ("batching_enabled", VStr "not_applicable"); ("prefix_caching", VStr "unknown"); ("workload_fingerprint", VStr "");
      ("gateway_config_fingerprint", VStr ""); ("vllm_config_fingerprint", VStr "")]));
   ("timing", VDict [("measured_start_utc", VNone); ("measured_end_utc", VNone); ("duration_seconds", VNone)]);
   ("warmup", VDict [("attempted", VInt 0); ("success", VInt 0); ("failed", VInt 0)]);
   ("summary", VDict [("attempted", number "--requests"); ("successful", number "--requests"); ("failed", VInt 0); ("error_rate", VInt 0);
      ("errors_by_category", VDict []); ("e2e", VDict []); ("ttft", VNone); ("request_throughput_rps", VInt 1);
      ("output_throughput_tps", VNone); ("authoritative_token_coverage", VInt 1)]);
   ("per_request", VList [VDict []; VDict []; VDict []]); ("metrics", VDict []); ("metric_artifacts", VDict []);
   ("environment", VDict []); ("validity", VDict [("valid", VBool true); ("reasons", VList [])])]%py.
Definition demo_run (n : nat) (command : list pystr) (environment : pystr → option pystr) (fs : files) : exn + (Z * pystr * pystr * files) :=
  inr (0, "ok"%py, ""%py, <[flag "--output"%py command := PyStr (dumps (VDict (demo_result command)))]> fs).
Definition demo_config : pydict :=
  [("schema_version", VInt 1); ("model", VStr "m"); ("dataset", VStr "data.jsonl"); ("run_id", VStr "m1"); ("requests", VInt 3);
   ("concurrency", VList [VInt 2]); ("repetitions", VInt 2);
   ("targets", VList [VDict [("label", VStr "a"); ("base_url", VStr "http://${A_HOST}"); ("auth_token_env", VStr "TOKEN_A")];
                      VDict [("label", VStr "b"); ("base_url", VStr "http://b")]])]%py.
Definition demo_matrix (resume : bool) : bench → (exn + unit) * bench :=
  run_matrix (λ _, ""%py) (λ c, if digit_char c then Some (Z.of_N c - 48) else None) (λ _, inl ValueError) "/bench"%py
    (λ _, inr demo_digest) (λ text, PyStr text) 50 demo_environ demo_run (λ _, "t0"%py) (λ _, "t1"%py) (λ _, None) (λ _, None) (λ _, None)
    demo_config "/out"%py [] false resume None "now"%py.
Definition demo_first : (exn + unit) * bench := demo_matrix true (Bench ∅ [] [] []).
Definition demo_second : (exn + unit) * bench := demo_matrix true demo_first.2.

Example demo_runs :
  demo_first.1 = inr () ∧
  (flag "--label"%py ∘ iv_command <$> bn_invocations demo_first.2 = ["a"; "b"; "b"; "a"]%py) ∧
  ((λ i, iv_environment i "BENCH_AUTH_TOKEN"%py) <$> bn_invocations demo_first.2 = [Some "secret"%py; None; None; Some "secret"%py]) ∧
  length (bn_slept demo_first.2) = 3%nat.
Proof. vm_compute. done. Qed.
Example demo_resumes :
  demo_second.1 = inr () ∧ length (bn_invocations demo_second.2) = 4%nat ∧
  last (bn_printed demo_second.2) = Some "skipping completed run: /out/m1/non_streaming/c2/repeat-2/a/client-result.json"%py.
Proof. vm_compute. done. Qed.
End demo.
