(* ===== verification/ExactPrompt.v ===== *)
(** benchmark/scripts/exact_prompt.py: the search for a prompt with an exact number of
    tokens, counting them in what the tokenizer returns, and the script around it.  The
    tokenizer is a parameter. *)
From S2P Require Import Prelude.
From S2P Require Import Python.
From S2P Require Import Errors.
From S2P Require Import Json.
From S2P Require Import JsonLoads.
From S2P Require Import Results.

(** * Counting *)

(** What a tokenizer returns: the attribute [input_ids], if it has one, and its items if
    it is a dictionary.  Sequences of identifiers are lists. *)
Record encoding := Encoding { en_attribute : option pyval; en_items : option pydict }.

(** [v[0]] and [len(v)]. *)
Definition first_item (v : pyval) : exn + pyval :=
  match v with
  | VList (x :: _) => inr x
  | VStr (PyStr (c :: _)) => inr (VStr (PyStr [c]))
  | VList [] | VStr (PyStr []) => inl IndexError
  | VDict _ => inl KeyError
  | _ => inl TypeError
  end.
Definition py_len (v : pyval) : exn + Z :=
  match v with
  | VList l => inr (Z.of_nat (length l))
  | VStr s => inr (Z.of_nat (length (codes s)))
  | VDict d => inr (Z.of_nat (length d))
  | _ => inl TypeError
  end.

Definition token_count (encoded : encoding) : exn + Z :=
  let input_ids := match default VNone (en_attribute encoded), en_items encoded with
                   | VNone, Some d => get_none d "input_ids"%py
                   | v, _ => v
                   end in
  match input_ids with
  | VNone => inl TypeError
  | _ =>
      if py_truthy input_ids then
        let? first := first_item input_ids in
        match first with
        | VList _ => let? n := py_len input_ids in if n =? 1 then py_len first else inl ValueError
        | _ => py_len input_ids
        end
      else py_len input_ids
  end.

(** [templated_token_count]; [apply_chat_template] gets the messages and the further
    keyword arguments. *)
Definition messages (prompt : pystr) : pyval := VList [VDict [("role", VStr "user"); ("content", VStr prompt)]%py].
Definition templated_token_count (apply_chat_template : pyval → pydict → exn + encoding) (chat_template_kwargs : pydict)
    (prompt : pystr) : exn + Z :=
  if dict_has chat_template_kwargs "tokenize"%py || dict_has chat_template_kwargs "add_generation_prompt"%py then inl TypeError else
  let? encoded := apply_chat_template (messages prompt) chat_template_kwargs in
  token_count encoded.

(** * The search *)

(** [unit * n]. *)
Fixpoint repeat_unit (unit : list N) (n : nat) : list N :=
  match n with O => [] | S n => unit ++ repeat_unit unit n end.

Section search.
(** [templated_token_count] of a prompt. *)
Variable templated_count : pystr → exn + Z.
Variable unit : pystr.
Variable target : Z.

Definition prompt (n : Z) : pystr := PyStr (repeat_unit (codes unit) (Z.to_nat n)).
Definition prompt_count (n : Z) : exn + Z := templated_count (prompt n).

(** The first loop: double [high] until the count reaches the target. *)
Fixpoint double_until (fuel : nat) (low high : Z) : option (exn + (Z * Z)) :=
  match prompt_count high with
  | inl e => Some (inl e)
  | inr count =>
      if count <? target then
        match fuel with
        | O => None
        | S fuel => double_until fuel high (high * 2)
        end
      else Some (inr (low, high))
  end.

(** The second loop: binary search. *)
Fixpoint bisect (fuel : nat) (low high : Z) : option (exn + pystr) :=
  if high <? low then Some (inl ValueError) else
  match fuel with
  | O => None
  | S fuel =>
      let mid := (low + high) / 2 in
      match prompt_count mid with
      | inl e => Some (inl e)
      | inr measured =>
          if measured =? target then Some (inr (prompt mid))
          else if measured <? target then bisect fuel (mid + 1) high
          else bisect fuel low (mid - 1)
      end
  end.

(** [build_exact_prompt]; each [fuel] bounds one of the loops. *)
Definition build_exact_prompt (doubling halving : nat) : option (exn + pystr) :=
  if target <=? 0 then Some (inl ValueError) else
  match double_until doubling 0 1 with
  | None => None
  | Some (inl e) => Some (inl e)
  | Some (inr (low, high)) => bisect halving low high
  end.

(** ** Lemmas *)

(** Whatever the tokenizer, a prompt that is found has the target number of tokens. *)
Lemma bisect_exact fuel low high p : bisect fuel low high = Some (inr p) → templated_count p = inr target.
Proof.
  revert low high. induction fuel as [|fuel IH]; intros low high; cbn [bisect]; destruct (high <? low); try done.
  destruct (prompt_count _) as [e|c] eqn:Hc; [done|]. destruct (Z.eqb_spec c target) as [->|]; [by intros [= <-]|].
  destruct (c <? target); apply IH.
Qed.
Lemma build_exact doubling halving p : build_exact_prompt doubling halving = Some (inr p) → templated_count p = inr target.
Proof.
  unfold build_exact_prompt. destruct (target <=? 0); [done|]. destruct (double_until _ _ _) as [[e|[low high]]|]; try done.
  apply bisect_exact.
Qed.

(** A tokenizer that counts every prompt. *)
Variable tokens : pystr → Z.
Hypothesis counts : ∀ p, templated_count p = inr (tokens p).
Abbreviation token_number n := (tokens (prompt n)).

Hypothesis count_mono : ∀ a b, 0 ≤ a ≤ b → token_number a ≤ token_number b.
Hypothesis count_grows : ∀ n, 0 ≤ n → n ≤ token_number n.

(** Doubling ends with the target between the bounds. *)
Lemma double_until_ok fuel low high :
  0 ≤ low ≤ high → 0 < high → target ≤ high * 2 ^ Z.of_nat fuel →
  (∀ n, 0 ≤ n < low → token_number n < target) →
  ∃ low' high', double_until fuel low high = Some (inr (low', high')) ∧ 0 ≤ low' ≤ high' ∧
    high' ≤ high * 2 ^ Z.of_nat fuel ∧ target ≤ token_number high' ∧
    ∀ n, 0 ≤ n < low' → token_number n < target.
Proof.
  revert low high. induction fuel as [|fuel IH]; intros low high Hlh Hpos Ht Hlow; simpl; unfold prompt_count; rewrite counts.
  - rewrite Z.mul_1_r in *. destruct (token_number high <? target) eqn:Hc.
    + apply Z.ltb_lt in Hc. specialize (count_grows high). lia.
    + apply Z.ltb_ge in Hc. exists low, high. split_and!; (done || lia).
  - rewrite Nat2Z.inj_succ, Z.pow_succ_r in * by lia.
    destruct (token_number high <? target) eqn:Hc; [|apply Z.ltb_ge in Hc; exists low, high; split_and!; try done; try lia].
    + apply Z.ltb_lt in Hc. destruct (IH high (high * 2)) as (l' & h' & Hd & H1 & H2 & H3 & H4); try lia.
      { intros n Hn. eapply Z.le_lt_trans; [|exact Hc]. apply count_mono. lia. }
      exists l', h'. split_and!; try done; lia.
    + assert (0 < 2 ^ Z.of_nat fuel) by (apply Z.pow_pos_nonneg; lia). nia.
Qed.

(** Bisecting finds the target in an interval that encloses it, or shows that no
    number of repetitions reaches it. *)
Lemma bisect_ok fuel low high :
  0 ≤ low → high - low + 1 < 2 ^ Z.of_nat fuel →
  (∀ n, 0 ≤ n < low → token_number n < target) → (∀ n, high < n → 0 ≤ n → target < token_number n ∨ (∃ m, low ≤ m ≤ high ∧ token_number m = target)) →
  match bisect fuel low high with
  | Some (inr p) => ∃ n, 0 ≤ n ∧ p = prompt n ∧ token_number n = target
  | Some (inl e) => e = ValueError ∧ ∀ n, 0 ≤ n → token_number n ≠ target
  | None => False
  end.
Proof.
  revert low high. induction fuel as [|fuel IH]; intros low high Hl Hf Hlow Hhigh; simpl.
  - simpl in Hf. rewrite (proj2 (Z.ltb_lt _ _)) by lia. split; [done|]. intros n Hn Hc.
    destruct (decide (n < low)); [specialize (Hlow n); lia|].
    destruct (Hhigh n) as [|(m & ? & _)]; lia.
  - rewrite Nat2Z.inj_succ, Z.pow_succ_r in Hf by lia. destruct (high <? low) eqn:Hh.
    { apply Z.ltb_lt in Hh. split; [done|]. intros n Hn Hc.
      destruct (decide (n < low)); [specialize (Hlow n); lia|].
      destruct (Hhigh n) as [|(m & ? & _)]; lia. }
    apply Z.ltb_ge in Hh. set (mid := (low + high) / 2).
    assert (Hmid : low ≤ mid ≤ high) by (split; [apply Z.div_le_lower_bound|apply Z.div_le_upper_bound]; lia).
    assert (Hhalf : mid - low ≤ (high - low) / 2 + 0 ∧ 2 * mid ≤ low + high < 2 * mid + 2).
    { pose proof (Z.div_mod (low + high) 2). pose proof (Z.mod_pos_bound (low + high) 2).
      pose proof (Z.div_mod (high - low) 2). pose proof (Z.mod_pos_bound (high - low) 2). unfold mid. lia. }
    fold mid. unfold prompt_count. rewrite counts.
    destruct (token_number mid =? target) eqn:He; [apply Z.eqb_eq in He; exists mid; split_and!; (done || lia)|].
    apply Z.eqb_neq in He. destruct (token_number mid <? target) eqn:Hc.
    + apply Z.ltb_lt in Hc. apply IH; try lia.
      * intros n Hn. assert (token_number n ≤ token_number mid) by (apply count_mono; lia). lia.
      * intros n Hn Hn0. destruct (Hhigh n Hn Hn0) as [|(m & Hm & Hcm)]; [by left|]. right. exists m.
        split; [|done]. assert (¬ m ≤ mid); [|lia]. intros Hle.
        assert (token_number m ≤ token_number mid) by (apply count_mono; lia). lia.
    + apply Z.ltb_ge in Hc. apply IH; try lia; [done|]. intros n Hn Hn0. left.
      assert (token_number mid ≤ token_number n) by (apply count_mono; lia). lia.
Qed.

(** The search for an exact prompt ends, with few calls of the tokenizer, and
    answers correctly: for a tokenizer whose count grows with the text, [k] steps of
    doubling with [2 ^ k] at least the target, and [k + 2] of bisection, suffice; the
    result has exactly the target number of tokens, and an error means that no
    number of repetitions has. *)
Theorem exact_prompt_found (k : nat) :
  0 < target → target ≤ 2 ^ Z.of_nat k →
  match build_exact_prompt k (k + 2) with
  | Some (inr p) => tokens p = target
  | Some (inl e) => e = ValueError ∧ ∀ n, 0 ≤ n → token_number n ≠ target
  | None => False
  end.
Proof.
  intros Hpos Hk. unfold build_exact_prompt. rewrite (proj2 (Z.leb_gt _ _)) by done.
  destruct (double_until_ok k 0 1) as (low & high & -> & Hlh & Hh & Hc & Hlow); [lia..|intros n Hn; lia|].
  assert (Hp : 1 ≤ 2 ^ Z.of_nat k) by (assert (0 < 2 ^ Z.of_nat k) by (apply Z.pow_pos_nonneg; lia); lia).
  assert (Hb : match bisect (k + 2) low high with
               | Some (inr p) => ∃ n, 0 ≤ n ∧ p = prompt n ∧ token_number n = target
               | Some (inl e) => e = ValueError ∧ ∀ n, 0 ≤ n → token_number n ≠ target
               | None => False
               end).
  { apply bisect_ok; [lia| |done|].
    - rewrite Nat2Z.inj_add, Z.pow_add_r by lia. change (2 ^ Z.of_nat 2) with 4. lia.
    - intros n Hn Hn0. assert (token_number high ≤ token_number n) by (apply count_mono; lia).
      destruct (decide (token_number n = target)); [right; exists high|left]; lia. }
  destruct (bisect (k + 2) low high) as [[e|p]|]; [done| |done]. by destruct Hb as (n & _ & -> & Hn).
Qed.
End search.

(** A template of ten tokens and one token for each letter of the unit [ab]. *)
Definition demo_tokens (p : pystr) : Z := 10 + Z.of_nat (length (codes p)).

Lemma repeat_length u n : length (repeat_unit u n) = (n * length u)%nat.
Proof. induction n as [|n IH]; [done|]. cbn [repeat_unit]. rewrite length_app, IH. lia. Qed.

Lemma demo_tokens_repeat n : demo_tokens (prompt "ab"%py n) = 10 + 2 * Z.of_nat (Z.to_nat n).
Proof.
  unfold demo_tokens, prompt. cbn [codes]. rewrite repeat_length.
  change (length _) with 2%nat. lia.
Qed.

Lemma exact_prompt_found_witness :
  ∃ p, build_exact_prompt (λ p, inr (demo_tokens p)) "ab" 14 4 6 = Some (inr p) ∧ demo_tokens p = 14.
Proof.
  assert (Hm : ∀ a b, 0 ≤ a ≤ b → demo_tokens (prompt "ab" a) ≤ demo_tokens (prompt "ab" b))
    by (intros a b ?; rewrite !demo_tokens_repeat; lia).
  assert (Hg : ∀ n, 0 ≤ n → n ≤ demo_tokens (prompt "ab" n)) by (intros n ?; rewrite !demo_tokens_repeat; lia).
  assert (Hf := exact_prompt_found (λ p, inr (demo_tokens p)) "ab" 14 demo_tokens (λ _, eq_refl) Hm Hg 4).
  destruct (build_exact_prompt _ "ab" 14 4 (4 + 2)) as [[e|p]|] eqn:Hb;
    [vm_compute in Hb; discriminate Hb| |vm_compute in Hb; discriminate Hb].
  exists p. split; [exact Hb|]. apply Hf; vm_compute; congruence.
Defined.

(** * The script *)

Section main.
Context `{FloatText}.
Variable depth : nat.
(** [AutoTokenizer.from_pretrained] and the tokenizer's [apply_chat_template]. *)
Variable from_pretrained : pystr → pystr → exn + (pyval → pydict → exn + encoding).

Definition QWEN3_V1_MODEL : pystr := "Qwen/Qwen3-8B"%py.
Definition output_fields (kwargs : pydict) (model prompt revision : pystr) (tokens : Z) : pydict :=
  [("chat_template_kwargs", VDict kwargs); ("model", VStr model); ("prompt", VStr prompt); ("revision", VStr revision);
   ("tokens", VInt tokens)]%py.

(** How [main] ends, after the parsing of the arguments: with a usage error, another
    exception, or the text it writes. *)
Inductive exit := UsageError | Raised (e : exn) | Written (text : pystr).
Definition written (r : exn + pystr) : exit := match r with inl e => Raised e | inr text => Written text end.

(** [main]; the numbers bound the two loops of the search. *)
Definition exact_prompt_main (doubling halving : nat) (model revision kwargs_text : pystr) (target : Z) : option exit :=
  match loads float_parse depth kwargs_text with
  | inl JSONDecodeError => Some UsageError
  | inl e => Some (Raised (json_exn e))
  | inr (VDict kwargs) =>
      if bool_decide (model = QWEN3_V1_MODEL) && negb (match get_none kwargs "enable_thinking"%py with VBool false => true | _ => false end)
      then Some UsageError else
      match from_pretrained model revision with
      | inl e => Some (Raised e)
      | inr apply_chat_template =>
          let count := templated_token_count apply_chat_template kwargs in
          match build_exact_prompt count "x "%py target doubling halving with
          | None => None
          | Some (inl e) => Some (Raised e)
          | Some (inr prompt) =>
              Some (written
                (let? measured := count prompt in
                 inr (PyStr (json_text [44; 32]%N [58; 32]%N json_ascii_string
                               (sort_keys (VDict (output_fields kwargs model prompt revision measured))) ++ [10%N]))))
          end
      end
  | inr _ => Some UsageError
  end.

(** What the script writes is a prompt that this tokenizer counts as exactly the target,
    with that count, under the template arguments it was given; for the benchmarked Qwen
    model these switch thinking off. *)
Theorem written_exact doubling halving model revision kwargs_text target text :
  exact_prompt_main doubling halving model revision kwargs_text target = Some (Written text) →
  ∃ kwargs apply_chat_template prompt,
    loads float_parse depth kwargs_text = inr (VDict kwargs) ∧ from_pretrained model revision = inr apply_chat_template ∧
    (model = QWEN3_V1_MODEL → get_none kwargs "enable_thinking"%py = VBool false) ∧
    templated_token_count apply_chat_template kwargs prompt = inr target ∧
    text = PyStr (json_text [44; 32]%N [58; 32]%N json_ascii_string
                    (sort_keys (VDict (output_fields kwargs model prompt revision target))) ++ [10%N]).
Proof.
  unfold exact_prompt_main. destruct (loads _ _ _) as [[]|[| | | | | |kwargs]]; try done.
  destruct (bool_decide _ && _) eqn:Hq; [done|]. destruct (from_pretrained model revision) as [e|apply_chat_template]; [done|].
  destruct (build_exact_prompt _ _ _ _ _) as [[e|prompt]|] eqn:Hb; try done. apply build_exact in Hb. rewrite Hb. cbn [sum_bind written].
  intros [= <-]. exists kwargs, apply_chat_template, prompt. split_and!; try done. intros ->. rewrite bool_decide_true in Hq by done.
  cbn [andb] in Hq. destruct (get_none kwargs _) as [|[]| | | | |]; done.
Qed.
End main.

Example token_count_forms :
  token_count (Encoding (Some (VList [VInt 1; VInt 2])) None) = inr 2 ∧
  token_count (Encoding None (Some [("input_ids", VList [VList [VInt 1; VInt 2; VInt 3]]); ("attention_mask", VNone)]%py)) = inr 3 ∧
  token_count (Encoding None (Some [("input_ids", VList [VList []; VList []])]%py)) = inl ValueError ∧
  token_count (Encoding None (Some [])) = inl TypeError.
Proof. done. Qed.
