(* ===== verification/Isolation.v ===== *)
(** benchmark/scripts/run_tenant_isolation.py: two clients of different tenants at the same
    time, each a process of the benchmark program.  The operating system is a parameter. *)
From Stdlib Require Import SpecFloat.
From S2P Require Import Prelude.
From S2P Require Import Python.
From S2P Require Import Errors.
From S2P Require Import Json.
From S2P Require Import JsonLoads.
From S2P Require Import PlainFloats.
From S2P Require Import Chat.
From S2P Require Import Vllm.
From S2P Require Import Topology.
From S2P Require Import Results.
From S2P Require Import Laboratory.
From S2P Require Import Conversions.
From S2P Require Import Matrix.
From S2P Require Import ExactPrompt.

(** * State *)

(** The files, the processes that run, the logs that are open, and the commands that were
    started with their environments. *)
Record scene := Scene {
  sn_files : files;
  sn_running : list Z;
  sn_open : list pystr;
  sn_started : list (list pystr * (pystr → option pystr));
}.
Abbreviation stage := (sem scene exn).

(** What [main] keeps of a client: its label, its process and its logs. *)
Record client_process := ClientProcess {
  cp_label : pystr;
  cp_pid : Z;
  cp_stdout : pystr;
  cp_stderr : pystr;
}.

Definition on_running (f : list Z → list Z) (s : scene) : scene := Scene (sn_files s) (f (sn_running s)) (sn_open s) (sn_started s).
Definition on_open (f : list pystr → list pystr) (s : scene) : scene := Scene (sn_files s) (sn_running s) (f (sn_open s)) (sn_started s).
Definition put_file (path text : pystr) (s : scene) : scene :=
  Scene (<[path := text]> (sn_files s)) (sn_running s) (sn_open s) (sn_started s).
Definition without {A} `{EqDecision A} (x : A) (l : list A) : list A := filter (λ y, y ≠ x) l.

Section isolation.
Context `{FloatText}.
Variable container_repr : pyval → pystr.
Variable decimal : N → option Z.
Variable float_of_text : pystr → exn + spec_float.
Variable root : pystr.
Variable depth : nat.
Variable environ : pystr → option pystr.
(** How making a directory, opening a log and writing a file fail, if they do. *)
Variable mkdir open_error write_error : pystr → option exn.
(** [Popen]; the status a process ends with, when it is waited for; whether it has ended
    when it is looked at; how sleeping fails; the texts of the current time. *)
Variable popen : list pystr → exn + Z.
Variable exit_status : Z → Z.
Variable ended : Z → bool.
Variable sleep_error : spec_float → option exn.
Variables now started : pystr.
Abbreviation str := (py_str container_repr).
Abbreviation int := (int_of decimal).

Definition io (e : option exn) : stage unit := match e with Some e => raise e | None => ret () end.
Definition open_log (path : pystr) : stage unit :=
  do! io (open_error path) in modify (λ s, on_open (λ l, l ++ [path]) (put_file path ""%py s)).
(** [close], unless it is closed already. *)
Definition close_log (path : pystr) : stage unit := modify (on_open (without path)).

(** * start_client *)

Definition client_config (config client : pydict) : exn + pydict :=
  let? requests := config_item client "requests"%py in
  let? requests := int requests in
  let config' := dict_set config "requests"%py (VInt requests) in
  let? warmup := int (get_or client "warmup"%py (get_or config "warmup"%py (VInt 20))) in
  inr (dict_set config' "warmup"%py (VInt warmup)).
Definition client_target (config client : pydict) : exn + pydict :=
  let? target := config_item config "target"%py in
  let? target := as_dict target in
  let? label := config_item client "label"%py in
  let? credential := config_item client "auth_token_env"%py in
  inr (dict_set (dict_set target "label"%py label) "auth_token_env"%py credential).
Definition client_output (output_root : pystr) (scenario_id label : pystr) : pystr :=
  foldl path_join output_root [scenario_id; label; "client-result.json"]%py.
Definition client_credential (client : pydict) : exn + pystr :=
  let? name := config_item client "auth_token_env"%py in
  match name with
  | VStr name => match environ name with Some c => inr c | None => inl ValueError end
  | _ => inl TypeError
  end.
Definition client_environment (token : pystr) : pystr → option pystr :=
  λ name, if decide (name = "BENCH_AUTH_TOKEN"%py) then Some token else environ name.
Definition client_metadata (command : list pystr) : pydict :=
  [("started_utc", VStr started); ("command", VList (VStr <$> command)); ("credential_source", VStr "environment");
   ("scenario", VStr "tenant_isolation")]%py.

Definition start_client (config client : pydict) (output_root : pystr) (scenario_id : pyval) : stage client_process :=
  let! config' := lift (client_config config client) in
  let! target := lift (client_target config client) in
  let! scenario := lift (match scenario_id with VStr s => inr s | _ => inl TypeError end) in
  let! label := lift (let? v := config_item client "label"%py in match v with VStr s => inr s | _ => inl TypeError end) in
  let output := client_output output_root scenario label in
  do! io (mkdir (path_parent output)) in
  let! concurrency := lift (let? v := config_item client "concurrency"%py in int v) in
  let! command := lift (build_command container_repr decimal root config' target "non_streaming"%py concurrency 1 1 output
                          (cat [scenario; "-"; label]%py)) in
  let! token := lift (client_credential client) in
  let out := path_join (path_parent output) "stdout.log"%py in
  let err := path_join (path_parent output) "stderr.log"%py in
  do! open_log out in
  do! open_log err in
  let! pid := lift (popen command) in
  do! modify (λ s, Scene (sn_files s) (sn_running s ++ [pid]) (sn_open s) (sn_started s ++ [(command, client_environment token)])) in
  do! io (write_error (process_path output)) in
  do! modify (put_file (process_path output) (PyStr (json_indented 0 (VDict (client_metadata command)) ++ [10%N]))) in
  ret (ClientProcess label pid out err).

(** * main *)

(** [process.wait] and [process.poll] ([None] is [false]). *)
Definition wait (pid : Z) : stage Z := do! modify (on_running (without pid)) in ret (exit_status pid).
Definition poll (pid : Z) : stage bool :=
  let! s := get in
  if bool_decide (pid ∉ sn_running s) || ended pid then do! modify (on_running (without pid)) in ret true else ret false.

(** The loop over the clients: [processes] is what was appended when it ends, normally or not. *)
Fixpoint start_clients (config : pydict) (output_root : pystr) (scenario_id : pyval) (index : nat) (clients : list pyval)
    (processes : list client_process) : sem scene (exn * list client_process) (list client_process) :=
  match clients with
  | [] => ret processes
  | client :: clients =>
      λ s,
        match (do! match index with
                   | O => ret ()
                   | _ => let! d := lift (float_of float_of_text (get_or config "probe_start_delay_seconds"%py (VInt 1))) in io (sleep_error d)
                   end in
               let! client := lift (match client with VDict d => inr d | _ => inl TypeError end) in
               start_client config client output_root scenario_id) s with
        | (inl e, s) => (inl (e, processes), s)
        | (inr p, s) => start_clients config output_root scenario_id (S index) clients (processes ++ [p]) s
        end
  end.

(** Waiting for all: the labels of the clients that failed. *)
Fixpoint wait_all (processes : list client_process) : stage (list pystr) :=
  match processes with
  | [] => ret []
  | p :: processes =>
      let! status := wait (cp_pid p) in
      do! close_log (cp_stdout p) in
      do! close_log (cp_stderr p) in
      let! failed := wait_all processes in
      ret (if status =? 0 then failed else cp_label p :: failed)
  end.
Fixpoint terminate_all (processes : list client_process) : stage unit :=
  match processes with
  | [] => ret ()
  | p :: processes =>
      let! gone := poll (cp_pid p) in
      do! if (gone : bool) then ret () else do! wait (cp_pid p) in ret () in
      do! close_log (cp_stdout p) in
      do! close_log (cp_stderr p) in
      terminate_all processes
  end.

(** The configuration, the clients and the scenario's name. *)
Definition scenario (file : exn + pystr) : exn + (pydict * list pyval * pyval) :=
  let? text := file in
  let? document := match loads float_parse depth text with inl e => inl (json_exn e) | inr v => inr v end in
  let? config := expand environ document in
  let? config := as_dict config in
  if negb (py_eq (get_none config "schema_version"%py) (VInt 1)) then inl ValueError else
  let? n := py_len (get_or config "clients"%py (VList [])) in
  if negb (n =? 2) then inl ValueError else
  let? target := config_item config "target"%py in
  let? target := as_dict target in
  do? validate_admission container_repr decimal target in
  let run_id := get_none config "run_id"%py in
  let? clients := config_item config "clients"%py in
  let? clients := items_of clients in
  inr (config, clients, if py_truthy run_id then run_id else VStr now).

(** How the script ends: with an exit code, or with an exception that is not handled. *)
Inductive ending := Exit (code : Z) | Unhandled (e : exn).
Definition handled_errors (e : exn) : bool := is_os_error e || bool_decide (e = ValueError) || bool_decide (e = RuntimeError).
Definition isolation_main (file : exn + pystr) (output_root : pystr) (s : scene) : ending * scene :=
  let fail (e : exn) processes s :=
    if handled_errors e then match terminate_all processes s with (inl e, s) => (Unhandled e, s) | (inr _, s) => (Exit 1, s) end
    else (Unhandled e, s) in
  match scenario file with
  | inl e => fail e [] s
  | inr (config, clients, scenario_id) =>
      match start_clients config output_root scenario_id 0 clients [] s with
      | (inl (e, processes), s) => fail e processes s
      | (inr processes, s) =>
          match wait_all processes s with
          | (inl e, s) => fail e processes s
          | (inr [], s) => (Exit 0, s)
          | (inr _, s) => fail RuntimeError processes s
          end
      end
  end.

(** * Nothing is left behind *)

Definition logs (processes : list client_process) : list pystr := processes ≫= λ p, [cp_stdout p; cp_stderr p].
(** Every process that runs and every open log is one of these clients'. *)
Definition tracked (processes : list client_process) (s : scene) : Prop :=
  (∀ pid, pid ∈ sn_running s → pid ∈ cp_pid <$> processes) ∧ (∀ l, l ∈ sn_open s → l ∈ logs processes).

Lemma without_in {A} `{EqDecision A} (x y : A) l : y ∈ without x l ↔ y ∈ l ∧ y ≠ x.
Proof. unfold without. rewrite list_elem_of_filter. tauto. Qed.
Lemma empty_list {A} (l : list A) : (∀ x, x ∉ l) → l = [].
Proof. destruct l as [|x l]; [done|]. intros Hno. destruct (Hno x). left. Qed.
Lemma tracked_nil s : tracked [] s ↔ sn_running s = [] ∧ sn_open s = [].
Proof.
  split; [intros [H1 H2]|intros [H1 H2]; split; [rewrite H1|rewrite H2]; by intros x ?%elem_of_nil].
  split; apply empty_list; intros x Hx; [by apply H1, elem_of_nil in Hx|by apply H2, elem_of_nil in Hx].
Qed.

(** A client is out of the way: its process does not run and its logs are closed. *)
Lemma tracked_cons p ps s : tracked (p :: ps) s → cp_pid p ∉ sn_running s → cp_stdout p ∉ sn_open s → cp_stderr p ∉ sn_open s → tracked ps s.
Proof.
  intros [H1 H2] N1 N2 N3. split.
  - intros pid Hp. specialize (H1 pid Hp). rewrite fmap_cons in H1. apply elem_of_cons in H1 as [->|]; done.
  - intros l Hl. specialize (H2 l Hl). unfold logs in *. rewrite bind_cons in H2. cbn [app] in H2.
    rewrite !elem_of_cons in H2. destruct H2 as [->|[->|]]; done.
Qed.
Lemma tracked_close p ps r s : tracked (p :: ps) s →
  (∀ x, x ∈ r ↔ x ∈ sn_running s ∧ x ≠ cp_pid p) →
  tracked ps (on_open (without (cp_stderr p)) (on_open (without (cp_stdout p)) (on_running (λ _, r) s))).
Proof.
  intros [H1 H2] Hr. assert (Hn : ∀ (x y : pystr) l, y ∈ l → y ≠ x → y ∈ without x l) by (intros; by apply without_in).
  apply (tracked_cons p); cbn.
  - split; cbn; [intros pid Hp; apply H1; by apply Hr|]. intros l [[Hl _]%without_in _]%without_in. by apply H2.
  - intros [_ Hx]%Hr. done.
  - intros [[_ Hx]%without_in _]%without_in. done.
  - intros [_ Hx]%without_in. done.
Qed.

Lemma wait_all_tracked ps s : tracked ps s → ∃ failed s', wait_all ps s = (inr failed, s') ∧ tracked [] s' ∧ sn_started s' = sn_started s.
Proof.
  revert s. induction ps as [|p ps IH]; intros s Ht; [by exists [], s|].
  cbn [wait_all]. unfold wait, close_log, bind, modify, ret.
  edestruct IH as (failed & s' & -> & Ht' & Es); [apply (tracked_close p ps (without (cp_pid p) (sn_running s)) s Ht); intros x; apply without_in|].
  by eexists _, s'.
Qed.
Lemma terminate_all_tracked ps s : tracked ps s →
  ∃ s', terminate_all ps s = (inr (), s') ∧ tracked [] s' ∧ sn_started s' = sn_started s.
Proof.
  revert s. induction ps as [|p ps IH]; intros s Ht; [by exists s|].
  cbn [terminate_all]. unfold poll, wait, close_log, bind, get, modify, ret.
  destruct (bool_decide _ || ended _);
    (edestruct IH as (s' & -> & Ht' & Es); [apply (tracked_close p ps (without (cp_pid p) (sn_running s)) s Ht); intros x; apply without_in|]);
    by exists s'.
Qed.

(** Logs can be opened, processes started and their records written. *)
Hypothesis opens : ∀ path, open_error path = None.
Hypothesis writes : ∀ path, write_error path = None.
Hypothesis starts : ∀ command, ∃ pid, popen command = inr pid.

Lemma start_client_tracked ps config client output_root scenario_id s : tracked ps s →
  wp (start_client config client output_root scenario_id)
    (λ p s', tracked (ps ++ [p]) s' ∧ length (sn_started s') = S (length (sn_started s)))
    (λ _ s', tracked ps s' ∧ sn_started s' = sn_started s) s.
Proof.
  intros Ht. unfold start_client. do 4 (apply wp_bind, wp_lift; [intros ? _|done]).
  apply wp_bind. unfold io at 1. destruct (mkdir _); [by apply wp_raise|]. apply wp_ret.
  do 3 (apply wp_bind, wp_lift; [intros ? _|done]). unfold open_log, io. rewrite !opens, writes.
  apply wp_bind, wp_bind, wp_ret, wp_modify, wp_bind, wp_bind, wp_ret, wp_modify, wp_bind, wp_lift.
  2: { intros e He. destruct (starts a4) as [pid Hp]. congruence. }
  intros pid _. apply wp_bind, wp_modify, wp_bind, wp_ret, wp_bind, wp_modify, wp_ret. cbn.
  destruct Ht as [H1 H2]. split; [|by rewrite length_app, Nat.add_comm]. split; cbn.
  - intros x. rewrite fmap_app, !elem_of_app. intros [?|?]; [left; by apply H1|by right].
  - intros l. unfold logs. rewrite bind_app, !elem_of_app. cbn. intros [[Hl|Hl]|Hl]; [left; by apply H2|right; set_solver..].
Qed.
Lemma start_clients_tracked config output_root scenario_id clients index ps s : tracked ps s →
  match start_clients config output_root scenario_id index clients ps s with
  | (inr ps', s') => tracked ps' s' ∧ length (sn_started s') = (length clients + length (sn_started s))%nat
  | (inl (_, ps'), s') => tracked ps' s'
  end.
Proof.
  revert index ps s. induction clients as [|client clients IH]; intros index ps s Ht; cbn [start_clients]; [done|].
  match goal with |- context [match ?m s with _ => _ end] => assert (Hm : wp m
    (λ p s', tracked (ps ++ [p]) s' ∧ length (sn_started s') = S (length (sn_started s)))
    (λ _ s', tracked ps s' ∧ sn_started s' = sn_started s) s) end.
  { apply wp_bind. apply (wp_mono _ (λ _ s', s' = s) _ (λ _ s', s' = s)).
    - destruct index; [by apply wp_ret|]. apply wp_bind, wp_lift; [|done]. intros d _. unfold io. by destruct (sleep_error d).
    - intros [] s' ->. cbv beta. apply wp_bind, wp_lift; [|done]. intros d _. by apply start_client_tracked.
    - intros e s' ->. done. }
  unfold wp in Hm. destruct (bind _ _ s) as [[e|p] s1]; [by destruct Hm|]. destruct Hm as [Ht1 Hl].
  specialize (IH (S index) (ps ++ [p]) s1 Ht1). destruct (start_clients _ _ _ _ _ _ s1) as [[[e ps']|ps'] s2]; [done|].
  destruct IH as [? ->]. split; [done|]. rewrite Hl. cbn [length]. lia.
Qed.

(** However the script ends with an exit code, no client it started runs any more and all
    logs are closed; and 0 means that both clients were started. *)
Theorem isolation_cleans_up file output_root s code s' :
  sn_running s = [] → sn_open s = [] → isolation_main file output_root s = (Exit code, s') →
  sn_running s' = [] ∧ sn_open s' = [] ∧ (code = 0 → length (sn_started s') = (2 + length (sn_started s))%nat).
Proof.
  intros Hr Ho. assert (Ht : tracked [] s) by by apply tracked_nil. unfold isolation_main.
  assert (Hfail : ∀ e ps s1, tracked ps s1 →
    (if handled_errors e then match terminate_all ps s1 with (inl e, s) => (Unhandled e, s) | (inr _, s) => (Exit 1, s) end
     else (Unhandled e, s1)) = (Exit code, s') → sn_running s' = [] ∧ sn_open s' = [] ∧ code = 1).
  { intros e ps s1 Ht1. destruct (handled_errors e); [|done]. destruct (terminate_all_tracked ps s1 Ht1) as (s2 & -> & Ht2%tracked_nil & _).
    intros [= <- <-]. by destruct Ht2. }
  assert (Hn : ∀ P, sn_running s' = [] ∧ sn_open s' = [] ∧ code = 1 → sn_running s' = [] ∧ sn_open s' = [] ∧ (code = 0 → P))
    by (intros P (? & ? & ->); done).
  destruct (scenario file) as [e|[[config clients] scenario_id]] eqn:Hs; [intros Hf; exact (Hn _ (Hfail e [] s Ht Hf))|].
  assert (Hc : length clients = 2%nat).
  { unfold scenario in Hs. apply sum_bind_inr in Hs as (text & _ & (doc & _ & (w & _ & (c & _ & Hs)%sum_bind_inr)%sum_bind_inr)%sum_bind_inr).
    destruct (negb _); [done|]. apply sum_bind_inr in Hs as (n & Hlen & Hs). destruct (Z.eqb_spec n 2) as [->|]; [|done]. cbn [negb] in Hs.
    do 2 (apply sum_bind_inr in Hs as (? & _ & Hs)). apply sum_bind_inr in Hs as ([] & _ & Hs).
    apply sum_bind_inr in Hs as (cs & Hcs & Hs). apply sum_bind_inr in Hs as (items & Hi & Hs). injection Hs as <- <- _.
    unfold config_item, subscript in Hcs. unfold get_or in Hlen. destruct (dict_get c "clients"%py) as [v|]; [|done]. injection Hcs as ->.
    cbn [from_option id] in Hlen. destruct cs; try done; cbn in Hi, Hlen; injection Hi as <-; injection Hlen as Hlen;
      rewrite ?length_fmap; lia. }
  pose proof (start_clients_tracked config output_root scenario_id clients 0 [] s Ht) as Hst.
  destruct (start_clients _ _ _ _ _ _ s) as [[[e ps]|ps] s1]; [intros Hf; exact (Hn _ (Hfail e ps s1 Hst Hf))|]. destruct Hst as [Ht1 Hl].
  destruct (wait_all_tracked ps s1 Ht1) as (failed & s2 & -> & Ht2 & Es). destruct failed as [|f failed].
  - intros [= <- <-]. apply tracked_nil in Ht2 as [-> ->]. split_and!; try done. intros _. rewrite Es, Hl, Hc. done.
  - intros Hf. refine (Hn _ (Hfail RuntimeError ps s2 _ Hf)). apply tracked_nil in Ht2 as [E1 E2].
    split; [rewrite E1|rewrite E2]; by intros x ?%elem_of_nil.
Qed.
End isolation.

(** * One exception

    When a client's record cannot be written, the client has been started already but is
    not among the processes that are terminated: it runs on. *)
Section demo.
#[local] Existing Instances plain_floats plain_texts.

Definition demo_client (label token : pystr) : pyval :=
  VDict [("label", VStr label); ("auth_token_env", VStr token); ("concurrency", VInt 1); ("requests", VInt 40)]%py.
Definition demo_scenario : pydict :=
  [("schema_version", VInt 1); ("run_id", VStr "t"); ("model", VStr "m"); ("dataset", VStr "d"); ("target", VDict [("base_url", VStr "u")]);
   ("clients", VList [demo_client "noisy" "TOKEN_A"; demo_client "probe" "TOKEN_B"])]%py.
(** The process identifier is the number of the client; [broken] cannot be written. *)
Definition demo_isolation (broken : pystr) (status : Z) : ending * scene :=
  isolation_main (λ _, ""%py) (λ _, None) (λ _, inl ValueError) "/bench"%py 50 (λ n, Some n)
    (λ _, None) (λ _, None) (λ p, if decide (p = broken) then Some (OtherException 20) else None)
    (λ c, inr (if bool_decide ("noisy"%py ∈ c) then 1 else 2)) (λ _, status) (λ _, false) (λ _, None) "now"%py "t0"%py
    (inr (PyStr (dumps (VDict demo_scenario)))) "/out"%py (Scene ∅ [] [] []).

Example isolation_succeeds : let '(e, s) := demo_isolation ""%py 0 in e = Exit 0 ∧ sn_running s = [] ∧
  ((λ ce, ce.2 "BENCH_AUTH_TOKEN"%py) <$> sn_started s = [Some "TOKEN_A"%py; Some "TOKEN_B"%py]).
Proof. vm_compute. done. Qed.
Example isolation_client_fails : (demo_isolation ""%py 3).1 = Exit 1 ∧ sn_running (demo_isolation ""%py 3).2 = [].
Proof. vm_compute. done. Qed.
Theorem isolation_leaves_client :
  let '(e, s) := demo_isolation "/out/t/probe/process.json"%py 0 in
  e = Exit 1 ∧ sn_running s = [2] ∧ sn_open s = ["/out/t/probe/stdout.log"; "/out/t/probe/stderr.log"]%py.
Proof. vm_compute. done. Qed.
End demo.
