(* ===== verification/FakeServer.v ===== *)
(** benchmark/scripts/fake_server.py: the deterministic server of the smoke tests, as a
    function of a request and its two counters.  Sockets, threads and signals are the
    standard library's. *)
From Stdlib Require Import SpecFloat.
From S2P Require Import Prelude.
From S2P Require Import Python.
From S2P Require Import Errors.
From S2P Require Import Json.
From S2P Require Import JsonLoads.
From S2P Require Import PlainFloats.
From S2P Require Import Chat.
From S2P Require Import Compatibility.
From S2P Require Import Batching.
From S2P Require Import Metrics.
From S2P Require Import Sse.
From S2P Require Import Results.
From S2P Require Import Laboratory.

(** The class attributes of [Handler]; the lock is held where they change. *)
Record server := Server { sv_generated_tokens : Z; sv_requests : Z }.

(** What a handler sends: a status with a content type and a body, the events of a stream,
    or the page of [send_error]. *)
Inductive sent :=
| Body (status : Z) (content_type : pystr) (body : list N)
| Events (events : list (list N))
| ErrorPage (status : Z).

Section handler.
Context `{FloatText}.
(** The recursion limit, and the digits of [int]. *)
Variable depth : nat.
Variable decimal : N → option Z.

Definition compact (v : pyval) : list N := json_text [44%N] [58%N] json_ascii_string v.
(** [send_json]. *)
Definition send_json (payload : pyval) (status : Z) : sent := Body status "application/json"%py (compact payload).

Definition metrics_text (s : server) : list N :=
  (codes "# TYPE vllm:generation_tokens counter"%py ++ [10] ++
   codes "vllm:generation_tokens "%py ++ int_repr (sv_generated_tokens s) ++ [10] ++
   codes "# TYPE vllm:request_success counter"%py ++ [10] ++
   codes "vllm:request_success{finished_reason="%py ++ [34] ++ codes "stop"%py ++ [34] ++ codes "} "%py ++ int_repr (sv_requests s) ++ [10] ++
   codes "# TYPE vllm:num_requests_running gauge"%py ++ [10] ++ codes "vllm:num_requests_running 0"%py ++ [10] ++
   codes "# TYPE vllm:num_requests_waiting gauge"%py ++ [10] ++ codes "vllm:num_requests_waiting 0"%py ++ [10] ++
   codes "# TYPE vllm:kv_cache_usage_perc gauge"%py ++ [10] ++ codes "vllm:kv_cache_usage_perc 0"%py ++ [10])%N.

(** [do_GET]. *)
Definition do_GET (path : pystr) (s : server) : sent :=
  if bool_decide (path = "/health"%py) then send_json (VDict [("status", VStr "ok")]%py) 200
  else if negb (bool_decide (path = "/metrics"%py)) then ErrorPage 404
  else Body 200 "text/plain; version=0.0.4"%py (metrics_text s).

Definition data_event (payload : pyval) : list N := (codes "data: "%py ++ compact payload ++ [10; 10])%N.
Definition delta (fields : pydict) : pyval := VDict [("choices", VList [VDict [("delta", VDict fields)]])]%py.
Definition stream_events : list (list N) :=
  [(codes ": keepalive"%py ++ [10; 10])%N ++ data_event (delta [("role", VStr "assistant")]%py);
   data_event (delta [("content", VStr "deterministic")]%py);
   data_event (VDict [("choices", VList []); ("usage", VDict [("completion_tokens", VInt 4)])]%py);
   (codes "data: [DONE]"%py ++ [10; 10])%N].
Definition completion : pyval :=
  VDict [("id", VStr "fake"); ("object", VStr "chat.completion");
         ("choices", VList [VDict [("index", VInt 0);
            ("message", VDict [("role", VStr "assistant"); ("content", VStr "deterministic")])]]);
         ("usage", VDict [("prompt_tokens", VInt 8); ("completion_tokens", VInt 4); ("total_tokens", VInt 12)])]%py.

(** [do_POST] with the header [Content-Length] and the bytes of the body; or how it raises. *)
Definition parse_body (content_length : option pystr) (body : list N) : exn + pyval :=
  let? n := py_int decimal (default "0"%py content_length) in
  match loads_bytes float_parse depth (if n <? 0 then body else take (Z.to_nat n) body) with
  | inl e => inl (json_exn e)
  | inr v => inr v
  end.
Definition do_POST (path : pystr) (content_length : option pystr) (body : list N) (s : server) : (exn + sent) * server :=
  if negb (bool_decide (path = "/v1/chat/completions"%py)) then (inr (ErrorPage 404), s) else
  match parse_body content_length body with
  | inl e => (if bool_decide (e = ValueError) then inr (send_json (VDict [("error", VDict [("code", VStr "invalid_json")])]%py) 400)
              else inl e, s)
  | inr payload =>
      let s := Server (sv_generated_tokens s + 4) (sv_requests s + 1) in
      (let? payload := as_dict payload in
       inr (if py_truthy (get_none payload "stream"%py) then Events stream_events else send_json completion 200), s)
  end.

(** * What the smoke tests rely on *)

Fixpoint serve_all (posts : list (pystr * option pystr * list N)) (s : server) : server :=
  match posts with [] => s | (path, n, body) :: posts => serve_all posts (do_POST path n body s).2 end.

(** Four tokens are counted for each counted request, whatever is posted. *)
Theorem tokens_per_request posts : let s := serve_all posts (Server 0 0) in
  sv_generated_tokens s = 4 * sv_requests s ∧ 0 ≤ sv_requests s ≤ Z.of_nat (length posts).
Proof.
  cbv zeta. assert (Hg : ∀ s, sv_generated_tokens s = 4 * sv_requests s → 0 ≤ sv_requests s →
    sv_generated_tokens (serve_all posts s) = 4 * sv_requests (serve_all posts s) ∧
    0 ≤ sv_requests (serve_all posts s) ≤ sv_requests s + Z.of_nat (length posts)).
  { induction posts as [|[[path n] body] posts IH]; intros s Hs Hpos; cbn [serve_all length]; [split; [done|lia]|].
    assert (Hstep : sv_generated_tokens (do_POST path n body s).2 = 4 * sv_requests (do_POST path n body s).2 ∧
      0 ≤ sv_requests (do_POST path n body s).2 ≤ sv_requests s + 1).
    { unfold do_POST. case_match; [cbn; split; [done|lia]|]. case_match; cbn; lia. }
    destruct Hstep as [H1 H2]. destruct (IH _ H1 ltac:(lia)) as [H3 H4]. split; [done|lia]. }
  destruct (Hg (Server 0 0) eq_refl ltac:(done)) as [H1 H2]. split; [done|cbn in H2; lia].
Qed.

(** What is posted as JSON but is no object is counted, and then not answered. *)
Theorem counted_unanswered content_length body s v :
  parse_body content_length body = inr v → is_dict v = false →
  do_POST "/v1/chat/completions"%py content_length body s =
    (inl AttributeError, Server (sv_generated_tokens s + 4) (sv_requests s + 1)).
Proof. intros Hp Hd. unfold do_POST. rewrite Hp. by destruct v. Qed.
End handler.

(** The gateway's observer of a stream sees of the server's stream a first content and the
    four tokens that the server counts for it. *)
Section observed.
#[local] Existing Instances plain_floats plain_texts.
Definition observe_stream (chunks : list (list N)) : option sse :=
  match sse_init 4096 with
  | inl _ => None
  | inr s => foldl (λ s chunk, match s with
      | Some s => observe_bytes (sse_loads plain_float_parse 50) (λ _, true) Z.of_nat 0 (Some "fake"%py) (Some 0) chunk s
      | None => None end) (Some s) chunks
  end.
Theorem fake_stream_observed :
  match observe_stream stream_events with
  | Some s => ss_first s = true ∧ ss_usage s = Some UObserved ∧ ss_tokens s = Some 4 ∧ ss_disabled s = false ∧ ss_buffer s = []
  | None => False
  end.
Proof. vm_compute. done. Qed.
End observed.
