(* ===== verification/MetricsText.v ===== *)
(** The reading of Prometheus texts in benchmark/scripts/summarize.py: the two regular
    expressions as matchers, the series of a text, and the counter deltas of the metric
    files of a result. *)
From Stdlib Require Import SpecFloat.
From S2P Require Import Prelude.
From S2P Require Import Python.
From S2P Require Import Errors.
From S2P Require Import Json.
From S2P Require Import JsonLoads.
From S2P Require Import Laboratory.
From S2P Require Import Results.
From S2P Require Import Conversions.
From S2P Require Import Matrix.
From S2P Require Import FakeServer.

Fixpoint span (p : N → bool) (cs : list N) : list N * list N :=
  match cs with
  | c :: cs' => if p c then let '(w, r) := span p cs' in (c :: w, r) else ([], cs)
  | [] => ([], [])
  end.

Section text.
(** The characters of [\d] and [\w], by the Unicode database; [float] of a text; the
    decoding of escapes. *)
Variable is_digit is_word : N → bool.
Variable float_of_text : pystr → exn + spec_float.
Variable unescape : pystr → exn + pystr.

(** * SAMPLE *)

Definition name_start (c : N) : bool := (((65 <=? c) && (c <=? 90)) || ((97 <=? c) && (c <=? 122)) || (c =? 95) || (c =? 58))%N.
Definition name_char (c : N) : bool := name_start c || digit_char c.
Definition sign_char (c : N) : bool := ((c =? 43) || (c =? 45))%N.
Definition take_sign (cs : list N) : list N * list N :=
  match cs with c :: cs' => if sign_char c then ([c], cs') else ([], cs) | [] => ([], []) end.

(** The third group: a number as a prefix of what is left. *)
Definition match_exponent (cs : list N) : list N :=
  match cs with
  | c :: cs =>
      if (c =? 101)%N || (c =? 69)%N then
        let '(sign, r) := take_sign cs in
        match span is_digit r with ([], _) => [] | (ds, _) => c :: sign ++ ds end
      else []
  | [] => []
  end.
Definition match_number (cs : list N) : option (list N) :=
  let '(sign, r) := take_sign cs in
  let '(whole, r) := span is_digit r in
  match whole, r with
  | [], 46%N :: r => match span is_digit r with ([], _) => None | (ds, r) => Some (sign ++ 46%N :: ds ++ match_exponent r) end
  | [], _ => None
  | _, 46%N :: r => let '(ds, r) := span is_digit r in Some (sign ++ whole ++ 46%N :: ds ++ match_exponent r)
  | _, r => Some (sign ++ whole ++ match_exponent r)
  end.
(** White space and the number. *)
Definition match_value (cs : list N) : option (list N) :=
  match span is_space cs with ([], _) => None | (_, r) => match_number r end.

(** The second group, after its opening brace: up to the last brace that is followed by a
    value. *)
Fixpoint match_braces (acc cs : list N) : option (list N * list N) :=
  match cs with
  | [] => None
  | c :: cs =>
      match match_braces (acc ++ [c]) cs with
      | Some r => Some r
      | None => if (c =? 125)%N then match match_value cs with Some n => Some (acc ++ [c], n) | None => None end else None
      end
  end.
Definition match_sample (cs : list N) : option (pystr * list N * pystr) :=
  match cs with
  | c :: _ =>
      if name_start c then
        let '(name, r) := span name_char cs in
        match r with
        | 123%N :: r => match match_braces [123%N] r with Some (ls, n) => Some (PyStr name, ls, PyStr n) | None => None end
        | r => match match_value r with Some n => Some (PyStr name, [], PyStr n) | None => None end
        end
      else None
  | [] => None
  end.

(** * LABEL *)

(** The second group, after the opening quote, and what follows the closing one. *)
Fixpoint label_value (cs : list N) : option (list N * list N) :=
  match cs with
  | [] => None
  | c :: cs =>
      if (c =? 34)%N then Some ([], cs)
      else if (c =? 92)%N then
        match cs with
        | d :: cs => if (d =? 10)%N then None else match label_value cs with Some (v, r) => Some (c :: d :: v, r) | None => None end
        | [] => None
        end
      else match label_value cs with Some (v, r) => Some (c :: v, r) | None => None end
  end.
Definition label_at (cs : list N) : option (list N * list N * list N) :=
  match span is_word cs with
  | ([], _) => None
  | (name, 61%N :: 34%N :: r) => match label_value r with Some (v, r) => Some (name, v, r) | None => None end
  | _ => None
  end.
(** [LABEL.findall]; every turn takes a character. *)
Fixpoint find_labels (fuel : nat) (cs : list N) : list (list N * list N) :=
  match fuel, cs with
  | S fuel, _ :: cs' =>
      match label_at cs with Some (name, v, r) => (name, v) :: find_labels fuel r | None => find_labels fuel cs' end
  | _, _ => []
  end.

Definition label_le (x y : pystr * pystr) : Prop :=
  (if bool_decide (x.1 = y.1) then codes_le (codes x.2) (codes y.2) else codes_le (codes x.1) (codes y.1)) = true.
#[local] Instance label_le_dec x y : Decision (label_le x y) := decide (_ = true).
Definition read_labels (text : list N) : exn + labels :=
  let? ls := map_exn (λ nv, let? v := unescape (PyStr nv.2) in inr (PyStr nv.1, v)) (find_labels (length text) text) in
  inr (merge_sort label_le ls).

(** * parse_prometheus_text *)

(** [series[name, labels] = v]. *)
Fixpoint series_set (s : series) (k : pystr * labels) (v : spec_float) : series :=
  match s with
  | [] => [(k, v)]
  | (k', v') :: s => if bool_decide (k' = k) then (k', v) :: s else (k', v') :: series_set s k v
  end.
Fixpoint read_lines (lines : list pystr) (s : series) : exn + series :=
  match lines with
  | [] => inr s
  | line :: lines =>
      match match_sample (codes (str_strip line)) with
      | None => read_lines lines s
      | Some (name, text, number) =>
          let? ls := read_labels text in
          let? v := float_of_text number in
          read_lines lines (series_set s (name, ls) v)
      end
  end.
Definition parse_prometheus_text (raw : pystr) : exn + series := read_lines (str_splitlines [] false (codes raw)) [].

(** * artifact_counter_deltas *)

Section artifacts.
Variable float_sum : list spec_float → spec_float.
Variable fs : files.

Definition sources : list (pystr * pystr) :=
  [("gateway", "gateway_observed_output_tokens_total"); ("vllm", "vllm:generation_tokens")]%py.
(** [result_path.parent / name], of a name that is not empty or null. *)
Definition artifact_path (result_path : pystr) (name : pyval) : exn + pystr :=
  match name with VStr s => inr (path_join (path_parent result_path) s) | _ => inl TypeError end.
Fixpoint deltas_of (artifacts : pydict) (result_path : pystr) (sources : list (pystr * pystr)) : exn + list (pystr * counter_change) :=
  match sources with
  | [] => inr []
  | (source, name) :: sources =>
      let before_name := get_none artifacts (cat [source; "_before"]%py) in
      let after_name := get_none artifacts (cat [source; "_after"]%py) in
      if negb (py_truthy before_name) || negb (py_truthy after_name) then deltas_of artifacts result_path sources else
      let? before_path := artifact_path result_path before_name in
      let? after_path := artifact_path result_path after_name in
      match fs !! before_path, fs !! after_path with
      | Some before_text, Some after_text =>
          let? before := parse_prometheus_text before_text in
          let? after := parse_prometheus_text after_text in
          let? rest := deltas_of artifacts result_path sources in
          inr ((name, counter_delta float_sum before after name) :: rest)
      | _, _ => deltas_of artifacts result_path sources
      end
  end.
Definition artifact_counter_deltas (result : pydict) (result_path : pystr) : exn + list (pystr * counter_change) :=
  let? artifacts := as_dict (get_dict result "metric_artifacts"%py) in
  deltas_of artifacts result_path sources.
End artifacts.
End text.

(** * The fake server's metrics are read as its counters *)

Lemma span_all p ds r : Forall (λ c, p c = true) ds → match r with [] => True | c :: _ => p c = false end →
  span p (ds ++ r) = (ds, r).
Proof.
  induction 1 as [|c ds Hc _ IH]; intros Hr; cbn [app span].
  - destruct r as [|c r]; [done|]. cbn [span]. by rewrite Hr.
  - rewrite Hc. by rewrite IH.
Qed.
Lemma strip_ends a cs b : is_space a = false → is_space b = false → str_strip (PyStr (a :: cs ++ [b])) = PyStr (a :: cs ++ [b]).
Proof.
  intros Ha Hb. unfold str_strip. cbn [codes]. rewrite (lstrip_solid a) by done. f_equal.
  rewrite app_comm_cons, reverse_app. change (reverse [b]) with [b]. cbn [app]. rewrite lstrip_solid by done.
  by rewrite reverse_cons, reverse_involutive.
Qed.

(** A sample whose value is a natural number: nothing but a space stands before it. *)
Definition natural_text (z : Z) : Prop := int_repr z ≠ [] ∧ Forall (λ c, digit_char c = true) (int_repr z).
Lemma int_repr_natural z : 0 ≤ z → natural_text z.
Proof.
  intros Hz. split; [apply int_repr_nonempty|]. unfold int_repr. destruct z as [|p|p]; [by repeat constructor| |lia].
  apply digits_chars.
Qed.
Lemma match_number_natural z : 0 ≤ z → match_number digit_char (int_repr z) = Some (int_repr z).
Proof.
  intros [Hne Hd]%int_repr_natural. destruct (int_repr z) as [|c ds] eqn:E; [done|]. apply Forall_cons in Hd as [Hc Hds].
  unfold match_number, take_sign. assert (Hs : sign_char c = false).
  { unfold sign_char, digit_char in *. rewrite andb_true_iff, !N.leb_le in Hc. apply orb_false_iff. rewrite !N.eqb_neq. lia. }
  rewrite Hs. pose proof (span_all digit_char (c :: ds) [] ltac:(by constructor) I) as Hspan. rewrite app_nil_r in Hspan.
  rewrite Hspan. cbn [match_exponent app]. by rewrite app_nil_r.
Qed.
Lemma match_value_natural z : 0 ≤ z → match_value digit_char (32%N :: int_repr z) = Some (int_repr z).
Proof.
  intros Hz. pose proof (int_repr_natural z Hz) as [Hne Hd]. unfold match_value.
  change (32%N :: int_repr z) with ([32%N] ++ int_repr z).
  rewrite (span_all is_space [32%N] (int_repr z)); [by apply match_number_natural|by repeat constructor|].
  destruct (int_repr z) as [|c ds]; [done|]. apply Forall_inv in Hd. unfold digit_char in Hd. rewrite andb_true_iff, !N.leb_le in Hd.
  unfold is_space. repeat first [apply orb_false_iff; split|apply andb_false_iff; rewrite !N.leb_gt; lia|apply N.eqb_neq; lia].
Qed.

Lemma strip_sample name labels_text z : 0 ≤ z → (∃ c cs, name ++ labels_text = c :: cs ∧ is_space c = false) →
  str_strip (PyStr (name ++ labels_text ++ 32%N :: int_repr z)) = PyStr (name ++ labels_text ++ 32%N :: int_repr z).
Proof.
  intros Hz (c & cs & E & Hc). pose proof (int_repr_natural z Hz) as [Hne Hd]. rewrite app_assoc, E. cbn [app].
  destruct (int_repr z) as [|d ds] eqn:Er using rev_ind; [done|]. clear IHds.
  assert (Hdig : is_space d = false).
  { apply Forall_app in Hd as [_ Hd]. apply Forall_inv in Hd. unfold digit_char in Hd. rewrite andb_true_iff, !N.leb_le in Hd.
    unfold is_space. repeat first [apply orb_false_iff; split|apply andb_false_iff; rewrite !N.leb_gt; lia|apply N.eqb_neq; lia]. }
  change (c :: cs ++ 32%N :: ds ++ [d]) with (c :: cs ++ (32%N :: ds) ++ [d]). rewrite (app_assoc cs). by apply strip_ends.
Qed.

Lemma match_braces_none acc r : 125%N ∉ r → match_braces digit_char acc r = None.
Proof.
  revert acc. induction r as [|c r IH]; intros acc; [done|]. intros [Hc Hn]%not_elem_of_cons. cbn [match_braces].
  rewrite IH by done. by rewrite (proj2 (N.eqb_neq c 125)) by congruence.
Qed.
(** The last brace that a value follows ends the labels. *)
Lemma match_braces_last acc cs r n : 125%N ∉ r → match_value digit_char r = Some n →
  match_braces digit_char acc (cs ++ 125%N :: r) = Some (acc ++ cs ++ [125%N], n).
Proof.
  intros Hr Hn. revert acc. induction cs as [|c cs IH]; intros acc; cbn [app match_braces].
  - rewrite match_braces_none by done. by rewrite N.eqb_refl, Hn.
  - rewrite IH. by rewrite <- app_assoc.
Qed.
Lemma digits_no_brace z : 0 ≤ z → 125%N ∉ (32%N :: int_repr z).
Proof.
  intros [_ Hd]%int_repr_natural. apply not_elem_of_cons. split; [done|]. intros Hin. rewrite Forall_forall in Hd. by apply Hd in Hin.
Qed.

Lemma match_sample_plain c cs z : name_start c = true → forallb name_char cs = true → 0 ≤ z →
  match_sample digit_char ((c :: cs) ++ 32%N :: int_repr z) = Some (PyStr (c :: cs), [], PyStr (int_repr z)).
Proof.
  intros Hc Hcs Hz. unfold match_sample. cbn [app]. rewrite Hc. rewrite app_comm_cons, (span_all name_char (c :: cs)).
  - by rewrite match_value_natural.
  - constructor; [unfold name_char; by rewrite Hc|]. apply Forall_forall. intros x Hx%list_elem_of_In. rewrite forallb_forall in Hcs. by apply Hcs.
  - done.
Qed.
Lemma match_sample_labels c cs ls z : name_start c = true → forallb name_char cs = true → 0 ≤ z →
  match_sample digit_char ((c :: cs) ++ (123%N :: ls ++ [125%N]) ++ 32%N :: int_repr z) =
    Some (PyStr (c :: cs), 123%N :: ls ++ [125%N], PyStr (int_repr z)).
Proof.
  intros Hc Hcs Hz. unfold match_sample. cbn [app]. rewrite Hc. rewrite app_comm_cons, (span_all name_char (c :: cs)).
  - rewrite <- app_assoc. cbn [app]. rewrite (match_braces_last _ _ _ _ (digits_no_brace z Hz) (match_value_natural z Hz)). done.
  - constructor; [unfold name_char; by rewrite Hc|]. apply Forall_forall. intros x Hx%list_elem_of_In. rewrite forallb_forall in Hcs. by apply Hcs.
  - done.
Qed.

Lemma splitlines_lines ls : Forall (Forall (λ c, line_end c = false)) ls →
  str_splitlines [] false (ls ≫= λ l, l ++ [10%N]) = PyStr <$> ls.
Proof.
  induction 1 as [|l ls Hl _ IH]; [done|]. rewrite bind_cons, <- app_assoc. cbn [app]. rewrite splitlines_line by done.
  cbn [app]. rewrite IH. done.
Qed.

Section fake.
Variable float_of_text : pystr → exn + spec_float.
Variable unescape : pystr → exn + pystr.
Variable value : Z → spec_float.
Hypothesis float_of_natural : ∀ z, 0 ≤ z → float_of_text (PyStr (int_repr z)) = inr (value z).
Hypothesis unescape_plain : ∀ s, 92%N ∉ codes s → unescape s = inr s.
Abbreviation read := (read_lines digit_char word_char float_of_text unescape).

Lemma read_comment line lines s : match_sample digit_char (codes (str_strip line)) = None →
  read (line :: lines) s = read lines s.
Proof. intros Hm. cbn [read_lines]. by rewrite Hm. Qed.
Definition metric_name (name : pystr) : bool :=
  match codes name with c :: cs => name_start c && negb (is_space c) && forallb name_char cs | [] => false end.
Lemma metric_name_inv name : metric_name name = true →
  ∃ c cs, codes name = c :: cs ∧ name_start c = true ∧ is_space c = false ∧ forallb name_char cs = true.
Proof.
  unfold metric_name. destruct (codes name) as [|c cs]; [done|]. rewrite !andb_true_iff, negb_true_iff. intros [[? ?] ?]. by exists c, cs.
Qed.
Lemma read_plain name z lines s : metric_name name = true → 0 ≤ z →
  read (PyStr (codes name ++ 32%N :: int_repr z) :: lines) s = read lines (series_set s (name, []) (value z)).
Proof.
  intros (c & cs & E & Hc & Hsp & Hcs)%metric_name_inv Hz. cbn [read_lines].
  assert (Hs : str_strip (PyStr (codes name ++ 32%N :: int_repr z)) = PyStr (codes name ++ 32%N :: int_repr z)).
  { apply (strip_sample (codes name) [] z Hz). exists c, cs. by rewrite app_nil_r. }
  rewrite Hs. cbn [codes]. rewrite E, (match_sample_plain c cs z Hc Hcs Hz), float_of_natural, <- E by done. by destruct name.
Qed.
Lemma read_labelled name ls found z lines s : metric_name name = true → 0 ≤ z →
  read_labels word_char unescape (123%N :: ls ++ [125%N]) = inr found →
  read (PyStr (codes name ++ (123%N :: ls ++ [125%N]) ++ 32%N :: int_repr z) :: lines) s =
    read lines (series_set s (name, found) (value z)).
Proof.
  intros (c & cs & E & Hc & Hsp & Hcs)%metric_name_inv Hz Hl. cbn [read_lines].
  rewrite strip_sample by (done || by rewrite E; eexists _, _). cbn [codes].
  rewrite E, match_sample_labels, Hl, float_of_natural, <- E by done. by destruct name.
Qed.

(** What summarize.py reads in the metrics of the fake server: its counters. *)
Theorem fake_metrics_read s : 0 ≤ sv_generated_tokens s → 0 ≤ sv_requests s →
  parse_prometheus_text digit_char word_char float_of_text unescape (PyStr (metrics_text s)) =
  inr [(("vllm:generation_tokens", []), value (sv_generated_tokens s));
       (("vllm:request_success", [("finished_reason", "stop")]), value (sv_requests s));
       (("vllm:num_requests_running", []), value 0); (("vllm:num_requests_waiting", []), value 0);
       (("vllm:kv_cache_usage_perc", []), value 0)]%py.
Proof.
  destruct s as [tokens requests]. cbn [sv_generated_tokens sv_requests]. intros Ht Hr.
  set (label := (123 :: (codes "finished_reason="%py ++ [34] ++ codes "stop"%py ++ [34]) ++ [125])%N).
  assert (E : metrics_text (Server tokens requests) =
    ([codes "# TYPE vllm:generation_tokens counter"%py; codes "vllm:generation_tokens"%py ++ 32%N :: int_repr tokens;
      codes "# TYPE vllm:request_success counter"%py; codes "vllm:request_success"%py ++ label ++ 32%N :: int_repr requests;
      codes "# TYPE vllm:num_requests_running gauge"%py; codes "vllm:num_requests_running"%py ++ 32%N :: int_repr 0;
      codes "# TYPE vllm:num_requests_waiting gauge"%py; codes "vllm:num_requests_waiting"%py ++ 32%N :: int_repr 0;
      codes "# TYPE vllm:kv_cache_usage_perc gauge"%py; codes "vllm:kv_cache_usage_perc"%py ++ 32%N :: int_repr 0] ≫= λ l, l ++ [10%N])).
  { unfold metrics_text. cbn [sv_generated_tokens sv_requests]. rewrite !bind_cons. subst label.
    rewrite <- ?app_assoc. cbn [app codes]. rewrite <- ?app_assoc. reflexivity. }
  assert (Hlines : ∀ cs z, 0 ≤ z → forallb (λ c, negb (line_end c)) cs = true → Forall (λ c, line_end c = false) (cs ++ 32%N :: int_repr z)).
  { intros cs z Hz Hcs. apply Forall_app_2; [apply Forall_forall; intros x Hx%list_elem_of_In; rewrite forallb_forall in Hcs;
      apply negb_true_iff, Hcs, Hx|]. constructor; [done|]. apply int_repr_natural in Hz as [_ Hd]. eapply Forall_impl; [exact Hd|].
    intros c Hc. cbv beta. unfold digit_char in Hc. rewrite andb_true_iff, !N.leb_le in Hc.
    unfold line_end. repeat first [apply orb_false_iff; split|apply andb_false_iff; rewrite !N.leb_gt; lia|apply N.eqb_neq; lia]. }
  assert (Hconst : ∀ cs, forallb (λ c, negb (line_end c)) cs = true → Forall (λ c, line_end c = false) cs).
  { intros cs Hcs. apply Forall_forall. intros x Hx%list_elem_of_In. rewrite forallb_forall in Hcs. apply negb_true_iff, Hcs, Hx. }
  unfold parse_prometheus_text. cbn [codes]. rewrite E, splitlines_lines.
  2: { repeat (apply Forall_cons; split; [first [by apply Hconst|by apply Hlines|rewrite app_assoc; by apply Hlines]|]). constructor. }
  cbn [fmap list_fmap]. rewrite read_comment by (vm_compute; reflexivity).
  rewrite read_plain by done. rewrite read_comment by (vm_compute; reflexivity). subst label.
  rewrite (read_labelled _ _ [("finished_reason", "stop")]%py) by (try done; unfold read_labels; vm_compute find_labels;
    cbn [map_exn snd fst]; rewrite unescape_plain by (apply (bool_decide_unpack _); vm_compute; exact I); vm_compute; reflexivity).
  do 3 (rewrite read_comment by (vm_compute; reflexivity); rewrite read_plain by done). reflexivity.
Qed.

(** The counter delta of two scrapes of the fake server is the difference of its counters,
    whatever the rest of the texts says. *)
Theorem fake_delta float_sum s1 s2 : 0 ≤ sv_generated_tokens s1 → 0 ≤ sv_requests s1 →
  0 ≤ sv_generated_tokens s2 → 0 ≤ sv_requests s2 →
  SFltb (value (sv_generated_tokens s2)) (value (sv_generated_tokens s1)) = false →
  ∃ before after,
    parse_prometheus_text digit_char word_char float_of_text unescape (PyStr (metrics_text s1)) = inr before ∧
    parse_prometheus_text digit_char word_char float_of_text unescape (PyStr (metrics_text s2)) = inr after ∧
    counter_delta float_sum before after "vllm:generation_tokens"%py =
      Delta false false (Some (float_sum [float_sub (value (sv_generated_tokens s2)) (value (sv_generated_tokens s1))])).
Proof.
  intros H1 H2 H3 H4 Hlt. eexists _, _. split_and!; [by apply fake_metrics_read..|].
  assert (Hn : ∀ a b c, named "vllm:generation_tokens"%py
    [(("vllm:generation_tokens", []), a); (("vllm:request_success", [("finished_reason", "stop")]), b);
     (("vllm:num_requests_running", []), c); (("vllm:num_requests_waiting", []), c); (("vllm:kv_cache_usage_perc", []), c)]%py = [([], a)])
    by (intros; vm_compute; reflexivity).
  unfold counter_delta. rewrite !Hn. cbn [labels_get existsb fst snd fmap list_fmap]. rewrite !bool_decide_true by done.
  cbn [from_option id]. by rewrite Hlt.
Qed.
End fake.
