(* ===== verification/SystemSample.v ===== *)
(** benchmark/scripts/sample_system.py: the record of the host and its GPUs.  The programs
    and what [platform] answers are parameters. *)
From S2P Require Import Prelude.
From S2P Require Import Python.
From S2P Require Import Json.
From S2P Require Import JsonLoads.
From S2P Require Import Laboratory.
From S2P Require Import Conversions.

Section sample.
(** [shutil.which]; the output of a command that succeeds in time. *)
Variable which : pystr → option pystr.
Variable output : list pystr → option pystr.
(** The time and what [platform] answers: node, platform, release, machine and the version
    of Python. *)
Variable now : pystr.
Variables node platform release machine python_version : pystr.

(** [command]. *)
Definition command (arguments : list pystr) : option pystr := str_strip <$> output arguments.

(** The devices in the lines of nvidia-smi with four fields. *)
Definition fields_of (line : pystr) : list pystr := (λ f, str_strip (PyStr f)) <$> split_on 44 (codes line).
Definition device_of (line : pystr) : option (pystr * pystr * pystr * pystr) :=
  match fields_of line with [index; name; memory; driver] => Some (index, name, memory, driver) | _ => None end.
Definition devices_of (raw : pystr) : list (pystr * pystr * pystr * pystr) := omap device_of (str_splitlines [] false (codes raw)).
Definition device_dict (d : pystr * pystr * pystr * pystr) : pyval :=
  let '(index, name, memory, driver) := d in
  VDict [("index", VStr index); ("name", VStr name); ("memory_total_mib", VStr memory); ("driver_version", VStr driver)]%py.
Definition gpu_query (nvidia_smi : pystr) : list pystr :=
  [nvidia_smi; "--query-gpu=index,name,memory.total,driver_version"; "--format=csv,noheader,nounits"]%py.
Definition unavailable : pyval := VDict [("available", VBool false)]%py.
Definition gpu : pyval :=
  match which "nvidia-smi"%py with
  | Some nvidia_smi =>
      if negb (str_truthy nvidia_smi) then unavailable else
      match command (gpu_query nvidia_smi) with
      | Some raw =>
          if negb (str_truthy raw) then unavailable else
          let devices := devices_of raw in
          VDict [("available", VBool (match devices with [] => false | _ => true end)); ("devices", VList (device_dict <$> devices))]%py
      | None => unavailable
      end
  | None => unavailable
  end.
Definition optional_str (s : option pystr) : pyval := match s with Some s => VStr s | None => VNone end.

(** [collect], and the text that [main] writes. *)
Definition collect : pyval :=
  VDict [("captured_utc", VStr now); ("hostname", VStr node); ("platform", VStr platform); ("kernel", VStr release);
         ("machine", VStr machine); ("python_version", VStr python_version); ("go_version", optional_str (command ["go"; "version"]));
         ("cuda_version", optional_str (command ["nvcc"; "--version"])); ("gpu", gpu)]%py.
Definition sample_text `{FloatRepr} : pystr := PyStr (json_indented 0 collect ++ [10%N]).
End sample.

(** * Every device is found *)

(** A field as nvidia-smi prints it: no comma, no end of a line, no space at its ends. *)
Definition field_ok (f : pystr) : Prop :=
  codes f ≠ [] ∧ Forall (λ c, c ≠ 44%N ∧ line_end c = false) (codes f) ∧ str_strip f = f.
Definition device_ok (d : pystr * pystr * pystr * pystr) : Prop :=
  let '(a, b, c, d) := d in field_ok a ∧ field_ok b ∧ field_ok c ∧ field_ok d.
Definition device_line (d : pystr * pystr * pystr * pystr) : list N :=
  let '(a, b, c, d) := d in join [44; 32]%N [codes a; codes b; codes c; codes d].

Lemma split_on_space cs r : 44%N ∉ cs → split_on 44 (32%N :: cs ++ 44%N :: r) = (32%N :: cs) :: split_on 44 r.
Proof. intros Hn. apply (split_on_app 44 (32%N :: cs)), no_separator. by apply not_elem_of_cons. Qed.
Lemma strip_space s : str_strip s = s → codes s ≠ [] → str_strip (PyStr (32%N :: codes s)) = s.
Proof. intros Hs _. rewrite <- Hs at 2. reflexivity. Qed.

Lemma device_line_read d : device_ok d → device_of (PyStr (device_line d)) = Some d.
Proof.
  destruct d as [[[a b] c] d]. intros ((A1 & A2 & A3) & (B1 & B2 & B3) & (C1 & C2 & C3) & (D1 & D2 & D3)).
  assert (Hcomma : ∀ f : list N, Forall (λ c, c ≠ 44%N ∧ line_end c = false) f → 44%N ∉ f).
  { intros f Hf Hin. rewrite Forall_forall in Hf. by destruct (Hf _ Hin). }
  unfold device_of, fields_of, device_line. cbn [codes join app].
  rewrite split_on_app by by apply no_separator, Hcomma. rewrite !split_on_space by by apply Hcomma.
  rewrite split_on_nosep by (apply no_separator, not_elem_of_cons; split; [done|by apply Hcomma]).
  cbn [fmap list_fmap]. rewrite !strip_space by done. destruct a as [a]. cbn [codes] in *. by rewrite A3.
Qed.
(** What nvidia-smi prints of its devices is read back as these devices. *)
Theorem devices_read ds : Forall device_ok ds → devices_of (PyStr (ds ≫= λ d, device_line d ++ [10%N])) = ds.
Proof.
  unfold devices_of. cbn [codes]. induction 1 as [|d ds Hd _ IH]; [done|]. rewrite bind_cons, <- app_assoc. cbn [app].
  rewrite splitlines_line.
  - cbn [app]. pose proof (device_line_read d Hd) as Hr. cbn [omap list_omap]. rewrite Hr. by rewrite IH.
  - destruct d as [[[a b] c] d]. destruct Hd as ((_ & A & _) & (_ & B & _) & (_ & C & _) & (_ & D & _)).
    assert (Hf : ∀ f : list N, Forall (λ c, c ≠ 44%N ∧ line_end c = false) f → Forall (λ c, line_end c = false) f)
      by (intros f Hf; eapply Forall_impl; [exact Hf|]; by intros ? []).
    cbn [device_line join app]. repeat (first [apply Forall_app_2; [by apply Hf|]|apply Forall_cons; split; [done|]]). by apply Hf.
Qed.
