(* ===== verification/Config.v ===== *)
(** gateway/config.py: the settings, their validation and normalisation.  Durations are
    numbers in one unit, as in the services; reading the environment, converting its
    texts to field types and validating URLs are pydantic's. *)
From Stdlib Require Import SpecFloat.
From S2P Require Import Prelude.
From S2P Require Import Python.
From S2P Require Import Errors.
From S2P Require Import Auth.
From S2P Require Import Chat.
From S2P Require Import Endpoint.

(** * Backends *)

Record backend_config := BackendConfig {
  bc_base_url : pystr;
  bc_api_key : option pystr;
}.

(** [s.rstrip("/")]. *)
Fixpoint drop_slashes (l : list N) : list N :=
  match l with c :: l' => if (c =? 47)%N then drop_slashes l' else l | [] => [] end.
Definition rstrip_slash (s : pystr) : pystr := PyStr (reverse (drop_slashes (reverse (codes s)))).

(** [BackendConfig.normalize_empty_api_key]. *)
Definition normalize_empty_api_key (value : option pystr) : option pystr :=
  match value with
  | Some s => if negb (str_truthy (str_strip s)) then None else value
  | None => None
  end.

(** * Log levels *)

Inductive log_level := CRITICAL | ERROR | WARNING | INFO | DEBUG.

(** [str.upper], exact for comparisons with an ASCII literal: the code points listed
    are all those whose upper case consists of ASCII letters. *)
Definition upper_char (c : N) : list N :=
  (if (97 <=? c) && (c <=? 122) then [c - 32]
   else if c =? 305 then [73]
   else if c =? 383 then [83]
   else if c =? 223 then [83; 83]
   else if c =? 64256 then [70; 70]
   else if c =? 64257 then [70; 73]
   else if c =? 64258 then [70; 76]
   else if c =? 64259 then [70; 70; 73]
   else if c =? 64260 then [70; 70; 76]
   else if (c =? 64261) || (c =? 64262) then [83; 84]
   else [c])%N.
Definition normalize_log_level (value : pystr) : pystr := PyStr (codes value ≫= upper_char).

Definition level_name (l : log_level) : pystr :=
  match l with
  | CRITICAL => "CRITICAL" | ERROR => "ERROR" | WARNING => "WARNING" | INFO => "INFO" | DEBUG => "DEBUG"
  end%py.
(** The [Literal] type of the field. *)
Definition log_level_literal (value : pystr) : exn + log_level :=
  match list_find (λ l, level_name l = value) [CRITICAL; ERROR; WARNING; INFO; DEBUG] with
  | Some (_, l) => inr l
  | None => inl ValueError
  end.

(** * Settings

    With log levels and backends as given, or as validated. *)
Record settings_of (L B : Type) := Settings {
  st_app_name : pystr;
  st_environment : pystr;
  st_log_level : L;
  st_host : pystr;
  st_port : Z;
  st_request_id_header : pystr;
  st_backends : list (pystr * B);                (* [backends_json] *)
  st_connect_timeout : Z;
  st_request_timeout : Z;
  st_health_interval : Z;
  st_health_timeout : Z;
  st_max_completion_tokens : Z;
  st_max_choices : Z;
  st_tenants : list (pystr * tenant_config);     (* [tenants_json] *)
  st_global_max_inflight : Z;
  st_global_max_queue : Z;
  st_queue_timeout : Z;
  st_batching_enabled : bool;
  st_batch_max_size : Z;
  st_batch_max_wait : spec_float;
}.
Arguments Settings {L B}.
Arguments st_app_name {L B}.
Arguments st_environment {L B}.
Arguments st_log_level {L B}.
Arguments st_host {L B}.
Arguments st_port {L B}.
Arguments st_request_id_header {L B}.
Arguments st_backends {L B}.
Arguments st_connect_timeout {L B}.
Arguments st_request_timeout {L B}.
Arguments st_health_interval {L B}.
Arguments st_health_timeout {L B}.
Arguments st_max_completion_tokens {L B}.
Arguments st_max_choices {L B}.
Arguments st_tenants {L B}.
Arguments st_global_max_inflight {L B}.
Arguments st_global_max_queue {L B}.
Arguments st_queue_timeout {L B}.
Arguments st_batching_enabled {L B}.
Arguments st_batch_max_size {L B}.
Arguments st_batch_max_wait {L B}.

Definition raw_settings := settings_of pystr (pystr * option pystr).
Definition settings := settings_of log_level backend_config.

Definition with_values {L B L' B'} (level : L') (backends : list (pystr * B')) (s : settings_of L B) : settings_of L' B' :=
  Settings (st_app_name s) (st_environment s) level (st_host s) (st_port s) (st_request_id_header s) backends
    (st_connect_timeout s) (st_request_timeout s) (st_health_interval s) (st_health_timeout s)
    (st_max_completion_tokens s) (st_max_choices s) (st_tenants s) (st_global_max_inflight s)
    (st_global_max_queue s) (st_queue_timeout s) (st_batching_enabled s) (st_batch_max_size s) (st_batch_max_wait s).

(** The [Field] constraints. *)
Definition settings_constraints {L B} (s : settings_of L B) : bool :=
  str_truthy (st_app_name s) && str_truthy (st_environment s) && str_truthy (st_host s)
  && ((1 <=? st_port s) && (st_port s <=? 65535)) && str_truthy (st_request_id_header s)
  && (0 <? st_connect_timeout s) && (0 <? st_request_timeout s)
  && (0 <? st_health_interval s) && (0 <? st_health_timeout s)
  && (0 <? st_max_completion_tokens s) && (0 <? st_max_choices s)
  && (0 <? st_global_max_inflight s) && (0 <=? st_global_max_queue s) && (0 <? st_queue_timeout s)
  && ((2 <=? st_batch_max_size s) && (st_batch_max_size s <=? 64))
  && (SFltb (S754_zero false) (st_batch_max_wait s) && SFleb (st_batch_max_wait s) float_one)
  && forallb (λ t, tenant_config_ok t.2) (st_tenants s).

(** [str.isalnum] of an ASCII character. *)
Definition ascii_alnum (c : N) : bool :=
  (((48 <=? c) && (c <=? 57)) || ((65 <=? c) && (c <=? 90)) || ((97 <=? c) && (c <=? 122)))%N.
Definition header_allowed : pystr := "!#$%&'*+-.^_`|~"%py.
Definition validate_request_id_header (value : pystr) : exn + pystr :=
  if negb (forallb (λ c, char_isascii c && (ascii_alnum c || bool_decide (c ∈ codes header_allowed))) (codes value))
  then inl ValueError else inr value.

(** The loop over the tenants in [validate_mappings]. *)
Fixpoint tenant_keys_ok (seen : list pystr) (tenants : list (pystr * tenant_config)) : exn + unit :=
  match tenants with
  | [] => inr ()
  | (tid, tenant) :: tenants =>
      if negb (str_truthy (str_strip tid)) then inl ValueError
      else if bool_decide (tc_api_key tenant ∈ seen) then inl ValueError
      else tenant_keys_ok (tc_api_key tenant :: seen) tenants
  end.
Definition validate_mappings {L B} (s : settings_of L B) : exn + settings_of L B :=
  if bool_decide ((st_backends s).*1 = []) then inl ValueError else
  if existsb (λ b, negb (str_truthy (str_strip b))) (st_backends s).*1 then inl ValueError else
  do? tenant_keys_ok [] (st_tenants s) in
  inr s.

(** ** Loading *)

Section load.
(** [str] of the URL that pydantic's [AnyHttpUrl] validated. *)
Variable http_url : pystr → exn + pystr.

(** [BackendConfig.validate_base_url]. *)
Definition validate_base_url (value : pystr) : exn + pystr :=
  let? validated_url := http_url value in
  inr (rstrip_slash validated_url).

Definition load_backend (raw : pystr * option pystr) : exn + backend_config :=
  let? base_url := validate_base_url raw.1 in
  inr (BackendConfig base_url (normalize_empty_api_key raw.2)).
Fixpoint load_backends (raw : list (pystr * (pystr * option pystr))) : exn + list (pystr * backend_config) :=
  match raw with
  | [] => inr []
  | (backend_id, b) :: raw =>
      let? config := load_backend b in
      let? rest := load_backends raw in
      inr ((backend_id, config) :: rest)
  end.

(** [Settings(...)]: the validators and constraints of the fields, then of the model. *)
Definition load_settings (raw : raw_settings) : exn + settings :=
  let? level := log_level_literal (normalize_log_level (st_log_level raw)) in
  let? backends := load_backends (st_backends raw) in
  let s := with_values level backends raw in
  if negb (settings_constraints s) then inl ValueError else
  do? validate_request_id_header (st_request_id_header s) in
  validate_mappings s.
End load.

(** The defaults of the fields. *)
Definition float_5ms : spec_float := S754_finite false 5764607523034235 (-60).
Definition default_settings : raw_settings :=
  Settings "dynamic-batching-inference-gateway" "development" "INFO"%py "0.0.0.0" 8080 "X-Request-ID"
    [("default", ("http://localhost:8000", None))]%py 5 120 5 2 4096 4 [] 16 64 5 false 8 float_5ms.

(** * What loading establishes *)

Lemma rstrip_slash_spec s : last (codes (rstrip_slash s)) ≠ Some 47%N.
Proof.
  unfold rstrip_slash. cbn [codes]. rewrite last_reverse. induction (reverse (codes s)) as [|c l IH]; [done|].
  simpl. destruct (N.eqb_spec c 47); [done|]. simpl. congruence.
Qed.

Lemma load_backends_keys url raw l : load_backends url raw = inr l → l.*1 = raw.*1.
Proof.
  revert l. induction raw as [|[i b] raw IH]; intros l; simpl; [by intros [= <-]|].
  destruct (load_backend url b); [done|]. simpl. destruct (load_backends url raw); [done|].
  intros [= <-]. simpl. f_equal. by apply IH.
Qed.

(** A loaded backend has no trailing slash in its URL and no blank key. *)
Definition backend_ok (b : backend_config) : Prop :=
  last (codes (bc_base_url b)) ≠ Some 47%N ∧
  ∀ k, bc_api_key b = Some k → str_truthy (str_strip k) = true.
Lemma load_backends_ok url raw l : load_backends url raw = inr l → Forall (λ b, backend_ok b.2) l.
Proof.
  revert l. induction raw as [|[i b] raw IH]; intros l; simpl; [by intros [= <-]|].
  unfold load_backend, validate_base_url. destruct (url b.1) as [|u]; [done|]. simpl.
  destruct (load_backends url raw); [done|]. intros [= <-]. constructor; [|by apply IH]. split; simpl.
  - apply rstrip_slash_spec.
  - intros k. unfold normalize_empty_api_key. destruct (b.2) as [s|]; [|done].
    destruct (str_truthy (str_strip s)) eqn:Hs; simpl; [|done]. by intros [= <-].
Qed.

Lemma load_settings_inv url raw s : load_settings url raw = inr s →
  settings_constraints s = true ∧ validate_mappings s = inr s ∧
  (st_backends s).*1 = (st_backends raw).*1 ∧ Forall (λ b, backend_ok b.2) (st_backends s) ∧
  st_tenants s = st_tenants raw.
Proof.
  unfold load_settings. destruct (log_level_literal _) as [|level]; [done|]. cbn [sum_bind].
  destruct (load_backends url (st_backends raw)) as [|l] eqn:Hl; [done|]. cbn [sum_bind].
  destruct (settings_constraints _) eqn:Hc; [|done]. cbn [negb].
  destruct (validate_request_id_header _); [done|]. cbn [sum_bind]. intros Hv.
  assert (s = with_values level l raw) as ->.
  { unfold validate_mappings in Hv. case_bool_decide; [done|]. destruct (existsb _ _); [done|].
    destruct (tenant_keys_ok _ _); [done|]. by injection Hv as <-. }
  split_and!; try done; simpl; [by eapply load_backends_keys|by eapply load_backends_ok].
Qed.

(** The defaults load. *)
Lemma default_settings_load url u : url "http://localhost:8000"%py = inr u →
  ∃ s, load_settings url default_settings = inr s ∧ st_log_level s = INFO.
Proof.
  intros Hu. unfold load_settings, default_settings. cbn [st_log_level st_backends load_backends].
  unfold load_backend, validate_base_url. cbn [fst snd]. rewrite Hu. cbn [sum_bind]. by eexists.
Qed.

Lemma settings_facts (s : settings) : settings_constraints s = true →
  0 < st_health_interval s ∧ 0 < st_health_timeout s ∧ 0 < st_global_max_inflight s ∧
  0 ≤ st_global_max_queue s ∧ 0 < st_queue_timeout s ∧
  (2 <=? st_batch_max_size s) && (st_batch_max_size s <=? 64) = true ∧
  SFltb (S754_zero false) (st_batch_max_wait s) && SFleb (st_batch_max_wait s) float_one = true ∧
  forallb (λ t, tenant_config_ok t.2) (st_tenants s) = true.
Proof. unfold settings_constraints. rewrite !andb_true_iff, !Z.ltb_lt, !Z.leb_le. tauto. Qed.

