(* ===== verification/Application.v ===== *)
(** gateway/app.py: how the application builds its services from the settings, serves,
    and stops them.  Installing middlewares and routes is the framework's. *)
From Stdlib Require Import SpecFloat.
From S2P Require Import Prelude.
From S2P Require Import Python.
From S2P Require Import Errors.
From S2P Require Import Auth.
From S2P Require Import Admission.
From S2P Require Import AdmissionSections.
From S2P Require Import Routing.
From S2P Require Import Chat.
From S2P Require Import Batching.
From S2P Require Import Endpoint.
From S2P Require Import Config.

(** * Services *)

(** [VLLMBackend.__init__]: the identifier and what the HTTP client is constructed with. *)
Record vllm_client := VllmClient {
  vc_backend_id : pystr;
  vc_base_url : pystr;
  vc_headers : list (pystr * pystr);
  vc_connect_timeout : Z;
  vc_request_timeout : Z;
  vc_health_timeout : Z;
}.
Definition client_headers (config : backend_config) : list (pystr * pystr) :=
  let headers := [("Content-Type", "application/json")]%py in
  match bc_api_key config with
  | Some api_key =>
      if str_truthy api_key
      then dict_set headers "Authorization"%py (PyStr (codes "Bearer "%py ++ codes api_key)) else headers
  | None => headers
  end.

(** What constructing the HTTP client raises, if anything, by its URL, its headers, and its
    timeouts for connecting and for requests. *)
Abbreviation http_constructor := (pystr → list (pystr * pystr) → Z → Z → option exn).
Definition vllm_backend (http : http_constructor) (backend_id : pystr) (config : backend_config)
    (connect request health : Z) : exn + vllm_client :=
  let headers := client_headers config in
  match http (bc_base_url config) headers connect request with
  | Some e => inl e
  | None => inr (VllmClient backend_id (bc_base_url config) headers connect request health)
  end.

(** A backend: a pool, the seconds between its probes and until they time out, and its leaf
    backends; or another one. *)
Inductive backend := IsPool (p : pool) (interval timeout : Z) (leaves : list vllm_client) | IsLeaf.
(** The admission controller, with its [_queue_timeout_seconds]. *)
Record admission_service := AdmissionService { as_ctrl : ctrl; as_queue_timeout : Z }.

(** The arguments of [create_app] that replace a service. *)
Record overrides := Overrides {
  ov_backend : option backend;
  ov_registry : option registry;
  ov_admission : option admission_service;
  ov_batcher : option batcher;
}.
Definition no_overrides : overrides := Overrides None None None None.

(** What [lifespan] stores in [app.state]; [gy_limits] is what the endpoint reads of
    the settings. *)
Record gateway := Gateway_ {
  gy_registry : registry;
  gy_admission : admission_service;
  gy_backend : backend;
  gy_batcher : option batcher;
  gy_limits : limits;
}.

Section build.
Variable http : http_constructor.

Definition leaf_backends (s : settings) : exn + list vllm_client :=
  map_exn (λ b, vllm_backend http b.1 b.2 (st_connect_timeout s) (st_request_timeout s) (st_health_timeout s)) (st_backends s).

(** [lifespan] up to its [try]. *)
Definition lifespan_build (s : settings) (ov : overrides) : exn + gateway :=
  let? registry := match ov_registry ov with Some r => inr r | None => registry_init (st_tenants s) end in
  let? admission := match ov_admission ov with
                    | Some a => inr (AdmissionService (set_observer true (as_ctrl a)).2 (as_queue_timeout a))
                    | None => let? c := ctrl_init (registry_tenants registry) (st_global_max_inflight s)
                                          (st_global_max_queue s) (st_queue_timeout s) true in
                              inr (AdmissionService c (st_queue_timeout s))
                    end in
  let? backend := match ov_backend ov with
                  | Some b => inr b
                  | None =>
                      let? leaves := leaf_backends s in
                      let? p := pool_init (vc_backend_id <$> leaves) (st_health_interval s) (st_health_timeout s) true in
                      inr (IsPool p (st_health_interval s) (st_health_timeout s) leaves)
                  end in
  let backend := match backend with IsPool p i t l => IsPool (set_pool_observer true p).2 i t l | IsLeaf => IsLeaf end in
  let? batcher := if st_batching_enabled s then
                    match ov_batcher ov with
                    | Some b => inr (Some b)
                    | None => let? b := batcher_init (st_batch_max_size s) (st_batch_max_wait s) true in inr (Some b)
                    end
                  else inr None in
  inr (Gateway_ registry admission backend batcher
         (Limits (st_max_completion_tokens s) (st_max_choices s) (st_batching_enabled s))).
End build.

(** * Serving and stopping

    What happens to the application, in order: the pool starts, [app.state.ready]
    changes, requests are served, and the services are stopped. *)
Inductive life_event := StartPool | SetReady (ready : bool) | Serve | StopAdmission | StopBatcher | CloseBackend.

Section lifespan.
(** What starting, serving and stopping raise. *)
Variable outcome : life_event → option exn.
Definition happen (e : life_event) : sem (list life_event) exn unit :=
  do! modify (λ l, l ++ [e]) in
  match outcome e with Some e => raise e | None => ret () end.
Definition set_ready (ready : bool) : sem (list life_event) exn unit := modify (λ l, l ++ [SetReady ready]).

Definition is_pool (g : gateway) : bool := match gy_backend g with IsPool _ _ _ _ => true | IsLeaf => false end.
Definition has_batcher (g : gateway) : bool := match gy_batcher g with Some _ => true | None => false end.

(** The [finally] clause of the lifespan. *)
Definition lifespan_stop (g : gateway) : sem (list life_event) exn unit :=
  do! set_ready false in
  finally (happen StopAdmission)
    (finally (if has_batcher g then happen StopBatcher else ret ())
       (happen CloseBackend)).

(** The [try] statement of the lifespan. *)
Definition lifespan_run (g : gateway) : sem (list life_event) exn unit :=
  finally (do! (if is_pool g then happen StartPool else ret ()) in
           do! set_ready true in
           happen Serve)
    (lifespan_stop g).
End lifespan.

(** * What the settings ask for *)

Definition asked_tenant (t : pystr * tenant_config) : tenant_context :=
  TenantContext t.1 (tc_max_inflight t.2) (tc_max_queue t.2).
Definition asked_registry (s : settings) : registry := (λ t, (tc_api_key t.2, asked_tenant t)) <$> st_tenants s.
(** The controller at rest, with the tenants and limits of the settings. *)
Definition asked_admission (s : settings) (a : admission_service) : Prop :=
  let c := as_ctrl a in
  as_queue_timeout a = st_queue_timeout s ∧ c_order c = (st_tenants s).*1 ∧
  c_max_inflight c = st_global_max_inflight s ∧ c_max_queue c = st_global_max_queue s ∧ c_observer c = true ∧
  c_inflight c = 0 ∧ c_queued c = 0 ∧ c_active c = [] ∧ c_futures c = ∅ ∧ c_leases c = ∅ ∧ c_closed c = false ∧
  c_tenants c = list_to_map ((λ t, (t.1, TenantState (asked_tenant t) 0 [])) <$> st_tenants s).
(** The HTTP clients, and the exception of the first one that cannot be constructed. *)
Definition asked_clients (s : settings) : list vllm_client :=
  (λ b, VllmClient b.1 (bc_base_url b.2) (client_headers b.2) (st_connect_timeout s) (st_request_timeout s)
          (st_health_timeout s)) <$> st_backends s.
Definition refused_client (http : http_constructor) (s : settings) : option exn :=
  head (omap (λ c, http (vc_base_url c) (vc_headers c) (vc_connect_timeout c) (vc_request_timeout c)) (asked_clients s)).
(** The pool at rest: its backends are not known to be healthy and carry nothing. *)
Definition asked_pool (s : settings) (b : backend) : Prop :=
  ∃ p, b = IsPool p (st_health_interval s) (st_health_timeout s) (asked_clients s) ∧
    p_slots p = (λ id, Slot id None 0) <$> (st_backends s).*1 ∧ p_cursor p = 0%nat ∧ p_observer p = true ∧
    p_leases p = ∅ ∧ p_routed p = ∅ ∧ p_started p = false ∧ p_probing p = false ∧ p_closed p = false.
Definition asked_batcher (s : settings) (b : option batcher) : Prop :=
  match b with
  | Some b =>
      st_batching_enabled s = true ∧ b_max_size b = st_batch_max_size s ∧ b_max_wait b = st_batch_max_wait s ∧
      b_observer b = true ∧ b_groups b = [] ∧ b_flushes b = ∅ ∧ b_pending b = 0 ∧ b_inflight b = 0 ∧ b_closed b = false
  | None => st_batching_enabled s = false
  end.

(** * Settings make a gateway *)

Lemma registry_init_ok tenants :
  forallb (λ t, tenant_config_ok t.2) tenants = true →
  (∀ seen, tenant_keys_ok seen tenants = inr () →
    registry_init tenants = inr ((λ t, (tc_api_key t.2, asked_tenant t)) <$> tenants) ∧
      NoDup ((λ t, tc_api_key t.2) <$> tenants) ∧ (∀ t, t ∈ tenants → tc_api_key t.2 ∉ seen) ∧
      Forall (λ t : pystr * tenant_config, validate_api_key (tc_api_key t.2) = true) tenants).
Proof.
  induction tenants as [|[tid c] tenants IH]; simpl; intros Hok seen Hk.
  { split_and!; try done; [apply NoDup_nil_2|by intros k ?%elem_of_nil]. }
  apply andb_true_iff in Hok as [Hc Hok].
  destruct (str_truthy (str_strip tid)) eqn:Ht; [|done]. simpl in Hk.
  case_bool_decide as Hin; [done|].
  destruct (IH Hok _ Hk) as (-> & Hnd & Hseen & Hall).
  unfold tenant_config_ok in Hc. rewrite !andb_true_iff in Hc. destruct Hc as [[Hkey Hmi%Z.ltb_lt] Hmq%Z.leb_le].
  unfold tenant_context_init. rewrite Ht. simpl. rewrite (proj2 (Z.leb_gt _ _)), (proj2 (Z.ltb_ge _ _)) by lia. simpl.
  split_and!; [done| | |by constructor].
  - apply NoDup_cons. split; [|done]. intros (t & Heq & Hr)%list_elem_of_fmap. apply (Hseen _ Hr). rewrite <- Heq. by left.
  - intros t [->|Hr]%elem_of_cons; [done|]. intros ?. apply (Hseen _ Hr). by right.
Qed.

(** With distinct keys, inserting in order or in reverse makes the same map. *)
Lemma initial_tenants_map (ts : list tenant_context) : NoDup (tenant_id <$> ts) →
  initial_tenants ts = list_to_map ((λ t, (tenant_id t, TenantState t 0 [])) <$> ts).
Proof.
  intros Hnd. unfold initial_tenants. assert (Hgen : ∀ m, (∀ t, t ∈ ts → m !! tenant_id t = None) →
    foldl (λ m t, <[tenant_id t := TenantState t 0 []]> m) m ts =
    (list_to_map ((λ t, (tenant_id t, TenantState t 0 [])) <$> ts) : gmap pystr tenant_state) ∪ m);
    [|by rewrite Hgen, map_union_empty].
  induction ts as [|t ts IH]; intros m Hm; simpl; [by rewrite map_empty_union|].
  apply NoDup_cons in Hnd as [Hn Hnd]. rewrite IH; [|done|].
  - rewrite <- insert_union_l. rewrite <- insert_union_r; [done|]. apply not_elem_of_list_to_map.
    rewrite <- list_fmap_compose. exact Hn.
  - intros t' Ht'. rewrite lookup_insert_ne; [apply Hm; by right|]. intros Heq. apply Hn. rewrite Heq.
    by apply list_elem_of_fmap_2.
Qed.
Lemma ctrl_starts (s : settings) :
  0 < st_global_max_inflight s → 0 ≤ st_global_max_queue s → 0 < st_queue_timeout s → NoDup (st_tenants s).*1 →
  ∃ c, ctrl_init (asked_tenant <$> st_tenants s) (st_global_max_inflight s) (st_global_max_queue s) (st_queue_timeout s) true
         = inr c ∧ asked_admission s (AdmissionService c (st_queue_timeout s)).
Proof.
  intros Hi Hq Ht Hnd. assert (Hids : tenant_id <$> (asked_tenant <$> st_tenants s) = (st_tenants s).*1)
    by by rewrite <- list_fmap_compose.
  unfold ctrl_init. fold (initial_tenants (asked_tenant <$> st_tenants s)).
  rewrite (proj2 (Z.leb_gt _ _)), (proj2 (Z.ltb_ge _ _)), (proj2 (Z.leb_gt (st_queue_timeout s) 0)) by lia.
  rewrite NoDup_initial, Nat.eqb_refl by by rewrite Hids. eexists. split; [done|].
  unfold asked_admission. cbn -[initial_tenants]. split_and!; try done.
  rewrite initial_tenants_map by by rewrite Hids. by rewrite <- list_fmap_compose.
Qed.

Lemma pool_starts (s : settings) :
  (st_backends s).*1 ≠ [] → 0 < st_health_interval s → 0 < st_health_timeout s →
  existsb (λ i, negb (str_truthy (str_strip i))) (st_backends s).*1 = false → NoDup (st_backends s).*1 →
  ∃ p, pool_init (vc_backend_id <$> asked_clients s) (st_health_interval s) (st_health_timeout s) true = inr p ∧
    asked_pool s (IsPool (set_pool_observer true p).2 (st_health_interval s) (st_health_timeout s) (asked_clients s)).
Proof.
  intros Hne Hi Ht Hb Hnd. assert (Hids : vc_backend_id <$> asked_clients s = (st_backends s).*1)
    by (unfold asked_clients; by rewrite <- list_fmap_compose).
  unfold pool_init. rewrite Hids, bool_decide_false by done.
  rewrite (proj2 (Z.leb_gt _ _)), (proj2 (Z.leb_gt (st_health_timeout s) 0)), Hb, bool_decide_true by (done || lia).
  eexists. split; [done|]. eexists. split; [done|]. done.
Qed.

Lemma batcher_starts (s : settings) :
  (2 <=? st_batch_max_size s) && (st_batch_max_size s <=? 64) = true →
  SFltb (S754_zero false) (st_batch_max_wait s) && SFleb (st_batch_max_wait s) float_one = true →
  st_batching_enabled s = true →
  ∃ b, batcher_init (st_batch_max_size s) (st_batch_max_wait s) true = inr b ∧ asked_batcher s (Some b).
Proof. intros Hs Hw He. unfold batcher_init. rewrite Hs, Hw. eexists. split; [done|]. done. Qed.

(** The leaf backends are the clients asked for, or the first refused one ends the start. *)
Lemma leaf_backends_spec http s :
  leaf_backends http s = match refused_client http s with Some e => inl e | None => inr (asked_clients s) end.
Proof.
  unfold leaf_backends, refused_client, asked_clients. induction (st_backends s) as [|b bs IH]; [done|].
  cbn [map_exn fmap list_fmap omap list_omap]. unfold vllm_backend at 1. cbn [vc_base_url vc_headers vc_connect_timeout vc_request_timeout].
  destruct (http _ _ _ _) as [e|]; [done|]. cbn [sum_bind]. rewrite IH. by destruct (head _).
Qed.

Lemma client_urls s : Forall (λ b, backend_ok b.2) (st_backends s) →
  Forall (λ l, last (codes (vc_base_url l)) ≠ Some 47%N) (asked_clients s).
Proof.
  intros Hb. unfold asked_clients. apply Forall_fmap. eapply Forall_impl; [exact Hb|]. by intros b [Hu _].
Qed.

Lemma blank_empty s : str_truthy (str_strip s) = true → str_truthy s = true.
Proof.
  intros Hs. destruct (str_truthy s) eqn:He; [done|]. unfold str_truthy in He. by destruct s as [[]].
Qed.

Lemma client_headers_ok s i l b : Forall (λ b, backend_ok b.2) (st_backends s) →
  asked_clients s !! i = Some l → (st_backends s).*2 !! i = Some b →
  dict_get (vc_headers l) "Authorization"%py = (λ k, PyStr (codes "Bearer "%py ++ codes k)) <$> bc_api_key b.
Proof.
  unfold asked_clients. rewrite !list_lookup_fmap. intros Hok. destruct (st_backends s !! i) as [[id bc]|] eqn:Hi; [|done].
  intros [= <-] [= <-]. cbn [vc_headers fst snd]. unfold client_headers.
  pose proof (Forall_lookup_1 _ _ _ _ Hok Hi) as [_ Hkey]. cbn [snd] in Hkey.
  destruct (bc_api_key bc) as [k|]; [|done]. by rewrite (blank_empty k (Hkey k eq_refl)).
Qed.

(** C38: Without overrides, settings that load (their mappings are dicts, so that keys are
    distinct) make the gateway they describe, unless an HTTP client refuses its arguments:
    then the start ends with what the first such client raises.  The registry has the
    configured tenants with distinct valid keys; admission has the tenants and
    every limit and timeout of the settings; the pool has one backend and one client per
    configured backend, with the configured timings, normalised URLs, and an [Authorization]
    header exactly where there is a key; there is a batcher, with its configured bounds,
    exactly when batching is enabled; the endpoint gets the configured limits.  Every service
    is at rest: nothing is in use, queued, started or closed, and no backend is routable. *)
Theorem settings_build http url raw s :
  NoDup (st_backends raw).*1 → NoDup (st_tenants raw).*1 → load_settings url raw = inr s →
  match refused_client http s with
  | Some e => lifespan_build http s no_overrides = inl e
  | None =>
      ∃ g, lifespan_build http s no_overrides = inr g ∧
        gy_registry g = asked_registry s ∧ registry_ok (gy_registry g) ∧
        asked_admission s (gy_admission g) ∧ asked_pool s (gy_backend g) ∧ asked_batcher s (gy_batcher g) ∧
        gy_limits g = Limits (st_max_completion_tokens s) (st_max_choices s) (st_batching_enabled s) ∧
        Forall (λ l, last (codes (vc_base_url l)) ≠ Some 47%N) (asked_clients s) ∧
        (∀ i l b, asked_clients s !! i = Some l → (st_backends s).*2 !! i = Some b →
           dict_get (vc_headers l) "Authorization"%py
             = (λ k, PyStr (codes "Bearer "%py ++ codes k)) <$> bc_api_key b) ∧
        st_tenants s = st_tenants raw ∧ (st_backends s).*1 = (st_backends raw).*1
  end.
Proof.
  intros Hb Ht Hload. destruct (load_settings_inv _ _ _ Hload) as (Hc & Hmap & Hbk & Hbo & Hts).
  destruct (settings_facts _ Hc) as (Hhi & Hht & Hgi & Hgq & Hqt & Hsz & Hw & Htc).
  unfold validate_mappings in Hmap. case_bool_decide as Hne; [done|].
  destruct (existsb _ (st_backends s).*1) eqn:Hblank; [done|].
  destruct (tenant_keys_ok [] (st_tenants s)) as [e|[]] eqn:Hk; [done|].
  destruct (registry_init_ok _ Htc _ Hk) as (Hr & Hnd & _ & Hall). rewrite <- Hbk in Hb. rewrite <- Hts in Ht.
  destruct (ctrl_starts s Hgi Hgq Hqt Ht) as (c & Hci & Hca).
  destruct (pool_starts s Hne Hhi Hht Hblank Hb) as (p & Hp & Hpa).
  assert (Hreg : registry_tenants (asked_registry s) = asked_tenant <$> st_tenants s)
    by (unfold registry_tenants, asked_registry; by rewrite <- list_fmap_compose).
  unfold lifespan_build, no_overrides. cbn [ov_registry ov_admission ov_backend ov_batcher].
  rewrite Hr. cbn [sum_bind]. fold (asked_registry s). rewrite Hreg, Hci. cbn [sum_bind].
  rewrite leaf_backends_spec. destruct (refused_client http s) as [e|]; [done|]. cbn [sum_bind]. rewrite Hp. cbn [sum_bind].
  assert (Hbat : ∃ b, (if st_batching_enabled s then
    let? b := batcher_init (st_batch_max_size s) (st_batch_max_wait s) true in inr (Some b) else inr None) = inr (A := exn) b ∧
    asked_batcher s b).
  { destruct (st_batching_enabled s) eqn:He; [|by exists None]. destruct (batcher_starts s Hsz Hw He) as (b & -> & Hba). by exists (Some b). }
  destruct Hbat as (b & -> & Hba). cbn [sum_bind]. eexists. split; [done|]. split_and!; try done.
  - split; cbn [gy_registry]; unfold asked_registry; [by rewrite <- list_fmap_compose|by apply Forall_fmap].
  - by apply client_urls.
  - intros i l bc Hl Hbc. by eapply client_headers_ok.
Qed.

Definition demo_url (s : pystr) : exn + pystr := inr (PyStr (codes s ++ codes "/"%py)).
Definition demo_settings : raw_settings :=
  Settings "gw" "test" "info"%py "0.0.0.0" 8080 "X-Request-ID"
    [("default", ("http://one", Some "secret")); ("other", ("http://two", Some " "))]%py 5 120 5 2 4096 4
    [("a"%py, TenantConfig "key-a" 2 0); ("b"%py, TenantConfig "key-b" 1 4)] 16 64 5 true 8 float_one.

Lemma demo_backends : NoDup (st_backends demo_settings).*1.
Proof. by apply (bool_decide_unpack _). Qed.
Lemma demo_tenant_ids : NoDup (st_tenants demo_settings).*1.
Proof. by apply (bool_decide_unpack _). Qed.

(** A client that encodes its headers in ASCII. *)
Definition demo_http : http_constructor := λ _ headers _ _,
  if forallb (λ h, forallb (λ c, c <? 128)%N (codes h.2)) headers then None else Some ValueError.

Lemma settings_build_witness :
  ∃ s g, load_settings demo_url demo_settings = inr s ∧ lifespan_build demo_http s no_overrides = inr g ∧
    c_order (as_ctrl (gy_admission g)) = ["a"; "b"]%py.
Proof.
  destruct (load_settings demo_url demo_settings) as [e|s] eqn:Hs; [vm_compute in Hs; discriminate Hs|].
  assert (Hn : refused_client demo_http s = None) by (vm_compute in Hs; injection Hs as <-; vm_compute; reflexivity).
  pose proof (settings_build demo_http _ _ _ demo_backends demo_tenant_ids Hs) as Hg. rewrite Hn in Hg.
  destruct Hg as (g & Hg & _ & _ & (_ & Ho & _) & _ & _ & _ & _ & _ & Ht & _).
  exists s, g. split; [reflexivity|]. split; [exact Hg|]. rewrite Ho, Ht. reflexivity.
Defined.
(** A key that is not ASCII is accepted by the settings and refused by that client. *)
Example demo_refused :
  match load_settings demo_url (Settings "gw" "test" "info"%py "0.0.0.0" 8080 "X-Request-ID"
    [("default", ("http://one", Some (PyStr [233%N])))]%py 5 120 5 2 4096 4
    [("a"%py, TenantConfig "key-a" 2 0)] 16 64 5 true 8 float_one) with
  | inr s => lifespan_build demo_http s no_overrides = inl ValueError
  | inl _ => False
  end.
Proof. vm_compute. reflexivity. Qed.

(** * Serving and stopping *)

(** What happened while starting and serving, and the last exception of a sequence. *)
Definition life_begun (outcome : life_event → option exn) (g : gateway) : list life_event :=
  if is_pool g then
    match outcome StartPool with Some _ => [StartPool] | None => [StartPool; SetReady true; Serve] end
  else [SetReady true; Serve].
Definition last_raised (outcome : life_event → option exn) (l : list life_event) : option exn :=
  last (omap (λ e, match e with SetReady _ => None | _ => outcome e end) l).

(** C37: However starting, serving and stopping end, the lifespan ends the same way: the
    gateway stops being ready, then admission is shut down, then the batcher if there
    is one, then the backend is closed, each exactly once; it is ready only after
    the pool has started and before anything is stopped; and the exception that
    leaves is the last one raised. *)
Theorem lifespan_order outcome g :
  let happened := life_begun outcome g ++ [SetReady false; StopAdmission] ++
    (if has_batcher g then [StopBatcher] else []) ++ [CloseBackend] in
  lifespan_run outcome g [] =
    (match last_raised outcome happened with Some e => inl e | None => inr () end, happened).
Proof.
  unfold life_begun, last_raised, lifespan_run, lifespan_stop, happen, set_ready, finally, bind, modify, ret, raise.
  destruct (is_pool g), (has_batcher g); simpl;
    destruct (outcome StartPool) eqn:?, (outcome Serve) eqn:?, (outcome StopAdmission) eqn:?,
      (outcome StopBatcher) eqn:?, (outcome CloseBackend) eqn:?; simpl;
    by repeat (simplify_option_eq; simpl).
Qed.
