(* ===== verification/Server.v ===== *)
(** The application as a server: the routes, middlewares and exception handlers that
    [create_app] (gateway/app.py) installs, the endpoints of api/health.py and
    api/metrics.py, and the way of a request through all of them.  The order in which
    the framework calls what is installed is Starlette's documented one: the handler of
    [Exception] outermost, then the middlewares, the last one added first, then the
    handlers of the other exceptions, then the routes. *)
From Stdlib Require Import SpecFloat.
From S2P Require Import Prelude.
From S2P Require Import Python.
From S2P Require Import Json.
From S2P Require Import Errors.
From S2P Require Import Routing.
From S2P Require Import Batching.
From S2P Require Import Metrics.
From S2P Require Import Sse.
From S2P Require Import Relay.
From S2P Require Import Auth.
From S2P Require Import Chat.
From S2P Require Import Endpoint.
From S2P Require Import Lifecycle.
From S2P Require Import Config.
From S2P Require Import Logging.

(** * The application *)

Inductive middleware := RequestIDMiddleware (header_name : pystr) | InferenceMetricsMiddleware.
Inductive handled := HandlesValidationError | HandlesGatewayError | HandlesException.
Inductive route := HealthRoute | ReadinessRoute | MetricsRoute | ChatRoute.

(** The logging that [configure_logging] set up, [application.state], and what is installed; [ap_middleware] is outermost first. *)
Record application := Application_ {
  ap_logging : pyval;
  ap_settings : settings;
  ap_ready : bool;
  ap_backend_pool : option pool;
  ap_dynamic_batcher : option batcher;
  ap_middleware : list middleware;
  ap_handlers : list handled;
  ap_routes : list (pystr * pystr * route);
}.

Definition add_middleware (m : middleware) (a : application) : application :=
  Application_ (ap_logging a) (ap_settings a) (ap_ready a) (ap_backend_pool a) (ap_dynamic_batcher a) (m :: ap_middleware a)
    (ap_handlers a) (ap_routes a).
Definition install_request_id_middleware (header_name : pystr) : application → application :=
  add_middleware (RequestIDMiddleware header_name).
Definition register_exception_handlers (a : application) : application :=
  Application_ (ap_logging a) (ap_settings a) (ap_ready a) (ap_backend_pool a) (ap_dynamic_batcher a) (ap_middleware a)
    (ap_handlers a ++ [HandlesValidationError; HandlesGatewayError; HandlesException]) (ap_routes a).
Definition include_router (rs : list (pystr * pystr * route)) (a : application) : application :=
  Application_ (ap_logging a) (ap_settings a) (ap_ready a) (ap_backend_pool a) (ap_dynamic_batcher a) (ap_middleware a)
    (ap_handlers a) (ap_routes a ++ rs).

Definition health_router : list (pystr * pystr * route) :=
  [("GET", "/healthz", HealthRoute); ("GET", "/readyz", ReadinessRoute)]%py.
Definition metrics_router : list (pystr * pystr * route) := [("GET", "/metrics", MetricsRoute)]%py.
Definition chat_router : list (pystr * pystr * route) := [("POST", "/v1/chat/completions", ChatRoute)]%py.

(** [create_app], after the services of the lifespan, which Application has. *)
Definition create_app (s : settings) : application :=
  let a := Application_ (logging_config (level_name (st_log_level s))) s false None None [] [] [] in
  let a := install_request_id_middleware (st_request_id_header s) a in
  let a := add_middleware InferenceMetricsMiddleware a in
  let a := register_exception_handlers a in
  include_router chat_router (include_router metrics_router (include_router health_router a)).

(** * Responses *)

(** The status and the body, and the error counters that making them incremented; the
    body of a stream is the relay's. *)
Inductive content := JsonContent (v : pyval) | TextContent (content_type : pystr) (text : list N) | RelayContent.
Record reply := Reply { hd_status : Z; hd_content : content; hd_errors : list update }.
Abbreviation response := (reply * list (pystr * pystr))%type.

(** [_record_error_metric]; the metrics are part of the application from the start. *)
Definition record_error_metric (accepts : update → bool) (code : pystr) : list update :=
  attempt accepts (record_error code).

(** [_error_payload] and the [JSONResponse] of [_error_response]. *)
Definition error_payload (e : json_error_response) : pyval :=
  VDict [("error", VDict [("code", VStr (er_code e)); ("message", VStr (er_message e));
                          ("request_id", match er_request_id e with Some r => VStr r | None => VNone end)])]%py.
Definition error_to_response (accepts : update → bool) (ec : json_error_response * pystr) : response :=
  (Reply (er_status ec.1) (JsonContent (error_payload ec.1)) (record_error_metric accepts ec.2), er_headers ec.1).

(** ** api/health.py and api/metrics.py *)

Definition health : response := (Reply 200 (JsonContent (VDict [("status", VStr "ok")]%py)) [], []).
Definition readiness_response (a : application) : response :=
  let status := readiness (ap_ready a) (ap_backend_pool a) in
  (Reply status (JsonContent (VDict [("status", VStr (if status =? 200 then "ready" else "not_ready"))]%py)) [], []).
(** [metrics]; [render] is [generate_latest] of the registry. *)
Definition metrics_response (content_type : pystr) (render : list N) : response :=
  (Reply 200 (TextContent content_type render) [], [("Content-Type", content_type)]%py).

(** * A request *)

(** What ends an endpoint early: the validation of the body, or an exception. *)
Inductive failure := Invalid | Exc (e : exn).

(** What [create_chat_completion] returns or raises: [JSONResponse], and the headers that
    [SSEStreamingResponse] is made with. *)
Definition chat_result (res : exn + chat_response) : failure + response :=
  match res with
  | inl e => inl (Exc e)
  | inr (JsonResponse d) => inr (Reply 200 (JsonContent (VDict d)) [], [])
  | inr StreamResponse =>
      inr (Reply 200 RelayContent [],
           [("Content-Type", "text/event-stream"); ("Cache-Control", "no-cache"); ("X-Accel-Buffering", "no")]%py)
  end.

Definition find_route (method path : pystr) (a : application) : option route :=
  snd <$> list.head (filter (λ r, r.1 = (method, path)) (ap_routes a)).

Section request.
Variable accepts : update → bool.
Variable a : application.
Abbreviation header_name := (st_request_id_header (ap_settings a)).
(** The rendered registry and its content type; the chat endpoint with the request's
    identifier; the framework's answer where no route matches. *)
Variable content_type : pystr.
Variable render : list N.
Variable chat : option pystr → failure + response.
Variable unrouted : response.

Definition endpoint (method path : pystr) (rid : option pystr) : failure + response :=
  match find_route method path a with
  | Some HealthRoute => inr health
  | Some ReadinessRoute => inr (readiness_response a)
  | Some MetricsRoute => inr (metrics_response content_type render)
  | Some ChatRoute => chat rid
  | None => inr unrouted
  end.

(** The handlers of [RequestValidationError] and [GatewayError], around the routes. *)
Definition exception_middleware (state : option pystr) (ep : option pystr → failure + response)
    : sem (option pystr) exn response :=
  let! ctx := get in
  match ep ctx with
  | inr r => ret r
  | inl Invalid => ret (error_to_response accepts (request_validation_error_handler header_name ctx state))
  | inl (Exc (Gateway g)) => ret (error_to_response accepts (gateway_error_handler header_name ctx state g))
  | inl (Exc e) => raise e
  end.

(** The handler of [Exception], around everything: the response is sent, and the
    exception raised to the server again. *)
Definition server_error_middleware (state : option pystr) (m : sem (option pystr) exn response) (ctx : option pystr)
    : option response * option exn * option pystr :=
  match m ctx with
  | (inr r, ctx) => (Some r, None, ctx)
  | (inl e, ctx) =>
      (if is_exception e then Some (error_to_response accepts (unexpected_error_handler header_name ctx state)) else None,
       Some e, ctx)
  end.

(** A request with its identifier header; [fresh] is the identifier [uuid4] yields. *)
Definition serve (method path : pystr) (header : option pystr) (fresh : pystr) (ctx : option pystr)
    : option response * option exn * option pystr :=
  let state := Some (request_id header fresh) in
  server_error_middleware state
    (dispatch header_name header fresh (exception_middleware state (endpoint method path))) ctx.

(** What [InferenceMetricsMiddleware] sees of it: the response when none of the inner
    parts raised. *)
Definition seen (r : option response * option exn * option pystr) (st : scope_state) : list sending :=
  match r with
  | (Some r, None, _) => [Sending (ResponseStart (hd_status r.1)) false st; Sending (ResponseBody false) false st]
  | _ => []
  end.
Definition request_metrics (clock : nat → Z) (method path : pystr) (st : scope_state)
    (r : option response * option exn * option pystr) : list update :=
  middleware_call accepts clock true (Some method) (Some path) (seen r st) r.1.2 st.
End request.

(** * What a client and an operator get *)

(** The application that [create_app] makes is not ready, records around the identifiers,
    and has a handler for every exception. *)
Theorem create_app_installs s :
  let a := create_app s in
  readiness (ap_ready a) (ap_backend_pool a) = 503 ∧
  ap_middleware a = [InferenceMetricsMiddleware; RequestIDMiddleware (st_request_id_header s)] ∧
  find_route "POST"%py "/v1/chat/completions"%py a = Some ChatRoute ∧
  find_route "GET"%py "/readyz"%py a = Some ReadinessRoute ∧
  (∀ m p, is_inference_request (Some m) (Some p) = true ↔ find_route m p a = Some ChatRoute).
Proof.
  cbv zeta. split_and!; try reflexivity. intros m p. unfold is_inference_request, find_route. 
  destruct (decide ((m, p) = ("POST"%py, "/v1/chat/completions"%py))) as [[= -> ->]|Hne]; [by vm_compute|].
  split.
  - intros [Hm Hp]%andb_true_iff. apply bool_decide_eq_true in Hm, Hp. by simplify_eq.
  - intros Hf. apply fmap_Some in Hf as ([[m' p'] r] & Hh & Hr). cbn in Hr. subst r.
    apply head_Some_elem_of, list_elem_of_filter in Hh as [[= -> ->] Hin].
    vm_compute in Hin. set_solver.
Qed.

Section results.
Variable accepts : update → bool.
Variable a : application.
Abbreviation header_name := (st_request_id_header (ap_settings a)).

Lemma request_id_from_own rid : request_id_from (Some rid) (Some rid) = Some rid.
Proof. cbn. by destruct (str_truthy rid). Qed.

(** How a failure is answered, and the code that is counted. *)
Definition failure_status (f : failure) : Z :=
  match f with Invalid => 400 | Exc (Gateway g) => error_status_code g | Exc _ => 500 end.
Definition failure_code (f : failure) : pystr :=
  match f with Invalid => "invalid_request" | Exc (Gateway g) => error_code g | Exc _ => "internal_error" end%py.

(** The error that a handler answers with, the identifier being in the context or in the
    request's state. *)
Definition failure_error (f : failure) (ctx : option pystr) (rid : pystr) : json_error_response * pystr :=
  match f with
  | Invalid => request_validation_error_handler header_name ctx (Some rid)
  | Exc (Gateway g) => gateway_error_handler header_name ctx (Some rid) g
  | Exc _ => unexpected_error_handler header_name ctx (Some rid)
  end.

Lemma failure_error_identified f ctx rid :
  ctx = None ∨ ctx = Some rid →
  let e := failure_error f ctx rid in
  er_status e.1 = failure_status f ∧ er_request_id e.1 = Some rid ∧ er_code e.1 = failure_code f ∧ e.2 = failure_code f.
Proof.
  intros Hctx. assert (Hr : request_id_from ctx (Some rid) = Some rid)
    by (destruct Hctx as [-> | ->]; [done|apply request_id_from_own]).
  destruct f as [|[]]; cbn; by rewrite Hr.
Qed.

Lemma serve_result content_type render chat unrouted method path header fresh :
  let rid := request_id header fresh in
  serve accepts a content_type render chat unrouted method path header fresh None =
  match endpoint a content_type render chat unrouted method path (Some rid) with
  | inr response => (Some (response.1, dict_set response.2 header_name rid), None, None)
  | inl (Exc (Gateway _) as f) | inl (Invalid as f) =>
      let response := error_to_response accepts (failure_error f (Some rid) rid) in
      (Some (response.1, dict_set response.2 header_name rid), None, None)
  | inl (Exc e) =>
      (if is_exception e then Some (error_to_response accepts (failure_error (Exc e) None rid)) else None, Some e, None)
  end.
Proof.
  cbv zeta. unfold serve, server_error_middleware, dispatch, exception_middleware, bind, get, modify, finally, ret, raise.
  by destruct (endpoint _ _ _ _ _ _ _ _) as [[|[]]|].
Qed.

(** Only the handler of [Exception] answers without the middleware that sets the header. *)
Lemma unexpected_headers e rid :
  match e with Gateway _ => False | _ => True end →
  dict_get (error_to_response accepts (failure_error (Exc e) None rid)).2 header_name = Some rid.
Proof. destruct e; cbn; try done; by rewrite decide_True. Qed.

(** C36: Whatever an endpoint does, its request is answered with exactly one response
    unless it was cancelled or the process stops, the response carries the identifier of
    the request in the configured header, and the identifier is in no later request's
    context; a failure is answered by its handler, with the identifier in the body, and
    counted once by its code; and only an unexpected exception reaches the server again. *)
Theorem request_identified content_type render chat unrouted method path header fresh :
  let rid := request_id header fresh in
  let '(r, e, ctx) := serve accepts a content_type render chat unrouted method path header fresh None in
  ctx = None ∧
  (∀ response, r = Some response → dict_get response.2 header_name = Some rid) ∧
  match endpoint a content_type render chat unrouted method path (Some rid) with
  | inr response => r = Some (response.1, dict_set response.2 header_name rid) ∧ e = None
  | inl f =>
      (e = match f with Exc (Gateway _) | Invalid => None | Exc e => Some e end) ∧
      (r = None ↔ ∃ e', f = Exc e' ∧ is_exception e' = false) ∧
      ∀ response, r = Some response →
        hd_status response.1 = failure_status f ∧
        (∃ err, hd_content response.1 = JsonContent (error_payload err) ∧ er_request_id err = Some rid ∧ er_code err = failure_code f) ∧
        hd_errors response.1 = record_error_metric accepts (failure_code f)
  end.
Proof.
  cbv zeta. rewrite serve_result. set (rid := request_id header fresh).
  assert (Hset : ∀ (r r' : response), Some (r.1, dict_set r.2 header_name rid) = Some r' → dict_get r'.2 header_name = Some rid)
    by (intros r r' [= <-]; cbn [snd]; rewrite dict_get_set; by rewrite decide_True).
  assert (Herr : ∀ f ctx h (r : response), ctx = None ∨ ctx = Some rid →
    Some ((error_to_response accepts (failure_error f ctx rid)).1, h) = Some r →
    hd_status r.1 = failure_status f ∧
    (∃ err, hd_content r.1 = JsonContent (error_payload err) ∧ er_request_id err = Some rid ∧ er_code err = failure_code f) ∧
    hd_errors r.1 = record_error_metric accepts (failure_code f)).
  { intros f ctx h r Hctx [= <-]. destruct (failure_error_identified f ctx rid Hctx) as (H1 & H2 & H3 & H4).
    cbn [error_to_response fst hd_status hd_content hd_errors]. rewrite H4. split_and!; [done| |done]. by eexists. }
  destruct (endpoint _ _ _ _ _ _ _ _) as [[|e]|resp].
  - split_and!; try done; [apply Hset|by split; [|intros (? & ? & _)]|]. intros r. apply Herr. by right.
  - assert (He : (∃ g, e = Gateway g) ∨ match e with Gateway _ => False | _ => True end) by (destruct e; naive_solver).
    destruct He as [[g ->]|He].
    { split_and!; try done; [apply Hset|by split; [|intros (? & [= <-] & ?)]|]. intros r. apply Herr. by right. }
    pose proof (unexpected_headers e rid He) as Hh. pose proof (Herr (Exc e) None) as Hn. clear Hset Herr.
    destruct (is_exception e) eqn:Hx; destruct e; try done.
    all: split_and!; try done; try (intros r [= <-]; done); try (by split; [|intros (? & [= <-] & ?)]);
      try (by split; [by eexists|]); intros r [= <-]; eapply Hn; by eauto.
  - split_and!; [done|apply Hset|done..].
Qed.

Hypothesis accepts_ok : ∀ u, collectors_accept u = true → accepts u = true.

(** A request that was answered at once is recorded once, with the status of its answer;
    one that raised is recorded as an error or, if it was cancelled, as such. *)
Theorem request_measured clock content_type render chat unrouted method path header fresh st :
  let r := serve accepts a content_type render chat unrouted method path header fresh None in
  request_metrics accepts clock method path st r =
  if is_inference_request (Some method) (Some path) then
    match r with
    | (Some response, None, _) =>
        let status := Some (hd_status response.1) in
        record_request (default MUnknown (sc_mode st)) status (body_outcome st (Timing status false 1 [])) (clock 1%nat - clock 0%nat)
    | (_, e, _) => record_request (default MUnknown (sc_mode st)) None
        (match e with None | Some CancelledError => RCancelled | Some _ => RError end) (clock 1%nat - clock 0%nat)
    end
  else [].
Proof.
  cbv zeta. unfold request_metrics. rewrite request_recorded_once by done. cbn [andb].
  destruct (is_inference_request _ _); [|done].
  destruct (serve _ _ _ _ _ _ _ _ _ _ _) as [[[resp|] [e|]] ctx]; cbn [seen fst snd final_body]; try done.
Qed.
End results.

(** A valid chat request to the application that [create_app] makes: what the client
    gets is what the endpoint over admission, batcher and backend ended with. *)
Theorem chat_request_answered accepts s an reg li batcher authorization r content_type render unrouted header fresh :
  let header_name := st_request_id_header s in
  let rid := request_id header fresh in
  let res := (chat_endpoint an reg li batcher authorization r request_start).1 in
  let served := serve accepts (create_app s) content_type render (λ _, chat_result res) unrouted
    "POST"%py "/v1/chat/completions"%py header fresh None in
  match res with
  | inr (JsonResponse d) => served = (Some (Reply 200 (JsonContent (VDict d)) [], [(header_name, rid)]), None, None)
  | inr StreamResponse => ∃ headers, served = (Some (Reply 200 RelayContent [], headers), None, None)
  | inl (Gateway g) => ∃ body headers,
      served = (Some (Reply (error_status_code g) (JsonContent body) (record_error_metric accepts (error_code g)), headers), None, None)
  | inl e => served.1.2 = Some e ∧
      (is_exception e = true → ∃ body headers,
         served.1.1 = Some (Reply 500 (JsonContent body) (record_error_metric accepts "internal_error"%py), headers))
  end.
Proof.
  cbv zeta. rewrite serve_result. unfold endpoint. replace (find_route _ _ (create_app s)) with (Some ChatRoute) by done.
  destruct (chat_endpoint _ _ _ _ _ _ _) as [[e|[d|]] q]; cbn [fst snd chat_result].
  - destruct e; [by eexists _, _|split; [done|]; try done; intros _; by eexists _, _..].
  - done.
  - by eexists.
Qed.
