(* ===== verification/Gateway.v ===== *)
(** The gateway as a whole: the tasks of its requests and of its flushes over the
    admission controller, the batcher, the backend pool and the relays, as
    gateway/api/chat.py runs them and gateway/app.py wires them together.

    Each component keeps its own state and events; an event of the gateway is one
    stretch of a task between two awaits, which steps the components it calls, or an
    event of a component's own tasks and timers. *)
From S2P Require Import Prelude.
From S2P Require Import Python.
From S2P Require Import Json.
From S2P Require Import Errors.
From S2P Require Import Auth.
From S2P Require Import Admission.
From S2P Require Import Routing.
From S2P Require Import Chat.
From S2P Require Import Compatibility.
From S2P Require Import Batching.
From S2P Require Import Metrics.
From S2P Require Import Sse.
From S2P Require Import Relay.
From S2P Require Import Endpoint.

(** * State *)

(** Where a task is suspended.  [l] is its admission lease and [pl] the pool lease of
    its backend call.
    - [TAcquire]: in [admission.acquire], on the future [w];
    - [TSubmit]: in [batcher.submit], on the future of item [i];
    - [TCall]: in [backend.generate];
    - [TOpen]: in [backend.stream];
    - [TRefused]: there too, closing a stream that was opened while the pool closed;
    - [TStream]: the response is a stream, relayed by [rl];
    - [TFlush]: the flush [f] is in [backend.generate_batch]. *)
Inductive task :=
| TAcquire (tid : pystr) (r : chat_request) (w : nat)
| TSubmit (tid : pystr) (r : chat_request) (l i : nat)
| TCall (tid : pystr) (l pl : nat)
| TOpen (tid : pystr) (l pl : nat)
| TRefused (tid : pystr) (l st : nat)
| TStream (tid : pystr) (l st : nat) (rl : relay)
| TFlush (f pl : nat).

(** [app.state] and the tasks; tasks are named by numbers. *)
Record gateway_state := GatewayState {
  g_adm : Admission.system;
  g_batch : bsystem;
  g_pool : rsys;
  g_tasks : gmap nat task;
  g_next : nat;
}.

Definition on_tasks (f : gmap nat task → gmap nat task) (y : gateway_state) : gateway_state :=
  GatewayState (g_adm y) (g_batch y) (g_pool y) (f (g_tasks y)) (g_next y).
Definition put_task (n : nat) (k : task) : gateway_state → gateway_state := on_tasks <[n := k]>.
Definition drop_task (n : nat) : gateway_state → gateway_state := on_tasks (delete n).

Inductive gevent :=
| GvRequest (authorization : option pystr) (r : chat_request)
| GvAdmitted (n : nat)                            (* [acquire] of task [n] runs on *)
| GvSubmitted (n : nat)                           (* [submit] of task [n] runs on *)
| GvAnswer (n : nat) (a : exn + pydict)           (* the backend answers task [n] *)
| GvRefused (n : nat) (e : option exn)            (* the refused stream is closed *)
| GvCancel (n : nat)                              (* the task of a request is cancelled *)
| GvRelay (n : nat) (ev : rlevent)
| GvFlush (f : nat)                               (* the loop runs flush [f] *)
| GvFlushed (n : nat) (a : exn + batch_answer)    (* the backend answers a flush *)
| GvAdmission (ev : Admission.event)
| GvBatcher (ev : bevent)
| GvPool (ev : revent).

(** What becomes of a request: it waits in task [n], gets a JSON or a streaming
    response, or an error. *)
Inductive goutcome :=
| GOWaits (n : nat)
| GOResponse (d : pydict)
| GOStream (n : nat)
| GOError (e : exn)
| GONone.

(** The events that only a component's own timers, tasks and clients cause. *)
Definition own_admission (ev : Admission.event) : bool :=
  match ev with EvTimer _ | EvShutdown | EvObserver _ => true | _ => false end.
Definition own_batcher (ev : bevent) : bool :=
  match ev with BvTimer _ | BvTimerEnd _ | BvShutdown | BvGathered | BvSnapshot => true | _ => false end.
Definition own_pool (ev : revent) : bool :=
  match ev with RvCall _ _ | RvAnswer _ _ => false | _ => true end.

Definition error_of {A} (a : exn + A) : option exn := match a with inl e => Some e | inr _ => None end.

(** What the gateway is run with: the clocks; [late], see Admission; the registry, the
    limits of the settings, and whether a batcher is installed; and what the observers
    of the streams use, by the stream's number. *)
Record environment := Environment {
  en_adm_clock : nat → Z;
  en_batch_clock : nat → Z;
  en_late : bool;
  en_registry : registry;
  en_limits : limits;
  en_batcher : bool;
  en_json_loads : bytes → json_failure + pyval;
  en_accepts : update → bool;
  en_sse_clock : nat → Z;
  en_started_at : nat → Z;
  en_backend_id : nat → option pystr;
  en_upstream_started : nat → option Z;
  en_observer : sse;
}.

Section gateway.
Context `{FloatRepr, ModelDump}.
Variable E : environment.

(** ** Steps of the components *)

Definition adm_step (ev : Admission.event) (y : gateway_state) : option (Admission.outcome * gateway_state) :=
  match exec (en_adm_clock E) (en_late E) ev (g_adm y) with
  | Some (o, a) => Some (o, GatewayState a (g_batch y) (g_pool y) (g_tasks y) (g_next y))
  | None => None
  end.
Definition batch_step (ev : bevent) (y : gateway_state) : option (boutcome * gateway_state) :=
  match bexec (en_batch_clock E) ev (g_batch y) with
  | Some (o, b) => Some (o, GatewayState (g_adm y) b (g_pool y) (g_tasks y) (g_next y))
  | None => None
  end.
Definition pool_step (ev : revent) (y : gateway_state) : option (routcome * gateway_state) :=
  match rexec ev (g_pool y) with
  | Some (o, p) => Some (o, GatewayState (g_adm y) (g_batch y) p (g_tasks y) (g_next y))
  | None => None
  end.

(** ** Requests *)

(** The end of the [async with admission.admit(tenant)], and the [except] clause of
    [_create_streaming_completion]. *)
Definition end_request (n l : nat) (o : goutcome) (y : gateway_state) : option (goutcome * gateway_state) :=
  '(_, y) ← adm_step (EvRelease l) y;
  Some (o, drop_task n y).

(** From the admission lease [l] to the call of a service. *)
Definition begin_service (n : nat) (tid : pystr) (l : nat) (r : chat_request) (y : gateway_state)
    : option (goutcome * gateway_state) :=
  if cr_stream r then
    '(o, y) ← pool_step (RvCall OpStream 1) y;
    match o with
    | ROLease pl => Some (GOWaits n, put_task n (TOpen tid l pl) y)
    | RORaised e => end_request n l (GOError e) y
    | _ => None
    end
  else if eligible (batching_eligibility r (li_batching_enabled (en_limits E))) then
    if negb (en_batcher E) then end_request n l (GOError (gw BatchingUnavailableError)) y else
    '(o, y) ← batch_step (BvSubmit tid r) y;
    match o with
    | BOSuspended i => Some (GOWaits n, put_task n (TSubmit tid r l i) y)
    | BORaised e => end_request n l (GOError e) y
    | _ => None
    end
  else
    '(o, y) ← pool_step (RvCall OpGenerate 1) y;
    match o with
    | ROLease pl => Some (GOWaits n, put_task n (TCall tid l pl) y)
    | RORaised e => end_request n l (GOError e) y
    | _ => None
    end.

(** A request whose body pydantic accepted, up to its first suspension. *)
Definition begin_request (authorization : option pystr) (r : chat_request) (y : gateway_state)
    : option (goutcome * gateway_state) :=
  match authenticate (en_registry E) authorization with
  | inl e => Some (GOError e, y)
  | inr t =>
      match enforce_configured_limits r (en_limits E) with
      | inl e => Some (GOError e, y)
      | inr _ =>
          let n := g_next y in
          let y := GatewayState (g_adm y) (g_batch y) (g_pool y) (g_tasks y) (S n) in
          '(o, y) ← adm_step (EvAcquire t) y;
          match o with
          | OLease l => begin_service n (tenant_id t) l r y
          | OSuspended w => Some (GOWaits n, put_task n (TAcquire (tenant_id t) r w) y)
          | ORaised e => Some (GOError e, y)
          | ONone => None
          end
      end
  end.

(** [acquire] runs on. *)
Definition admitted (n : nat) (tid : pystr) (r : chat_request) (w : nat) (y : gateway_state)
    : option (goutcome * gateway_state) :=
  '(o, y) ← adm_step (EvResume w) y;
  match o with
  | OLease l => begin_service n tid l r y
  | ORaised e => Some (GOError e, drop_task n y)
  | _ => None
  end.

(** The answer of [batcher.submit]. *)
Definition submitted (n l : nat) (o : boutcome) (y : gateway_state) : option (goutcome * gateway_state) :=
  match o with
  | BOResult d => end_request n l (GOResponse d) y
  | BORaised e => end_request n l (GOError e) y
  | _ => None
  end.

(** The answer of [backend.generate] and [backend.stream]. *)
Definition generated (n l pl : nat) (a : exn + pydict) (y : gateway_state) : option (goutcome * gateway_state) :=
  '(o, y) ← pool_step (RvAnswer pl (error_of a)) y;
  end_request n l match o, a with
                  | RORaised e, _ => GOError e
                  | _, inr d => GOResponse d
                  | _, inl e => GOError e
                  end y.
Definition stream_opened (n : nat) (tid : pystr) (l pl : nat) (a : option exn) (y : gateway_state)
    : option (goutcome * gateway_state) :=
  let fresh := p_next (r_pool (g_pool y)) in
  '(o, y) ← pool_step (RvAnswer pl a) y;
  match o, a with
  | ROStream st, _ => Some (GOStream n, put_task n (TStream tid l st (relay_init (Some (en_observer E)))) y)
  | RORaised e, Some _ => end_request n l (GOError e) y
  | RORaised e, None => Some (GOWaits n, put_task n (TRefused tid l fresh) y)
  | _, _ => None
  end.

(** The routed stream's [aclose] and [_finish] return once it is closed, or are
    cancelled while they wait for that. *)
Definition finish_returns (st : nat) (e : option exn) (y : gateway_state) : bool :=
  stream_ended (r_pool (g_pool y)) (r_finishing (g_pool y)) st || bool_decide (e = Some CancelledError).

(** ** Relays *)

Definition relay_over (rl : relay) : bool :=
  match rl_response rl, rl_holder rl with Returned, None => true | _, _ => false end.

Definition relay_exec (st : nat) : rlevent → relay → option relay :=
  rlexec (en_json_loads E) (en_accepts E) (en_sse_clock E) (en_started_at E st) (en_backend_id E st)
    (en_upstream_started E st).

(** One event of the relay of task [n]; entering [backend_stream.aclose] and
    [lease.release] are steps of the pool and of the admission controller. *)
Definition relayed (n : nat) (tid : pystr) (l st : nat) (rl : relay) (ev : rlevent) (y : gateway_state)
    : option (goutcome * gateway_state) :=
  let ready := match ev with RlEnds e | RlClosed e => finish_returns st e y | _ => true end in
  if negb ready then None else
  rl' ← relay_exec st ev rl;
  y ← (if (rl_closes rl <? rl_closes rl')%nat
       then '(_, y) ← pool_step (RvAclose st) y; Some y else Some y);
  y ← (if (rl_releases rl <? rl_releases rl')%nat
       then '(_, y) ← adm_step (EvRelease l) y; Some y else Some y);
  Some (GONone, if relay_over rl' then drop_task n y else put_task n (TStream tid l st rl') y).

(** ** Flushes *)

(** [_execute_batch] up to the backend's answer, through the pool's
    [generate_batch]; a refused call is an answer at once. *)
Definition start_flush (f : nat) (y : gateway_state) : option (goutcome * gateway_state) :=
  '(o, y) ← batch_step (BvStart f) y;
  match o with
  | BOCall requests =>
      '(o, y) ← pool_step (RvCall OpBatch (Z.of_nat (length requests))) y;
      match o with
      | ROLease pl =>
          Some (GONone, put_task (g_next y) (TFlush f pl)
                          (GatewayState (g_adm y) (g_batch y) (g_pool y) (g_tasks y) (S (g_next y))))
      | RORaised e => '(_, y) ← batch_step (BvAnswer f (inl e)) y; Some (GONone, y)
      | _ => None
      end
  | BONone => Some (GONone, y)
  | _ => None
  end.
Definition flushed (n f pl : nat) (a : exn + batch_answer) (y : gateway_state) : option (goutcome * gateway_state) :=
  '(o, y) ← pool_step (RvAnswer pl (error_of a)) y;
  '(_, y) ← batch_step (BvAnswer f match o with RORaised e => inl e | _ => a end) y;
  Some (GONone, drop_task n y).

(** ** Events *)

Definition alone {O} (s : option (O * gateway_state)) : option (goutcome * gateway_state) :=
  '(_, y) ← s; Some (GONone, y).

(** The effect of one event, [None] when it cannot happen in this state. *)
Definition gexec (ev : gevent) (y : gateway_state) : option (goutcome * gateway_state) :=
  match ev with
  | GvRequest authorization r => if request_valid r then begin_request authorization r y else None
  | GvAdmitted n =>
      match g_tasks y !! n with Some (TAcquire tid r w) => admitted n tid r w y | _ => None end
  | GvSubmitted n =>
      match g_tasks y !! n with
      | Some (TSubmit _ _ l i) => '(o, y) ← batch_step (BvDone i) y; submitted n l o y
      | _ => None
      end
  | GvAnswer n a =>
      match g_tasks y !! n with
      | Some (TCall _ l pl) => generated n l pl a y
      | Some (TOpen tid l pl) => stream_opened n tid l pl (error_of a) y
      | _ => None
      end
  | GvRefused n e =>
      match g_tasks y !! n with
      | Some (TRefused _ l st) =>
          if finish_returns st e y then end_request n l (GOError (default (gw NoHealthyBackendError) e)) y
          else None
      | _ => None
      end
  | GvCancel n =>
      match g_tasks y !! n with
      | Some (TAcquire _ _ w) => alone (adm_step (EvCancel w) y)
      | Some (TSubmit _ _ l i) => '(o, y) ← batch_step (BvCancel i) y; submitted n l o y
      | Some (TCall _ l pl) => generated n l pl (inl CancelledError) y
      | Some (TOpen tid l pl) => stream_opened n tid l pl (Some CancelledError) y
      | _ => None
      end
  | GvRelay n ev =>
      match g_tasks y !! n with Some (TStream tid l st rl) => relayed n tid l st rl ev y | _ => None end
  | GvFlush f => start_flush f y
  | GvFlushed n a =>
      match g_tasks y !! n with
      | Some (TFlush f pl) => if can_answer a then flushed n f pl a y else None
      | _ => None
      end
  | GvAdmission ev => if own_admission ev then alone (adm_step ev y) else None
  | GvBatcher ev => if own_batcher ev then alone (batch_step ev y) else None
  | GvPool ev => if own_pool ev then alone (pool_step ev y) else None
  end.

(** The states a gateway built from these services can get into. *)
Definition gateway_start (c : ctrl) (b : Batching.batcher) (p : pool) : gateway_state :=
  GatewayState (Admission.System c ∅ ∅) (BSystem b ∅ ∅ false) (RSys p ∅ ∅ None) ∅ 0.
Inductive greachable (y0 : gateway_state) : gateway_state → Prop :=
| greachable_init : greachable y0 y0
| greachable_step y ev o y' : greachable y0 y → gexec ev y = Some (o, y') → greachable y0 y'.

Fixpoint grun (evs : list gevent) (y : gateway_state) : option gateway_state :=
  match evs with
  | [] => Some y
  | ev :: evs => match gexec ev y with Some (_, y') => grun evs y' | None => None end
  end.
End gateway.
