(* ===== verification/Holdings.v ===== *)
(** What the gateway's tasks hold of each component, leases, suspended calls, backend
    calls and streams, and what each event of the component does to it. *)
From S2P Require Import Prelude.
From S2P Require Import Python.
From S2P Require Import Json.
From S2P Require Import Errors.
From S2P Require Import Auth.
From S2P Require Import Admission.
From S2P Require Import AdmissionInv.
From S2P Require Import AdmissionSections.
From S2P Require Import AdmissionSystem.
From S2P Require Import AdmissionStep.
From S2P Require Import Routing.
From S2P Require Import RoutingInv.
From S2P Require Import RoutingSystem.
From S2P Require Import Chat.
From S2P Require Import Compatibility.
From S2P Require Import Batching.
From S2P Require Import BatchingInv.
From S2P Require Import BatchingSystem.
From S2P Require Import Mirror.

(** * The admission controller *)

(** A lease a caller holds, and a suspended [acquire]. *)
Definition held_lease (a : system) (tid : pystr) (l : nat) : Prop :=
  l ∈ Admission.y_held a ∧ usable_lease a tid l.
Definition waiting_call (a : system) (tid : pystr) (w : nat) : Prop :=
  ∃ fr, Admission.y_frames a !! w = Some fr ∧ f_tenant fr = tid.

(** The tenant an event may obtain a lease for. *)
Definition asker (ev : event) (a : system) : option pystr :=
  match ev with
  | EvAcquire t => Some (tenant_id t)
  | EvResume w => f_tenant <$> Admission.y_frames a !! w
  | _ => None
  end.

(** Leases stay, except that those of [R] may be released. *)
Definition leases_stay (R : nat → Prop) (s s' : ctrl) : Prop :=
  ∀ l le, c_leases s !! l = Some le → ∃ le', c_leases s' !! l = Some le' ∧
    (l_released le = true → l_released le' = true) ∧ (R l ∨ le' = le).

Lemma stay_moves R s s' : moves R s s' → leases_stay R s s'.
Proof. intros Hm l le Hl. destruct (mv_lease _ _ _ Hm _ _ Hl) as (le' & ? & _ & ? & ?). eauto. Qed.
Lemma stay_same R s s' : c_leases s' = c_leases s → leases_stay R s s'.
Proof. intros Hs l le Hl. exists le. rewrite Hs. auto. Qed.
Lemma stay_admitted tid l s s' : admitted_now tid l s s' → leases_stay none s s'.
Proof.
  intros Ha l' le Hl. destruct (an_lease _ _ _ _ Ha) as [now Hls]. exists le. rewrite Hls, lookup_insert_ne; [auto|].
  intros <-. by rewrite (an_fresh _ _ _ _ Ha) in Hl.
Qed.
Lemma stay_trans s1 s2 s3 : leases_stay none s1 s2 → leases_stay none s2 s3 → leases_stay none s1 s3.
Proof.
  intros H1 H2 l le Hl. destruct (H1 _ _ Hl) as (le2 & Hl2 & _ & [[]| ->]).
  destruct (H2 _ _ Hl2) as (le3 & Hl3 & _ & [[]| ->]). eauto.
Qed.
Lemma stay_started t s a s' : started t s a s' → leases_stay none s s'.
Proof.
  destruct a as [l|w].
  - intros (s1 & st & Hm & _ & _ & _ & _ & Ha). eapply stay_trans; [by apply stay_moves|by eapply stay_admitted].
  - intros (s1 & st & Hm & _ & _ & _ & _ & _ & _ & _ & Hm').
    eapply stay_trans; [by apply stay_moves|]. eapply stay_trans; [|by apply stay_moves]. by apply stay_same.
Qed.

(** A lease that stays is as usable as before. *)
Lemma stay_usable R s s' l le :
  leases_stay R s s' → c_leases s !! l = Some le → ¬ R l → c_leases s' !! l = Some le.
Proof. intros Hs Hl Hn. destruct (Hs _ _ Hl) as (le' & Hl' & _ & [?| ->]); done. Qed.

Section admission.
Context (clock : nat → Z) (late : bool).

(** The leases a caller holds stay as they are until it releases them. *)
Lemma exec_stay a ev o a' :
  sys_ok late a → exec clock late ev a = Some (o, a') →
  ∃ R, leases_stay R (y_ctrl a) (y_ctrl a') ∧
    (∀ l, R l → l ∈ Admission.y_held a → ev = EvRelease l) ∧
    (∀ l, ev = EvRelease l → ∃ le, c_leases (y_ctrl a') !! l = Some le ∧ l_released le = true).
Proof.
  intros Hy Hex. pose proof Hy as [Hi Hs _ Hc _].
  assert (Hnone : ∀ s', (∀ l, ev ≠ EvRelease l) → leases_stay none (y_ctrl a) s' → ∃ R, leases_stay R (y_ctrl a) s' ∧
    (∀ l, R l → l ∈ Admission.y_held a → ev = EvRelease l) ∧
    (∀ l, ev = EvRelease l → ∃ le, c_leases s' !! l = Some le ∧ l_released le = true)).
  { intros s' Hev Hst. exists none. split_and!; [done|done|]. by intros l ?%Hev. }
  destruct ev as [t|w|w|w|l| |b]; cbn [exec] in Hex.
  - apply (inj Some) in Hex.
    eapply finish_wp in Hex as [([t0 x] & s' & Hex & Hr)|(e & s' & [= <- <-] & Hr)];
      [| |by apply (wp_acquire_begin clock t)]; (apply Hnone; [done|]).
    + destruct Hr as (_ & _ & _ & Hr%stay_started). by destruct x; simplify_eq.
    + apply stay_moves, Hr.
  - destruct (Admission.y_frames a !! w) as [[tid t0 []]|]; try done.
    destruct (c_futures (y_ctrl a) !! w) as [f|]; [|done]. destruct (fut_done f && negb late); simplify_eq.
    apply Hnone; [done|by apply stay_same].
  - destruct (Admission.y_frames a !! w) as [[tid t0 []]|]; simplify_eq; (apply Hnone; [done|by apply stay_same]).
  - destruct (Admission.y_frames a !! w) as [fr|] eqn:Hw; [|done].
    destruct (c_futures (y_ctrl a) !! w) as [f|] eqn:Hf; [|done].
    destruct (fut_done f) eqn:Hd; [|done]. apply (inj Some) in Hex.
    destruct (co_frame _ _ _ _ Hc _ _ Hw) as [_ [st Ht]].
    assert (Hun : ∀ l, f_wake fr = WakeCancel ∧ f = FResult l → l ∉ Admission.y_held a).
    { intros l [_ ->]. by eapply (co_unheld _ _ _ _ Hc). }
    eapply finish_wp in Hex; [|apply (wp_acquire_resume clock fr w f st); try done].
    + destruct Hex as [(? & s' & [= <- <-] & _ & Hen & _)|(e & s' & [= <- <-] & _ & Hen & _)];
        (eexists; split; [apply stay_moves, Hen|]; split; [|done]; intros l Hl Hin; by destruct (Hun l Hl)).
    + intros e ->. by eapply (co_exn _ _ _ _ Hc).
  - case_decide as Hl; [|done]. apply (inj Some) in Hex.
    eapply finish_wp in Hex; [|apply (wp_release clock); [done|by apply Hc]].
    destruct Hex as [(? & s' & [= <- <-] & _ & Hm & _ & Hrel)|(e & s' & _ & Hr)]; [|done].
    eexists. split; [by apply stay_moves|]. split; [by intros l' <-|by intros l' [= <-]].
  - apply (inj Some) in Hex. eapply finish_wp in Hex; [|by apply wp_shutdown].
    destruct Hex as [(? & s' & [= <- <-] & Hsh)|(e & s' & _ & Hr)]; [|done].
    destruct (c_closed (y_ctrl a)); [subst; apply Hnone; [done|by apply stay_same]|].
    destruct Hsh as (_ & _ & _ & _ & Hd). apply Hnone; [done|]. apply stay_same, (dr_leases _ _ Hd).
  - apply (inj Some) in Hex. injection Hex as <- <-. apply Hnone; [done|]. apply stay_same. by destruct b.
Qed.

(** Who is suspended and who holds a lease, by the answer. *)
Definition frames_after (ev : event) (o : Admission.outcome) (a a' : system) : Prop :=
  ∀ tid w, waiting_call a' tid w ↔
    waiting_call a tid w ∧ ev ≠ EvResume w ∨ o = OSuspended w ∧ asker ev a = Some tid.
Definition held_after (o : Admission.outcome) (a a' : system) : Prop :=
  Admission.y_held a' = match o with OLease l => {[l]} ∪ Admission.y_held a | _ => Admission.y_held a end.

Lemma exec_frames a ev o a' :
  sys_ok late a → exec clock late ev a = Some (o, a') → frames_after ev o a a' ∧ held_after o a a'.
Proof.
  intros Hy Hex. destruct (sys_step clock _ _ _ _ _ Hy (step_exec _ _ _ _ _ _ Hex)) as [_ Ha].
  assert (Hsame : ∀ o' s' h, (∀ w, ev ≠ EvResume w) → (∀ w, o' ≠ OSuspended w) →
    frames_after ev o' a (Admission.System s' (Admission.y_frames a) h)).
  { intros o' s' h Hev Ho tid w. split; [by left|]. intros [[? _]|[? _]]; [done|by destruct (Ho w)]. }
  assert (Hwake : ∀ w k fr, (∀ w', ev ≠ EvResume w') → Admission.y_frames a !! w = Some fr →
    frames_after ev ONone a (set_wake w k fr a)).
  { intros w k fr Hev Hw tid w'. unfold waiting_call. simpl. destruct (decide (w = w')) as [<-|].
    - rewrite lookup_insert_eq, Hw. naive_solver.
    - rewrite lookup_insert_ne by done. naive_solver. }
  destruct ev as [t|w|w|w|l| |b]; cbn [exec] in Hex.
  - unfold finish in Hex. destruct (acquire_begin clock t (y_ctrl a)) as [[e|[t0 [l|w]]] c]; simplify_eq/=.
    + split; [by apply Hsame|done].
    + split; [by apply Hsame|done].
    + split; [|done]. destruct Ha as [Hn _]. intros tid w'. unfold waiting_call. simpl.
      destruct (decide (w = w')) as [<-|]; [rewrite lookup_insert_eq, Hn|rewrite lookup_insert_ne by done]; naive_solver.
  - destruct (Admission.y_frames a !! w) as [[tid t0 []]|] eqn:Hw; try done.
    destruct (c_futures (y_ctrl a) !! w) as [f|]; [|done]. destruct (fut_done f && negb late); simplify_eq.
    split; [by apply Hwake|done].
  - destruct (Admission.y_frames a !! w) as [[tid t0 []]|] eqn:Hw; simplify_eq; (split; [by apply Hwake|done]).
  - destruct (Admission.y_frames a !! w) as [fr|] eqn:Hw; [|done].
    destruct (c_futures (y_ctrl a) !! w) as [f|]; [|done]. destruct (fut_done f); [|done].
    unfold finish in Hex. simpl in Hex.
    assert (Hdel : ∀ o' c h, (∀ w', o' ≠ OSuspended w') →
      frames_after (EvResume w) o' a (Admission.System c (delete w (Admission.y_frames a)) h)).
    { intros o' c h Ho tid w'. unfold waiting_call. simpl. destruct (decide (w = w')) as [<-|].
      - rewrite lookup_delete_eq. split; [by intros (? & ? & _)|]. intros [[_ ?]|[? _]]; [done|by destruct (Ho w)].
      - rewrite lookup_delete_ne by done. split; [left; split; [done|congruence]|].
        intros [[? _]|[? _]]; [done|by destruct (Ho w')]. }
    destruct (acquire_resume clock fr w f (y_ctrl a)) as [[e|l] c]; simplify_eq/=; (split; [by apply Hdel|done]).
  - case_decide; [|done]. unfold finish in Hex. destruct (Admission.release clock l (y_ctrl a)) as [[e|[]] c]; simplify_eq/=;
      (split; [by apply Hsame|done]).
  - unfold finish in Hex. destruct (shutdown (y_ctrl a)) as [[e|[]] c]; simplify_eq/=; (split; [by apply Hsame|done]).
  - unfold finish in Hex. destruct (set_observer b (y_ctrl a)) as [[e|[]] c]; simplify_eq/=; (split; [by apply Hsame|done]).
Qed.

Lemma exec_held a ev o a' tid l :
  sys_ok late a → exec clock late ev a = Some (o, a') →
  held_lease a' tid l ↔ held_lease a tid l ∧ ev ≠ EvRelease l ∨ o = OLease l ∧ asker ev a = Some tid.
Proof.
  intros Hy Hex. destruct (exec_stay _ _ _ _ Hy Hex) as (R & Hst & HR & Hrel).
  destruct (exec_frames _ _ _ _ Hy Hex) as [_ Hh]. unfold held_after in Hh.
  destruct (sys_step clock _ _ _ _ _ Hy (step_exec _ _ _ _ _ _ Hex)) as [_ Ha].
  assert (Hnew : ∀ l', o = OLease l' → ∃ tid', asker ev a = Some tid' ∧ usable_lease a' tid' l').
  { intros l' ->. destruct ev; try done; [|destruct Ha as (_ & _ & _ & fr & Hfr & _ & ?)]; simpl in *; eexists.
    - split; [done|apply Ha].
    - by rewrite Hfr. }
  assert (Hone : ∀ tid1 tid2 a0, usable_lease a0 tid1 l → usable_lease a0 tid2 l → tid1 = tid2).
  { intros tid1 tid2 a0 (le1 & ? & _ & <-) (le2 & ? & _ & <-). by simplify_eq. }
  split.
  - intros [Hin Hu]. assert (o = OLease l ∨ o ≠ OLease l) as [->|Hno].
    { destruct o as [l'| | |]; try (by right). destruct (decide (l' = l)) as [->|]; [by left|right; congruence]. }
    { right. split; [done|]. destruct (Hnew l eq_refl) as (tid' & -> & Hu'). f_equal. by eapply Hone. }
    left. assert (Hin0 : l ∈ Admission.y_held a).
    { rewrite Hh in Hin. destruct o as [l'| | |]; [|done..]. apply elem_of_union in Hin as [->%elem_of_singleton|?]; congruence. }
    destruct (co_held _ _ _ _ (so_calls _ _ Hy) _ Hin0) as [le Hle].
    assert (Hnr : ev ≠ EvRelease l).
    { intros Hev. destruct (Hrel _ Hev) as (le' & Hle' & Hr), Hu as (le2 & ? & ? & _).
      assert (le' = le2) by congruence. congruence. }
    split; [split; [done|]|done]. destruct Hu as (le' & Hle' & Hr & Ht).
    rewrite (stay_usable R _ _ l le) in Hle' by eauto. exists le. naive_solver.
  - intros [[[Hin (le & Hle & Hr & Ht)] Hne]|[-> Has]].
    + split; [rewrite Hh; destruct o; [by apply elem_of_union_r|done..]|].
      exists le. split; [|done]. eapply stay_usable; eauto.
    + split; [rewrite Hh; by apply elem_of_union_l, elem_of_singleton|]. destruct (Hnew l eq_refl) as (tid' & Heq & Hu). naive_solver.
Qed.
End admission.

(** * The batcher *)

(** A suspended [submit], and a flush that runs. *)
Definition suspended (b : bsystem) (i : nat) : Prop := is_Some (y_frames b !! i).
Definition flush_runs (s : batcher) (f : nat) : Prop :=
  ∃ fl, b_flushes s !! f = Some fl ∧ fl_started fl = true.

(** The running flushes are those of [Q]; a new flush gets an unused name. *)
Definition runs_only (Q : nat → Prop) (s : batcher) : Prop :=
  (∀ f, is_Some (b_flushes s !! f) → (f < b_next s)%nat) ∧ ∀ f, flush_runs s f ↔ Q f.

Section batcher.
Context `{FloatRepr, ModelDump}.
Variable clock : nat → Z.

Section keeps.
Variable Q : nat → Prop.
Abbreviation keeps := (keeps (runs_only Q) (λ _ : exn, False)).

Lemma runs_only_same s s' :
  b_flushes s' = b_flushes s → (b_next s ≤ b_next s')%nat → runs_only Q s → runs_only Q s'.
Proof.
  intros Hf Hn [Hlt HQ]. unfold runs_only, flush_runs in *. rewrite Hf. split; [|done].
  intros f Hs. specialize (Hlt f Hs). lia.
Qed.
Hint Extern 3 (Mirror.keeps _ _ (modify _)) =>
  (apply keeps_modify; intros s Hs; apply (runs_only_same s); [done|simpl; lia|exact Hs]) : mirror.

Lemma ran_observe o : keeps (observe_batch o).
Proof. unfold observe_batch. apply keeps_modify. intros s Hs. destruct (b_observer s); [|done]. by apply (runs_only_same s). Qed.
Hint Resolve ran_observe : mirror.
Lemma ran_notify : keeps notify_state.
Proof. unfold notify_state. mirror. Qed.
Lemma ran_clock : keeps (batch_clock clock).
Proof. unfold batch_clock. mirror. Qed.
Lemma ran_item i : keeps (get_item i).
Proof. unfold get_item. mirror. Qed.
Lemma ran_batch b : keeps (get_batch b).
Proof. unfold get_batch. mirror. Qed.
Lemma ran_cancel_timer b : keeps (cancel_timer b).
Proof. unfold cancel_timer. mirror. Qed.
Lemma ran_set_state i x : keeps (set_item_state i x).
Proof. unfold set_item_state. mirror. Qed.
Hint Resolve ran_notify ran_clock ran_item ran_batch ran_cancel_timer ran_set_state : mirror.
Lemma ran_resolve i f : keeps (resolve_unless_done i f).
Proof. unfold resolve_unless_done, resolve. mirror. Qed.
Hint Resolve ran_resolve : mirror.

(** A new flush does not run yet. *)
Lemma ran_new items reason :
  keeps (let! s := get in
         do! modify (up_flushes (<[b_next s := Flush items reason false false]>)) in
         modify (up_next Datatypes.S)).
Proof.
  intros s [Hlt HQ]. split; simpl.
  - intros f. rewrite lookup_insert_is_Some'. intros [<-|?%Hlt]; lia.
  - intros f. rewrite <- HQ. unfold flush_runs. simpl. destruct (decide (b_next s = f)) as [<-|Hne].
    + rewrite lookup_insert_eq. split; [by intros (? & [= <-] & ?)|].
      intros (fl & Hf & _). specialize (Hlt (b_next s) (mk_is_Some _ _ Hf)). lia.
    + by rewrite lookup_insert_ne.
Qed.
Hint Resolve ran_new : mirror.

Lemma ran_detach b reason current : keeps (detach_locked clock b reason current).
Proof. unfold detach_locked, mark_dispatched, observe_dispatched. repeat first [apply ran_new|mirror_step]. Qed.
Hint Resolve ran_detach : mirror.
Lemma ran_submit tid r : keeps (submit_begin clock tid r).
Proof. unfold submit_begin, join_group. mirror. Qed.
Lemma ran_timer b : keeps (timer_expired clock b).
Proof. unfold timer_expired. mirror. Qed.
Lemma ran_timer_end b : keeps (timer_cancelled b).
Proof. unfold timer_cancelled. mirror. Qed.
Lemma ran_cancel i key : keeps (cancel_item i key).
Proof. unfold cancel_item, cancel_pending. mirror. Qed.

Lemma ran_flush_cancelled f : keeps (modify (up_flushes (alter flush_cancelled f))).
Proof.
  apply keeps_modify. intros s [Hlt HQ]. split; simpl.
  - intros g [fl [(<- & fl' & Hf & _)|[_ Hf]]%lookup_alter_Some]; by eapply Hlt, mk_is_Some.
  - intros g. rewrite <- HQ. unfold flush_runs. simpl. destruct (decide (f = g)) as [<-|].
    + rewrite lookup_alter_eq. destruct (b_flushes s !! f) as [fl|]; simpl; [|naive_solver].
      split; intros (fl' & [= <-] & ?); eauto.
    + by rewrite lookup_alter_ne.
Qed.
Hint Resolve ran_flush_cancelled : mirror.
Lemma ran_shutdown_flushes fs : keeps (shutdown_flushes fs).
Proof. induction fs as [|f fs IH]; simpl; unfold shutdown_member, leave_inflight; mirror. Qed.
Hint Resolve ran_shutdown_flushes : mirror.
Lemma ran_shutdown : keeps shutdown_begin.
Proof. unfold shutdown_begin, shutdown_batch, shutdown_member, observe_completed. mirror. Qed.
End keeps.

Lemma runs_only_self b : bsys_ok b → runs_only (flush_runs (y_batcher b)) (y_batcher b).
Proof.
  intros [Hi _ _]. split; [|done]. intros f [fl Hf].
  destruct (decide (b_next (y_batcher b) ≤ f)%nat) as [Hle|]; [|lia].
  destruct (bi_fresh _ _ Hi _ Hle) as (_ & _ & _ & Hn). by rewrite Hn in Hf.
Qed.

Lemma ran_bfinish {A} b0 b (m : bt A) k o b' :
  bsys_ok b → y_batcher b0 = y_batcher b → bfinish b0 m k = (o, b') →
  (∀ Q, keeps (runs_only Q) (λ _ : exn, False) m) →
  (∀ a c, y_batcher (k a c).2 = c) → ∀ f, flush_runs (y_batcher b') f ↔ flush_runs (y_batcher b) f.
Proof.
  intros Hb Heq Hf Hm Hk. pose proof (Hm _ _ (runs_only_self b Hb)) as Hr. rewrite <- Heq in Hr at 2.
  unfold bfinish, ends, wp in *. destruct (m (y_batcher b0)) as [[e|a] c].
  - injection Hf as _ <-. simpl. by destruct Hr as [[]|[_ Hr]].
  - specialize (Hk a c). rewrite Hf in Hk. simpl in Hk. subst c. apply Hr.
Qed.

Lemma bexec_runs b ev o b' :
  bsys_ok b → bexec clock ev b = Some (o, b') →
  ∀ f, flush_runs (y_batcher b') f ↔
    flush_runs (y_batcher b) f ∧ (∀ a, ev ≠ BvAnswer f a) ∨ ∃ rs, ev = BvStart f ∧ o = BOCall rs.
Proof.
  intros Hb Hex. assert (Hsame : (∀ f a, ev ≠ BvAnswer f a) → (∀ f, ev ≠ BvStart f) →
    (∀ f, flush_runs (y_batcher b') f ↔ flush_runs (y_batcher b) f) → ∀ f, flush_runs (y_batcher b') f ↔
    flush_runs (y_batcher b) f ∧ (∀ a, ev ≠ BvAnswer f a) ∨ ∃ rs, ev = BvStart f ∧ o = BOCall rs).
  { intros H1 H2 Hs f. rewrite Hs. split; [by left|]. intros [[? _]|(? & ? & _)]; [done|by destruct (H2 f)]. }
  assert (Hcan : ∀ i key, submit_cancelled i key b = (o, b') →
    ∀ f, flush_runs (y_batcher b') f ↔ flush_runs (y_batcher b) f).
  { intros i key Hc. eapply ran_bfinish; [done| |exact Hc|by intros; apply ran_cancel|done]. done. }
  destruct ev as [tid r|i|i|t|t|f|f a| | |]; pose proof Hex as Hex'; cbn [bexec] in Hex.
  - destruct (negb _); [done|]. apply (inj Some) in Hex. apply Hsame; [done..|].
    by eapply ran_bfinish; [..|exact Hex|by intros; apply ran_submit|].
  - destruct (y_frames b !! i) as [key|]; [|done]. destruct (b_items _ !! i) as [it|]; [|done]. apply Hsame; [done..|].
    destruct (it_future it); [done|by injection Hex as _ <-..|]. apply (inj Some) in Hex. by eapply Hcan.
  - destruct (y_frames b !! i) as [key|]; [|done]. apply (inj Some) in Hex. apply Hsame; [done..|]. by eapply Hcan.
  - destruct (b_timers _ !! t) as [[]|]; try done. apply (inj Some) in Hex. apply Hsame; [done..|].
    by eapply ran_bfinish; [..|exact Hex|by intros; apply ran_timer|].
  - destruct (b_timers _ !! t) as [[]|]; try done. apply (inj Some) in Hex. apply Hsame; [done..|].
    by eapply ran_bfinish; [..|exact Hex|by intros; apply ran_timer_end|].
  - destruct (b_flushes (y_batcher b) !! f) as [[l re [] []]|] eqn:Hf; try done; injection Hex as <- <-;
      intros g; unfold flush_runs; simpl; (destruct (decide (f = g)) as [<-|Hne];
      [|rewrite ?lookup_delete_ne, ?lookup_alter_ne by done; naive_solver]);
      rewrite ?lookup_delete_eq, ?lookup_alter_eq, Hf; simpl; naive_solver.
  - destruct (b_flushes (y_batcher b) !! f) as [fl|] eqn:Hf; [|done]. clear Hex.
    destruct (bs_effect _ _ _ _ (bstep_all clock _ Hb _ _ _ Hex') _ Hf) as [Hd _].
    intros g. unfold flush_runs. rewrite Hd. destruct (decide (f = g)) as [<-|Hne].
    + rewrite lookup_delete_eq. split; [by intros (? & ? & _)|]. intros [[_ Hn]|(? & ? & _)]; [by destruct (Hn a)|done].
    + rewrite lookup_delete_ne by done. naive_solver.
  - destruct (y_gathering b); [done|]. apply (inj Some) in Hex. apply Hsame; [done..|].
    by eapply ran_bfinish; [..|exact Hex|by intros; apply ran_shutdown|].
  - destruct (_ && _); [|done]. injection Hex as _ <-. by apply Hsame.
  - injection Hex as _ <-. by apply Hsame.
Qed.

(** Only a submission names a tenant, that of its new member. *)
Lemma bexec_tenants b ev o b' :
  bexec clock ev b = Some (o, b') →
  y_tenants b' = y_tenants b ∨
  ∃ tid r i, ev = BvSubmit tid r ∧ o = BOSuspended i ∧ y_tenants b' = <[i := tid]> (y_tenants b).
Proof.
  intros Hex.
  assert (Hfin : ∀ {A} b0 (m : bt A) k, bfinish b0 m k = (o, b') → y_tenants b0 = y_tenants b →
    (∀ a c, y_tenants (k a c).2 = y_tenants b) → y_tenants b' = y_tenants b).
  { intros A b0 m k Hf Hten Hk. unfold bfinish in Hf. destruct (m (y_batcher b0)) as [[e|a] c]; [by injection Hf as _ <-|].
    by rewrite <- (Hk a c), Hf. }
  destruct ev as [tid r|i|i|t|t|f|f a| | |]; cbn [bexec] in Hex.
  - destruct (negb _); [done|]. apply (inj Some) in Hex. unfold bfinish in Hex.
    destruct (submit_begin clock tid r (y_batcher b)) as [[e|i] c]; injection Hex as <- <-; [by left|right; eauto 6].
  - left. destruct (y_frames b !! i) as [key|]; [|done]. destruct (b_items _ !! i) as [it|]; [|done].
    destruct (it_future it); [done|by injection Hex as _ <-..|]. apply (inj Some) in Hex. by eapply Hfin.
  - left. destruct (y_frames b !! i) as [key|]; [|done]. apply (inj Some) in Hex. by eapply Hfin.
  - left. destruct (b_timers _ !! t) as [[]|]; try done. apply (inj Some) in Hex. by eapply Hfin.
  - left. destruct (b_timers _ !! t) as [[]|]; try done. apply (inj Some) in Hex. by eapply Hfin.
  - left. destruct (b_flushes (y_batcher b) !! f) as [[l re [] []]|]; try done; by injection Hex as _ <-.
  - left. destruct (b_flushes (y_batcher b) !! f) as [fl|]; [|done]. destruct (_ && _); [|done].
    apply (inj Some) in Hex. by eapply Hfin.
  - left. destruct (y_gathering b); [done|]. apply (inj Some) in Hex. by eapply Hfin.
  - left. destruct (_ && _); [|done]. by injection Hex as _ <-.
  - left. apply (inj Some) in Hex. eapply Hfin; [exact Hex|done|by intros [] ?].
Qed.

Lemma bexec_suspended b ev o b' :
  bexec clock ev b = Some (o, b') →
  ∀ i, suspended b' i ↔ suspended b i ∧ ev ≠ BvDone i ∧ ev ≠ BvCancel i ∨ o = BOSuspended i.
Proof.
  intros Hex.
  assert (Hsame : y_frames b' = y_frames b → (∀ i, o ≠ BOSuspended i) → (∀ i, ev ≠ BvDone i ∧ ev ≠ BvCancel i) →
    ∀ i, suspended b' i ↔ suspended b i ∧ ev ≠ BvDone i ∧ ev ≠ BvCancel i ∨ o = BOSuspended i).
  { intros Hf Ho Hev i. unfold suspended. rewrite Hf. split; [left; by split|]. intros [[? _]|?]; [done|by destruct (Ho i)]. }
  assert (Hdel : ∀ i, y_frames b' = delete i (y_frames b) → (∀ j, o ≠ BOSuspended j) →
    ev = BvDone i ∨ ev = BvCancel i →
    ∀ j, suspended b' j ↔ suspended b j ∧ ev ≠ BvDone j ∧ ev ≠ BvCancel j ∨ o = BOSuspended j).
  { intros i Hf Ho Hev j. unfold suspended. rewrite Hf. destruct (decide (i = j)) as [<-|Hne].
    - rewrite lookup_delete_eq. split; [by intros []|]. intros [(_ & ? & ?)|?]; [by destruct Hev|by destruct (Ho i)].
    - rewrite lookup_delete_ne by done. split; [|by intros [[? _]|?]; [|destruct (Ho j)]].
      left. split_and!; [done|destruct Hev; congruence..]. }
  destruct ev as [tid r|i|i|t|t|f|f a| | |]; cbn [bexec] in Hex.
  - destruct (negb _); [done|]. apply (inj Some) in Hex. unfold bfinish in Hex.
    destruct (submit_begin clock tid r (y_batcher b)) as [[e|i] c]; injection Hex as <- <-; [by apply Hsame|].
    intros j. unfold suspended. simpl. rewrite lookup_insert_is_Some'. naive_solver.
  - destruct (y_frames b !! i) as [key|]; [|done]. destruct (b_items _ !! i) as [it|]; [|done].
    destruct (it_future it); [done|injection Hex as <- <-; apply (Hdel i); auto..|].
    apply (inj Some) in Hex. unfold submit_cancelled, bfinish in Hex. simpl in Hex.
    destruct (cancel_item i key (y_batcher b)) as [[e|[]] c]; injection Hex as <- <-; apply (Hdel i); auto.
  - destruct (y_frames b !! i) as [key|]; [|done]. apply (inj Some) in Hex. unfold submit_cancelled, bfinish in Hex. simpl in Hex.
    destruct (cancel_item i key (y_batcher b)) as [[e|[]] c]; injection Hex as <- <-; apply (Hdel i); auto.
  - destruct (b_timers _ !! t) as [[]|]; try done. apply (inj Some) in Hex. unfold bfinish in Hex.
    destruct (timer_expired clock t (y_batcher b)) as [[e|[]] c]; injection Hex as <- <-; by apply Hsame.
  - destruct (b_timers _ !! t) as [[]|]; try done. by injection Hex as <- <-; apply Hsame.
  - destruct (b_flushes (y_batcher b) !! f) as [[l re [] []]|]; try done; injection Hex as <- <-; by apply Hsame.
  - destruct (b_flushes (y_batcher b) !! f) as [fl|]; [|done]. destruct (_ && _); [|done].
    apply (inj Some) in Hex. unfold bfinish in Hex.
    destruct (execute_end f fl a (y_batcher b)) as [[e|[]] c]; injection Hex as <- <-; by apply Hsame.
  - destruct (y_gathering b); [done|]. apply (inj Some) in Hex. unfold bfinish in Hex.
    destruct (shutdown_begin (y_batcher b)) as [[e|x] c]; injection Hex as <- <-; by apply Hsame.
  - destruct (_ && _); [|done]. injection Hex as <- <-. by apply Hsame.
  - injection Hex as <- <-. by apply Hsame.
Qed.
End batcher.

(** * The pool *)

(** A stream that nobody has begun to close. *)
Definition stream_open (p : pool) (st : nat) : Prop :=
  ∃ rs, p_routed p !! st = Some rs ∧ rs_closed rs = false.

Section pool.

Section keeps.
Variables Q D : nat → Prop.
Definition open_only (p : pool) : Prop :=
  (∀ st, stream_open p st → Q st) ∧ ∀ st, D st → is_Some (p_routed p !! st).
Abbreviation keeps := (keeps open_only (λ _ : exn, False)).

Lemma open_only_same p p' : p_routed p' = p_routed p → open_only p → open_only p'.
Proof. intros Hr [Hp Hd]. split; intros st; [unfold stream_open|]; rewrite Hr; [apply Hp|apply Hd]. Qed.
Hint Extern 3 (Mirror.keeps _ _ (modify _)) =>
  (apply keeps_modify; intros p Hp; apply (open_only_same p); [done|exact Hp]) : mirror.

Lemma open_notify : keeps notify_pool.
Proof. apply keeps_modify. intros p Hp. destruct (p_observer p); [by apply (open_only_same p)|done]. Qed.
Lemma open_observe i op out : keeps (observe_operation i op out).
Proof.
  apply keeps_modify. intros p Hp. by destruct (p_observer p), (p_slots p !! i).
Qed.
Hint Resolve open_notify open_observe : mirror.
Lemma open_lease_of l : keeps (lease_of l).
Proof. unfold lease_of. mirror. Qed.
Lemma open_health i b : keeps (set_health i b).
Proof. unfold set_health. mirror. Qed.
Hint Resolve open_lease_of open_health : mirror.
Lemma open_release l : keeps (release_lease l).
Proof. unfold release_lease. mirror. Qed.
Hint Resolve open_release : mirror.
Lemma open_select w : keeps (select w).
Proof. unfold select. mirror. Qed.
Hint Resolve open_select : mirror.
Lemma open_begin op n : keeps (match op with OpBatch => batch_begin n | _ => generate_begin end).
Proof. unfold batch_begin, generate_begin. mirror. Qed.
Lemma open_call_end {A} op l (r : exn + A) : keeps (call_end op l r).
Proof.
  unfold call_end, mark_unhealthy. apply keeps_bind; [mirror|intros le].
  apply keeps_bind; [|intros; destruct r; mirror]. apply keeps_finally; [|mirror].
  destruct r as [e|]; [destruct e|]; mirror.
Qed.
Lemma open_finish_begin st : keeps (finish_begin st).
Proof.
  unfold finish_begin. apply keeps_bind; [mirror|intros p]. apply keeps_bind; [mirror|intros rs].
  destruct (rs_closed rs); [mirror|]. apply keeps_bind; [|mirror].
  apply keeps_modify. intros q [Hq Hd]. split; simpl.
  - intros st' (rs' & Hrs & Hc). simpl in Hrs. apply Hq.
    apply lookup_insert_Some in Hrs as [[_ <-]|[_ Hrs]]; [done|by exists rs'].
  - intros st' Hst. rewrite lookup_insert_is_Some'. right. by apply Hd.
Qed.
Lemma open_finish_end st out r : keeps (finish_end st out r).
Proof.
  unfold finish_end, unregister_stream. mirror.
Qed.
Lemma open_iterate_end st r : keeps (iterate_end st r).
Proof.
  unfold iterate_end, mark_unhealthy. do 3 (apply keeps_bind; [mirror|intros ?]).
  destruct r as [e|]; [destruct e|]; mirror.
Qed.
Lemma open_start : keeps pool_start.
Proof. unfold pool_start. mirror. Qed.
Lemma open_probing : keeps start_probing.
Proof. apply keeps_modify. intros p Hp. destruct (_ && _); [by apply (open_only_same p)|done]. Qed.
Lemma open_close_begin : keeps close_begin.
Proof. unfold close_begin. mirror. Qed.
Lemma open_release_all ls : keeps (release_all ls).
Proof.
  induction ls as [|l ls IH]; [apply keeps_ret|]. intros p Hp. unfold ends, wp. simpl.
  pose proof (open_release l p Hp) as H1. unfold ends, wp in H1.
  assert (Hp1 : open_only (release_lease l p).2).
  { destruct (release_lease l p) as [[e|[]] p1]; [by destruct H1 as [[]|]|done]. }
  destruct (release_lease l p) as [r p1]. specialize (IH p1 Hp1). unfold ends, wp in IH.
  destruct (release_all ls p1) as [r' p2]. destruct r as [e|[]], r' as [e'|[]]; auto.
Qed.
Hint Resolve open_release_all : mirror.
Lemma open_close_end ls : keeps (close_end ls).
Proof. unfold close_end. mirror. Qed.
Lemma open_set_observer b : keeps (set_pool_observer b).
Proof. unfold set_pool_observer. mirror. Qed.
End keeps.

Lemma open_rfinish {A} Q D y (m : rt A) k o y' :
  keeps (open_only Q D) (λ _ : exn, False) m → open_only Q D (r_pool y) →
  (∀ a p, open_only Q D p → open_only Q D (r_pool (k a p).2)) →
  rfinish y m k = (o, y') → open_only Q D (r_pool y').
Proof.
  intros Hm Hy Hk Hf. specialize (Hm _ Hy). unfold rfinish, ends, wp in *.
  destruct (m (r_pool y)) as [[e|a] p]; [injection Hf as _ <-; by destruct Hm as [[]|]|].
  specialize (Hk a p Hm). by rewrite Hf in Hk.
Qed.

Lemma open_start_finish Q D st out o y o' y' :
  open_only Q D (r_pool y) → start_finish st out o y = (o', y') → open_only Q D (r_pool y').
Proof. intros Hy. apply open_rfinish; [apply open_finish_begin|done|done]. Qed.

(** Whoever calls a stream's [_finish], it is closed afterwards. *)
Lemma start_finish_closes st out o y o' y' :
  is_Some (p_routed (r_pool y) !! st) → start_finish st out o y = (o', y') → ¬ stream_open (r_pool y') st.
Proof.
  intros [rs Hrs] Hf (rs' & Hrs' & Hc).
  unfold start_finish, rfinish, finish_begin, bind, get, unwrap, modify, ret in Hf. rewrite Hrs in Hf. simpl in Hf.
  destruct (rs_closed rs) eqn:Hcl; injection Hf as _ <-; simpl in Hrs'; [|rewrite lookup_insert_eq in Hrs'];
    simplify_eq; simpl in *; congruence.
Qed.

(** The stream that [open_end] creates. *)
Lemma open_open_end Q D l r p :
  open_only Q D p →
  wp (open_end l r) (λ '(st, _) p', open_only (λ s, Q s ∨ s = st) D p' ∧ is_Some (p_routed p' !! st))
    (λ _ p', open_only Q D p') p.
Proof.
  intros Hp. unfold open_end. apply wp_bind. eapply wp_mono; [by apply (open_lease_of Q D l)|..].
  2:{ by intros e p' [[]|]. }
  intros le p1 Hp1. simpl in Hp1. destruct r as [e|].
  - assert (Hk : keeps (open_only Q D) (λ _ : exn, False) (match e with
       | CancelledError => observe_operation (bl_slot le) OpStream Cancelled
       | e => do! (if health_impacting e then mark_unhealthy (bl_slot le) else ret ()) in
              observe_operation (bl_slot le) OpStream Error end)).
    { pose proof (open_observe Q D) as Ho. pose proof (open_health Q D) as Hh. unfold mark_unhealthy.
      destruct e; [|by apply Ho|..]; (apply keeps_bind; [|by intros; apply Ho]);
        (case_match; [apply Hh|apply keeps_ret]). }
    apply wp_bind. eapply wp_mono; [by apply Hk| |by intros e' p' [[]|]].
    intros [] p2 Hp2. apply wp_bind. eapply wp_mono; [by apply (open_release Q D)|by intros [] p3 Hp3|by intros e' p' [[]|]].
  - wp_steps. unfold register_stream.
    set (p2 := with_routed _ _).
    assert (Hp2 : open_only (λ s, Q s ∨ s = p_next p1) D p2).
    { split; simpl; [|intros s Hs; rewrite lookup_insert_is_Some'; right; by apply Hp1].
      intros s (rs & Hrs & Hc). simpl in Hrs. apply lookup_insert_Some in Hrs as [[-> _]|[_ Hrs]]; [by right|].
      left. apply Hp1. by exists rs. }
    assert (Hn : is_Some (p_routed p2 !! p_next p1)) by (simpl; rewrite lookup_insert_eq; by eexists).
    wp_steps. destruct (p_closed p2); wp_steps; done.
Qed.

(** ** Events *)

Lemma rexec_calls y ev o y' :
  rsys_ok y → rexec ev y = Some (o, y') → ∀ op l, r_calls y' !! l = Some op ↔
    r_calls y !! l = Some op ∧ (∀ r, ev ≠ RvAnswer l r) ∨ (∃ n, ev = RvCall op n) ∧ o = ROLease l.
Proof.
  intros Hy Hex. destruct (rsys_step _ _ _ _ Hy Hex) as (_ & Ha & _).
  assert (Hsame : r_calls y' = r_calls y → (∀ l, o ≠ ROLease l) → (∀ l r, ev ≠ RvAnswer l r) →
    ∀ op l, r_calls y' !! l = Some op ↔
    r_calls y !! l = Some op ∧ (∀ r, ev ≠ RvAnswer l r) ∨ (∃ n, ev = RvCall op n) ∧ o = ROLease l).
  { intros -> Ho Hev op l. split; [by left|]. intros [[? _]|[_ ?]]; [done|by destruct (Ho l)]. }
  assert (Hfin : ∀ st out o0 y0, start_finish st out o0 y0 = (o, y') →
    r_calls y' = r_calls y0 ∧ ((∀ l, o0 ≠ ROLease l) → ∀ l, o ≠ ROLease l)).
  { intros st out o0 y0. unfold start_finish, rfinish. destruct (finish_begin st (r_pool y0)) as [[e|b] p];
      intros [= <- <-]; by split. }
  destruct ev as [op n|l r|st r|st|st r| | |i b| | |b]; cbn [rexec] in Hex.
  - destruct (n <? 0); [done|]. apply (inj Some) in Hex. unfold rfinish in Hex.
    match type of Hex with (let (_, _) := ?m in _) = _ => destruct m as [[e|l] p] end; injection Hex as <- <-; [by apply Hsame|].
    simpl in *. destruct Ha as (_ & Hn & _).
    assert (Hnc : r_calls y !! l = None).
    { apply eq_None_not_Some. intros [op' Hc]. destruct (ow_call _ _ _ _ (ro_owned _ Hy) _ _ Hc) as [? ?]. congruence. }
    intros op' l'. destruct (decide (l = l')) as [<-|Hne].
    + rewrite lookup_insert_eq, Hnc. naive_solver.
    + rewrite lookup_insert_ne by done. naive_solver.
  - assert (Hdel : r_calls y' = delete l (r_calls y) → (∀ l', o ≠ ROLease l') → ∀ op l', r_calls y' !! l' = Some op ↔
      r_calls y !! l' = Some op ∧ (∀ r', RvAnswer l r ≠ RvAnswer l' r') ∨ (∃ n, RvAnswer l r = RvCall op n) ∧ o = ROLease l').
    { intros -> Ho op l'. destruct (decide (l = l')) as [<-|Hne].
      - rewrite lookup_delete_eq. split; [done|]. intros [[_ Hn]|[_ ?]]; [by destruct (Hn r)|by destruct (Ho l)].
      - rewrite lookup_delete_ne by done. split; [left; split; [done|congruence]|].
        intros [[? _]|[_ ?]]; [done|by destruct (Ho l')]. }
    destruct (r_calls y !! l) as [op|]; [|done]. unfold rfinish in Hex. destruct op; apply (inj Some) in Hex; simpl in Hex.
    1,3: destruct (call_end _ l _ (r_pool y)) as [[e|[]] p]; injection Hex as <- <-; by apply Hdel.
    destruct (open_end l r (r_pool y)) as [[e|[st [|]]] p]; [by injection Hex as <- <-; apply Hdel..|].
    destruct (Hfin _ _ _ _ Hex) as [? Ho]. apply Hdel; [done|by apply Ho].
  - destruct (p_routed _ !! st); [|done]. apply (inj Some) in Hex. unfold rfinish at 1 in Hex.
    destruct (iterate_end st r (r_pool y)) as [[e|out] p]; [injection Hex as <- <-; by apply Hsame|].
    destruct (Hfin _ _ _ _ Hex) as [? Ho]. apply Hsame; [done|by apply Ho|done].
  - destruct (p_routed _ !! st); [|done]. apply (inj Some) in Hex.
    destruct (Hfin _ _ _ _ Hex) as [? Ho]. apply Hsame; [done|by apply Ho|done].
  - destruct (r_finishing y !! st) as [out|]; [|done]. apply (inj Some) in Hex. unfold rfinish in Hex. simpl in Hex.
    destruct (finish_end st out r (r_pool y)) as [[e|[]] p]; injection Hex as <- <-; by apply Hsame.
  - apply (inj Some) in Hex. unfold rfinish in Hex.
    destruct (pool_start (r_pool y)) as [[e|b] p]; injection Hex as <- <-; by apply Hsame.
  - destruct (p_started _); [|done]. apply (inj Some) in Hex. unfold rfinish in Hex.
    destruct (start_probing (r_pool y)) as [[e|b] p]; injection Hex as <- <-; by apply Hsame.
  - destruct (p_slots _ !! i); [|done]. apply (inj Some) in Hex. unfold rfinish in Hex.
    destruct (set_health i b (r_pool y)) as [[e|[]] p]; injection Hex as <- <-; by apply Hsame.
  - destruct (r_closing y); [done|]. apply (inj Some) in Hex. unfold rfinish in Hex.
    destruct (close_begin (r_pool y)) as [[e|c] p]; injection Hex as <- <-; by apply Hsame.
  - destruct (r_closing y) as [[ls sts]|]; [|done]. destruct (forallb _ _); [|done].
    apply (inj Some) in Hex. unfold rfinish in Hex. simpl in Hex.
    destruct (close_end ls (r_pool y)) as [[e|[]] p]; injection Hex as <- <-; by apply Hsame.
  - apply (inj Some) in Hex. unfold rfinish in Hex.
    destruct (set_pool_observer b (r_pool y)) as [[e|[]] p]; injection Hex as <- <-; by apply Hsame.
Qed.

Lemma rexec_routed y ev o y' :
  rexec ev y = Some (o, y') →
  (∀ st, stream_open (r_pool y') st → stream_open (r_pool y) st ∧ ev ≠ RvAclose st ∨ o = ROStream st) ∧
  ∀ st, is_Some (p_routed (r_pool y) !! st) → is_Some (p_routed (r_pool y') !! st).
Proof.
  intros Hex. set (Q := stream_open (r_pool y)). set (D := λ st, is_Some (p_routed (r_pool y) !! st)).
  assert (Hself : open_only Q D (r_pool y)) by done.
  assert (Hsame : (∀ st, ev ≠ RvAclose st) → open_only Q D (r_pool y') →
    (∀ st, stream_open (r_pool y') st → stream_open (r_pool y) st ∧ ev ≠ RvAclose st ∨ o = ROStream st) ∧
    ∀ st, D st → is_Some (p_routed (r_pool y') !! st)).
  { intros Hev [HQ HD]. split; [|done]. intros st Hst. left. split; [by apply HQ|done]. }
  destruct ev as [op n|l r|st r|st|st r| | |i b| | |b]; cbn [rexec] in Hex.
  - destruct (n <? 0); [done|]. apply (inj Some) in Hex. apply Hsame; [done|].
    eapply open_rfinish; [|exact Hself| |exact Hex]; [apply open_begin|done].
  - destruct (r_calls y !! l) as [[]|]; try done; apply (inj Some) in Hex.
    1,3: apply Hsame; [done|]; eapply open_rfinish; [| | |exact Hex]; [apply open_call_end|done|done].
    unfold rfinish in Hex. simpl in Hex. pose proof (open_open_end Q D l r _ Hself) as Ho. unfold wp in Ho.
    destruct (open_end l r (r_pool y)) as [[e|[st [|]]] p]; [injection Hex as <- <-; by apply Hsame|..]; destruct Ho as [Ho Hst].
    + injection Hex as <- <-. destruct Ho as [Ho Hd]. split; [|exact Hd].
      intros st' [?|<-]%Ho; [by left|by right].
    + apply Hsame; [done|]. pose proof (open_start_finish _ _ st Error _ (RSys p _ _ _) _ _ Ho Hex) as [Ho' Hd].
      split; [|exact Hd]. intros st' Hs.
      destruct (Ho' st' Hs) as [?| ->]; [done|]. by edestruct (start_finish_closes st Error _ (RSys p _ _ _) _ _ Hst Hex).
  - destruct (p_routed _ !! st); [|done]. apply (inj Some) in Hex. apply Hsame; [done|].
    eapply open_rfinish; [|exact Hself| |exact Hex]; [apply open_iterate_end|].
    intros out p Hp. set (y0 := RSys p (r_calls y) (r_finishing y) (r_closing y)). destruct (start_finish st out RONone y0) as [o1 y1] eqn:Hf.
    cbv beta. fold y0. rewrite Hf. by apply (open_start_finish Q D st out RONone y0 o1).
  - destruct (p_routed _ !! st) as [rs|] eqn:Hrs; [|done]. apply (inj Some) in Hex.
    destruct (open_start_finish _ _ _ _ _ _ _ _ Hself Hex) as [Ho Hd]. split; [|exact Hd].
    intros st' Hs. left. split; [by apply Ho|]. intros [= <-].
    by eapply start_finish_closes.
  - destruct (r_finishing y !! st) as [out|]; [|done]. apply (inj Some) in Hex. apply Hsame; [done|].
    eapply open_rfinish; [| | |exact Hex]; [apply open_finish_end|done|done].
  - apply (inj Some) in Hex. apply Hsame; [done|]. eapply open_rfinish; [|exact Hself| |exact Hex]; [apply open_start|done].
  - destruct (p_started _); [|done]. apply (inj Some) in Hex. apply Hsame; [done|].
    eapply open_rfinish; [|exact Hself| |exact Hex]; [apply open_probing|done].
  - destruct (p_slots _ !! i); [|done]. apply (inj Some) in Hex. apply Hsame; [done|].
    eapply open_rfinish; [|exact Hself| |exact Hex]; [apply open_health|done].
  - destruct (r_closing y); [done|]. apply (inj Some) in Hex. apply Hsame; [done|].
    eapply open_rfinish; [|exact Hself| |exact Hex]; [apply open_close_begin|done].
  - destruct (r_closing y) as [[ls sts]|]; [|done]. destruct (forallb _ _); [|done]. apply (inj Some) in Hex.
    apply Hsame; [done|]. eapply open_rfinish; [| | |exact Hex]; [apply open_close_end|done|done].
  - apply (inj Some) in Hex. apply Hsame; [done|].
    eapply open_rfinish; [|exact Hself| |exact Hex]; [apply open_set_observer|done].
Qed.
End pool.
