(* ===== verification/GatewayInv.v ===== *)
(** The invariant of the whole gateway: everything in use in a component is held by
    exactly one task, and each component is in a state of its own system. *)
From S2P Require Import Prelude.
From S2P Require Import Python.
From S2P Require Import Json.
From S2P Require Import Errors.
From S2P Require Import Auth.
From S2P Require Import Admission.
From S2P Require Import AdmissionInv.
From S2P Require Import AdmissionSections.
From S2P Require Import AdmissionSystem.
From S2P Require Import Routing.
From S2P Require Import RoutingInv.
From S2P Require Import RoutingSystem.
From S2P Require Import RoutingTheorems.
From S2P Require Import Chat.
From S2P Require Import Compatibility.
From S2P Require Import Batching.
From S2P Require Import BatchingInv.
From S2P Require Import BatchingSystem.
From S2P Require Import BatchingTheorems.
From S2P Require Import Relay.
From S2P Require Import RelayTheorems.
From S2P Require Import Endpoint.
From S2P Require Import Gateway.
From S2P Require Import Holdings.

(** * Ownership *)

(** A suspended [acquire], an admission lease, a suspended [submit], a running flush, a
    backend call, and an open stream. *)
Inductive resource :=
| RWaiting (tid : pystr) (w : nat)
| RLease (tid : pystr) (l : nat)
| RSub (i : nat)
| RFlush (f : nat)
| RCall (op : operation) (pl : nat)
| RStream (st : nat).

#[export] Instance resource_eq_dec : EqDecision resource.
Proof. solve_decision. Defined.

(** Others than the owner may close a stream, but end nothing else. *)
Definition exclusive (x : resource) : Prop := match x with RStream _ => False | _ => True end.

(** What a task holds; a relay holds its stream and its lease until it gives them up. *)
Definition owns (k : task) : list resource :=
  match k with
  | TAcquire tid _ w => [RWaiting tid w]
  | TSubmit tid _ l i => [RSub i; RLease tid l]
  | TCall tid l pl => [RCall OpGenerate pl; RLease tid l]
  | TOpen tid l pl => [RCall OpStream pl; RLease tid l]
  | TRefused tid l _ => [RLease tid l]
  | TStream tid l st rl =>
      (if rl_closes rl =? 0 then [RStream st] else [])%nat ++
      (if rl_releases rl =? 0 then [RLease tid l] else [])%nat
  | TFlush f pl => [RCall OpBatch pl; RFlush f]
  end.

Definition in_use (y : gateway_state) (x : resource) : Prop :=
  match x with
  | RWaiting tid w => waiting_call (g_adm y) tid w
  | RLease tid l => held_lease (g_adm y) tid l
  | RSub i => suspended (g_batch y) i
  | RFlush f => flush_runs (y_batcher (g_batch y)) f
  | RCall op pl => r_calls (g_pool y) !! pl = Some op
  | RStream st => stream_open (r_pool (g_pool y)) st
  end.

Section ownership.
Implicit Types (R : nat → list resource) (L : resource → Prop).

Record owned R L : Prop := {
  ow_some x : L x → ∃ n, x ∈ R n;
  ow_live n x : x ∈ R n → exclusive x → L x;
  ow_inj n m x : x ∈ R n → x ∈ R m → exclusive x → n = m;
}.

(** The owners, where the task [n] has [H] in its hands. *)
Definition hands R (n : nat) (H : list resource) : nat → list resource :=
  λ m, if decide (m = n) then H else R m.

Lemma hands_self R n H : hands R n H n = H.
Proof. unfold hands. by rewrite decide_True. Qed.
Lemma hands_other R n H m : m ≠ n → hands R n H m = R m.
Proof. intros. unfold hands. by rewrite decide_False. Qed.

Lemma owned_ext R R' L : (∀ n x, x ∈ R n ↔ x ∈ R' n) → owned R L → owned R' L.
Proof.
  intros HR [Hs Hl Hi]. constructor.
  - intros x (n & Hn)%Hs. exists n. by apply HR.
  - intros n x Hn%HR. by apply (Hl n).
  - intros n m x Hn%HR Hm%HR. by apply (Hi n m x).
Qed.

(** The task exchanges [H] for [H'], and nothing else changes. *)
Lemma owned_step R n H H' L L' :
  owned (hands R n H) L →
  (∀ x, x ∉ H → x ∉ H' → (L' x → L x) ∧ (exclusive x → L x → L' x)) →
  (∀ x, x ∈ H' → exclusive x → L' x) →
  (∀ x, x ∈ H → x ∉ H' → ¬ L' x) →
  (∀ x, x ∈ H' → x ∉ H → exclusive x → ¬ L x) →
  owned (hands R n H') L'.
Proof.
  intros [Hs Hl Hi] Hout Hin Hlost Hnew.
  assert (Hother : ∀ m x, m ≠ n → x ∈ R m → exclusive x → (x ∉ H) ∧ (x ∉ H') ∧ L x).
  { intros m x Hm Hx He. assert (Hx' : x ∈ hands R n H m) by by rewrite hands_other.
    assert (x ∉ H) as Hni. { intros Hh. apply Hm. apply (Hi m n x); [done|by rewrite hands_self|done]. }
    pose proof (Hl m x Hx' He) as HL. split_and!; [done| |done]. intros Hh. by apply (Hnew x). }
  constructor.
  - intros x Hx. destruct (decide (x ∈ H')) as [|Hn']; [exists n; by rewrite hands_self|].
    destruct (decide (x ∈ H)) as [|Hni]; [by destruct (Hlost x)|].
    destruct (Hout x Hni Hn') as [Hback _]. destruct (Hs x (Hback Hx)) as [m Hm]. exists m.
    destruct (decide (m = n)) as [->|]; [by rewrite hands_self in Hm|]. by rewrite hands_other in Hm |- *.
  - intros m x Hm He. destruct (decide (m = n)) as [->|Hne]; [rewrite hands_self in Hm; by apply Hin|].
    rewrite hands_other in Hm by done. destruct (Hother m x) as (? & ? & ?); [done..|]. by apply Hout.
  - intros m m' x Hm Hm' He. destruct (decide (m = n)) as [->|Hne], (decide (m' = n)) as [->|Hne']; try done;
      [rewrite hands_self in Hm|rewrite hands_other in Hm by done..];
      [rewrite hands_other in Hm' by done|rewrite hands_self in Hm'|rewrite hands_other in Hm' by done].
    + by destruct (Hother m' x) as (_ & ? & _).
    + by destruct (Hother m x) as (_ & ? & _).
    + apply (Hi m m' x); [rewrite hands_other by done..|]; done.
Qed.
End ownership.

(** What the tasks hold. *)
Definition holdings (T : gmap nat task) (n : nat) : list resource :=
  match T !! n with Some k => owns k | None => [] end.

(** A step of a component takes [K] out of use and [K'] into use. *)
Record delta (K K' : list resource) (y y' : gateway_state) : Prop := {
  de_back x : in_use y' x → in_use y x ∧ x ∉ K ∨ x ∈ K';
  de_keep x : exclusive x → in_use y x → x ∉ K → in_use y' x;
  de_new x : x ∈ K' → exclusive x → in_use y' x ∧ ¬ in_use y x;
}.

Lemma owned_delta R n H K K' y y' :
  owned (hands R n (K ++ H)) (in_use y) → (∀ x, x ∈ K → x ∉ H) → delta K K' y y' →
  owned (hands R n (K' ++ H)) (in_use y').
Proof.
  intros Ho Hd [Hb Hk Hn]. apply (owned_step R n (K ++ H) _ (in_use y)); [done|..].
  - intros x [Hx _]%not_elem_of_app [Hx' _]%not_elem_of_app. split; [|by auto].
    intros [[? _]|?]%Hb; done.
  - intros x [Hx|Hx]%elem_of_app He; [by apply Hn|]. apply Hk; [done| |].
    + apply (ow_live _ _ Ho n); [|done]. rewrite hands_self. apply elem_of_app. by right.
    + intros Hx'. by apply (Hd x).
  - intros x Hx [Hx1 Hx2]%not_elem_of_app [[_ Hnk]|?]%Hb; [|done]. apply elem_of_app in Hx as [?|?]; done.
  - intros x [Hx|Hx]%elem_of_app [_ Hnx]%not_elem_of_app He; [by apply Hn|done].
Qed.

Section steps.
Context `{FloatRepr, ModelDump} (E : environment).
Context (ts : list tenant_context) (gmi gmq : Z) (c0 : ctrl) (Hcfg : configured ts gmi gmq c0).
Context (ms : Z) (mw : SpecFloat.spec_float) (bob : bool) (b0 : Batching.batcher) (Hbinit : batcher_init ms mw bob = inr b0).
Context (ids : list pystr) (interval timeout : Z) (pob : bool) (p0 : pool) (Hpinit : pool_init ids interval timeout pob = inr p0).

(** Each component is in a state of its own system. *)
Definition parts (y : gateway_state) : Prop :=
  reachable (en_adm_clock E) (en_late E) c0 (g_adm y) ∧ breachable (en_batch_clock E) b0 (g_batch y) ∧
  rreachable p0 (g_pool y).

(** A step of a component leaves the tasks alone. *)
Definition aside (y y' : gateway_state) : Prop := g_tasks y' = g_tasks y ∧ g_next y' = g_next y.

(** The components' steps. *)
Lemma adm_parts ev o y y' : parts y → adm_step E ev y = Some (o, y') →
  exec (en_adm_clock E) (en_late E) ev (g_adm y) = Some (o, g_adm y') ∧
  g_batch y' = g_batch y ∧ g_pool y' = g_pool y ∧ aside y y' ∧ parts y'.
Proof.
  intros (Ha & Hb & Hp). unfold adm_step. destruct (exec _ _ ev (g_adm y)) as [[o' a]|] eqn:Hex; [|done].
  intros [= <- <-]. split_and!; try done. split_and!; [|done..]. eapply reachable_step; [exact Ha|by constructor].
Qed.
Lemma batch_parts ev o y y' : parts y → batch_step E ev y = Some (o, y') →
  bexec (en_batch_clock E) ev (g_batch y) = Some (o, g_batch y') ∧
  g_adm y' = g_adm y ∧ g_pool y' = g_pool y ∧ aside y y' ∧ parts y'.
Proof.
  intros (Ha & Hb & Hp). unfold batch_step. destruct (bexec _ ev (g_batch y)) as [[o' b]|] eqn:Hex; [|done].
  intros [= <- <-]. split_and!; try done. split_and!; [done| |done]. by eapply breachable_step.
Qed.
Lemma pool_parts ev o y y' : parts y → pool_step ev y = Some (o, y') →
  rexec ev (g_pool y) = Some (o, g_pool y') ∧
  g_adm y' = g_adm y ∧ g_batch y' = g_batch y ∧ aside y y' ∧ parts y'.
Proof.
  intros (Ha & Hb & Hp). unfold pool_step. destruct (rexec ev (g_pool y)) as [[o' p]|] eqn:Hex; [|done].
  intros [= <- <-]. split_and!; try done. split_and!; [done..|]. by eapply rreachable_step.
Qed.

Lemma parts_adm y : parts y → sys_ok (en_late E) (g_adm y).
Proof. intros (Ha & _). by eapply sys_reachable. Qed.
Lemma parts_batch y : parts y → bsys_ok (g_batch y).
Proof. intros (_ & Hb & _). by destruct (breachable_ok _ _ _ _ _ _ Hbinit Hb). Qed.
Lemma parts_pool y : parts y → rsys_ok (g_pool y).
Proof. intros (_ & _ & Hp). by eapply rsys_reachable. Qed.

(** ** Admission *)

Definition of_admission (x : resource) : bool :=
  match x with RWaiting _ _ | RLease _ _ => true | _ => false end.

(** What an event of the controller hands to its caller. *)
Definition adm_gain (ev : event) (a : system) (o : Admission.outcome) : list resource :=
  match asker ev a, o with
  | Some tid, OLease l => [RLease tid l]
  | Some tid, OSuspended w => [RWaiting tid w]
  | _, _ => []
  end.

Lemma adm_delta ev o y y' K :
  parts y → adm_step E ev y = Some (o, y') →
  (∀ tid w, waiting_call (g_adm y) tid w → RWaiting tid w ∈ K ↔ ev = EvResume w) →
  (∀ tid l, held_lease (g_adm y) tid l → RLease tid l ∈ K ↔ ev = EvRelease l) →
  Forall (λ x, of_admission x = true) K → delta K (adm_gain ev (g_adm y) o) y y'.
Proof.
  intros Hp Hst Hw Hl HK. destruct (adm_parts _ _ _ _ Hp Hst) as (Hex & Hb & Hpl & _).
  pose proof (parts_adm _ Hp) as Hy. destruct (exec_frames _ _ _ _ _ _ Hy Hex) as [Hf _].
  assert (Hh := λ tid l, exec_held _ _ _ _ _ _ tid l Hy Hex).
  destruct (sys_step _ _ _ _ _ _ Hy (step_exec _ _ _ _ _ _ Hex)) as [_ Ha].
  rewrite Forall_forall in HK.
  assert (Hgw : ∀ tid w, RWaiting tid w ∈ adm_gain ev (g_adm y) o ↔ o = OSuspended w ∧ asker ev (g_adm y) = Some tid).
  { intros tid w. unfold adm_gain. destruct (asker ev (g_adm y)), o; rewrite ?list_elem_of_singleton, ?elem_of_nil; naive_solver. }
  assert (Hgl : ∀ tid l, RLease tid l ∈ adm_gain ev (g_adm y) o ↔ o = OLease l ∧ asker ev (g_adm y) = Some tid).
  { intros tid l. unfold adm_gain. destruct (asker ev (g_adm y)), o; rewrite ?list_elem_of_singleton, ?elem_of_nil; naive_solver. }
  assert (Hga : ∀ x, x ∈ adm_gain ev (g_adm y) o → of_admission x = true).
  { intros x. unfold adm_gain. destruct (asker ev (g_adm y)), o; rewrite ?list_elem_of_singleton, ?elem_of_nil; naive_solver. }
  assert (Hsame : ∀ x, of_admission x = false → in_use y' x ↔ in_use y x).
  { intros x Hx. destruct x; try done; simpl; by rewrite ?Hb, ?Hpl. }
  assert (Hni : ∀ x, of_admission x = false → x ∉ K) by (intros x Hx Hin; specialize (HK x Hin); congruence).
  constructor.
  - intros x Hx. destruct (of_admission x) eqn:Hadm; [|left; rewrite <- Hsame; auto].
    destruct x as [tid w|tid l| | | |]; try done; simpl in *.
    + apply (Hf tid w) in Hx as [[Hx Hne]|?]; [left|right; by apply Hgw]. split; [done|]. by rewrite Hw.
    + apply (Hh tid l) in Hx as [[Hx Hne]|?]; [left|right; by apply Hgl]. split; [done|]. by rewrite Hl.
  - intros x _ Hx Hnk. destruct (of_admission x) eqn:Hadm; [|by rewrite Hsame].
    destruct x as [tid w|tid l| | | |]; try done; simpl in *.
    + apply (Hf tid w). left. split; [done|]. by rewrite <- (Hw tid).
    + apply (Hh tid l). left. split; [done|]. by rewrite <- (Hl tid).
  - intros x Hx _. pose proof (Hga x Hx) as Hadm. destruct x as [tid w|tid l| | | |]; try done; simpl.
    + apply Hgw in Hx as [-> Has]. split; [apply (Hf tid w); auto|]. destruct ev; try done. simpl in Ha.
      intros (fr & Hfr & _). by rewrite (proj1 Ha) in Hfr.
    + apply Hgl in Hx as [-> Has]. split; [apply (Hh tid l); auto|]. intros [Hin _].
      destruct ev; try done; simpl in Ha; [|by destruct Ha].
      destruct (co_held _ _ _ _ (so_calls _ _ Hy) _ Hin) as [? ?]. destruct Ha as [? _]. congruence.
Qed.

(** ** Batching *)

Definition batch_gain (ev : bevent) (o : boutcome) : list resource :=
  match ev, o with
  | BvSubmit _ _, BOSuspended i => [RSub i]
  | BvStart f, BOCall _ => [RFlush f]
  | _, _ => []
  end.
Definition batch_loss (ev : bevent) : list resource :=
  match ev with
  | BvDone i | BvCancel i => [RSub i]
  | BvAnswer f _ => [RFlush f]
  | _ => []
  end.

Lemma start_answer f b o b' :
  bexec (en_batch_clock E) (BvStart f) b = Some (o, b') →
  o = BONone ∨ (∃ rs, o = BOCall rs) ∧ ¬ flush_runs (y_batcher b) f.
Proof.
  cbn [bexec]. unfold flush_runs. destruct (b_flushes (y_batcher b) !! f) as [[items re [] []]|]; try done.
  - intros [= <- <-]. by left.
  - intros [= <- <-]. right. split; [by eexists|]. naive_solver.
Qed.
Lemma suspended_submit ev b i b' :
  bsys_ok b → bexec (en_batch_clock E) ev b = Some (BOSuspended i, b') → ∃ tid r, ev = BvSubmit tid r.
Proof.
  intros Hb Hex. pose proof (bs_answer _ _ _ _ (bstep_all _ _ Hb _ _ _ Hex)) as Ha. destruct ev; try done; [by eauto| |].
  - destruct Ha as (? & _ & ? & [[_ ?]|(? & _ & ?)]); done.
  - destruct (start_answer _ _ _ _ Hex) as [?|[[? ?] _]]; done.
Qed.

Lemma batch_delta ev o y y' :
  parts y → batch_step E ev y = Some (o, y') → delta (batch_loss ev) (batch_gain ev o) y y'.
Proof.
  intros Hp Hst. destruct (batch_parts _ _ _ _ Hp Hst) as (Hex & Ha & Hpl & _). pose proof (parts_batch _ Hp) as Hy.
  pose proof (bexec_suspended _ _ _ _ _ Hex) as Hs. pose proof (bexec_runs _ _ _ _ _ Hy Hex) as Hr.
  pose proof (bs_answer _ _ _ _ (bstep_all _ _ Hy _ _ _ Hex)) as Hans.
  assert (HlS : ∀ i, RSub i ∈ batch_loss ev ↔ ev = BvDone i ∨ ev = BvCancel i).
  { intros i. destruct ev; simpl; rewrite ?list_elem_of_singleton, ?elem_of_nil; naive_solver. }
  assert (HlF : ∀ f, RFlush f ∈ batch_loss ev ↔ ∃ a, ev = BvAnswer f a).
  { intros f. destruct ev; simpl; rewrite ?list_elem_of_singleton, ?elem_of_nil; naive_solver. }
  assert (HgS : ∀ i, RSub i ∈ batch_gain ev o ↔ o = BOSuspended i).
  { intros i. split; [clear; destruct ev, o; simpl; rewrite ?list_elem_of_singleton, ?elem_of_nil; naive_solver|].
    intros ->. destruct (suspended_submit _ _ _ _ Hy Hex) as (? & ? & ->). by left. }
  assert (HgF : ∀ f, RFlush f ∈ batch_gain ev o ↔ ∃ rs, ev = BvStart f ∧ o = BOCall rs).
  { intros f. clear. destruct ev, o; simpl; rewrite ?list_elem_of_singleton, ?elem_of_nil; naive_solver. }
  assert (Hother : ∀ x, (∀ i, x ≠ RSub i) → (∀ f, x ≠ RFlush f) →
    (in_use y' x ↔ in_use y x) ∧ (x ∉ batch_loss ev) ∧ (x ∉ batch_gain ev o)).
  { intros x HS HF. clear -HS HF Ha Hpl. split.
    - destruct x as [| |i|f| |]; [..|by destruct (HS i)|by destruct (HF f)| |]; simpl; by rewrite ?Ha, ?Hpl.
    - destruct ev, o; (split; [intros Hx|intros Hx]); simpl in Hx; try (by apply elem_of_nil in Hx);
        apply list_elem_of_singleton in Hx as ->; first [by eapply HS|by eapply HF]. }
  assert (Hcase : ∀ x, (∃ i, x = RSub i) ∨ (∃ f, x = RFlush f) ∨
    (in_use y' x ↔ in_use y x) ∧ (x ∉ batch_loss ev) ∧ (x ∉ batch_gain ev o)).
  { intros x. destruct x; eauto; right; right; by apply Hother. }
  clear Hother. constructor.
  - intros x Hx. destruct (Hcase x) as [[i ->]|[[f ->]|(Heq & ? & ?)]]; [..|left; by rewrite <- Heq].
    + apply Hs in Hx as [(? & ? & ?)|?]; [left; split; [done|rewrite HlS; by intros [?|?]]|right; by apply HgS].
    + apply Hr in Hx as [[? Hn]|?]; [left; split; [done|rewrite HlF; by intros [a ?%Hn]]|right; by apply HgF].
  - intros x _ Hx Hn. destruct (Hcase x) as [[i ->]|[[f ->]|(Heq & ? & ?)]]; [..|by rewrite Heq].
    + apply Hs. left. rewrite HlS in Hn. split_and!; [done|by intros ->; apply Hn; left|by intros ->; apply Hn; right].
    + apply Hr. left. rewrite HlF in Hn. split; [done|]. intros a ->. apply Hn. by exists a.
  - intros x Hx _. destruct (Hcase x) as [[i ->]|[[f ->]|(_ & _ & ?)]]; [..|done].
    + apply HgS in Hx as ->. split; [apply Hs; auto|]. destruct (suspended_submit _ _ _ _ Hy Hex) as (tid & r & ->).
      simpl in Hans. destruct (b_closed _); [done|]. destruct Hans as (i' & it & [= <-] & Hn & _).
      intros [k Hk]. destruct (bc_frame _ _ _ (by_calls _ Hy) _ _ Hk) as (it' & _ & Hit' & _). congruence.
    + apply HgF in Hx as (rs & -> & ->). split; [apply Hr; right; by exists rs|].
      by destruct (start_answer _ _ _ _ Hex) as [?|[_ ?]].
Qed.

(** ** The pool *)

Definition pool_gain (ev : revent) (o : routcome) : list resource :=
  match ev, o with
  | RvCall op _, ROLease l => [RCall op l]
  | _, ROStream st => [RStream st]
  | _, _ => []
  end.
Definition pool_loss (ev : revent) (p : rsys) : list resource :=
  match ev with
  | RvAnswer l _ => match r_calls p !! l with Some op => [RCall op l] | None => [] end
  | RvAclose st => [RStream st]
  | _ => []
  end.

Lemma pool_delta ev o y y' :
  parts y → pool_step ev y = Some (o, y') → delta (pool_loss ev (g_pool y)) (pool_gain ev o) y y'.
Proof.
  intros Hp Hst. destruct (pool_parts _ _ _ _ Hp Hst) as (Hex & Ha & Hb & _). pose proof (parts_pool _ Hp) as Hy.
  pose proof (rexec_calls _ _ _ _ Hy Hex) as Hc. pose proof (proj1 (rexec_routed _ _ _ _ Hex)) as Hs.
  destruct (rsys_step _ _ _ _ Hy Hex) as (_ & Hans & _).
  assert (HlC : ∀ op l, r_calls (g_pool y) !! l = Some op → RCall op l ∈ pool_loss ev (g_pool y) ↔ ∃ r, ev = RvAnswer l r).
  { intros op l Hl. destruct ev; simpl; try case_match; rewrite ?list_elem_of_singleton, ?elem_of_nil; naive_solver. }
  assert (HlS : ∀ st, RStream st ∈ pool_loss ev (g_pool y) ↔ ev = RvAclose st).
  { intros st. destruct ev; simpl; try case_match; rewrite ?list_elem_of_singleton, ?elem_of_nil; naive_solver. }
  assert (HgC : ∀ op l, RCall op l ∈ pool_gain ev o ↔ (∃ n, ev = RvCall op n) ∧ o = ROLease l).
  { intros op l. clear. destruct ev, o; simpl; rewrite ?list_elem_of_singleton, ?elem_of_nil; naive_solver. }
  assert (HgS : ∀ st, o = ROStream st → RStream st ∈ pool_gain ev o).
  { intros st ->. destruct ev; simpl; by left. }
  assert (Hother : ∀ x, (∀ op l, x ≠ RCall op l) → (∀ st, x ≠ RStream st) →
    (in_use y' x ↔ in_use y x) ∧ (x ∉ pool_loss ev (g_pool y)) ∧ (x ∉ pool_gain ev o)).
  { intros x HC HS. clear -HC HS Ha Hb. split.
    - destruct x as [| | | |op l|st]; [..|by destruct (HC op l)|by destruct (HS st)]; simpl; by rewrite ?Ha, ?Hb.
    - destruct ev, o; (split; [intros Hx|intros Hx]); simpl in Hx; try case_match; try (by apply elem_of_nil in Hx);
        apply list_elem_of_singleton in Hx as ->; first [by eapply HC|by eapply HS]. }
  assert (Hcase : ∀ x, (∃ op l, x = RCall op l) ∨ (∃ st, x = RStream st) ∨
    (in_use y' x ↔ in_use y x) ∧ (x ∉ pool_loss ev (g_pool y)) ∧ (x ∉ pool_gain ev o)).
  { intros x. destruct x; eauto; right; right; by apply Hother. }
  clear Hother. constructor.
  - intros x Hx. destruct (Hcase x) as [(op & l & ->)|[[st ->]|(Heq & ? & ?)]]; [..|left; by rewrite <- Heq].
    + apply Hc in Hx as [[Hl ?]|?]; [left; split; [done|rewrite (HlC _ _ Hl); intros [r Hr]; congruence]|right; by apply HgC].
    + apply Hs in Hx as [[? ?]|?]; [left; split; [done|by rewrite HlS]|right; by apply HgS].
  - intros x He Hx Hn. destruct (Hcase x) as [(op & l & ->)|[[st ->]|(Heq & ? & ?)]]; [|done|by rewrite Heq].
    apply Hc. left. split; [done|]. rewrite (HlC _ _ Hx) in Hn. intros r ->. apply Hn. by exists r.
  - intros x Hx He. destruct (Hcase x) as [(op & l & ->)|[[st ->]|(_ & _ & ?)]]; [|done|done].
    apply HgC in Hx as [[n ->] ->]. split; [apply Hc; right; split; [by exists n|done]|]. simpl in *. destruct Hans as (_ & Hn & _). intros Hl.
    destruct (ow_call _ _ _ _ (ro_owned _ Hy) _ _ Hl) as [? ?]. congruence.
Qed.

(** ** A task with resources in its hands *)

Definition hold (n : nat) (Hd : list resource) (y : gateway_state) : Prop :=
  parts y ∧ owned (hands (holdings (g_tasks y)) n Hd) (in_use y).

Lemma hold_live n Hd y x : hold n Hd y → x ∈ Hd → exclusive x → in_use y x.
Proof. intros [_ Ho] Hx. apply (ow_live _ _ Ho n). by rewrite hands_self. Qed.

Lemma hold_delta n K K' Hd y y' :
  hold n (K ++ Hd) y → (∀ x, x ∈ K → x ∉ Hd) → delta K K' y y' → aside y y' → parts y' → hold n (K' ++ Hd) y'.
Proof.
  intros [_ Ho] Hdis Hdelta [Hs _] Hp. split; [done|]. rewrite Hs. by eapply owned_delta.
Qed.

Lemma hold_acquire n Hd t o y y' :
  hold n Hd y → adm_step E (EvAcquire t) y = Some (o, y') →
  hold n (adm_gain (EvAcquire t) (g_adm y) o ++ Hd) y' ∧ aside y y'.
Proof.
  intros Hh Hst. pose proof Hh as [Hp _]. destruct (adm_parts _ _ _ _ Hp Hst) as (_ & _ & _ & Has & Hp').
  split; [|done]. apply (hold_delta n [] _ _ y); [done|by intros x ?%elem_of_nil| |done|done].
  eapply adm_delta; [done|exact Hst|..]; [intros ? ? _; rewrite elem_of_nil; naive_solver..|done].
Qed.

Lemma hold_resume n tid w Hd o y y' :
  hold n (RWaiting tid w :: Hd) y → RWaiting tid w ∉ Hd → adm_step E (EvResume w) y = Some (o, y') →
  hold n (match o with OLease l => [RLease tid l] | _ => [] end ++ Hd) y' ∧ aside y y'.
Proof.
  intros Hh Hni Hst. pose proof Hh as [Hp _]. destruct (adm_parts _ _ _ _ Hp Hst) as (Hex & _ & _ & Has & Hp').
  assert (Hw : waiting_call (g_adm y) tid w) by (apply (hold_live _ _ _ (RWaiting tid w) Hh); [by left|done]).
  pose proof Hw as (fr & Hfr & Ht). split; [|done].
  assert (Hg : adm_gain (EvResume w) (g_adm y) o = match o with OLease l => [RLease tid l] | _ => [] end).
  { unfold adm_gain. simpl. rewrite Hfr. simpl. rewrite Ht.
    pose proof (parts_adm _ Hp) as Hy. destruct (sys_step _ _ _ _ _ _ Hy (step_exec _ _ _ _ _ _ Hex)) as [_ Ha]. by destruct o. }
  rewrite <- Hg.
  apply (hold_delta n [RWaiting tid w] _ _ y); [done|by intros x ->%list_elem_of_singleton| |done|done].
  eapply adm_delta; [done|exact Hst| | |by repeat constructor].
  - intros tid' w' (fr' & Hfr' & Ht'). rewrite list_elem_of_singleton. split; [congruence|]. intros [= <-]. congruence.
  - intros tid' l _. rewrite list_elem_of_singleton. split; [done|]. done.
Qed.

Lemma hold_release n tid l Hd o y y' :
  hold n (RLease tid l :: Hd) y → RLease tid l ∉ Hd → adm_step E (EvRelease l) y = Some (o, y') →
  hold n Hd y' ∧ aside y y'.
Proof.
  intros Hh Hni Hst. pose proof Hh as [Hp _]. destruct (adm_parts _ _ _ _ Hp Hst) as (_ & _ & _ & Has & Hp').
  assert (Hl : held_lease (g_adm y) tid l) by (apply (hold_live _ _ _ (RLease tid l) Hh); [by left|done]).
  destruct Hl as [_ (le & Hle & _ & Ht)]. split; [|done].
  change (hold n (adm_gain (EvRelease l) (g_adm y) o ++ Hd) y').
  apply (hold_delta n [RLease tid l] _ _ y); [done|by intros x ->%list_elem_of_singleton| |done|done].
  eapply adm_delta; [done|exact Hst| | |by repeat constructor].
  - intros tid' w _. rewrite list_elem_of_singleton. done.
  - intros tid' l' [_ (le' & Hle' & _ & Ht')]. rewrite list_elem_of_singleton. split; [congruence|]. intros [= <-]. congruence.
Qed.

(** The controller's other events. *)
Lemma hold_adm n Hd ev o y y' :
  hold n Hd y → adm_step E ev y = Some (o, y') → own_admission ev = true ∨ (∃ w, ev = EvCancel w) →
  hold n Hd y' ∧ aside y y'.
Proof.
  intros Hh Hst Hev. pose proof Hh as [Hp _]. destruct (adm_parts _ _ _ _ Hp Hst) as (_ & _ & _ & Has & Hp').
  split; [|done]. assert (Hn : asker ev (g_adm y) = None) by (destruct ev, Hev as [?|[? ?]]; done).
  assert (Hg : adm_gain ev (g_adm y) o = []) by (unfold adm_gain; by rewrite Hn).
  change Hd with ([] ++ Hd). rewrite <- Hg.
  apply (hold_delta n [] _ _ y); [done|by intros x ?%elem_of_nil| |done|done].
  eapply adm_delta; [done|exact Hst|..]; [intros ? ? _; rewrite elem_of_nil; split; [done|]; intros ->; by destruct Hev as [?|[? ?]]..|done].
Qed.

Lemma hold_batch n Hd ev o y y' :
  hold n (batch_loss ev ++ Hd) y → (∀ x, x ∈ batch_loss ev → x ∉ Hd) → batch_step E ev y = Some (o, y') →
  hold n (batch_gain ev o ++ Hd) y' ∧ aside y y'.
Proof.
  intros Hh Hdis Hst. pose proof Hh as [Hp _]. destruct (batch_parts _ _ _ _ Hp Hst) as (_ & _ & _ & Has & Hp').
  split; [|done]. eapply hold_delta; [done|done|by eapply batch_delta|done|done].
Qed.

Lemma hold_pool n Hd ev o y y' :
  hold n (pool_loss ev (g_pool y) ++ Hd) y → (∀ x, x ∈ pool_loss ev (g_pool y) → x ∉ Hd) →
  pool_step ev y = Some (o, y') →
  hold n (pool_gain ev o ++ Hd) y' ∧ aside y y'.
Proof.
  intros Hh Hdis Hst. pose proof Hh as [Hp _]. destruct (pool_parts _ _ _ _ Hp Hst) as (_ & _ & _ & Has & Hp').
  split; [|done]. eapply hold_delta; [done|done|by eapply pool_delta|done|done].
Qed.

(** The events that end nothing. *)
Lemma hold_batch_more n Hd ev o y y' :
  hold n Hd y → batch_step E ev y = Some (o, y') → batch_loss ev = [] →
  hold n (batch_gain ev o ++ Hd) y' ∧ aside y y'.
Proof. intros Hh Hst Hl. apply hold_batch; try done; rewrite Hl; [done|by intros x ?%elem_of_nil]. Qed.
Lemma hold_pool_more n Hd ev o y y' :
  hold n Hd y → pool_step ev y = Some (o, y') → pool_loss ev (g_pool y) = [] →
  hold n (pool_gain ev o ++ Hd) y' ∧ aside y y'.
Proof. intros Hh Hst Hl. apply hold_pool; try done; rewrite Hl; [done|by intros x ?%elem_of_nil]. Qed.

(** The pool's own events may close streams. *)
Lemma hold_own_pool n Hd ev o y y' :
  hold n Hd y → pool_step ev y = Some (o, y') → own_pool ev = true → hold n Hd y' ∧ aside y y'.
Proof.
  intros Hh Hst Hown. pose proof Hh as [Hp _]. destruct (pool_parts _ _ _ _ Hp Hst) as (Hex & _ & _ & Has & Hp').
  destruct (rsys_step _ _ _ _ (parts_pool _ Hp) Hex) as (_ & Hans & _).
  assert (Hg : pool_gain ev o = []) by (destruct ev, o; done).
  pose proof (pool_delta _ _ _ _ Hp Hst) as [Hb Hk _]. rewrite Hg in Hb.
  split; [|done]. apply (hold_delta n [] [] Hd y); [done|by intros x ?%elem_of_nil| |done|done]. split.
  - intros x [[? _]|?%elem_of_nil]%Hb; [|done]. left. split; [done|by intros ?%elem_of_nil].
  - intros x He Hx _. apply Hk; [done|done|]. intros Hl. destruct ev; try (by apply elem_of_nil in Hl); [done|].
    apply list_elem_of_singleton in Hl as ->. done.
  - by intros x ?%elem_of_nil.
Qed.

(** ** The invariant *)

Record tasks_ok (y : gateway_state) : Prop := {
  tk_next n : is_Some (g_tasks y !! n) → (n < g_next y)%nat;
  tk_relay n tid l st rl : g_tasks y !! n = Some (TStream tid l st rl) → rlinv rl;
}.
Record gok (y : gateway_state) : Prop := {
  go_parts : parts y;
  go_owned : owned (holdings (g_tasks y)) (in_use y);
  go_tasks : tasks_ok y;
}.

Lemma aside_trans y1 y2 y3 : aside y1 y2 → aside y2 y3 → aside y1 y3.
Proof. intros [H1 H2] [H3 H4]. split; congruence. Qed.
Lemma aside_tasks y y' : aside y y' → tasks_ok y → tasks_ok y'.
Proof. intros [Ht Hn] [Hx Hr]. split; rewrite Ht; [by rewrite Hn|done]. Qed.

Lemma hold_task n k y : gok y → g_tasks y !! n = Some k → hold n (owns k) y.
Proof.
  intros [Hp Ho _] Hk. split; [done|]. eapply owned_ext; [|done]. intros m x. unfold hands, holdings.
  case_decide as Hm; [|done]. subst m. by rewrite Hk.
Qed.
Lemma hold_nothing n y : gok y → g_tasks y !! n = None → hold n [] y.
Proof.
  intros [Hp Ho _] Hn. split; [done|]. eapply owned_ext; [|done]. intros m x. unfold hands, holdings.
  case_decide as Hm; [|done]. subst m. by rewrite Hn.
Qed.

Definition relay_fine (k : task) : Prop := match k with TStream _ _ _ rl => rlinv rl | _ => True end.

Lemma put_ok n k Hd y :
  hold n Hd y → tasks_ok y → (n < g_next y)%nat → relay_fine k → (∀ x, x ∈ owns k ↔ x ∈ Hd) →
  gok (put_task n k y).
Proof.
  intros [Hp Ho] [Hn Hr] Hlt Hk Hown. split; [done| |split]; simpl.
  - eapply owned_ext; [|exact Ho]. intros m x. unfold hands, holdings. destruct (decide (m = n)) as [->|Hne].
    + rewrite lookup_insert_eq. by rewrite Hown.
    + by rewrite lookup_insert_ne.
  - intros m. rewrite lookup_insert_is_Some'. intros [<-|?]; [done|by apply Hn].
  - intros m tid l st rl [[<- ->]|[_ ?]]%lookup_insert_Some; [done|by eapply Hr].
Qed.
Lemma drop_ok n y : hold n [] y → tasks_ok y → gok (drop_task n y).
Proof.
  intros [Hp Ho] [Hn Hr]. split; [done| |split]; simpl.
  - eapply owned_ext; [|exact Ho]. intros m x. unfold hands, holdings. destruct (decide (m = n)) as [->|Hne].
    + by rewrite lookup_delete_eq.
    + by rewrite lookup_delete_ne.
  - intros m [k [_ Hk]%lookup_delete_Some]. apply Hn. by exists k.
  - intros m tid l st rl [_ ?]%lookup_delete_Some. by eapply Hr.
Qed.
(** A task that is not there has nothing. *)
Lemma none_ok n y : hold n [] y → tasks_ok y → g_tasks y !! n = None → gok y.
Proof.
  intros Hh Ht Hn. pose proof (drop_ok n y Hh Ht) as Hd. unfold drop_task, on_tasks in Hd.
  rewrite delete_id in Hd by done. by destruct y.
Qed.

(** ** Requests *)

Lemma end_request_ok n tid l o y o' y' :
  hold n [RLease tid l] y → tasks_ok y → end_request E n l o y = Some (o', y') → gok y'.
Proof.
  intros Hh Ht. unfold end_request. destruct (adm_step E (EvRelease l) y) as [[ao y1]|] eqn:Hst; [|done].
  intros [= <- <-]. destruct (hold_release _ _ _ _ _ _ _ Hh (not_elem_of_nil _) Hst) as [Hh1 Has].
  apply drop_ok; [done|by eapply aside_tasks].
Qed.

Lemma begin_service_ok n tid l r y o y' :
  hold n [RLease tid l] y → tasks_ok y → (n < g_next y)%nat →
  begin_service E n tid l r y = Some (o, y') → gok y'.
Proof.
  intros Hh Ht Hn. unfold begin_service.
  assert (Hcall : ∀ op k o1 y1, pool_step (RvCall op k) y = Some (o1, y1) →
    hold n (pool_gain (RvCall op k) o1 ++ [RLease tid l]) y1 ∧ tasks_ok y1 ∧ (n < g_next y1)%nat).
  { intros op k o1 y1 Hst. destruct (hold_pool_more _ _ _ _ _ _ Hh Hst eq_refl) as [Hh1 [Hs Hx]].
    split_and!; [done|by eapply aside_tasks|by rewrite Hx]. }
  assert (Hend : ∀ op k e o1 y1, pool_step (RvCall op k) y = Some (RORaised e, y1) →
    end_request E n l o1 y1 = Some (o, y') → gok y').
  { intros op k e o1 y1 Hst He. destruct (Hcall _ _ _ _ Hst) as (Hh1 & Ht1 & _).
    eapply (end_request_ok n tid l); [exact Hh1|done|exact He]. }
  assert (Hput : ∀ op k pl y1 t, pool_step (RvCall op k) y = Some (ROLease pl, y1) →
    relay_fine t → owns t = [RCall op pl; RLease tid l] → gok (put_task n t y1)).
  { intros op k pl y1 t Hst Hf Hown. destruct (Hcall _ _ _ _ Hst) as (Hh1 & Ht1 & Hn1).
    eapply put_ok; [exact Hh1|done..|]. intros x. by rewrite Hown. }
  destruct (cr_stream r); [|destruct (eligible _)].
  - destruct (pool_step (RvCall OpStream 1) y) as [[[pl|st|e|] y1]|] eqn:Hst; try done; [|by eapply Hend].
    intros [= <- <-]. by eapply Hput.
  - destruct (negb _); [by eapply end_request_ok|].
    destruct (batch_step E (BvSubmit tid r) y) as [[ob y1]|] eqn:Hst; [|done].
    destruct (hold_batch_more _ _ _ _ _ _ Hh Hst eq_refl) as [Hh1 Has].
    destruct ob as [i|d|e| | |]; try done; intros Hex.
    + injection Hex as <- <-. eapply put_ok; [exact Hh1|by eapply aside_tasks|by rewrite (proj2 Has)|done|done].
    + eapply end_request_ok; [exact Hh1|by eapply aside_tasks|exact Hex].
  - destruct (pool_step (RvCall OpGenerate 1) y) as [[[pl|st|e|] y1]|] eqn:Hst; try done; [|by eapply Hend].
    intros [= <- <-]. by eapply Hput.
Qed.

Lemma begin_request_ok authorization r y o y' :
  gok y → begin_request E authorization r y = Some (o, y') → gok y'.
Proof.
  intros Hy. unfold begin_request. destruct (authenticate _ _) as [e|t]; [by intros [= <- <-]|].
  destruct (enforce_configured_limits _ _) as [e|_]; [by intros [= <- <-]|].
  set (n := g_next y). set (y1 := GatewayState _ _ _ _ (S n)).
  assert (Hfree : g_tasks y1 !! n = None).
  { apply eq_None_not_Some. intros Hs. pose proof (tk_next _ (go_tasks _ Hy) n Hs). unfold n in *. lia. }
  assert (Hy1 : gok y1).
  { destruct Hy as [Hp Ho [Hx Hr]]. split; [done|done|]. split; [|done]. intros m Hm%Hx. simpl. lia. }
  pose proof (hold_nothing n y1 Hy1 Hfree) as Hh.
  destruct (adm_step E (EvAcquire t) y1) as [[ao y2]|] eqn:Hst; [|done].
  destruct (hold_acquire n [] t ao y1 y2 Hh Hst) as [Hh2 Has].
  assert (Ht2 : tasks_ok y2) by (eapply aside_tasks; [done|apply Hy1]).
  assert (Hn2 : (n < g_next y2)%nat) by (rewrite (proj2 Has); simpl; lia).
  destruct ao as [l|w|e|]; try done; intros Hex.
  - eapply begin_service_ok; [exact Hh2|done|done|exact Hex].
  - injection Hex as <- <-. eapply put_ok; [exact Hh2|done..|]. intros x. by rewrite app_nil_r.
  - injection Hex as <- <-. eapply none_ok; [exact Hh2|done|]. by rewrite (proj1 Has).
Qed.

Lemma admitted_ok n tid r w y o y' :
  gok y → g_tasks y !! n = Some (TAcquire tid r w) → admitted E n tid r w y = Some (o, y') → gok y'.
Proof.
  intros Hy Hn. unfold admitted. destruct (adm_step E (EvResume w) y) as [[ao y1]|] eqn:Hst; [|done].
  destruct (hold_resume n tid w [] ao y y1 (hold_task n _ y Hy Hn) (not_elem_of_nil _) Hst) as [Hh1 Has].
  assert (Ht1 : tasks_ok y1) by (eapply aside_tasks; [done|apply Hy]).
  destruct ao as [l|w'|e|]; try done; intros Hex.
  - eapply begin_service_ok; [exact Hh1|done| |exact Hex]. rewrite (proj2 Has). by apply (tk_next _ (go_tasks _ Hy)).
  - injection Hex as <- <-. by apply drop_ok.
Qed.

Lemma submitted_ok n tid r l i ev o y y1 o' y' :
  gok y → g_tasks y !! n = Some (TSubmit tid r l i) → ev = BvDone i ∨ ev = BvCancel i →
  batch_step E ev y = Some (o, y1) → submitted E n l o y1 = Some (o', y') → gok y'.
Proof.
  intros Hy Hn Hev Hst. pose proof (hold_task n _ y Hy Hn) as Hh. simpl in Hh.
  assert (Hl : batch_loss ev = [RSub i]) by (by destruct Hev as [->| ->]).
  assert (Hg : batch_gain ev o = []) by (by destruct Hev as [->| ->]).
  destruct (hold_batch n [RLease tid l] ev o y y1) as [Hh1 Has]; rewrite ?Hl; [done| |done|].
  { by intros x ->%list_elem_of_singleton ?%list_elem_of_singleton. }
  rewrite Hg in Hh1. assert (Ht1 : tasks_ok y1) by (eapply aside_tasks; [done|apply Hy]).
  destruct o; simpl; try done; by eapply end_request_ok.
Qed.

(** The answer of a backend call. *)
Lemma hold_answer n op pl a Hd o y y' :
  hold n (RCall op pl :: Hd) y → RCall op pl ∉ Hd → pool_step (RvAnswer pl a) y = Some (o, y') →
  hold n (match o with ROStream st => [RStream st] | _ => [] end ++ Hd) y' ∧ aside y y' ∧
  (op ≠ OpStream → ∀ st, o ≠ ROStream st).
Proof.
  intros Hh Hni Hst. assert (Hc : r_calls (g_pool y) !! pl = Some op).
  { apply (hold_live _ _ _ (RCall op pl) Hh); [by left|done]. }
  assert (Hl : pool_loss (RvAnswer pl a) (g_pool y) = [RCall op pl]) by (simpl; by rewrite Hc).
  destruct (hold_pool n Hd (RvAnswer pl a) o y y') as [Hh1 Has]; rewrite ?Hl; [done| |done|].
  { by intros x ->%list_elem_of_singleton. }
  split_and!; [by destruct o|done|]. intros Hop st ->. destruct (pool_parts _ _ _ _ (proj1 Hh) Hst) as (Hex & _).
  cbn [rexec] in Hex. rewrite Hc in Hex. destruct op; [|done|]; unfold rfinish in Hex;
    (destruct (call_end _ pl _ _) as [[e|[]] p]; congruence).
Qed.

Lemma generated_ok n tid l pl a y o' y' :
  gok y → g_tasks y !! n = Some (TCall tid l pl) → generated E n l pl a y = Some (o', y') → gok y'.
Proof.
  intros Hy Hn. unfold generated. destruct (pool_step _ y) as [[o y1]|] eqn:Hst; [|done].
  destruct (hold_answer n OpGenerate pl (error_of a) [RLease tid l] o y y1 (hold_task n _ y Hy Hn)) as (Hh1 & Has & Hno).
  { by intros ?%list_elem_of_singleton. }
  { exact Hst. }
  assert (Ht1 : tasks_ok y1) by (eapply aside_tasks; [done|apply Hy]).
  destruct o as [|st| |]; try (by intros Hex; eapply end_request_ok; [exact Hh1|done|exact Hex]).
  by destruct (Hno ltac:(done) st).
Qed.

Lemma relay_init_inv ob : rlinv (relay_init ob).
Proof. by constructor. Qed.

Lemma stream_opened_ok n tid l pl a y o' y' :
  gok y → g_tasks y !! n = Some (TOpen tid l pl) → stream_opened E n tid l pl a y = Some (o', y') → gok y'.
Proof.
  intros Hy Hn. unfold stream_opened. destruct (pool_step _ y) as [[o y1]|] eqn:Hst; [|done].
  destruct (hold_answer n OpStream pl a [RLease tid l] o y y1 (hold_task n _ y Hy Hn)) as (Hh1 & Has & _).
  { by intros ?%list_elem_of_singleton. }
  { exact Hst. }
  assert (Ht1 : tasks_ok y1) by (eapply aside_tasks; [done|apply Hy]).
  assert (Hlt : (n < g_next y1)%nat) by (rewrite (proj2 Has); by apply (tk_next _ (go_tasks _ Hy))).
  destruct o as [|st|e|]; try done.
  - intros [= <- <-]. eapply put_ok; [exact Hh1|done|done|apply relay_init_inv|done].
  - destruct a as [e'|]; intros Hex; [eapply end_request_ok; [exact Hh1|done|exact Hex]|].
    injection Hex as <- <-. eapply put_ok; [exact Hh1|done..].
Qed.

(** ** Relays *)

Lemma rlexec_mono st ev r r' :
  relay_exec E st ev r = Some r' → (rl_closes r ≤ rl_closes r')%nat ∧ (rl_releases r ≤ rl_releases r')%nat.
Proof.
  assert (Hfrom : ∀ c o q, (rl_closes q ≤ rl_closes (aclose_from c o q))%nat ∧ rl_releases (aclose_from c o q) = rl_releases q).
  { intros c o q. unfold aclose_from, aclose_enter, after_aclose, response_closes, aclose_enter. simpl.
    destruct (rl_holder q) eqn:Hh; [done|]. destruct (rl_closed q) eqn:Hc; [|simpl; split; [lia|done]].
    destruct c; [done|]. destruct (rl_response q); simpl; rewrite ?Hh, ?Hc; done. }
  assert (Hresp : ∀ q, (rl_closes q ≤ rl_closes (response_closes q))%nat ∧ rl_releases (response_closes q) = rl_releases q).
  { intros q. unfold response_closes, aclose_enter. simpl. destruct (rl_holder q); [done|].
    destruct (rl_closed q); simpl; split; try done; lia. }
  assert (Hafter : ∀ c q, (rl_closes q ≤ rl_closes (after_aclose c q))%nat ∧ rl_releases (after_aclose c q) = rl_releases q).
  { intros c q. destruct c; simpl; [done|]. by destruct (rl_response q). }
  unfold relay_exec. destruct ev as [chunk| |e|e|handled|failure|c|c]; cbn [rlexec].
  - destruct (rl_iterator r); try done. by intros [= <-].
  - destruct (rl_iterator r); try done. by intros [= <-].
  - destruct (rl_iterator r); try done. intros [= <-]. unfold iterator_ends.
    destruct e as [e|]; [destruct e; cbn [is_exception]; try destruct (rl_closed r)|]; try done;
      match goal with |- context [aclose_from ?c ?o ?q] => destruct (Hfrom c o q) as [? ->] end; done.
  - destruct (rl_iterator r); try done. intros [= <-]. unfold iterator_ends.
    destruct e; cbn [is_exception]; try destruct (rl_closed r); try done;
      match goal with |- context [aclose_from ?c ?o ?q] => destruct (Hfrom c o q) as [? ->] end; done.
  - destruct (rl_response r); try done. intros [= <-]. destruct handled; [|destruct (Hresp r) as [? ->]; done].
    match goal with |- context [aclose_from ?c ?o ?q] => destruct (Hfrom c o q) as [? ->] end; done.
  - destruct (rl_holder r) as [[c out]|] eqn:Hh; [|done]. intros [= <-]. unfold aclose_end. rewrite Hh.
    match goal with |- context [after_aclose ?c ?q] => destruct (Hafter c q) as [? ->] end. simpl in *. split; lia.
  - destruct (rl_holder r); [done|]. case_bool_decide; [|done]. intros [= <-].
    destruct (Hafter c (unwait c r)) as [? ->]; done.
  - case_bool_decide; [|done]. intros [= <-]. destruct (Hafter c (unwait c r)) as [? ->]; done.
Qed.

(** What [owns] says of a relay. *)
Lemma relay_counts rl : rlinv rl → (rl_closes rl ≤ 1)%nat ∧ (rl_releases rl ≤ rl_closes rl)%nat.
Proof.
  intros [_ -> -> _]. destruct (rl_holder rl); destruct (rl_closed rl); simpl; lia.
Qed.
Lemma relay_over_done rl : rlinv rl → relay_over rl = true → rl_closes rl = 1%nat ∧ rl_releases rl = 1%nat.
Proof.
  intros [Hp Hc Hr _] Ho. unfold relay_over in Ho. destruct (rl_response rl) eqn:Hq; try done.
  destruct (rl_holder rl) eqn:Hh; [done|]. rewrite Hc, Hr. unfold holder_of in Hp. rewrite Hh in Hp. clear -Hp.
  unfold phase_ok in Hp. destruct (rl_closed rl); [done|]. destruct (rl_waiting rl), (rl_iterator rl); done.
Qed.

(** A closed stream, and a released lease, or nothing to do. *)
Lemma relay_closes n Hd st c c' y y1 :
  hold n ((if (c =? 0)%nat then [RStream st] else []) ++ Hd) y → RStream st ∉ Hd → (c ≤ c' ≤ 1)%nat →
  (if (c <? c')%nat then '(_, y) ← pool_step (RvAclose st) y; Some y else Some y) = Some y1 →
  hold n ((if (c' =? 0)%nat then [RStream st] else []) ++ Hd) y1 ∧ aside y y1.
Proof.
  intros Hh Hni Hc. destruct (Nat.ltb_spec c c').
  - assert (c = 0%nat) as -> by lia. assert (c' = 1%nat) as -> by lia. simpl.
    destruct (pool_step (RvAclose st) y) as [[o y2]|] eqn:Hst; [|done]. intros [= <-].
    destruct (hold_pool n Hd (RvAclose st) o y y2) as [Hh1 Has]; [done|by intros x ->%list_elem_of_singleton|done|].
    destruct (pool_parts _ _ _ _ (proj1 Hh) Hst) as (Hex & _).
    destruct (rsys_step _ _ _ _ (parts_pool _ (proj1 Hh)) Hex) as (_ & Hans & _). by destruct o.
  - intros [= <-]. by assert (c' = c) as -> by lia.
Qed.
Lemma relay_releases n tid l Hd c c' y y1 :
  hold n (Hd ++ if (c =? 0)%nat then [RLease tid l] else []) y → RLease tid l ∉ Hd → (c ≤ c' ≤ 1)%nat →
  (if (c <? c')%nat then '(_, y) ← adm_step E (EvRelease l) y; Some y else Some y) = Some y1 →
  hold n (Hd ++ if (c' =? 0)%nat then [RLease tid l] else []) y1 ∧ aside y y1.
Proof.
  intros Hh Hni Hc. destruct (Nat.ltb_spec c c').
  - assert (c = 0%nat) as -> by lia. assert (c' = 1%nat) as -> by lia. simpl.
    destruct (adm_step E (EvRelease l) y) as [[o y2]|] eqn:Hst; [|done]. intros [= <-]. rewrite app_nil_r.
    apply (hold_release n tid l Hd o y y2); [|done|done]. destruct Hh as [Hp Ho]. split; [done|].
    eapply owned_ext; [|exact Ho]. intros m x. unfold hands. case_decide; [|done]. simpl. set_solver.
  - intros [= <-]. by assert (c' = c) as -> by lia.
Qed.

Lemma relayed_ok n tid l st rl ev y o y' :
  gok y → g_tasks y !! n = Some (TStream tid l st rl) → relayed E n tid l st rl ev y = Some (o, y') → gok y'.
Proof.
  intros Hy Hn. unfold relayed. destruct (negb _); [done|].
  destruct (relay_exec E st ev rl) as [rl'|] eqn:Hex; [|done]. simpl.
  pose proof (tk_relay _ (go_tasks _ Hy) _ _ _ _ _ Hn) as Hrl.
  assert (Hrl' : rlinv rl') by (by eapply rlexec_inv).
  destruct (rlexec_mono _ _ _ _ Hex) as [Hmc Hmr].
  destruct (relay_counts _ Hrl) as [Hc1 Hr1], (relay_counts _ Hrl') as [Hc2 Hr2].
  destruct (if (rl_closes rl <? rl_closes rl')%nat then _ else _) as [y1|] eqn:H1; [|done]. simpl.
  destruct (if (rl_releases rl <? rl_releases rl')%nat then _ else _) as [y2|] eqn:H2; [|done]. simpl. intros [= <- <-].
  assert (hold n ((if (rl_closes rl' =? 0)%nat then [RStream st] else []) ++
    if (rl_releases rl =? 0)%nat then [RLease tid l] else []) y1 ∧ aside y y1) as [Hh1 Has1].
  { eapply relay_closes; [exact (hold_task n _ y Hy Hn)| |lia|exact H1].
    destruct (rl_releases rl =? 0)%nat; [by intros ?%list_elem_of_singleton|by intros ?%elem_of_nil]. }
  assert (hold n (owns (TStream tid l st rl')) y2 ∧ aside y1 y2) as [Hh2 Has2].
  { eapply relay_releases; [exact Hh1| |lia|exact H2].
    destruct (rl_closes rl' =? 0)%nat; [by intros ?%list_elem_of_singleton|by intros ?%elem_of_nil]. }
  pose proof (aside_trans _ _ _ Has1 Has2) as Has. assert (Ht2 : tasks_ok y2) by (eapply aside_tasks; [done|apply Hy]).
  destruct (relay_over rl') eqn:Hover.
  - destruct (relay_over_done _ Hrl' Hover) as [Hc Hr]. simpl in Hh2. rewrite Hc, Hr in Hh2. by apply drop_ok.
  - eapply put_ok; [exact Hh2|done| |done|done]. rewrite (proj2 Has). by apply (tk_next _ (go_tasks _ Hy)).
Qed.

(** ** Flushes *)

Lemma start_flush_ok f y o y' : gok y → start_flush E f y = Some (o, y') → gok y'.
Proof.
  intros Hy. unfold start_flush. destruct (batch_step E (BvStart f) y) as [[ob y1]|] eqn:Hst; [|done].
  set (n := g_next y).
  assert (Hfree : g_tasks y !! n = None).
  { apply eq_None_not_Some. intros Hs. pose proof (tk_next _ (go_tasks _ Hy) n Hs). unfold n in *. lia. }
  destruct (hold_batch_more n [] _ _ _ _ (hold_nothing n y Hy Hfree) Hst eq_refl) as [Hh1 Has1].
  assert (Ht1 : tasks_ok y1) by (eapply aside_tasks; [done|apply Hy]).
  assert (Hfree1 : g_tasks y1 !! n = None) by (by rewrite (proj1 Has1)).
  destruct ob as [i|d|e|requests|p q|]; try done; simpl; [|intros [= <- <-]; by eapply none_ok].
  destruct (pool_step _ y1) as [[o2 y2]|] eqn:Hst2; [|done].
  destruct (hold_pool_more n _ _ _ _ _ Hh1 Hst2 eq_refl) as [Hh2 Has2].
  assert (Ht2 : tasks_ok y2) by (by eapply aside_tasks).
  assert (Hnext : g_next y2 = n) by (rewrite (proj2 Has2), (proj2 Has1); done).
  destruct o2 as [pl|st|e|]; try done; simpl.
  - intros [= <- <-]. rewrite Hnext. eapply put_ok; [exact Hh2| |simpl; lia|done|done].
    split; [|apply Ht2]. intros m Hm%(tk_next _ Ht2). simpl. lia.
  - destruct (batch_step E (BvAnswer f (inl e)) y2) as [[o3 y3]|] eqn:Hst3; [|done]. simpl. intros [= <- <-].
    destruct (hold_batch n [] (BvAnswer f (inl e)) o3 y2 y3 Hh2) as [Hh3 Has3]; [by intros x _ ?%elem_of_nil|done|].
    eapply none_ok; [exact Hh3|by eapply aside_tasks|]. rewrite (proj1 Has3), (proj1 Has2). done.
Qed.

Lemma flushed_ok n f pl a y o y' :
  gok y → g_tasks y !! n = Some (TFlush f pl) → flushed E n f pl a y = Some (o, y') → gok y'.
Proof.
  intros Hy Hn. unfold flushed. destruct (pool_step _ y) as [[o1 y1]|] eqn:Hst; [|done].
  destruct (hold_answer n OpBatch pl (error_of a) [RFlush f] o1 y y1 (hold_task n _ y Hy Hn)) as (Hh1 & Has1 & Hno).
  { by intros ?%list_elem_of_singleton. }
  { exact Hst. }
  assert (Hh1' : hold n [RFlush f] y1) by (destruct o1 as [|st| |]; try done; by destruct (Hno ltac:(done) st)).
  simpl. destruct (batch_step E _ y1) as [[o2 y2]|] eqn:Hst2; [|done]. simpl. intros [= <- <-].
  match type of Hst2 with batch_step _ ?ev _ = _ => destruct (hold_batch n [] ev o2 y1 y2 Hh1') as [Hh2 Has2] end;
    [by intros x _ ?%elem_of_nil|done|].
  apply drop_ok; [exact Hh2|]. eapply aside_tasks; [|apply Hy]. by eapply aside_trans.
Qed.

(** ** Events *)

Lemma gexec_ok ev y o y' : gok y → gexec E ev y = Some (o, y') → gok y'.
Proof.
  intros Hy. pose proof (go_tasks _ Hy) as Ht.
  (* A step that leaves what the tasks hold. *)
  assert (Hsame : ∀ y1, (∀ n Hd, hold n Hd y → hold n Hd y1 ∧ aside y y1) → gok y1).
  { intros y1 Hs. set (n := g_next y). assert (Hfree : g_tasks y !! n = None).
    { apply eq_None_not_Some. intros Hs'. pose proof (tk_next _ Ht n Hs'). unfold n in *. lia. }
    destruct (Hs n [] (hold_nothing n y Hy Hfree)) as [Hh Has].
    eapply none_ok; [exact Hh|by eapply aside_tasks|by rewrite (proj1 Has)]. }
  destruct ev as [authorization r|n|n|n a|n e|n|n rev|f|n a|aev|bev|pev]; cbn [gexec].
  - destruct (request_valid r); [|done]. by apply begin_request_ok.
  - destruct (g_tasks y !! n) as [[tid r w| | | | | |]|] eqn:Hn; try done. by apply admitted_ok.
  - destruct (g_tasks y !! n) as [[|tid r l i| | | | |]|] eqn:Hn; try done.
    destruct (batch_step E (BvDone i) y) as [[o1 y1]|] eqn:Hst; [|done]. simpl.
    eapply submitted_ok; [done|exact Hn|by left|exact Hst].
  - destruct (g_tasks y !! n) as [[| |tid l pl|tid l pl| | |]|] eqn:Hn; try done; [by eapply generated_ok|by apply stream_opened_ok].
  - destruct (g_tasks y !! n) as [[| | | |tid l st| |]|] eqn:Hn; try done. destruct (finish_returns st e y); [|done].
    intros Hex. by eapply end_request_ok; [apply (hold_task n _ y Hy Hn)|done|].
  - destruct (g_tasks y !! n) as [[tid r w|tid r l i|tid l pl|tid l pl| | |]|] eqn:Hn; try done.
    + destruct (adm_step E (EvCancel w) y) as [[o1 y1]|] eqn:Hst; [|done]. intros [= <- <-].
      apply Hsame. intros m Hd Hh. eapply hold_adm; [done|exact Hst|right; by exists w].
    + destruct (batch_step E (BvCancel i) y) as [[o1 y1]|] eqn:Hst; [|done]. simpl.
      eapply submitted_ok; [done|exact Hn|by right|exact Hst].
    + by eapply generated_ok.
    + by apply stream_opened_ok.
  - destruct (g_tasks y !! n) as [[| | | | |tid l st rl|]|] eqn:Hn; try done. by apply relayed_ok.
  - by apply start_flush_ok.
  - destruct (g_tasks y !! n) as [[| | | | | |f pl]|] eqn:Hn; try done. destruct (can_answer a); [|done]. by apply flushed_ok.
  - destruct (own_admission aev) eqn:Hown; [|done]. destruct (adm_step E aev y) as [[o1 y1]|] eqn:Hst; [|done].
    intros [= <- <-]. apply Hsame. intros m Hd Hh. eapply hold_adm; [done|exact Hst|by left].
  - destruct (own_batcher bev) eqn:Hown; [|done]. destruct (batch_step E bev y) as [[o1 y1]|] eqn:Hst; [|done].
    intros [= <- <-]. apply Hsame. intros m Hd Hh.
    destruct (hold_batch_more m Hd _ _ _ _ Hh Hst) as [Hh1 Has]; [by destruct bev|]. by destruct bev.
  - destruct (own_pool pev) eqn:Hown; [|done]. destruct (pool_step pev y) as [[o1 y1]|] eqn:Hst; [|done].
    intros [= <- <-]. apply Hsame. intros m Hd Hh. by eapply hold_own_pool.
Qed.

Lemma gateway_init : gok (gateway_start c0 b0 p0).
Proof.
  constructor; [by repeat constructor| |by split; [intros n [? ?]|]]. split.
  - intros x Hx. destruct x; simpl in Hx.
    + by destruct Hx as (? & ? & _).
    + by destruct Hx as [Hx%elem_of_empty _].
    + by destruct Hx.
    + destruct Hx as (fl & Hf & _). destruct (breachable_ok _ _ _ _ _ _ Hbinit (breachable_init (en_batch_clock E) b0)) as [_ _].
      exfalso. revert Hf. clear -Hbinit. unfold batcher_init in Hbinit. destruct (negb _); [done|]. destruct (negb _); [done|].
      injection Hbinit as <-. simpl. by destruct bob.
    + done.
    + destruct Hx as (rs & Hrs & _). destruct (pool_init_ok _ _ _ _ _ Hpinit) as (_ & _ & _ & Hr & _). by rewrite Hr in Hrs.
  - by intros n x Hn%elem_of_nil.
  - by intros n m x Hn%elem_of_nil.
Qed.

Lemma greachable_ok y : greachable E (gateway_start c0 b0 p0) y → gok y.
Proof. induction 1 as [|y ev o y' Hr IH Hex]; [apply gateway_init|by eapply gexec_ok]. Qed.
End steps.
