(* ===== verification/GatewayTasks.v ===== *)
(** What the tasks of the gateway know of the components: the stream of a relay is one
    of the pool, and the member of a waiting submission is the one it submitted. *)
From S2P Require Import Prelude.
From S2P Require Import Python.
From S2P Require Import Json.
From S2P Require Import Errors.
From S2P Require Import Auth.
From S2P Require Import Admission.
From S2P Require Import AdmissionInv.
From S2P Require Import AdmissionSections.
From S2P Require Import AdmissionSystem.
From S2P Require Import AdmissionTheorems.
From S2P Require Import Routing.
From S2P Require Import RoutingInv.
From S2P Require Import RoutingSystem.
From S2P Require Import RoutingTheorems.
From S2P Require Import Chat.
From S2P Require Import Compatibility.
From S2P Require Import Batching.
From S2P Require Import BatchingInv.
From S2P Require Import BatchingShutdown.
From S2P Require Import BatchingSystem.
From S2P Require Import BatchingTheorems.
From S2P Require Import Metrics.
From S2P Require Import Sse.
From S2P Require Import SseTheorems.
From S2P Require Import Relay.
From S2P Require Import RelayTheorems.
From S2P Require Import Endpoint.
From S2P Require Import Gateway.
From S2P Require Import Holdings.
From S2P Require Import GatewayInv.

(** * What the tasks rely on *)

Definition stream_known (y : gateway_state) (st : nat) : Prop := is_Some (p_routed (r_pool (g_pool y)) !! st).

(** The member [i] is the request [r] of the tenant [tid]. *)
Definition member_of (b : bsystem) (tid : pystr) (r : chat_request) (i : nat) : Prop :=
  y_tenants b !! i = Some tid ∧ ∃ it, b_items (y_batcher b) !! i = Some it ∧ it_request it = r.

(** A relay in progress is not over. *)
Definition task_known (y : gateway_state) (k : task) : Prop :=
  match k with
  | TStream _ _ st rl => stream_known y st ∧ relay_over rl = false
  | TSubmit tid r _ i => member_of (g_batch y) tid r i
  | _ => True
  end.

(** The stream a task relays. *)
Definition relays (k : task) : option nat := match k with TStream _ _ st _ => Some st | _ => None end.

Lemma owns_relays k st : RStream st ∈ owns k → relays k = Some st.
Proof.
  destruct k as [| | | | |tid l s rl|]; simpl; rewrite ?elem_of_cons, ?elem_of_nil; try naive_solver.
  destruct (rl_closes rl =? 0)%nat, (rl_releases rl =? 0)%nat; simpl; rewrite ?elem_of_cons, ?elem_of_nil; naive_solver.
Qed.

(** A stream that a call opens is new. *)
Lemma stream_new y l r st y' :
  rsys_ok y → rexec (RvAnswer l r) y = Some (ROStream st, y') → p_routed (r_pool y) !! st = None.
Proof.
  intros Hy Hex. cbn [rexec] in Hex. destruct (r_calls y !! l) as [op|] eqn:Hl; [|done].
  destruct op; unfold rfinish in Hex; simpl in Hex.
  1,3: destruct (call_end _ l _ _) as [[e|[]] p]; congruence.
  destruct (ow_call _ _ _ _ (ro_owned _ Hy) _ _ Hl) as [le Hle].
  pose proof (wp_open_end l le r _ (ro_inv _ Hy) Hle) as Hw. unfold wp in Hw.
  destruct (open_end l r (r_pool y)) as [[e|[st' [|]]] p]; [congruence| |].
  - injection Hex as <- <-. destruct Hw as (_ & -> & _). apply eq_None_not_Some. intros ?%(ri_fresh_s _ (ro_inv _ Hy)). lia.
  - unfold start_finish, rfinish in Hex. destruct (finish_begin _ _) as [[e|b] p2]; congruence.
Qed.

Section tasks.
Context `{FloatRepr, ModelDump} (E : environment).

Record known (y : gateway_state) : Prop := {
  kn_batch : bsys_ok (g_batch y);
  kn_pool : rsys_ok (g_pool y);
  kn_task n k : g_tasks y !! n = Some k → task_known y k;
  kn_apart n m k k' st : g_tasks y !! n = Some k → g_tasks y !! m = Some k' →
    relays k = Some st → relays k' = Some st → n = m;
}.

(** Later states remember what the tasks rely on. *)
Record remembers (y y' : gateway_state) : Prop := {
  re_batch : bsys_ok (g_batch y) → bsys_ok (g_batch y');
  re_pool : rsys_ok (g_pool y) → rsys_ok (g_pool y');
  re_stream st : stream_known y st → stream_known y' st;
  re_member tid r i : bsys_ok (g_batch y) → member_of (g_batch y) tid r i → member_of (g_batch y') tid r i;
}.

Lemma remembers_refl y : remembers y y.
Proof. by split. Qed.
Lemma remembers_trans y1 y2 y3 : remembers y1 y2 → remembers y2 y3 → remembers y1 y3.
Proof. intros [] []. split; auto. Qed.

Lemma known_mono y y' k : bsys_ok (g_batch y) → remembers y y' → task_known y k → task_known y' k.
Proof.
  intros Hb Hr. destruct k; try done; [by apply (re_member _ _ Hr)|].
  simpl. intros [? ?]. split; [by apply (re_stream _ _ Hr)|done].
Qed.
Lemma known_aside y y' : known y → aside y y' → remembers y y' → known y'.
Proof.
  intros [Hb Hp Hk Ha] [Ht _] Hr. split; rewrite ?Ht; [by apply (re_batch _ _ Hr)|by apply (re_pool _ _ Hr)| |done].
  intros n k Hn. eapply known_mono; [done..|by apply (Hk n)].
Qed.
(** A task that relays a stream relays it already, or nobody does. *)
Lemma known_put n k y : known y → task_known y k →
  (∀ st, relays k = Some st → (∃ k0, g_tasks y !! n = Some k0 ∧ relays k0 = Some st) ∨
     ∀ m k', g_tasks y !! m = Some k' → relays k' ≠ Some st) → known (put_task n k y).
Proof.
  intros [Hb Hp Hy Ha] Hk Hr. split; [done..| |]; cbn [put_task on_tasks g_tasks].
  - intros m k' [[_ <-]|[_ Hm]]%lookup_insert_Some; [by destruct k|]. specialize (Hy m k' Hm). by destruct k'.
  - assert (Hn : ∀ m k' st, relays k = Some st → g_tasks y !! m = Some k' → relays k' = Some st → n = m).
    { intros m k' st Hst Hm Hk'. destruct (Hr st Hst) as [(k0 & Hk0 & Hs0)|Hno]; [by apply (Ha n m k0 k' st)|by destruct (Hno m k')]. }
    intros m m' k1 k2 st [[<- <-]|[_ Hm1]]%lookup_insert_Some [[<- <-]|[_ Hm2]]%lookup_insert_Some Hs1 Hs2; try done.
    + by apply (Hn m' k2 st).
    + symmetry. by apply (Hn m k1 st).
    + by apply (Ha m m' k1 k2 st).
Qed.
Lemma known_plain n k y : known y → task_known y k → relays k = None → known (put_task n k y).
Proof. intros Hy Hk Hr. apply known_put; [done..|]. intros st. by rewrite Hr. Qed.
Lemma known_drop n y : known y → known (drop_task n y).
Proof.
  intros [Hb Hp Hy Ha]. split; [done..| |]; cbn [drop_task on_tasks g_tasks].
  - intros m k' [_ Hm]%lookup_delete_Some. specialize (Hy m k' Hm). by destruct k'.
  - intros m m' k1 k2 st [_ Hm1]%lookup_delete_Some [_ Hm2]%lookup_delete_Some. by apply (Ha m m' k1 k2 st).
Qed.

Lemma known_next n y : known y → known (GatewayState (g_adm y) (g_batch y) (g_pool y) (g_tasks y) n).
Proof. intros [Hb Hp Hy Ha]. split; [done..| |done]. intros m k Hk. specialize (Hy m k Hk). by destruct k. Qed.

(** A member keeps its tenant and its request. *)
Lemma member_kept ev b o b' tid r i :
  bsys_ok b → bexec (en_batch_clock E) ev b = Some (o, b') → member_of b tid r i → member_of b' tid r i.
Proof.
  intros Hb Hex [Ht (it & Hit & Hr)]. pose proof (bstep_all _ _ Hb _ _ _ Hex) as Hok.
  destruct (bs_kept _ _ _ _ Hok i it Hit) as (it' & Hit' & Hr' & _).
  split; [|exists it'; split; [done|congruence]].
  destruct (bexec_tenants _ _ _ _ _ Hex) as [->|(t & r' & j & -> & -> & ->)]; [done|].
  pose proof (bs_answer _ _ _ _ Hok) as Ha. simpl in Ha. destruct (b_closed (y_batcher b)); [done|].
  destruct Ha as (j' & _ & [= <-] & Hn & _). rewrite lookup_insert_ne; [done|congruence].
Qed.

(** The member of a new submission. *)
Lemma member_new b tid r i b' :
  bsys_ok b → bexec (en_batch_clock E) (BvSubmit tid r) b = Some (BOSuspended i, b') → member_of b' tid r i.
Proof.
  intros Hb Hex. pose proof (bs_answer _ _ _ _ (bstep_all _ _ Hb _ _ _ Hex)) as Ha. simpl in Ha.
  destruct (b_closed (y_batcher b)); [done|]. destruct Ha as (j & it & [= <-] & _ & Hit & Hr). split; [|by exists it].
  cbn [bexec] in Hex. destruct (negb _); [done|]. apply (inj Some) in Hex. unfold bfinish in Hex.
  destruct (submit_begin _ _ _ _) as [[e|k] c]; [done|]. injection Hex as <- <-. apply lookup_insert_eq.
Qed.

(** ** The components' steps *)

Lemma adm_aside ev o y y' : adm_step E ev y = Some (o, y') → aside y y' ∧ remembers y y'.
Proof. unfold adm_step. destruct (exec _ _ _ _) as [[o' a]|]; [|done]. intros [= _ <-]. split; [done|by split]. Qed.
Lemma batch_aside ev o y y' : batch_step E ev y = Some (o, y') → aside y y' ∧ (bsys_ok (g_batch y) → remembers y y').
Proof.
  unfold batch_step. destruct (bexec _ _ _) as [[o' b]|] eqn:Hex; [|done]. intros [= _ <-]. split; [done|].
  intros Hb. split; try done; simpl; [intros _; apply (bs_ok _ _ _ _ (bstep_all _ _ Hb _ _ _ Hex))|].
  intros tid r i _. by eapply member_kept.
Qed.
Lemma pool_aside ev o y y' : pool_step ev y = Some (o, y') → aside y y' ∧ (rsys_ok (g_pool y) → remembers y y').
Proof.
  unfold pool_step. destruct (rexec ev _) as [[o' p]|] eqn:Hex; [|done]. intros [= _ <-]. split; [done|].
  intros Hp. split; try done; simpl; [by intros _; apply (rsys_step _ _ _ _ Hp Hex)|].
  intros st. apply (rexec_routed _ _ _ _ Hex).
Qed.

Lemma adm_known ev o y y' : known y → adm_step E ev y = Some (o, y') → known y'.
Proof. intros Hy [? ?]%adm_aside. by eapply known_aside. Qed.
Lemma batch_known ev o y y' : known y → batch_step E ev y = Some (o, y') → known y'.
Proof. intros Hy [? Hr]%batch_aside. eapply known_aside; [done..|]. apply Hr, Hy. Qed.
Lemma pool_known ev o y y' : known y → pool_step ev y = Some (o, y') → known y'.
Proof. intros Hy [? Hr]%pool_aside. eapply known_aside; [done..|]. apply Hr, Hy. Qed.

Lemma end_known n l o y o' y' : known y → end_request E n l o y = Some (o', y') → known y'.
Proof.
  intros Hy. unfold end_request. destruct (adm_step E _ y) as [[o1 y1]|] eqn:Hst; [|done]. intros [= _ <-].
  by eapply known_drop, adm_known.
Qed.

(** One component step or one task at a time. *)
Ltac known_step :=
  match goal with
  | Hy : known ?y, H : adm_step _ _ ?y = Some (_, ?y') |- _ => pose proof (adm_known _ _ _ _ Hy H); clear H
  | Hy : known ?y, H : batch_step _ _ ?y = Some (_, ?y') |- _ => pose proof (batch_known _ _ _ _ Hy H); clear H
  | Hy : known ?y, H : pool_step _ ?y = Some (_, ?y') |- _ => pose proof (pool_known _ _ _ _ Hy H); clear H
  | H : end_request _ _ _ _ ?y = Some (_, ?y') |- known ?y' => eapply end_known; [|exact H]; assumption
  | H : None = Some _ |- _ => discriminate H
  | H : Some _ = Some _ |- _ => injection H as <- <-
  | H : (match ?e with Some _ => _ | None => _ end) = Some _ |- _ => destruct e as [[? ?]|] eqn:?; [|discriminate H]
  | H : mbind _ ?e = Some _ |- _ => destruct e as [[? ?]|] eqn:?; [cbn [mbind option_bind] in H|discriminate H]
  | H : (if ?b then _ else _) = Some _ |- _ => destruct b
  | H : (match ?o with _ => _ end) = Some _ |- _ => destruct o; try discriminate H
  | |- known (put_task _ _ _) => apply known_plain; [|exact I|reflexivity]
  | |- known (drop_task _ _) => apply known_drop
  | |- known (GatewayState _ _ _ _ _) => apply known_next
  | |- known _ => assumption
  end.

Lemma begin_service_known n tid l r y o y' :
  known y → begin_service E n tid l r y = Some (o, y') → known y'.
Proof.
  unfold begin_service. intros Hy Hex. destruct (cr_stream r); [repeat known_step|].
  destruct (eligible _); [|repeat known_step]. destruct (negb _); [by eapply end_known|].
  destruct (batch_step E (BvSubmit tid r) y) as [[o1 y1]|] eqn:Hst; [|done]. cbn [mbind option_bind] in Hex.
  pose proof (batch_known _ _ _ _ Hy Hst) as Hy1. destruct o1 as [i| | | | |]; try done; [|by eapply end_known].
  injection Hex as <- <-. apply known_plain; [done| |done]. unfold batch_step in Hst.
  destruct (bexec _ _ (g_batch y)) as [[o2 b]|] eqn:Hex; [|done]. injection Hst as -> <-.
  by apply (member_new (g_batch y)); [apply Hy|].
Qed.


Lemma start_known f y o y' : known y → start_flush E f y = Some (o, y') → known y'.
Proof.
  unfold start_flush. intros Hy Hex. repeat known_step.
Qed.

Lemma begin_request_known au r y o y' :
  known y → begin_request E au r y = Some (o, y') → known y'.
Proof.
  unfold begin_request. intros Hy Hex. set (y0 := GatewayState _ _ _ _ (Datatypes.S _)) in Hex.
  assert (Hy0 : known y0) by by apply known_next. repeat known_step. by eapply begin_service_known.
Qed.

Lemma admitted_known n tid r w y o y' : known y → admitted E n tid r w y = Some (o, y') → known y'.
Proof. unfold admitted. intros Hy Hex. repeat known_step. by eapply begin_service_known. Qed.

Lemma submitted_known n l b y o y' : known y → submitted E n l b y = Some (o, y') → known y'.
Proof. unfold submitted. intros Hy Hex. repeat known_step. Qed.

Lemma generated_known n l pl a y o y' : known y → generated E n l pl a y = Some (o, y') → known y'.
Proof.
  unfold generated. intros Hy Hex. destruct (pool_step _ y) as [[o1 y1]|] eqn:Hst; [|done].
  eapply end_known; [by eapply pool_known|exact Hex].
Qed.

Lemma stream_opened_known n tid l pl a y o y' :
  known y → stream_opened E n tid l pl a y = Some (o, y') → known y'.
Proof.
  intros Hy. unfold stream_opened. destruct (pool_step _ y) as [[o1 y1]|] eqn:Hst; [|done]. cbn [mbind option_bind].
  pose proof (pool_known _ _ _ _ Hy Hst) as Hy1. destruct o1 as [|st|e|]; try done.
  - intros [= _ <-]. destruct (pool_aside _ _ _ _ Hst) as [[Hts _] _]. unfold pool_step in Hst.
    destruct (rexec _ (g_pool y)) as [[o2 p]|] eqn:Hex; [|done]. injection Hst as -> <-. apply known_put; [done|..].
    + split; [|done]. destruct (rsys_step _ _ _ _ (kn_pool _ Hy) Hex) as (_ & (_ & rs & Hrs & _) & _). by exists rs.
    + intros st' [= <-]. right. rewrite Hts. intros m k' Hm Hk'. pose proof (kn_task _ Hy m k' Hm) as Hkn.
      destruct k'; try done. injection Hk' as ->. destruct Hkn as [[rs Hrs] _].
      by rewrite (stream_new _ _ _ _ _ (kn_pool _ Hy) Hex) in Hrs.
  - destruct a; intros Hex; repeat known_step.
Qed.

Lemma relayed_known n tid l st rl ev y o y' :
  known y → g_tasks y !! n = Some (TStream tid l st rl) → relayed E n tid l st rl ev y = Some (o, y') → known y'.
Proof.
  intros Hy Hn. pose proof (proj1 (kn_task _ Hy n _ Hn)) as Hst. unfold relayed. destruct (negb _); [done|]. destruct (relay_exec E st ev rl) as [rl'|]; [|done].
  cbn [mbind option_bind].
  destruct (if (rl_closes rl <? rl_closes rl')%nat then _ else _) as [y1|] eqn:H1; [|done].
  cbn [mbind option_bind].
  destruct (if (rl_releases rl <? rl_releases rl')%nat then _ else _) as [y2|] eqn:H2; [|done].
  cbn [mbind option_bind]. intros [= _ <-].
  assert (Hy1 : known y1 ∧ remembers y y1 ∧ g_tasks y1 = g_tasks y).
  { destruct (rl_closes rl <? rl_closes rl')%nat; [|injection H1 as <-; split_and!; [done|apply remembers_refl|done]].
    destruct (pool_step _ y) as [[o1 y1']|] eqn:Hp; [|done]. injection H1 as <-.
    split; [by eapply pool_known|]. destruct (pool_aside _ _ _ _ Hp) as [[Ht _] Hr]. split; [apply Hr, Hy|exact Ht]. }
  assert (Hy2 : known y2 ∧ remembers y1 y2 ∧ g_tasks y2 = g_tasks y1).
  { destruct (rl_releases rl <? rl_releases rl')%nat; [|injection H2 as <-; split_and!; [apply Hy1|apply remembers_refl|done]].
    destruct (adm_step E _ y1) as [[o1 y1']|] eqn:Hp; [|done]. injection H2 as <-.
    split; [by eapply adm_known; [apply Hy1|]|]. destruct (adm_aside _ _ _ _ Hp) as [[Ht _] Hr]. by split. }
  destruct Hy1 as (_ & Hr1 & Ht1), Hy2 as (Hy2 & Hr2 & Ht2).
  destruct (relay_over rl') eqn:Ho; [by apply known_drop|]. apply known_put; [done|..].
  - split; [|done]. by apply (re_stream _ _ Hr2), (re_stream _ _ Hr1).
  - intros st' [= <-]. left. rewrite Ht2, Ht1. by eexists.
Qed.

Lemma flushed_known n f pl a y o y' : known y → flushed E n f pl a y = Some (o, y') → known y'.
Proof.
  unfold flushed. intros Hy Hex. destruct (pool_step _ y) as [[o1 y1]|] eqn:Hp; [|done]. cbn [mbind option_bind] in Hex.
  repeat known_step.
Qed.

Lemma gexec_known ev y o y' : known y → gexec E ev y = Some (o, y') → known y'.
Proof.
  intros Hy Hex. destruct ev as [au r|n|n|n a|n e|n|n rev|f|n a|aev|bev|pev]; cbn [gexec alone] in Hex.
  - destruct (request_valid r); [by eapply begin_request_known|done].
  - destruct (g_tasks y !! n) as [[]|]; try done. by eapply admitted_known.
  - destruct (g_tasks y !! n) as [[]|]; try done. destruct (batch_step E _ y) as [[o1 y1]|] eqn:Hst; [|done].
    eapply submitted_known; [by eapply batch_known|exact Hex].
  - destruct (g_tasks y !! n) as [[]|]; try done; [by eapply generated_known|by eapply stream_opened_known].
  - destruct (g_tasks y !! n) as [[]|]; try done. destruct (finish_returns _ _ _); [by eapply end_known|done].
  - destruct (g_tasks y !! n) as [[]|]; try done.
    + unfold alone in Hex. repeat known_step.
    + destruct (batch_step E _ y) as [[o1 y1]|] eqn:Hst; [|done].
      eapply submitted_known; [by eapply batch_known|exact Hex].
    + by eapply generated_known.
    + by eapply stream_opened_known.
  - destruct (g_tasks y !! n) as [[| | | | |tid l st rl|]|] eqn:Hn; try done.
    by eapply relayed_known.
  - by eapply start_known.
  - destruct (g_tasks y !! n) as [[]|]; try done. destruct (can_answer a); [by eapply flushed_known|done].
  - destruct (own_admission aev); [unfold alone in Hex; repeat known_step|done].
  - destruct (own_batcher bev); [unfold alone in Hex; repeat known_step|done].
  - destruct (own_pool pev); [unfold alone in Hex; repeat known_step|done].
Qed.
End tasks.

Lemma greachable_known `{FloatRepr, ModelDump} E ts gmi gmq c0 ms mw bob b0 ids interval timeout pob p0 y :
  configured ts gmi gmq c0 → batcher_init ms mw bob = inr b0 → pool_init ids interval timeout pob = inr p0 →
  greachable E (gateway_start c0 b0 p0) y → known y.
Proof.
  intros Hcfg Hb Hp. induction 1 as [|y ev o y' Hr IH Hex]; [|by eapply gexec_known].
  assert (Hok : gok E c0 b0 p0 (gateway_start c0 b0 p0)) by by eapply gateway_init.
  split; [by eapply (parts_batch E); [|apply Hok]|by eapply (parts_pool E); [|apply Hok]|by intros n k|by intros n m k k' st].
Qed.
