(* ===== verification/GatewayLost.v ===== *)
(** The admission slots a run of the gateway loses: at most one for each timer of
    [wait_for] that overtook the grant of its call, and none when no timer is late. *)
From S2P Require Import Prelude.
From S2P Require Import Python.
From S2P Require Import Json.
From S2P Require Import Errors.
From S2P Require Import Auth.
From S2P Require Import Admission.
From S2P Require Import AdmissionInv.
From S2P Require Import AdmissionSections.
From S2P Require Import AdmissionSystem.
From S2P Require Import AdmissionLost.
From S2P Require Import Routing.
From S2P Require Import Chat.
From S2P Require Import Compatibility.
From S2P Require Import Batching.
From S2P Require Import Relay.
From S2P Require Import Endpoint.
From S2P Require Import Gateway.

(** 1 when the event is a timer that fires although its call was granted a lease. *)
Definition overtaken (ev : gevent) (y : gateway_state) : nat :=
  match ev with GvAdmission ev => overtaking ev (g_adm y) | _ => 0 end.

Section gateway.
Context `{FloatRepr, ModelDump} (E : environment).

(** How often that happens in a run. *)
Fixpoint overtakings (evs : list gevent) (y : gateway_state) : nat :=
  match evs with
  | [] => 0
  | ev :: evs => overtaken ev y + match gexec E ev y with Some (_, y') => overtakings evs y' | None => 0 end
  end.

Lemma grun_app evs1 evs2 y :
  grun E (evs1 ++ evs2) y = match grun E evs1 y with Some y' => grun E evs2 y' | None => None end.
Proof.
  revert y. induction evs1 as [|ev evs1 IH]; intros y; cbn [app grun]; [done|].
  destruct (gexec E ev y) as [[o y1]|]; [apply IH|done].
Qed.
Lemma overtakings_app evs1 evs2 y y' :
  grun E evs1 y = Some y' → overtakings (evs1 ++ evs2) y = (overtakings evs1 y + overtakings evs2 y')%nat.
Proof.
  revert y. induction evs1 as [|ev evs1 IH]; intros y; cbn [app grun overtakings]; [by intros [= ->]|].
  destruct (gexec E ev y) as [[o y1]|]; [|done]. intros Hr. rewrite (IH y1 Hr). lia.
Qed.

(** ** What the other events of a controller keep *)

Section kept.
Context (P : Admission.system → Prop).
Context (HP : ∀ ev a o a', P a → exec (en_adm_clock E) (en_late E) ev a = Some (o, a') → (∀ w, ev ≠ EvTimer w) → P a').
Abbreviation kept y := (P (g_adm y)).

Lemma adm_kept ev o y y' : kept y → adm_step E ev y = Some (o, y') → (∀ w, ev ≠ EvTimer w) → kept y'.
Proof. unfold adm_step. destruct (exec _ _ _ _) as [[o' a]|] eqn:Hex; [|done]. intros Hy [= _ <-]. by eapply HP. Qed.
Lemma batch_kept ev o y y' : kept y → batch_step E ev y = Some (o, y') → kept y'.
Proof. unfold batch_step. destruct (bexec _ _ _) as [[o' b]|]; [|done]. by intros ? [= _ <-]. Qed.
Lemma pool_kept ev o y y' : kept y → pool_step ev y = Some (o, y') → kept y'.
Proof. unfold pool_step. destruct (rexec _ _) as [[o' p]|]; [|done]. by intros ? [= _ <-]. Qed.

Ltac kept_step :=
  match goal with
  | H : adm_step _ _ ?y = Some (_, ?y') |- _ => apply adm_kept in H; [|assumption|done]
  | H : batch_step _ _ ?y = Some (_, ?y') |- _ => apply batch_kept in H; [|assumption]
  | H : pool_step _ ?y = Some (_, ?y') |- _ => apply pool_kept in H; [|assumption]
  | H : None = Some _ |- _ => discriminate H
  | H : Some _ = Some _ |- _ => injection H as <- <-
  | H : mbind _ ?e = Some _ |- _ => destruct e as [[? ?]|] eqn:?; [cbn [mbind option_bind] in H|discriminate H]
  | H : (if ?b then _ else _) = Some _ |- _ => destruct b
  | H : (match ?o with _ => _ end) = Some _ |- _ => destruct o; try discriminate H
  | |- kept (put_task _ _ _) => assumption
  | |- kept (drop_task _ _) => assumption
  | |- kept _ => assumption
  end.

Lemma end_kept n l o y o' y' : kept y → end_request E n l o y = Some (o', y') → kept y'.
Proof. unfold end_request. intros Hy Hex. repeat kept_step. Qed.
Ltac kept_steps := repeat first [match goal with H : end_request _ _ _ _ _ = Some _ |- _ => eapply end_kept; [|exact H]; assumption end | kept_step].

Lemma begin_service_kept n tid l r y o y' : kept y → begin_service E n tid l r y = Some (o, y') → kept y'.
Proof. unfold begin_service. intros Hy Hex. kept_steps. Qed.
Lemma begin_request_kept au r y o y' : kept y → begin_request E au r y = Some (o, y') → kept y'.
Proof.
  unfold begin_request. intros Hy Hex. set (y0 := GatewayState _ _ _ _ (Datatypes.S _)) in Hex.
  assert (Hy0 : kept y0) by done. kept_steps. eapply begin_service_kept; [|exact Hex]; assumption.
Qed.
Lemma admitted_kept n tid r w y o y' : kept y → admitted E n tid r w y = Some (o, y') → kept y'.
Proof. unfold admitted. intros Hy Hex. kept_steps. eapply begin_service_kept; [|exact Hex]; assumption. Qed.
Lemma submitted_kept n l b y o y' : kept y → submitted E n l b y = Some (o, y') → kept y'.
Proof. unfold submitted. intros Hy Hex. kept_steps. Qed.
Lemma generated_kept n l pl a y o y' : kept y → generated E n l pl a y = Some (o, y') → kept y'.
Proof. unfold generated. intros Hy Hex. kept_steps. Qed.
Lemma stream_opened_kept n tid l pl a y o y' : kept y → stream_opened E n tid l pl a y = Some (o, y') → kept y'.
Proof. unfold stream_opened. intros Hy Hex. kept_steps. Qed.
Lemma start_kept f y o y' : kept y → start_flush E f y = Some (o, y') → kept y'.
Proof. unfold start_flush. intros Hy Hex. kept_steps. Qed.
Lemma flushed_kept n f pl a y o y' : kept y → flushed E n f pl a y = Some (o, y') → kept y'.
Proof. unfold flushed. intros Hy Hex. kept_steps. Qed.
Lemma relayed_kept n tid l st rl ev y o y' : kept y → relayed E n tid l st rl ev y = Some (o, y') → kept y'.
Proof.
  unfold relayed. intros Hy Hex. destruct (negb _); [done|]. destruct (relay_exec E st ev rl) as [rl'|]; [|done].
  cbn [mbind option_bind] in Hex.
  destruct (if (rl_closes rl <? rl_closes rl')%nat then _ else _) as [y1|] eqn:H1; [|done].
  cbn [mbind option_bind] in Hex.
  destruct (if (rl_releases rl <? rl_releases rl')%nat then _ else _) as [y2|] eqn:H2; [|done].
  cbn [mbind option_bind] in Hex. injection Hex as _ <-.
  assert (Hy1 : kept y1).
  { destruct (rl_closes rl <? rl_closes rl')%nat; [|by injection H1 as <-].
    destruct (pool_step _ y) as [[o1 y3]|] eqn:Hp; [|done]. injection H1 as <-. by eapply pool_kept. }
  assert (Hy2 : kept y2).
  { destruct (rl_releases rl <? rl_releases rl')%nat; [|by injection H2 as <-].
    destruct (adm_step E _ y1) as [[o1 y3]|] eqn:Hp; [|done]. injection H2 as <-. by eapply adm_kept. }
  by destruct (relay_over rl').
Qed.

(** Only the timers of the controller are not kept. *)
Lemma gexec_kept ev y o y' :
  kept y → gexec E ev y = Some (o, y') → (∀ w, ev ≠ GvAdmission (EvTimer w)) → kept y'.
Proof.
  intros Hy Hex Hev. destruct ev as [au r|n|n|n a|n e|n|n rev|f|n a|aev|bev|pev]; cbn [gexec] in Hex; unfold alone in Hex.
  - destruct (request_valid r); [eapply begin_request_kept; [|exact Hex]; assumption|done].
  - destruct (g_tasks y !! n) as [[]|]; try done. eapply admitted_kept; [|exact Hex]; assumption.
  - destruct (g_tasks y !! n) as [[]|]; try done. kept_step. eapply submitted_kept; [|exact Hex]. by eapply batch_kept.
  - destruct (g_tasks y !! n) as [[]|]; try done; [eapply generated_kept; [|exact Hex]; assumption|eapply stream_opened_kept; [|exact Hex]; assumption].
  - destruct (g_tasks y !! n) as [[]|]; try done. destruct (finish_returns _ _ _); [eapply end_kept; [|exact Hex]; assumption|done].
  - destruct (g_tasks y !! n) as [[]|]; try done.
    + kept_steps.
    + kept_step. eapply submitted_kept; [|exact Hex]. by eapply batch_kept.
    + eapply generated_kept; [|exact Hex]; assumption.
    + eapply stream_opened_kept; [|exact Hex]; assumption.
  - destruct (g_tasks y !! n) as [[]|]; try done. eapply relayed_kept; [|exact Hex]; assumption.
  - eapply start_kept; [|exact Hex]; assumption.
  - destruct (g_tasks y !! n) as [[]|]; try done. destruct (can_answer a); [eapply flushed_kept; [|exact Hex]; assumption|done].
  - destruct (own_admission aev); [|done]. kept_step. injection Hex as _ <-. eapply adm_kept; [exact Hy|exact Heqo0|].
    intros w ->. by apply (Hev w).
  - destruct (own_batcher bev); [|done]. kept_steps.
  - destruct (own_pool pev); [|done]. kept_steps.
Qed.
End kept.

(** ** The account of a run *)

Definition balanced (L : gset nat) (a : Admission.system) : Prop :=
  sys_ok (en_late E) a ∧ accounted L (y_ctrl a) (Admission.y_frames a) (y_held a).

Lemma balanced_exec L ev a o a' :
  balanced L a → exec (en_adm_clock E) (en_late E) ev a = Some (o, a') →
  ∃ L', (size L' ≤ size L + overtaking ev a)%nat ∧ balanced L' a'.
Proof.
  intros [Hok Ha] Hex. eexists. split; [|split; [|by eapply spared_step]].
  - unfold overtaking. destruct (overtakes ev a) as [l|]; [|lia].
    pose proof (size_union_alt {[l]} L) as Hs. rewrite size_singleton in Hs.
    assert (size (L ∖ {[l]}) ≤ size L)%nat by (apply subseteq_size; set_solver). lia.
  - apply (sys_step _ _ _ _ _ _ Hok (step_exec _ _ _ _ _ _ Hex)).
Qed.

Lemma balanced_step L ev y o y' :
  balanced L (g_adm y) → gexec E ev y = Some (o, y') →
  ∃ L', (size L' ≤ size L + overtaken ev y)%nat ∧ balanced L' (g_adm y').
Proof.
  intros Hy Hex.
  assert (Hev : (∃ w, ev = GvAdmission (EvTimer w)) ∨ ∀ w, ev ≠ GvAdmission (EvTimer w)).
  { destruct ev as [| | | | | | | | |aev| |]; try (by right). destruct aev as [|w| | | | |]; try (by right).
    left. by exists w. }
  destruct Hev as [[w ->]|Hev].
  - cbn [gexec own_admission] in Hex. unfold alone, adm_step in Hex. cbn [overtaken].
    destruct (exec _ _ _ (g_adm y)) as [[o1 a]|] eqn:Ha; [|done]. injection Hex as _ <-. by eapply balanced_exec.
  - exists L. split; [lia|]. eapply (gexec_kept (balanced L)); [|exact Hy|exact Hex|exact Hev].
    intros aev a o1 a' Ha He Hnt. destruct (balanced_exec _ _ _ _ _ Ha He) as (_ & _ & Hok & _).
    split; [done|]. destruct Ha as [Hs Ha]. pose proof (spared_step _ _ _ _ _ _ _ Hs Ha He) as Hsp.
    destruct aev as [|w| | | | |]; try exact Hsp. by destruct (Hnt w).
Qed.

Lemma balanced_run evs L y y' :
  balanced L (g_adm y) → grun E evs y = Some y' →
  ∃ L', (size L' ≤ size L + overtakings evs y)%nat ∧ balanced L' (g_adm y').
Proof.
  revert L y. induction evs as [|ev evs IH]; intros L y Hy; cbn [grun overtakings].
  - intros [= <-]. exists L. split; [lia|done].
  - destruct (gexec E ev y) as [[o y1]|] eqn:Hex; [|done]. intros Hr.
    destruct (balanced_step _ _ _ _ _ Hy Hex) as (L1 & Hs1 & Hy1). destruct (IH L1 y1 Hy1 Hr) as (L2 & Hs2 & Hy2).
    exists L2. split; [lia|done].
Qed.

(** A gateway that just started has lost nothing. *)
Lemma balanced_start ts gmi gmq c0 b0 p0 : configured ts gmi gmq c0 → balanced ∅ (g_adm (gateway_start c0 b0 p0)).
Proof.
  intros Hcfg. split; [by eapply sys_init|]. destruct Hcfg as (Hok & timeout & ob & Hinit).
  destruct (ctrl_init_ok _ _ _ _ _ _ Hok Hinit) as (_ & _ & _ & _ & Hl & _). intros l le Hle. simpl in Hle.
  by rewrite Hl in Hle.
Qed.

(** No timer that is on time overtakes. *)
Lemma overtakings_late evs y y' : en_late E = false → grun E evs y = Some y' → overtakings evs y = 0%nat.
Proof.
  intros Hlate. revert y. induction evs as [|ev evs IH]; intros y; cbn [grun overtakings]; [done|].
  destruct (gexec E ev y) as [[o y1]|] eqn:Hex; [|done]. intros Hr. rewrite (IH _ Hr).
  destruct ev; try done. cbn [overtaken]. unfold overtaking. cbn [gexec] in Hex. unfold alone, adm_step in Hex.
  destruct (own_admission ev); [|done]. destruct (exec _ _ _ _) as [[o1 a]|] eqn:Ha; [|done].
  rewrite Hlate in Ha. by rewrite (overtakes_late _ _ _ _ _ Ha).
Qed.

(** Events that are none of the controller's timers lose nothing. *)
Definition calm (ev : gevent) : Prop := match ev with GvAdmission _ => False | _ => True end.
Lemma overtakings_calm evs y : Forall calm evs → overtakings evs y = 0%nat.
Proof.
  intros Hc. revert y. induction Hc as [|ev evs Hev _ IH]; intros y; cbn [overtakings]; [done|].
  destruct (gexec E ev y) as [[o y1]|]; [rewrite IH|]; by destruct ev.
Qed.
End gateway.
