(* ===== verification/GatewayTheorems.v ===== *)
(** What the gateway guarantees as a whole, whatever the interleaving of its requests,
    flushes, relays, timers, probes, cancellations and shutdown. *)
From S2P Require Import Prelude.
From S2P Require Import Python.
From S2P Require Import Json.
From S2P Require Import PlainFloats.
From S2P Require Import Errors.
From S2P Require Import Auth.
From S2P Require Import Admission.
From S2P Require Import AdmissionInv.
From S2P Require Import AdmissionSections.
From S2P Require Import AdmissionSystem.
From S2P Require Import AdmissionLost.
From S2P Require Import AdmissionTheorems.
From S2P Require Import Routing.
From S2P Require Import RoutingInv.
From S2P Require Import RoutingSystem.
From S2P Require Import RoutingTheorems.
From S2P Require Import Chat.
From S2P Require Import Compatibility.
From S2P Require Import Batching.
From S2P Require Import BatchingInv.
From S2P Require Import BatchingShutdown.
From S2P Require Import BatchingSystem.
From S2P Require Import BatchingTheorems.
From S2P Require Import Metrics.
From S2P Require Import Sse.
From S2P Require Import SseTheorems.
From S2P Require Import Relay.
From S2P Require Import RelayTheorems.
From S2P Require Import Endpoint.
From S2P Require Import Gateway.
From S2P Require Import Holdings.
From S2P Require Import GatewayInv.
From S2P Require Import GatewayTasks.
From S2P Require Import GatewayLost.

(** * Counting *)

(** An injection of one map into another. *)
Lemma size_injection {A B} (m1 : gmap nat A) (m2 : gmap nat B) (f : nat → A → nat) :
  (∀ n x, m1 !! n = Some x → is_Some (m2 !! f n x)) →
  (∀ n1 n2 x1 x2, m1 !! n1 = Some x1 → m1 !! n2 = Some x2 → f n1 x1 = f n2 x2 → n1 = n2) →
  (size m1 ≤ size m2)%nat.
Proof.
  intros Hin Hinj. rewrite <- !length_map_to_list, <- (length_fmap (λ nx, f nx.1 nx.2) (map_to_list m1)).
  rewrite <- (length_fmap fst (map_to_list m2)). apply submseteq_length, NoDup_submseteq.
  - apply NoDup_fmap_2_strong; [|apply NoDup_map_to_list]. intros [n1 x1] [n2 x2] H1%elem_of_map_to_list H2%elem_of_map_to_list Heq.
    simpl in Heq. assert (n1 = n2) as -> by eauto. congruence.
  - intros i ([n x] & -> & Hx%elem_of_map_to_list)%list_elem_of_fmap. destruct (Hin n x Hx) as [y Hy].
    apply list_elem_of_fmap. exists (f n x, y). split; [done|]. by apply elem_of_map_to_list.
Qed.

(** * Requests past admission *)

(** The tenant of a task that holds an admission lease, and the lease. *)
Definition served (k : task) : option pystr :=
  match k with
  | TSubmit tid _ _ _ | TCall tid _ _ | TOpen tid _ _ | TRefused tid _ _ => Some tid
  | TStream tid _ _ rl => if (rl_releases rl =? 0)%nat then Some tid else None
  | TAcquire _ _ _ | TFlush _ _ => None
  end.
Definition lease_no (k : task) : nat :=
  match k with
  | TSubmit _ _ l _ | TCall _ l _ | TOpen _ l _ | TRefused _ l _ | TStream _ l _ _ => l
  | TAcquire _ _ _ | TFlush _ _ => 0%nat
  end.

Lemma served_owns k tid : served k = Some tid → RLease tid (lease_no k) ∈ owns k.
Proof.
  destruct k as [| | | | |t l st rl|]; simpl; try done; try (intros [= <-]; set_solver).
  destruct (rl_releases rl =? 0)%nat; [|done]. intros [= <-]. set_solver.
Qed.

Definition in_service (k : task) : bool := bool_decide (is_Some (served k)).
Definition in_service_of (tid : pystr) (k : task) : bool := bool_decide (served k = Some tid).

Section theorems.
Context `{FloatRepr, ModelDump} (E : environment).

Lemma grun_reachable y0 evs y y' : greachable E y0 y → grun E evs y = Some y' → greachable E y0 y'.
Proof.
  revert y. induction evs as [|ev evs IH]; intros y Hr; cbn [grun]; [by intros [= <-]|].
  destruct (gexec E ev y) as [[o y1]|] eqn:Hex; [|done]. apply IH. by eapply greachable_step.
Qed.

Context (ts : list tenant_context) (gmi gmq : Z) (c0 : ctrl) (Hcfg : configured ts gmi gmq c0).
Context (ms : Z) (mw : SpecFloat.spec_float) (bob : bool) (b0 : Batching.batcher) (Hbinit : batcher_init ms mw bob = inr b0).
Context (ids : list pystr) (interval timeout : Z) (pob : bool) (p0 : pool) (Hpinit : pool_init ids interval timeout pob = inr p0).
Abbreviation gateway_ok := (gok E c0 b0 p0).

(** Distinct tasks in service hold distinct unreleased leases. *)
Lemma service_leases y (P : task → bool) (Q : lease → bool) :
  gateway_ok y → (∀ k, P k = true → is_Some (served k)) →
  (∀ k tid le, P k = true → served k = Some tid → l_released le = false → l_tenant le = tid → Q le = true) →
  (size (filter (λ nk : nat * task, P nk.2 = true) (g_tasks y))
   ≤ size (filter (λ ll : nat * lease, Q ll.2 = true) (c_leases (y_ctrl (g_adm y)))))%nat.
Proof.
  intros Hy HP HQ. pose proof (go_owned _ _ _ _ _ Hy) as Ho.
  assert (Hown : ∀ n k, filter (λ nk : nat * task, P nk.2 = true) (g_tasks y) !! n = Some k →
    ∃ tid, served k = Some tid ∧ P k = true ∧ RLease tid (lease_no k) ∈ holdings (g_tasks y) n).
  { intros n k [Hk Hp]%map_lookup_filter_Some. destruct (HP k Hp) as [tid Ht]. exists tid. split_and!; [done..|].
    unfold holdings. rewrite Hk. by apply served_owns. }
  apply (size_injection _ _ (λ _, lease_no)).
  - intros n k Hk. destruct (Hown n k Hk) as (tid & Ht & Hp & Hl).
    destruct (ow_live _ _ Ho n _ Hl I) as [_ (le & Hle & Hr & Hten)]. exists le.
    apply map_lookup_filter_Some. split; [done|]. by apply (HQ k tid).
  - intros n1 n2 k1 k2 H1 H2 Heq. destruct (Hown n1 k1 H1) as (t1 & _ & _ & Hl1), (Hown n2 k2 H2) as (t2 & _ & _ & Hl2).
    assert (t1 = t2) as ->; [|rewrite Heq in Hl1; by apply (ow_inj _ _ Ho _ _ _ Hl1 Hl2)].
    destruct (ow_live _ _ Ho n1 _ Hl1 I) as [_ (le1 & Hle1 & _ & <-)], (ow_live _ _ Ho n2 _ Hl2 I) as [_ (le2 & Hle2 & _ & <-)].
    rewrite Heq in Hle1. congruence.
Qed.
End theorems.

Section properties.
Context `{FloatRepr, ModelDump}.

(** C2: The limits hold end to end: however requests, flushes, relays, timers,
    cancellations and shutdown interleave, never are more requests between their
    admission and the release of their lease, be they waiting in a batch, for a
    backend, or streaming, than the gateway's limit, nor more of a tenant than the
    tenant's. *)
Theorem gateway_capacity E ts gmi gmq c0 ms mw bob b0 ids interval timeout pob p0 y :
  configured ts gmi gmq c0 → batcher_init ms mw bob = inr b0 → pool_init ids interval timeout pob = inr p0 →
  greachable E (gateway_start c0 b0 p0) y →
  Z.of_nat (size (filter (λ nk : nat * task, in_service nk.2 = true) (g_tasks y))) ≤ gmi ∧
  ∀ t, t ∈ ts →
    Z.of_nat (size (filter (λ nk : nat * task, in_service_of (tenant_id t) nk.2 = true) (g_tasks y))) ≤ max_inflight t.
Proof.
  intros Hcfg Hb Hp Hr.
  pose proof (greachable_ok _ _ _ _ _ Hcfg _ _ _ _ Hb _ _ _ _ _ Hp _ Hr) as Hy.
  pose proof (go_parts _ _ _ _ _ Hy) as (Ha & _).
  pose proof (so_inv _ _ (sys_reachable _ _ _ _ _ _ _ Hcfg Ha)) as Hi.
  destruct (reachable_config _ _ _ _ _ _ Hcfg _ Ha) as (Hmax & _ & _ & Hts). split.
  - etrans; [apply inj_le, (service_leases E c0 b0 p0 y in_service unreleased Hy)|].
    + intros k Hk. by apply bool_decide_eq_true in Hk.
    + intros k tid le _ _ Hrel _. unfold unreleased. by rewrite Hrel.
    + rewrite <- (unreleased_total _ Hi), <- Hmax. apply (inv_cap _ _ Hi).
  - intros t (st & Hst & <-)%Hts. pose proof (inv_tenants _ _ Hi _ _ Hst) as Hok.
    etrans; [|apply (to_bound _ _ _ Hok)]. rewrite (to_live _ _ _ Hok).
    set (tid := tenant_id (ts_tenant st)). set (Q := λ le, bool_decide (l_tenant le = tid ∧ l_released le = false)).
    rewrite (sum_map_ext _ (λ le, if Q le then 1 else 0)), (sum_map_indicator Q).
    + apply inj_le, (service_leases E c0 b0 p0 y); [done|..].
      * intros k Hk%bool_decide_eq_true. by eexists.
      * intros k tid' le Hk%bool_decide_eq_true Hk' Hrel Hten. apply bool_decide_eq_true. split; [congruence|done].
    + intros l le _. unfold AdmissionInv.live, Q. by case_decide; case_bool_decide.
Qed.

(** The gateway at rest. *)
Lemma gateway_idle E ts gmi gmq c0 ms mw bob b0 ids interval timeout pob p0 evs y :
  configured ts gmi gmq c0 → batcher_init ms mw bob = inr b0 → pool_init ids interval timeout pob = inr p0 →
  grun E evs (gateway_start c0 b0 p0) = Some y →
  g_tasks y = ∅ → b_flushes (y_batcher (g_batch y)) = ∅ → r_finishing (g_pool y) = ∅ →
  (0 ≤ c_inflight (y_ctrl (g_adm y)) ≤ Z.of_nat (overtakings E evs (gateway_start c0 b0 p0)) ∧
   c_queued (y_ctrl (g_adm y)) = 0 ∧
   ∀ tid st, c_tenants (y_ctrl (g_adm y)) !! tid = Some st →
     0 ≤ ts_inflight st ≤ c_inflight (y_ctrl (g_adm y)) ∧ ts_queue st = []) ∧
  (b_pending (y_batcher (g_batch y)) = 0 ∧ b_inflight (y_batcher (g_batch y)) = 0) ∧
  ∀ i s, p_slots (r_pool (g_pool y)) !! i = Some s → sl_inflight s = 0.
Proof.
  intros Hcfg Hb Hp Hrun Ht Hfl Hfin.
  pose proof (grun_reachable _ _ _ _ _ (greachable_init _ _) Hrun) as Hr.
  pose proof (greachable_ok _ _ _ _ _ Hcfg _ _ _ _ Hb _ _ _ _ _ Hp _ Hr) as Hy.
  pose proof (go_parts _ _ _ _ _ Hy) as Hparts. pose proof (go_owned _ _ _ _ _ Hy) as Ho.
  assert (Hnone : ∀ x, ¬ in_use y x).
  { intros x (n & Hn)%(ow_some _ _ Ho). unfold holdings in Hn. rewrite Ht, lookup_empty in Hn. by apply elem_of_nil in Hn. }
  destruct (parts_batch E c0 ms mw bob b0 Hb p0 y Hparts) as [Hi Hc _].
  split; [|split; [split|]].
  - destruct (balanced_run _ _ _ _ _ (balanced_start E _ _ _ _ b0 p0 Hcfg) Hrun) as (L & Hsize & Hok & Ha).
    rewrite size_empty in Hsize. destruct (idle_accounted _ _ _ Hok Ha) as ([? ?] & ? & ?).
    + apply map_empty. intros w. apply eq_None_not_Some. intros [fr Hfr]. apply (Hnone (RWaiting (f_tenant fr) w)). by exists fr.
    + intros l le Hl Hle. destruct (l_released le) eqn:Hrel; [done|]. destruct (Hnone (RLease (l_tenant le) l)). split; [done|]. by exists le.
    + split_and!; [done|lia|done..].
  - etrans; [by eapply pending_count|]. assert (Hf : dom (y_frames (g_batch y)) = ∅).
    { apply elem_of_equiv_empty_L. intros i Hi'%elem_of_dom. by apply (Hnone (RSub i)). }
    by rewrite Hf.
  - by rewrite (bi_inflight _ _ Hi), Hfl, sum_map_empty.
  - apply rsys_idle; [by eapply (parts_pool E)| |done|].
    + apply map_empty. intros pl. apply eq_None_not_Some. intros [op Hop]. by apply (Hnone (RCall op pl)).
    + intros st rs Hrs. destruct (rs_closed rs) eqn:Hcl; [done|]. destruct (Hnone (RStream st)). by exists rs.
Qed.

(** C1: The gateway leaks nothing but what a late timer overtakes.  When after any run
    there are no tasks, no flushes and no streams being closed, then, whatever
    happened to the requests, cancellation, errors of backends, disconnected clients,
    refused streams, shutdown in any order: every queue place is free, no member is
    counted in the batcher, no backend carries anything, and the admission slots
    still in use are at most as many as the timers of waiting calls that fired in
    this run after the call had been granted its lease.  Where a timer cannot be late
    there are no such timers, so every slot is free. *)
Theorem gateway_no_leak E ts gmi gmq c0 ms mw bob b0 ids interval timeout pob p0 evs y :
  configured ts gmi gmq c0 → batcher_init ms mw bob = inr b0 → pool_init ids interval timeout pob = inr p0 →
  grun E evs (gateway_start c0 b0 p0) = Some y →
  (en_late E = false → overtakings E evs (gateway_start c0 b0 p0) = 0%nat) ∧
  (g_tasks y = ∅ → b_flushes (y_batcher (g_batch y)) = ∅ → r_finishing (g_pool y) = ∅ →
   (0 ≤ c_inflight (y_ctrl (g_adm y)) ≤ Z.of_nat (overtakings E evs (gateway_start c0 b0 p0)) ∧
    c_queued (y_ctrl (g_adm y)) = 0 ∧
    ∀ tid st, c_tenants (y_ctrl (g_adm y)) !! tid = Some st →
      0 ≤ ts_inflight st ≤ c_inflight (y_ctrl (g_adm y)) ∧ ts_queue st = []) ∧
   (b_pending (y_batcher (g_batch y)) = 0 ∧ b_inflight (y_batcher (g_batch y)) = 0) ∧
   ∀ i s, p_slots (r_pool (g_pool y)) !! i = Some s → sl_inflight s = 0).
Proof.
  intros Hcfg Hb Hp Hrun. split; [intros Hlate; by eapply overtakings_late|]. intros. by eapply gateway_idle.
Qed.

End properties.

(** * A small gateway for the concrete runs *)

#[local] Existing Instance plain_floats.
#[local] Existing Instance plain_model_dump.

Definition demo_env : environment :=
  Environment AdmissionTheorems.demo_clock BatchingTheorems.demo_clock false
    [("k-a"%py, tenant_a); ("k-b"%py, tenant_b)] (Limits 100 4 true) true demo_loads collectors_accept
    Z.of_nat (λ _, 3) (λ _, None) (λ _, None) demo_sse.
Definition demo_gateway : gateway_state := gateway_start demo_ctrl demo_batcher demo_pool.
Definition gdemo (evs : list gevent) : gateway_state := default demo_gateway (grun demo_env evs demo_gateway).

Lemma gdemo_reachable evs : is_Some (grun demo_env evs demo_gateway) → greachable demo_env demo_gateway (gdemo evs).
Proof. intros [y Hy]. unfold gdemo. rewrite Hy. by eapply grun_reachable; [constructor|]. Qed.

(** One request waits in the batcher, a streaming one for its admission; then the batch
    is answered, and the stream is relayed to its end. *)
Definition demo_plain : chat_request := demo_request "one" None.
Definition demo_streaming : chat_request :=
  ChatRequest "m" [ChatMessage User "two"] float_one float_one None None None 1 true None [FModel; FMessages; FStream].
Definition waiting_events : list gevent :=
  [GvPool (RvHealth 0 true); GvRequest (Some "Bearer k-a"%py) demo_plain;
   GvRequest (Some "Bearer k-b"%py) demo_streaming].
Definition answered_events : list gevent :=
  [GvBatcher (BvTimer 1); GvFlush 2;
   GvFlushed 2 (inr (ABatch (BackendBatchResult [[("id"%py, VInt 1)]] (Some 7) UObserved)));
   GvSubmitted 0; GvAdmitted 1; GvAnswer 1 (inr [])].
Definition relayed_events : list gevent :=
  [GvRelay 1 (RlChunk (ascii_bytes "data: C")); GvRelay 1 RlNext; GvPool (RvIterated 2 None); GvPool (RvStreamClosed 2 None);
   GvRelay 1 (RlEnds None); GvRelay 1 (RlClosed None); GvRelay 1 (RlResponse false)].

Lemma waiting_reachable : greachable demo_env demo_gateway (gdemo waiting_events).
Proof. apply gdemo_reachable. vm_compute. by eexists. Qed.
Lemma relayed_reachable : greachable demo_env demo_gateway (gdemo (waiting_events ++ answered_events ++ relayed_events)).
Proof. apply gdemo_reachable. vm_compute. by eexists. Qed.

(** The only place is taken by the request in the batcher. *)
Lemma gateway_capacity_witness :
  size (filter (λ nk : nat * task, in_service nk.2 = true) (g_tasks (gdemo waiting_events))) = 1%nat ∧
  Z.of_nat (size (filter (λ nk : nat * task, in_service nk.2 = true) (g_tasks (gdemo waiting_events)))) ≤ 1.
Proof.
  split; [vm_compute; reflexivity|].
  exact (proj1 (gateway_capacity demo_env _ _ _ _ _ _ _ _ _ _ _ _ _ _
    demo_configured demo_batcher_init demo_pool_init waiting_reachable)).
Defined.

Lemma relayed_run :
  grun demo_env (waiting_events ++ answered_events ++ relayed_events) demo_gateway =
  Some (gdemo (waiting_events ++ answered_events ++ relayed_events)).
Proof. vm_compute. reflexivity. Qed.

(** On Python 3.12 a timer may be late: the slot of the call it overtakes is in use for good. *)
Definition late_env : environment :=
  Environment AdmissionTheorems.demo_clock BatchingTheorems.demo_clock true
    (en_registry demo_env) (en_limits demo_env) true demo_loads collectors_accept
    Z.of_nat (λ _, 3) (λ _, None) (λ _, None) demo_sse.
Definition late_events : list gevent :=
  waiting_events ++ [GvCancel 0; GvAdmission (EvTimer 1); GvAdmitted 1].
Definition late_state : gateway_state := default demo_gateway (grun late_env late_events demo_gateway).
Lemma late_run : grun late_env late_events demo_gateway = Some late_state.
Proof. vm_compute. reflexivity. Qed.
Example late_overtakes :
  overtakings late_env late_events demo_gateway = 1%nat ∧ c_inflight (y_ctrl (g_adm late_state)) = 1.
Proof. vm_compute. by split. Qed.

Lemma gateway_no_leak_witness :
  c_inflight (y_ctrl (g_adm (gdemo (waiting_events ++ answered_events ++ relayed_events)))) ≤ 0 ∧
  c_inflight (y_ctrl (g_adm late_state)) ≤ 1.
Proof.
  split.
  - destruct (gateway_no_leak demo_env _ _ _ _ _ _ _ _ _ _ _ _ _ _ _
      demo_configured demo_batcher_init demo_pool_init relayed_run) as [Hlate Hidle].
    destruct (Hidle ltac:(vm_compute; reflexivity) ltac:(vm_compute; reflexivity) ltac:(vm_compute; reflexivity)) as [[[_ Hle] _] _].
    exact (eq_ind _ (λ n, _ ≤ Z.of_nat n) Hle _ (Hlate eq_refl)).
  - destruct (gateway_no_leak late_env _ _ _ _ _ _ _ _ _ _ _ _ _ _ _
      demo_configured demo_batcher_init demo_pool_init late_run) as [_ Hidle].
    destruct (Hidle ltac:(vm_compute; reflexivity) ltac:(vm_compute; reflexivity) ltac:(vm_compute; reflexivity)) as [[[_ Hle] _] _].
    exact (eq_ind _ (λ n, _ ≤ Z.of_nat n) Hle _ (proj1 late_overtakes)).
Defined.

