(* ===== verification/GatewayProgress.v ===== *)
(** No request is ever stuck: every task of the gateway can be brought to its end by
    events of its own, and every reachable state can be drained. *)
From S2P Require Import Prelude.
From S2P Require Import Python.
From S2P Require Import Json.
From S2P Require Import PlainFloats.
From S2P Require Import Errors.
From S2P Require Import Auth.
From S2P Require Import Admission.
From S2P Require Import AdmissionInv.
From S2P Require Import AdmissionSections.
From S2P Require Import AdmissionSystem.
From S2P Require Import AdmissionTheorems.
From S2P Require Import Routing.
From S2P Require Import RoutingInv.
From S2P Require Import RoutingSystem.
From S2P Require Import RoutingTheorems.
From S2P Require Import Chat.
From S2P Require Import Compatibility.
From S2P Require Import Batching.
From S2P Require Import BatchingInv.
From S2P Require Import BatchingShutdown.
From S2P Require Import BatchingSystem.
From S2P Require Import BatchingTheorems.
From S2P Require Import Metrics.
From S2P Require Import Sse.
From S2P Require Import SseTheorems.
From S2P Require Import Relay.
From S2P Require Import RelayTheorems.
From S2P Require Import Endpoint.
From S2P Require Import Gateway.
From S2P Require Import Holdings.
From S2P Require Import GatewayInv.
From S2P Require Import GatewayTasks.
From S2P Require Import GatewayLost.
From S2P Require Import GatewayTheorems.

(** * The calls of the components that end a task *)

Section adm.
Context (clock : nat → Z) (late : bool).

(** Code that raises in every state. *)
Definition never_returns {A} (m : adm A) : Prop := ∀ s, ∃ e s', m s = (inl e, s').

Lemma never_bind {A B} (m : adm A) (k : A → adm B) : (∀ a, never_returns (k a)) → never_returns (bind m k).
Proof. intros Hk s. unfold bind. destruct (m s) as [[e|a] s']; [eauto|apply Hk]. Qed.
Lemma never_raise {A} e : never_returns (raise e : adm A).
Proof. intros s. by eexists _, _. Qed.
Lemma never_try {A} (m : adm A) h : never_returns m → (∀ e, never_returns (h e)) → never_returns (try_catch m h).
Proof. intros Hm Hh s. unfold try_catch. destruct (Hm s) as (e & s' & ->). apply Hh. Qed.
Lemma never_bind_l {A B} (m : adm A) (k : A → adm B) : never_returns m → never_returns (bind m k).
Proof. intros Hm s. unfold bind. destruct (Hm s) as (e & s' & ->). eauto. Qed.

Lemma cancelled_raises {A} tid w : never_returns (acquire_cancelled clock tid w : adm A).
Proof. unfold acquire_cancelled. repeat (apply never_bind; intros ?). apply never_raise. Qed.
Lemma except_raises {A} t e : never_returns (acquire_except clock t e : adm A).
Proof. unfold acquire_except. repeat case_match; repeat (apply never_bind; intros ?); apply never_raise. Qed.

(** A cancelled [acquire] can go on, and raises. *)
Lemma resume_cancelled a w fr f :
  Admission.y_frames a !! w = Some fr → f_wake fr = WakeCancel → c_futures (y_ctrl a) !! w = Some f → fut_done f = true →
  ∃ e a', exec clock late (EvResume w) a = Some (ORaised e, a').
Proof.
  intros Hfr Hw Hf Hd. cbn [exec]. rewrite Hfr, Hf, Hd. unfold finish, acquire_resume. rewrite Hw.
  match goal with |- context [bind ?m ?k ?s] =>
    destruct (never_bind_l m k (never_try _ _ (cancelled_raises _ _) (except_raises _)) s) as (e & s' & ->) end.
  by eexists _, _.
Qed.

Lemma cancel_call a w fr :
  sys_ok late a → Admission.y_frames a !! w = Some fr →
  (∃ e a', exec clock late (EvResume w) a = Some (ORaised e, a')) ∨
  ∃ a1 e a', exec clock late (EvCancel w) a = Some (ONone, a1) ∧ exec clock late (EvResume w) a1 = Some (ORaised e, a').
Proof.
  intros Hy Hfr. pose proof (so_calls _ _ Hy) as Hc. destruct (co_frame _ _ _ _ Hc _ _ Hfr) as [[f Hf] _].
  assert (f_wake fr = WakeCancel ∨ f_wake fr ≠ WakeCancel) as [Hw|Hw] by (destruct (f_wake fr); by auto).
  - left. apply (resume_cancelled _ _ _ _ Hfr Hw Hf). destruct f; try done.
    destruct (co_pending _ _ _ _ Hc _ Hf) as (fr' & ? & ? & ? & _). congruence.
  - right. cbn [exec]. rewrite Hfr. exists (set_wake w WakeCancel fr a).
    destruct (resume_cancelled (set_wake w WakeCancel fr a) w (Frame (f_tenant fr) (f_started fr) WakeCancel) (fut_cancel f))
      as (e & a' & Hr); [by simpl; rewrite lookup_insert_eq|done| |by destruct f|].
    { simpl. by rewrite lookup_alter_eq, Hf. }
    exists e, a'. split; [|exact Hr]. by destruct fr as [? ? []].
Qed.

Lemma release_enabled a l : l ∈ y_held a → ∃ o a', exec clock late (EvRelease l) a = Some (o, a').
Proof. intros Hl. cbn [exec]. rewrite decide_True by done. destruct (finish _ _ _) as [o a'] eqn:He. by eexists _, _. Qed.
End adm.

(** * Streams *)

Lemma answer_enabled y pl op r : r_calls y !! pl = Some op → ∃ o y', rexec (RvAnswer pl r) y = Some (o, y').
Proof.
  intros Hc. cbn [rexec]. rewrite Hc. destruct op;
    match goal with |- ∃ o y', Some ?p = _ => destruct p as [o y'] eqn:He end; by eexists _, _.
Qed.
Lemma aclose_enabled y st : is_Some (p_routed (r_pool y) !! st) → ∃ o y', rexec (RvAclose st) y = Some (o, y').
Proof.
  intros [rs Hrs]. cbn [rexec]. rewrite Hrs. destruct (start_finish _ _ _ _) as [o y'] eqn:He. by eexists _, _.
Qed.


(** The next event of a relay whose client is gone: it is closed by its response, by
    whoever holds the lock, or by whoever waits for it. *)
Definition winding_up (rl : relay) : rlevent :=
  match rl_holder rl, rl_waiting rl with
  | Some _, _ => RlClosed (Some CancelledError)
  | None, c :: _ => RlWake c
  | None, [] => RlResponse true
  end.
(** How many more of these events it can take. *)
Definition winding (rl : relay) : nat :=
  (if rl_closed rl then 0 else 2) + match rl_holder rl with Some _ => 1 | None => 0 end + length (rl_waiting rl) +
  match rl_response rl with Sending => 2 | _ => 0 end.

Section relay.
Context (json_loads : bytes → json_failure + pyval) (accepts : update → bool) (clock : nat → Z) (started_at : Z).
Context (backend_id : option pystr) (upstream_started : option Z).

Lemma winding_step rl : rlinv rl → relay_over rl = false →
  ∃ rl', rlexec json_loads accepts clock started_at backend_id upstream_started (winding_up rl) rl = Some rl' ∧
    (winding rl' < winding rl)%nat.
Proof.
  intros [Hp _ _ _] Ho. unfold relay_over, winding in *. phases rl Hp; cbn in Ho; try discriminate Ho.
  all: eexists; (split; [reflexivity|cbn; try (case_decide; [done|]); simpl; lia]).
Qed.
End relay.

Section steps.
Context `{FloatRepr, ModelDump} (E : environment).
Context (ts : list tenant_context) (gmi gmq : Z) (c0 : ctrl) (Hcfg : configured ts gmi gmq c0).
Context (ms : Z) (mw : SpecFloat.spec_float) (bob : bool) (b0 : Batching.batcher) (Hbinit : batcher_init ms mw bob = inr b0).
Context (ids : list pystr) (interval timeout : Z) (pob : bool) (p0 : pool) (Hpinit : pool_init ids interval timeout pob = inr p0).
Abbreviation gateway_ok := (gok E c0 b0 p0).
Abbreviation gex := (gexec E).
Abbreviation runs := (grun E).

(** The invariant with what the tasks rely on. *)
Definition sound (y : gateway_state) : Prop := gateway_ok y ∧ known y.

Lemma gexec_sound ev y o y' : sound y → gex ev y = Some (o, y') → sound y'.
Proof.
  intros [Hok Hk] Hex. split; [|by eapply gexec_known].
  exact (gexec_ok E ts gmi gmq c0 Hcfg ms mw bob b0 Hbinit ids interval timeout pob p0 Hpinit ev y o y' Hok Hex).
Qed.
Lemma grun_sound evs y y' : sound y → runs evs y = Some y' → sound y'.
Proof.
  revert y. induction evs as [|ev evs IH]; intros y Hy; cbn [grun]; [by intros [= <-]|].
  destruct (gex ev y) as [[o y1]|] eqn:Hex; [|done]. apply IH. by eapply gexec_sound.
Qed.
Lemma greachable_sound y : greachable E (gateway_start c0 b0 p0) y → sound y.
Proof.
  intros Hr. split; [by eapply greachable_ok|by eapply greachable_known].
Qed.

(** ** One task *)

(** The events of task [n]. *)
Definition of_task (n : nat) (ev : gevent) : Prop :=
  match ev with
  | GvAdmitted m | GvSubmitted m | GvAnswer m _ | GvRefused m _ | GvCancel m | GvRelay m _ | GvFlushed m _ => m = n
  | _ => False
  end.
(** The task ends by at most [k] events of its own, and no other task changes. *)
Definition ends_within (k n : nat) (y : gateway_state) : Prop :=
  ∃ evs y', Forall (of_task n) evs ∧ (length evs ≤ k)%nat ∧ runs evs y = Some y' ∧ g_tasks y' = delete n (g_tasks y).

Lemma ends_now k n ev o y y' :
  of_task n ev → gex ev y = Some (o, y') → g_tasks y' = delete n (g_tasks y) → (1 ≤ k)%nat → ends_within k n y.
Proof. intros Hev Hex Ht Hk. exists [ev], y'. split_and!; [by repeat constructor|done| |done]. simpl. by rewrite Hex. Qed.
Lemma ends_later k n ev o y y1 :
  of_task n ev → gex ev y = Some (o, y1) → delete n (g_tasks y1) = delete n (g_tasks y) → ends_within k n y1 →
  ends_within (Datatypes.S k) n y.
Proof.
  intros Hev Hex Ht (evs & y' & Hevs & Hlen & Hrun & Ht'). exists (ev :: evs), y'. split_and!; [by constructor|simpl; lia| |].
  - cbn [grun]. by rewrite Hex.
  - by rewrite Ht', Ht.
Qed.

Lemma owned_in_use y n k x : sound y → g_tasks y !! n = Some k → x ∈ owns k → exclusive x → in_use y x.
Proof.
  intros [Hok _] Hn Hx He. apply (ow_live _ _ (go_owned _ _ _ _ _ Hok) n); [|done]. unfold holdings. by rewrite Hn.
Qed.

Lemma sound_batch y : sound y → bsys_ok (g_batch y).
Proof. intros [_ Hk]. apply Hk. Qed.
Lemma sound_pool y : sound y → rsys_ok (g_pool y).
Proof. intros [_ Hk]. apply Hk. Qed.
Lemma sound_adm y : sound y → sys_ok (en_late E) (g_adm y).
Proof. intros [Hok _]. eapply (parts_adm E); [done|apply (go_parts _ _ _ _ _ Hok)]. Qed.

(** The components' steps that end a task are possible. *)
Lemma release_step y tid l : held_lease (g_adm y) tid l → ∃ o y', adm_step E (EvRelease l) y = Some (o, y').
Proof.
  intros [Hl _]. unfold adm_step. destruct (release_enabled (en_adm_clock E) (en_late E) _ _ Hl) as (o & a & ->).
  by eexists _, _.
Qed.
Lemma end_request_step y n tid l o :
  held_lease (g_adm y) tid l → ∃ y', end_request E n l o y = Some (o, y') ∧ g_tasks y' = delete n (g_tasks y).
Proof.
  intros Hl. unfold end_request. destruct (release_step y tid l Hl) as (o1 & y1 & Hst). rewrite Hst.
  exists (drop_task n y1). split; [done|]. simpl. by destruct (adm_aside _ _ _ _ _ Hst) as [[-> _] _].
Qed.
Lemma answer_step y pl op r :
  r_calls (g_pool y) !! pl = Some op → ∃ o y', pool_step (RvAnswer pl r) y = Some (o, y') ∧ g_adm y' = g_adm y ∧
    g_batch y' = g_batch y ∧ g_tasks y' = g_tasks y.
Proof.
  intros Hc. unfold pool_step. destruct (answer_enabled _ _ _ r Hc) as (o & p & ->). by eexists _, _.
Qed.

Lemma acquire_ends y n tid r w : sound y → g_tasks y !! n = Some (TAcquire tid r w) → ends_within 2 n y.
Proof.
  intros Hy Hn. destruct (owned_in_use y n _ (RWaiting tid w) Hy Hn) as (fr & Hfr & _); [by left|done|].
  assert (Hresume : ∀ y1 e a, g_tasks y1 = g_tasks y →
    Admission.exec (en_adm_clock E) (en_late E) (EvResume w) (g_adm y1) = Some (ORaised e, a) → ends_within 1 n y1).
  { intros y1 e a Ht Hex. eapply (ends_now _ _ (GvAdmitted n)); [done| | |done].
    - cbn [gexec]. rewrite Ht, Hn. unfold admitted, adm_step. rewrite Hex. done.
    - simpl. done. }
  destruct (cancel_call (en_adm_clock E) (en_late E) _ _ _ (sound_adm _ Hy) Hfr) as [(e & a & Hex)|(a1 & e & a & Hc & Hex)].
  - destruct (Hresume y e a eq_refl Hex) as (evs & y' & ? & ? & ? & ?). exists evs, y'. split_and!; [done|lia|done|done].
  - eapply (ends_later 1 n (GvCancel n)); [done| | |].
    + cbn [gexec]. rewrite Hn. unfold adm_step. rewrite Hc. done.
    + done.
    + by eapply Hresume.
Qed.

Lemma submit_ends y n tid r l i : sound y → g_tasks y !! n = Some (TSubmit tid r l i) → ends_within 1 n y.
Proof.
  intros Hy Hn. assert (Hi : is_Some (y_frames (g_batch y) !! i)) by (apply (owned_in_use y n _ (RSub i) Hy Hn); [by left|done]).
  pose proof (owned_in_use y n _ (RLease tid l) Hy Hn ltac:(by right; left) I) as Hl.
  destruct Hi as [key Hkey]. destruct (submit_cancelled i key (g_batch y)) as [o b] eqn:Hc.
  assert (Hex : bexec (en_batch_clock E) (BvCancel i) (g_batch y) = Some (o, b)) by (cbn [bexec]; by rewrite Hkey, Hc).
  pose proof (bs_answer _ _ _ _ (bstep_all _ _ (sound_batch _ Hy) _ _ _ Hex)) as Ho. simpl in Ho. subst o.
  destruct (end_request_step (GatewayState (g_adm y) b (g_pool y) (g_tasks y) (g_next y)) n tid l (GOError CancelledError) Hl)
    as (y' & Hend & Ht).
  eapply (ends_now _ _ (GvCancel n)); [done| |exact Ht|done].
  cbn [gexec]. rewrite Hn. unfold batch_step. rewrite Hex. exact Hend.
Qed.

Lemma call_ends y n tid l pl : sound y → g_tasks y !! n = Some (TCall tid l pl) → ends_within 1 n y.
Proof.
  intros Hy Hn. pose proof (owned_in_use y n _ (RCall OpGenerate pl) Hy Hn ltac:(by left) I) as Hc.
  pose proof (owned_in_use y n _ (RLease tid l) Hy Hn ltac:(by right; left) I) as Hl.
  destruct (answer_step y pl OpGenerate (Some CancelledError) Hc) as (o & y1 & Hst & Ha & _ & Ht).
  assert (Hl1 : held_lease (g_adm y1) tid l) by by rewrite Ha.
  edestruct (end_request_step y1 n tid l) as (y' & Hend & Ht'); [exact Hl1|].
  eapply (ends_now _ _ (GvCancel n)); [done| |by rewrite Ht', Ht|done].
  cbn [gexec]. rewrite Hn. unfold generated. cbn [error_of]. rewrite Hst. cbn [mbind option_bind]. exact Hend.
Qed.

Lemma open_ends y n tid l pl : sound y → g_tasks y !! n = Some (TOpen tid l pl) → ends_within 1 n y.
Proof.
  intros Hy Hn. pose proof (owned_in_use y n _ (RCall OpStream pl) Hy Hn ltac:(by left) I) as Hc.
  pose proof (owned_in_use y n _ (RLease tid l) Hy Hn ltac:(by right; left) I) as Hl.
  destruct (answer_step y pl OpStream (Some CancelledError) Hc) as (o & y1 & Hst & Ha & _ & Ht).
  assert (He : ∃ e, o = RORaised e).
  { unfold pool_step in Hst. destruct (rexec _ _) as [[o1 p]|] eqn:Hex; [|done]. injection Hst as -> _.
    destruct (rsys_step _ _ _ _ (sound_pool _ Hy) Hex) as (_ & Hans & _). destruct o; simpl in Hans; [done|by destruct Hans|by eexists|done]. }
  destruct He as [e ->]. assert (Hl1 : held_lease (g_adm y1) tid l) by by rewrite Ha.
  destruct (end_request_step y1 n tid l (GOError e) Hl1) as (y' & Hend & Ht').
  eapply (ends_now _ _ (GvCancel n)); [done| |by rewrite Ht', Ht|done].
  cbn [gexec]. rewrite Hn. unfold stream_opened. rewrite Hst. exact Hend.
Qed.

Lemma refused_ends y n tid l st : sound y → g_tasks y !! n = Some (TRefused tid l st) → ends_within 1 n y.
Proof.
  intros Hy Hn. pose proof (owned_in_use y n _ (RLease tid l) Hy Hn ltac:(by left) I) as Hl.
  destruct (end_request_step y n tid l (GOError CancelledError) Hl) as (y' & Hend & Ht').
  eapply (ends_now _ _ (GvRefused n (Some CancelledError))); [done| |exact Ht'|done].
  cbn [gexec]. rewrite Hn. unfold finish_returns. rewrite orb_true_r. exact Hend.
Qed.

(** One event of a relay. *)
Lemma relay_step y n tid l st rl :
  sound y → g_tasks y !! n = Some (TStream tid l st rl) →
  ∃ y' rl', gex (GvRelay n (winding_up rl)) y = Some (GONone, y') ∧ (winding rl' < winding rl)%nat ∧
    (g_tasks y' = delete n (g_tasks y) ∨ g_tasks y' = <[n := TStream tid l st rl']> (g_tasks y)).
Proof.
  intros Hy Hn. destruct (kn_task _ (proj2 Hy) n _ Hn) as [Hst Hover].
  pose proof (tk_relay _ (go_tasks _ _ _ _ _ (proj1 Hy)) _ _ _ _ _ Hn) as Hrl.
  destruct (winding_step (en_json_loads E) (en_accepts E) (en_sse_clock E) (en_started_at E st) (en_backend_id E st)
    (en_upstream_started E st) rl Hrl Hover) as (rl' & Hex & Hlt).
  change (relay_exec E st (winding_up rl) rl = Some rl') in Hex.
  assert (Hready : (match winding_up rl with RlEnds e | RlClosed e => finish_returns st e y | _ => true end) = true).
  { unfold winding_up. destruct (rl_holder rl); [|by destruct (rl_waiting rl)]. unfold finish_returns. apply orb_true_r. }
  assert (Hl : rl_releases rl = 0%nat → held_lease (g_adm y) tid l).
  { intros Hr. apply (owned_in_use y n _ (RLease tid l) Hy Hn); [|done]. simpl. rewrite Hr. apply elem_of_app. right. by left. }
  assert (Hr1 : (rl_releases rl' ≤ 1)%nat).
  { assert (Hrl' : rlinv rl') by (by eapply rlexec_inv). destruct (relay_counts _ Hrl'). lia. }
  assert (Hclose : ∃ y1, (if (rl_closes rl <? rl_closes rl')%nat
       then '(_, y) ← pool_step (RvAclose st) y; Some y else Some y) = Some y1 ∧ g_adm y1 = g_adm y ∧ g_tasks y1 = g_tasks y).
  { destruct (_ <? _)%nat; [|by eexists]. unfold pool_step. destruct (aclose_enabled (g_pool y) st Hst) as (o & p & ->).
    by eexists. }
  destruct Hclose as (y1 & Hc & Ha1 & Ht1).
  assert (Hrel : ∃ y2, (if (rl_releases rl <? rl_releases rl')%nat
       then '(_, y) ← adm_step E (EvRelease l) y1; Some y else Some y1) = Some y2 ∧ g_tasks y2 = g_tasks y).
  { destruct (Nat.ltb_spec (rl_releases rl) (rl_releases rl')); [|by eexists].
    destruct (release_step y1 tid l) as (o & y2 & Hs); [rewrite Ha1; apply Hl; lia|]. rewrite Hs. exists y2.
    split; [done|]. destruct (adm_aside _ _ _ _ _ Hs) as [[-> _] _]. done. }
  destruct Hrel as (y2 & Hrl2 & Ht2).
  eexists _, rl'. split; [|split; [exact Hlt|]].
  - cbn [gexec]. rewrite Hn. unfold relayed. rewrite Hready. cbn [negb]. rewrite Hex. cbn [mbind option_bind].
    rewrite Hc. cbn [mbind option_bind]. rewrite Hrl2. cbn [mbind option_bind]. reflexivity.
  - destruct (relay_over rl'); [left|right]; simpl; by rewrite Ht2.
Qed.

Lemma stream_ends k y n tid l st rl :
  sound y → g_tasks y !! n = Some (TStream tid l st rl) → (winding rl ≤ k)%nat → ends_within (Datatypes.S k) n y.
Proof.
  revert y rl. induction k as [|k IH]; intros y rl Hy Hn Hk;
    destruct (relay_step y n tid l st rl Hy Hn) as (y' & rl' & Hex & Hlt & [Ht|Ht]); [|lia| |];
    [by eapply ends_now; [| exact Hex|exact Ht|lia]..|].
  eapply ends_later; [|exact Hex|by rewrite Ht, delete_insert_eq|]; [done|].
  eapply (IH y' rl'); [by eapply gexec_sound|by rewrite Ht, lookup_insert_eq|lia].
Qed.
Lemma winding_bound rl : rlinv rl → (winding rl ≤ 5)%nat.
Proof. intros [Hp _ _ _]. unfold winding. phases rl Hp; cbn; lia. Qed.

(** ** Flushes *)

(** The answer of a running flush ends it. *)
Lemma answer_flush y f fl a :
  bsys_ok (g_batch y) → b_flushes (y_batcher (g_batch y)) !! f = Some fl → fl_started fl = true → can_answer a = true →
  ∃ o y', batch_step E (BvAnswer f a) y = Some (o, y') ∧
    b_flushes (y_batcher (g_batch y')) = delete f (b_flushes (y_batcher (g_batch y))).
Proof.
  intros Hb Hfl Hst Ha. destruct (bexec (en_batch_clock E) (BvAnswer f a) (g_batch y)) as [[o b]|] eqn:Hex.
  - exists o. unfold batch_step. rewrite Hex. eexists. split; [done|].
    by apply (bs_effect _ _ _ _ (bstep_all _ _ Hb _ _ _ Hex) fl).
  - cbn [bexec] in Hex. by rewrite Hfl, Hst, Ha in Hex.
Qed.

Lemma flush_ends y n f pl :
  sound y → g_tasks y !! n = Some (TFlush f pl) →
  ∃ o y', gex (GvFlushed n (inl TimeoutError)) y = Some (o, y') ∧ g_tasks y' = delete n (g_tasks y) ∧
    b_flushes (y_batcher (g_batch y')) = delete f (b_flushes (y_batcher (g_batch y))).
Proof.
  intros Hy Hn. pose proof (owned_in_use y n _ (RCall OpBatch pl) Hy Hn ltac:(by left) I) as Hc.
  destruct (owned_in_use y n _ (RFlush f) Hy Hn ltac:(by right; left) I) as (fl & Hfl & Hst).
  destruct (answer_step y pl OpBatch (Some TimeoutError) Hc) as (o & y1 & Hp & Ha & Hb & Ht).
  assert (Hy1 : b_flushes (y_batcher (g_batch y1)) !! f = Some fl) by by rewrite Hb.
  assert (Ho : o = RORaised TimeoutError).
  { unfold pool_step in Hp. destruct (rexec _ _) as [[o1 p]|] eqn:Hex; [|done]. injection Hp as -> _.
    destruct (rsys_step _ _ _ _ (sound_pool _ Hy) Hex) as (_ & Hans & _). destruct o; simpl in Hans; [done|by destruct Hans| |done].
    destruct Hans as [Heq|[? _]]; congruence. }
  subst o. unfold pool_step in Hp.
  destruct (answer_flush y f fl (inl TimeoutError) (sound_batch _ Hy) Hfl Hst eq_refl) as (o2 & y2 & Hb2 & Hf2).
  assert (Hs2 : batch_step E (BvAnswer f (inl TimeoutError)) y1 =
    Some (o2, GatewayState (g_adm y1) (g_batch y2) (g_pool y1) (g_tasks y1) (g_next y1))).
  { unfold batch_step in *. rewrite Hb. destruct (bexec _ _ (g_batch y)) as [[o3 b]|]; [|done]. by injection Hb2 as -> <-. }
  eexists _, _. split; [|split].
  - cbn [gexec]. rewrite Hn. cbn [can_answer is_exception]. unfold flushed, pool_step. cbn [error_of].
    destruct (rexec _ (g_pool y)) as [[o1 p]|]; [|done]. injection Hp as -> <-. cbn [mbind option_bind].
    rewrite Hs2. cbn [mbind option_bind]. reflexivity.
  - simpl. by rewrite Ht.
  - exact Hf2.
Qed.

Lemma task_ends y n k : sound y → g_tasks y !! n = Some k → ends_within 6 n y.
Proof.
  intros Hy Hn.
  assert (Hle : ∀ j, (j ≤ 6)%nat → ends_within j n y → ends_within 6 n y).
  { intros j Hj (evs & y' & ? & ? & ? & ?). exists evs, y'. split_and!; [done|lia|done|done]. }
  destruct k as [tid r w|tid r l i|tid l pl|tid l pl|tid l st|tid l st rl|f pl].
  - apply (Hle 2%nat); [lia|by eapply acquire_ends].
  - apply (Hle 1%nat); [lia|by eapply submit_ends].
  - apply (Hle 1%nat); [lia|by eapply call_ends].
  - apply (Hle 1%nat); [lia|by eapply open_ends].
  - apply (Hle 1%nat); [lia|by eapply refused_ends].
  - eapply stream_ends; [done|exact Hn|]. apply winding_bound, (tk_relay _ (go_tasks _ _ _ _ _ (proj1 Hy)) _ _ _ _ _ Hn).
  - destruct (flush_ends y n f pl Hy Hn) as (o & y' & Hex & Ht & _). eapply ends_now; [|exact Hex|exact Ht|lia]. done.
Qed.

(** ** Draining *)

(** By events among which is none of the controller's timers. *)
Definition leads (y y' : gateway_state) : Prop := ∃ evs, Forall calm evs ∧ runs evs y = Some y'.

Lemma of_task_calm n evs : Forall (of_task n) evs → Forall calm evs.
Proof. intros Hevs. eapply Forall_impl; [exact Hevs|]. by intros []. Qed.
Lemma leads_refl y : leads y y.
Proof. by exists []. Qed.
Lemma leads_trans y1 y2 y3 : leads y1 y2 → leads y2 y3 → leads y1 y3.
Proof.
  intros (evs & Hc & Hr) (evs' & Hc' & Hr'). exists (evs ++ evs'). split; [by apply Forall_app|]. by rewrite grun_app, Hr.
Qed.
Lemma leads_one ev o y y' : calm ev → gex ev y = Some (o, y') → leads y y'.
Proof. intros Hc Hex. exists [ev]. split; [by constructor|]. cbn [grun]. by rewrite Hex. Qed.
Lemma leads_sound y y' : sound y → leads y y' → sound y'.
Proof. intros Hy (evs & _ & Hr). by eapply grun_sound. Qed.

Lemma drain_tasks y : sound y → ∃ y', leads y y' ∧ g_tasks y' = ∅.
Proof.
  remember (size (g_tasks y)) as n eqn:Hn. revert y Hn. induction (lt_wf n) as [n _ IH]. intros y -> Hy.
  destruct (decide (g_tasks y = ∅)) as [He|He]; [exists y; split; [apply leads_refl|done]|].
  apply map_choose in He as (m & k & Hm). destruct (task_ends y m k Hy Hm) as (evs & y1 & Hevs & _ & Hrun & Ht).
  destruct (IH (size (g_tasks y1))) with (y := y1) as (y' & Hl & Hy'); [|done|by eapply grun_sound|].
  - rewrite Ht, map_size_delete, Hm. simpl. assert (size (g_tasks y) ≠ 0%nat); [|lia].
    intros Hz%map_size_empty_iff. by rewrite Hz in Hm.
  - exists y'. split; [|done]. eapply leads_trans; [exists evs; split; [by eapply of_task_calm|done]|done].
Qed.

(** Without tasks, a flush has not started; it starts, and ends. *)
Lemma drain_flush y f fl :
  sound y → g_tasks y = ∅ → b_flushes (y_batcher (g_batch y)) !! f = Some fl →
  ∃ y', leads y y' ∧ g_tasks y' = ∅ ∧ b_flushes (y_batcher (g_batch y')) = delete f (b_flushes (y_batcher (g_batch y))).
Proof.
  intros Hy Ht Hf. assert (Hns : fl_started fl = false).
  { apply not_true_iff_false. intros Hs. destruct (ow_some _ _ (go_owned _ _ _ _ _ (proj1 Hy)) (RFlush f)) as [n Hn]; [by exists fl|].
    unfold holdings in Hn. rewrite Ht, lookup_empty in Hn. by apply elem_of_nil in Hn. }
  destruct fl as [items re started cancel]. simpl in Hns. subst started. destruct cancel.
  - eexists. split; [eapply (leads_one (GvFlush f)); [done|]; cbn [gexec]; unfold start_flush, batch_step; cbn [bexec]; rewrite Hf; reflexivity|].
    by rewrite Ht.
  - set (b1 := BSystem (up_flushes (alter flush_started f) (y_batcher (g_batch y))) (y_frames (g_batch y))
      (y_tenants (g_batch y)) (y_gathering (g_batch y))).
    assert (Hst : bexec (en_batch_clock E) (BvStart f) (g_batch y) = Some (BOCall (requests_of (y_batcher (g_batch y)) items), b1))
      by (cbn [bexec]; by rewrite Hf).
    pose proof (bs_ok _ _ _ _ (bstep_all _ _ (sound_batch _ Hy) _ _ _ Hst)) as Hb1.
    set (reqs := requests_of (y_batcher (g_batch y)) items) in *.
    destruct (rexec (RvCall OpBatch (Z.of_nat (length reqs))) (g_pool y)) as [[o p]|] eqn:Hex.
    2:{ cbn [rexec] in Hex. destruct (Z.ltb_spec (Z.of_nat (length reqs)) 0); [lia|done]. }
    pose proof (proj1 (proj2 (rsys_step _ _ _ _ (sound_pool _ Hy) Hex))) as Hans.
    destruct o as [pl|st|e|]; try done.
    + eassert (Hs : gex (GvFlush f) y = Some (GONone, _)).
      { cbn [gexec]. unfold start_flush, batch_step. rewrite Hst. cbn [mbind option_bind]. unfold pool_step. cbn [g_pool].
        rewrite Hex. reflexivity. }
      match type of Hs with _ = Some (_, ?y') => set (y1 := y') in Hs end.
      assert (Hy1 : sound y1) by (by eapply gexec_sound).
      destruct (flush_ends y1 (g_next y) f pl Hy1) as (o & y2 & Hex2 & Ht2 & Hf2); [simpl; apply lookup_insert_eq|].
      exists y2. split_and!; [eapply leads_trans; (eapply leads_one; [|done]; done)|..].
      * rewrite Ht2. simpl. by rewrite Ht, delete_insert_eq.
      * rewrite Hf2. simpl. apply map_eq. intros g. destruct (decide (f = g)) as [<-|Hne]; [by rewrite !lookup_delete_eq|].
        rewrite !lookup_delete_ne by done. by apply lookup_alter_ne.
    + assert (Ha : can_answer (inl e : exn + batch_answer) = true).
      { destruct Hans as [[-> _]|(_ & _ & Hi)]; [done|by destruct e]. }
      destruct (answer_flush (GatewayState (g_adm y) b1 p (g_tasks y) (g_next y)) f (Flush items re true false) (inl e) Hb1)
        as (o & y2 & Hb2 & Hf2); [simpl; by rewrite lookup_alter_eq, Hf|done|done|].
      exists y2. split_and!; [|by rewrite (proj1 (proj1 (batch_aside _ _ _ _ _ Hb2)))|].
      * eapply (leads_one (GvFlush f)); [done|]. cbn [gexec]. unfold start_flush.
        assert (Hb : batch_step E (BvStart f) y = Some (BOCall reqs, GatewayState (g_adm y) b1 (g_pool y) (g_tasks y) (g_next y)))
          by (unfold batch_step; by rewrite Hst).
        rewrite Hb. cbn [mbind option_bind]. unfold pool_step. cbn [g_pool]. rewrite Hex. cbn [mbind option_bind g_adm g_batch g_tasks g_next]. rewrite Hb2. reflexivity.
      * rewrite Hf2. simpl. apply map_eq. intros g. destruct (decide (f = g)) as [<-|Hne]; [by rewrite !lookup_delete_eq|].
        rewrite !lookup_delete_ne by done. by apply lookup_alter_ne.
Qed.

Lemma drain_flushes y : sound y → g_tasks y = ∅ →
  ∃ y', leads y y' ∧ g_tasks y' = ∅ ∧ b_flushes (y_batcher (g_batch y')) = ∅.
Proof.
  remember (size (b_flushes (y_batcher (g_batch y)))) as n eqn:Hn. revert y Hn.
  induction (lt_wf n) as [n _ IH]. intros y -> Hy Ht.
  destruct (decide (b_flushes (y_batcher (g_batch y)) = ∅)) as [He|He]; [exists y; split; [apply leads_refl|done]|].
  apply map_choose in He as (f & fl & Hf). destruct (drain_flush y f fl Hy Ht Hf) as (y1 & Hl1 & Ht1 & Hf1).
  destruct (IH (size (b_flushes (y_batcher (g_batch y1))))) with (y := y1) as (y' & Hl & Hy'); [|done|by eapply leads_sound|done|].
  - rewrite Hf1, map_size_delete, Hf. simpl. assert (size (b_flushes (y_batcher (g_batch y))) ≠ 0%nat); [|lia].
    intros Hz%map_size_empty_iff. by rewrite Hz in Hf.
  - exists y'. split; [by eapply leads_trans|done].
Qed.

Lemma drain_streams y : ∃ y', leads y y' ∧ g_tasks y' = g_tasks y ∧ g_batch y' = g_batch y ∧ r_finishing (g_pool y') = ∅.
Proof.
  remember (size (r_finishing (g_pool y))) as n eqn:Hn. revert y Hn. induction (lt_wf n) as [n _ IH]. intros y ->.
  destruct (decide (r_finishing (g_pool y) = ∅)) as [He|He]; [exists y; split; [apply leads_refl|done]|].
  apply map_choose in He as (st & out & Hst).
  destruct (rexec (RvStreamClosed st None) (g_pool y)) as [[o p]|] eqn:Hex; [|cbn [rexec] in Hex; by rewrite Hst in Hex].
  assert (Hp : r_finishing p = delete st (r_finishing (g_pool y))).
  { cbn [rexec] in Hex. rewrite Hst in Hex. apply (inj Some) in Hex. unfold rfinish in Hex. simpl in Hex.
    destruct (finish_end st out None (r_pool (g_pool y))) as [[e|[]] q]; by injection Hex as _ <-. }
  set (y1 := GatewayState (g_adm y) (g_batch y) p (g_tasks y) (g_next y)).
  destruct (IH (size (r_finishing p))) with (y := y1) as (y' & Hl & Ht & Hb & Hf); [|done|].
  - rewrite Hp, map_size_delete, Hst. simpl. assert (size (r_finishing (g_pool y)) ≠ 0%nat); [|lia].
    intros Hz%map_size_empty_iff. by rewrite Hz in Hst.
  - exists y'. split_and!; [|done..]. eapply leads_trans; [|exact Hl]. eapply (leads_one (GvPool (RvStreamClosed st None)) GONone); [done|].
    cbn [gexec own_pool]. unfold alone, pool_step. rewrite Hex. reflexivity.
Qed.
End steps.

Section properties.
Context `{FloatRepr, ModelDump}.

(** C5: No request is ever stuck: in every reachable state, every task, be it waiting for
    admission, in a batch, for a backend, or streaming, can be brought to its end by at
    most six events of its own, while every other task stays as it is. *)
Theorem gateway_request_ends E ts gmi gmq c0 ms mw bob b0 ids interval timeout pob p0 y n k :
  configured ts gmi gmq c0 → batcher_init ms mw bob = inr b0 → pool_init ids interval timeout pob = inr p0 →
  greachable E (gateway_start c0 b0 p0) y → g_tasks y !! n = Some k →
  ∃ evs y', Forall (of_task n) evs ∧ (length evs ≤ 6)%nat ∧ grun E evs y = Some y' ∧
    g_tasks y' = delete n (g_tasks y).
Proof. intros Hcfg Hb Hp Hr Hn. by eapply task_ends; [..|by eapply greachable_sound|]. Qed.

(** C6: The gateway can always recover: from the state after any run, also a loaded,
    failing or closing one, some events lead to a state without tasks where every
    queue place is free, no member is counted in the batcher and no backend carries
    anything, and where at most as many admission slots are in use as timers of waiting
    calls overtook the grant of their call in that run; where a timer cannot be late every
    slot is free. *)
Theorem gateway_drains E ts gmi gmq c0 ms mw bob b0 ids interval timeout pob p0 run y :
  configured ts gmi gmq c0 → batcher_init ms mw bob = inr b0 → pool_init ids interval timeout pob = inr p0 →
  grun E run (gateway_start c0 b0 p0) = Some y →
  ∃ evs y', grun E evs y = Some y' ∧ g_tasks y' = ∅ ∧
    0 ≤ c_inflight (y_ctrl (g_adm y')) ≤ Z.of_nat (overtakings E run (gateway_start c0 b0 p0)) ∧
    (en_late E = false → c_inflight (y_ctrl (g_adm y')) = 0) ∧
    c_queued (y_ctrl (g_adm y')) = 0 ∧
    b_pending (y_batcher (g_batch y')) = 0 ∧ b_inflight (y_batcher (g_batch y')) = 0 ∧
    ∀ i s, p_slots (r_pool (g_pool y')) !! i = Some s → sl_inflight s = 0.
Proof.
  intros Hcfg Hb Hp Hrun0. pose proof (grun_reachable _ _ _ _ _ (greachable_init _ _) Hrun0) as Hr.
  assert (Hy : sound E c0 b0 p0 y) by (by eapply greachable_sound).
  destruct (drain_tasks E ts gmi gmq c0 Hcfg ms mw bob b0 Hb ids interval timeout pob p0 Hp y Hy) as (y1 & Hl1 & Ht1).
  pose proof (leads_sound _ _ _ _ _ Hcfg _ _ _ _ Hb _ _ _ _ _ Hp _ _ Hy Hl1) as Hy1.
  destruct (drain_flushes E ts gmi gmq c0 Hcfg ms mw bob b0 Hb ids interval timeout pob p0 Hp y1 Hy1 Ht1) as (y2 & Hl2 & Ht2 & Hf2).
  destruct (drain_streams E y2) as (y3 & Hl3 & Ht3 & Hb3 & Hfin).
  destruct (leads_trans E _ _ _ Hl1 (leads_trans E _ _ _ Hl2 Hl3)) as (evs & Hcalm & Hrun).
  exists evs, y3. pose proof (overtakings_app E run evs _ _ Hrun0) as Hover.
  rewrite (overtakings_calm E evs y Hcalm), Nat.add_0_r in Hover.
  assert (Hrun3 : grun E (run ++ evs) (gateway_start c0 b0 p0) = Some y3) by by rewrite grun_app, Hrun0.
  destruct (gateway_idle E ts gmi gmq c0 ms mw bob b0 ids interval timeout pob p0 _ y3 Hcfg Hb Hp Hrun3)
    as (([? Hle] & ? & _) & (? & ?) & ?); [by rewrite Ht3|by rewrite Hb3|done|]. rewrite Hover in Hle.
  split_and!; [done|by rewrite Ht3|done|done| |done..].
  intros Hlate. rewrite (overtakings_late E run _ _ Hlate Hrun0) in Hle. lia.
Qed.
End properties.

(** ** The gateway of the concrete runs *)

#[local] Existing Instance plain_floats.
#[local] Existing Instance plain_model_dump.

(** The request in the batcher can end, while the streaming one waits on. *)
Lemma gateway_request_ends_witness :
  ∃ evs y', (length evs ≤ 6)%nat ∧ grun demo_env evs (gdemo waiting_events) = Some y' ∧
    g_tasks y' !! 0%nat = None ∧ is_Some (g_tasks y' !! 1%nat).
Proof.
  assert (Hn : g_tasks (gdemo waiting_events) !! 0%nat = Some (TSubmit "a" demo_plain 0 0)) by (vm_compute; reflexivity).
  destruct (gateway_request_ends demo_env _ _ _ _ _ _ _ _ _ _ _ _ _ _ 0 _
    demo_configured demo_batcher_init demo_pool_init waiting_reachable Hn) as (evs & y' & _ & Hlen & Hrun & Ht).
  exists evs, y'. split; [exact Hlen|]. split; [exact Hrun|]. split; [by rewrite Ht, lookup_delete_eq|].
  rewrite Ht, lookup_delete_ne by discriminate. vm_compute. by eexists.
Defined.

Lemma waiting_run : grun demo_env waiting_events demo_gateway = Some (gdemo waiting_events).
Proof. vm_compute. reflexivity. Qed.

Lemma gateway_drains_witness :
  c_inflight (y_ctrl (g_adm (gdemo waiting_events))) = 1 ∧
  ∃ evs y', grun demo_env evs (gdemo waiting_events) = Some y' ∧ c_inflight (y_ctrl (g_adm y')) = 0.
Proof.
  split; [vm_compute; reflexivity|].
  destruct (gateway_drains demo_env _ _ _ _ _ _ _ _ _ _ _ _ _ _ _
    demo_configured demo_batcher_init demo_pool_init waiting_run) as (evs & y' & Hrun & _ & _ & Hi & _).
  exists evs, y'. split; [exact Hrun|exact (Hi eq_refl)].
Defined.
