(* ===== verification/GatewayDelivery.v ===== *)
(** Requests in a batch, seen from the gateway: who shares a batch, and who gets which
    of its answers. *)
From S2P Require Import Prelude.
From S2P Require Import Python.
From S2P Require Import Json.
From S2P Require Import PlainFloats.
From S2P Require Import Errors.
From S2P Require Import Auth.
From S2P Require Import Admission.
From S2P Require Import AdmissionInv.
From S2P Require Import AdmissionSections.
From S2P Require Import AdmissionSystem.
From S2P Require Import AdmissionTheorems.
From S2P Require Import Routing.
From S2P Require Import RoutingInv.
From S2P Require Import RoutingSystem.
From S2P Require Import RoutingTheorems.
From S2P Require Import Chat.
From S2P Require Import Compatibility.
From S2P Require Import Batching.
From S2P Require Import BatchingInv.
From S2P Require Import BatchingShutdown.
From S2P Require Import BatchingSystem.
From S2P Require Import BatchingTheorems.
From S2P Require Import BatchedRequests.
From S2P Require Import Metrics.
From S2P Require Import Sse.
From S2P Require Import SseTheorems.
From S2P Require Import Relay.
From S2P Require Import RelayTheorems.
From S2P Require Import Endpoint.
From S2P Require Import Gateway.
From S2P Require Import Holdings.
From S2P Require Import GatewayInv.
From S2P Require Import GatewayTheorems.
From S2P Require Import GatewayTasks.
From S2P Require Import GatewayProgress.

Section delivery.
Context `{FloatRepr, ModelDump} (E : environment).
Context (ts : list tenant_context) (gmi gmq : Z) (c0 : ctrl) (Hcfg : configured ts gmi gmq c0).
Context (ms : Z) (mw : SpecFloat.spec_float) (bob : bool) (b0 : Batching.batcher) (Hbinit : batcher_init ms mw bob = inr b0).
Context (ids : list pystr) (interval timeout : Z) (pob : bool) (p0 : pool) (Hpinit : pool_init ids interval timeout pob = inr p0).
Abbreviation sound := (sound E c0 b0 p0).

(** The outcome of a member that is settled, as its task sees it. *)
Definition settled_as (it : item) (o : goutcome) : Prop :=
  match it_future it with
  | FResult d => o = GOResponse d
  | FException e => o = GOError e
  | _ => False
  end.

Lemma submitted_gets y m t r l i it o :
  sound y → g_tasks y !! m = Some (TSubmit t r l i) → b_items (y_batcher (g_batch y)) !! i = Some it →
  settled_as it o → ∃ y', gexec E (GvSubmitted m) y = Some (o, y').
Proof.
  intros Hy Hm Hit Ho. assert (Hi : is_Some (y_frames (g_batch y) !! i)) by
    (apply (owned_in_use E c0 b0 p0 y m _ (RSub i) Hy Hm); [by left|done]).
  pose proof (owned_in_use E c0 b0 p0 y m _ (RLease t l) Hy Hm ltac:(by right; left) I) as Hl.
  destruct Hi as [key Hkey]. cbn [gexec]. rewrite Hm. unfold batch_step. cbn [bexec]. rewrite Hkey, Hit.
  unfold settled_as in Ho.
  set (y1 := GatewayState (g_adm y) (BSystem (y_batcher (g_batch y)) (delete i (y_frames (g_batch y)))
    (y_tenants (g_batch y)) (y_gathering (g_batch y))) (g_pool y) (g_tasks y) (g_next y)).
  destruct (end_request_step E y1 m t l o Hl) as (y' & Hend & _). exists y'.
  destruct (it_future it); try done; subst o; exact Hend.
Qed.

(** What the backend's answer to a running flush does. *)
Lemma flush_answered y n f pl res o y' :
  sound y → g_tasks y !! n = Some (TFlush f pl) → gexec E (GvFlushed n (inr (ABatch res))) y = Some (o, y') →
  ∃ ob, bexec (en_batch_clock E) (BvAnswer f (inr (ABatch res))) (g_batch y) = Some (ob, g_batch y') ∧
    g_tasks y' = delete n (g_tasks y).
Proof.
  intros Hy Hn. cbn [gexec]. rewrite Hn. cbn [can_answer]. unfold flushed.
  pose proof (owned_in_use E c0 b0 p0 y n _ (RCall OpBatch pl) Hy Hn ltac:(by left) I) as Hc. simpl in Hc.
  unfold pool_step. cbn [error_of]. destruct (rexec _ (g_pool y)) as [[o1 p]|] eqn:Hex; [|done].
  cbn [mbind option_bind]. pose proof (proj1 (proj2 (rsys_step _ _ _ _ (sound_pool E c0 b0 p0 y Hy) Hex))) as Hans.
  assert (Ho : o1 = RONone).
  { destruct o1 as [|st|e|]; simpl in Hans; [done| |destruct Hans as [?|(_ & Hop & _)]; congruence|done].
    exfalso. cbn [rexec] in Hex. rewrite Hc in Hex. apply (inj Some) in Hex. unfold rfinish in Hex. simpl in Hex.
    destruct (call_end _ _ _ _) as [[e|[]] q]; by injection Hex. }
  subst o1. unfold batch_step. cbn [g_batch g_adm g_pool g_tasks g_next].
  destruct (bexec _ _ (g_batch y)) as [[ob b]|] eqn:Hb; [|done]. cbn [mbind option_bind]. intros [= _ <-]. by exists ob.
Qed.
End delivery.

Section properties.
Context `{FloatRepr, ModelDump}.

(** C3: Everyone gets the answer to its own request: when the backend answers a batch, the
    requests that wait in it are all of one tenant, the one that sent the [k]-th
    request of the batch is given the [k]-th response, and all of them are given a
    protocol error when the responses are not as many as the requests. *)
Theorem gateway_delivery E ts gmi gmq c0 ms mw bob b0 ids interval timeout pob p0 y n f pl res o y' :
  configured ts gmi gmq c0 → batcher_init ms mw bob = inr b0 → pool_init ids interval timeout pob = inr p0 →
  greachable E (gateway_start c0 b0 p0) y →
  g_tasks y !! n = Some (TFlush f pl) → gexec E (GvFlushed n (inr (ABatch res))) y = Some (o, y') →
  ∃ fl tid, b_flushes (y_batcher (g_batch y)) !! f = Some fl ∧
    Z.of_nat (length (fl_items fl)) ≤ ms ∧
    ∀ k i m t r l, fl_items fl !! k = Some i → g_tasks y !! m = Some (TSubmit t r l i) →
      t = tid ∧ requests_of (y_batcher (g_batch y)) (fl_items fl) !! k = Some r ∧
      ∃ answer y'', gexec E (GvSubmitted m) y' = Some (answer, y'') ∧
        if decide (length (br_responses res) = length (fl_items fl))
        then ∃ d, br_responses res !! k = Some d ∧ answer = GOResponse d
        else answer = GOError (gw BackendProtocolError).
Proof.
  intros Hcfg Hb Hp Hr Hn Hex.
  assert (Hy : sound E c0 b0 p0 y) by (by eapply greachable_sound).
  assert (Hy' : sound E c0 b0 p0 y') by (by eapply gexec_sound).
  pose proof (go_parts _ _ _ _ _ (proj1 Hy)) as (_ & Hbr & _).
  destruct (owned_in_use E c0 b0 p0 y n _ (RFlush f) Hy Hn ltac:(by right; left) I) as (fl & Hfl & _).
  destruct (flush_answered E c0 b0 p0 y n f pl res o y' Hy Hn Hex) as (ob & Hbex & Ht).
  destruct (flush_members _ _ _ _ _ _ _ _ Hb Hbr Hfl) as (_ & _ & tid & Hmem).
  exists fl, tid. split; [done|]. split.
  { destruct (breachable_ok _ _ _ _ _ _ Hb Hbr) as [[Hi _ _] Hm]. destruct (bi_flush _ _ Hi _ _ Hfl). lia. }
  intros k i m t r l Hk Hm. destruct (kn_task _ (proj2 Hy) _ _ Hm) as [Hten (it & Hit & Hreq)].
  destruct (Hmem i) as (it0 & Hit0 & Hten0 & _); [by eapply list_elem_of_lookup_2|].
  assert (it0 = it) as -> by congruence. split; [congruence|]. split.
  { destruct (flush_requests _ _ _ _ _ _ _ _ Hb Hbr Hfl) as (first & rest & -> & _ & _ & Hat). rewrite <- Hreq. by eapply Hat. }
  destruct (flush_outcome _ _ _ _ _ _ _ _ _ _ _ _ _ _ Hb Hbr Hfl Hbex Hk Hit) as (it' & Hit' & Hout).
  assert (Hlive : it_state it ≠ ItemCancelled).
  { assert (Hi : is_Some (y_frames (g_batch y) !! i)) by
      (apply (owned_in_use E c0 b0 p0 y m _ (RSub i) Hy Hm); [by left|done]).
    destruct Hi as [key Hkey]. by eapply (bc_live _ _ _ (by_calls _ (sound_batch E c0 b0 p0 y Hy))). }
  rewrite decide_False in Hout by done.
  assert (Hm' : g_tasks y' !! m = Some (TSubmit t r l i)) by (rewrite Ht, lookup_delete_ne; [done|congruence]).
  case_decide as Hlen.
  - destruct Hout as (d & Hd & Hf). destruct (submitted_gets E c0 b0 p0 y' m t r l i it' (GOResponse d) Hy' Hm' Hit')
      as (y'' & Hs); [unfold settled_as; by rewrite Hf|]. eauto 6.
  - destruct (submitted_gets E c0 b0 p0 y' m t r l i it' (GOError (gw BackendProtocolError)) Hy' Hm' Hit')
      as (y'' & Hs); [unfold settled_as; by rewrite Hout|]. eauto 6.
Qed.
End properties.

(** ** The gateway of the concrete runs *)

#[local] Existing Instance plain_floats.
#[local] Existing Instance plain_model_dump.

Definition flushing_events : list gevent := waiting_events ++ [GvBatcher (BvTimer 1); GvFlush 2].
Definition demo_result : backend_batch_result := BackendBatchResult [[("id"%py, VInt 1)]] (Some 7) UObserved.
Lemma flushing_reachable : greachable demo_env demo_gateway (gdemo flushing_events).
Proof. apply gdemo_reachable. vm_compute. by eexists. Qed.

Lemma gateway_delivery_witness :
  ∃ o y' answer y'', gexec demo_env (GvFlushed 2 (inr (ABatch demo_result))) (gdemo flushing_events) = Some (o, y') ∧
    gexec demo_env (GvSubmitted 0) y' = Some (answer, y'') ∧ answer = GOResponse [("id"%py, VInt 1)].
Proof.
  destruct (gexec demo_env (GvFlushed 2 (inr (ABatch demo_result))) (gdemo flushing_events)) as [[o y']|] eqn:Hex;
    [|vm_compute in Hex; discriminate Hex].
  assert (Hn : g_tasks (gdemo flushing_events) !! 2%nat = Some (TFlush 2 0)) by (vm_compute; reflexivity).
  destruct (gateway_delivery demo_env _ _ _ _ _ _ _ _ _ _ _ _ _ _ 2 2 0 demo_result o y'
    demo_configured demo_batcher_init demo_pool_init flushing_reachable Hn Hex) as (fl & tid & Hfl & _ & Hall).
  assert (Hi : fl_items fl = [0%nat]) by (vm_compute in Hfl; injection Hfl as <-; reflexivity).
  destruct (Hall 0%nat 0%nat 0%nat "a"%py demo_plain 0%nat) as (_ & _ & answer & y'' & Hs & Ha);
    [rewrite Hi; reflexivity|vm_compute; reflexivity|].
  rewrite Hi in Ha. simpl in Ha. destruct Ha as (d & Hd & ->). injection Hd as <-.
  exists o, y', (GOResponse [("id"%py, VInt 1)]), y''. split; [reflexivity|]. split; [exact Hs|reflexivity].
Defined.
